(* ===== verification/_CoqProject ===== *)
-Q . S2P
Prelude.v
Prog.v
Config.v
Region.v
Layout.v
Kernel.v
Lock.v
Nodes.v
WaitLists.v
NodePool.v
Policy.v
PolicyOk.v
Sweep.v
Init.v
Slots.v
Objects.v
Words.v
ObjectsOk.v
Signals.v
Acquire.v
Wait.v
NodeSets.v
LockFree.v
Satisfy.v
SlotsOk.v
HoldersOk.v
Interleave.v
InterleaveAll.v
InterleaveWait.v
Guard.v
GuardRules.v
GuardOps.v
GuardLists.v
GuardSlots.v
GuardWait.v
GuardLoop.v
GuardOk.v
Watch.v
WatchPool.v
WatchRules.v
WatchWake.v
WatchOps.v
WatchNodes.v
WatchWait.v
WatchLook.v
WatchLoop.v
WatchOk.v
Critical.v
Ffi.v
WaitOk.v
WaitBlock.v
Steady.v
Sleep.v
Park.v
Wakeup.v
Timeout.v
SweepOk.v
TableEq.v
InitOk.v
WaitErr.v
FfiOk.v
Example.v
Lab.v
Tests.v
Soak.v
Engine.v
Report.v
Bench.v
Measure.v
Suite.v
EngineOk.v
Lockers.v
Races.v
Witnesses.v
