(* ===== verification/Prelude.v ===== *)
(** * ntsync-android: a userspace ntsync, verified

    The crate under src/ gives Wine the NT synchronisation objects (semaphores,
    mutexes, events) without the kernel driver.  All objects live in one file
    that every process maps; each object is one 64-bit word changed by
    compare-and-swap; a robust mutex in the file guards the waiter lists, the
    slot table and the node pool; a waiter sleeps on a futex in its own node.
    This development models all of it that is not text output (src/src/core.rs
    and src/src/ffi.rs), and the programs the repository tests it with: the unit
    tests (src/src/lib.rs), the soak tests (src/src/soak.rs), the engine
    scenarios (src/src/engine_sim.rs) and the benchmarks (src/src/bench.rs).

    ** The parts and the files that model them

    - Prelude: integers at their width as [Z] with wrap-around written out
      ([wrap32], [wrap64]), the halves of a word, Rust's [Result].
    - Prog: the language of the model.  A program is a tree of atomic steps on
      the shared memory ([Mem]), on the thread's own state ([Loc]) and system
      calls ([Sys], which take the atomic variables of the test programs too);
      a panic and running out of fuel are outcomes.  [run]
      executes it alone and [wp] says that it returns and what holds then
      (total correctness); [pool_step] and [steps] interleave any number of
      threads at every atomic step; [obeys] is the rely-guarantee reading of a
      program, with [obeys_steps] its soundness.
    - Config: the environment variables (debug_enabled .. spin_tail_budget_ns).
    - Region: the mapped file (Header, Slot, WaitNode, Region::slot,
      slot_ptr, node_ptr, the packings of the word, ld64/st64/cas64) and the
      process- and thread-local state ([Local]).
    - Layout: the file as bytes; sizes and addresses as the C ABI lays the
      structs out ([layout_sound]: in bounds, disjoint, aligned), which is what
      lets Region keep the tables as maps.
    - Kernel: the system calls as a type class.  [Kernel] is any kernel;
      [QuietKernel] states what the code relies on from one while nobody
      interferes (a free mutex is granted, the pid does not change, kill(2)
      tells who is alive, clocks are not negative); [Sim] is an executable
      kernel with a lock, sleepers and a clock, and its instance.
    - Lock (Region::lock_guard, RegionGuard), Nodes (node_alloc .. wake_object,
      waiter_cleanup, futex_wait), Policy (tail_budget, spin_budget and the
      spin credit), Sweep (SweepScan, PidCache, cand_alive, reap_dead_locked,
      sweep_dead, auto_sweep_dead), Init (resolve_path .. init, region), Slots
      (alloc_slot, slot_publish, create_*, retain, release, close), Objects
      (sem_release .. read_event, is_locked, try_acquire, rollback_acquire),
      Wait (try_satisfy, wait, wait_any, wait_all), NodeSets (the array of a
      wait's nodes, and why Wait may use a list) and Ffi (all of ffi.rs):
      one definition per function; a long function ([wait], [reap_dead_locked])
      is cut where the code starts a new phase, and a loop is a Fixpoint of its
      own.

    Components meet where the code makes them meet: waits call the sweep, the
    sweep and every signal call the wake walk, all of them the lock; the
    definitions call each other in the same order, guards and early returns
    included.

    ** The theorems

    - WaitLists and NodePool: the doubly linked waiter lists and the free
      list.  [lists_ok] and [pool_ok] are the invariants; registering,
      detaching, allocating, freeing and waking keep them.
    - Words: the abstract objects [obj], the packings as a representation
      [repr], and the abstract operations ([spec_sem_release], [spec_acquire]
      and the like).
    - ObjectsOk and Signals: every operation on an object, run alone, refines
      its abstract operation on every branch, errors included, and wakes the
      waiters exactly when it may have made the object acquirable
      ([operations_refine], one specification for all of them).  Acquire and
      Satisfy: acquisition, its prediction, its rollback, and the two ways to
      satisfy a wait.
    - WaitOk: what WAIT_ANY and WAIT_ALL do on the lock-free path;
      WaitBlock: how the section under the lock ends, down to which nodes are
      on which list.  [mine O] says that exactly the nodes of this wait and
      those of the others, [O], are handed out, and [back O] that only the
      latter are: each ending but the sleep gives all nodes back.  WaitErr:
      refused and alerted waits.
    - Sleep, Steady, Park: what lies between that decision and the futex call,
      and after it.  Sleep states the interface of a kernel in which one thread
      sleeps and another runs ([SleepKernel]) and the clock laws; [paired] says
      that a program follows every bump of a futex word with a wake-up of it.
      Wakeup: a wait that sleeps is woken by the signal it waits for and
      returns the right answer ([blocked_wait_is_woken]).  Timeout: a wait with
      a deadline comes back with Timeout, not before it
      ([timed_wait_times_out]).  Both leave exactly the nodes handed out that
      were before.
    - LockFree: an attempt to satisfy a wait, rollback included, comes to an end
      under any interference ([run_env] lets the others rewrite the memory before
      every access): each repetition is paid for by a change of its objects.
    - TableEq: allocation and the scan for dead candidates against plain
      reference definitions (first free slot of a ring; one pass over the
      tables; liveness asked without a cache).
    - SlotsOk and HoldersOk: creation, closing ([close_frees]: what becomes of
      the slot, its holders, its waiters and everything else), holders, the
      table invariant [slots_ok].  SweepOk: which objects and waiters a sweep takes, over any
      number of chunks.  InitOk: the open protocol and the fresh region.
      PolicyOk: the spin budgets.  FfiOk: the C interface end to end.
    - Interleave (the operations on objects), InterleaveAll (WAIT_ALL and its
      rollback) and InterleaveWait (whole waits and whole clients): for any
      number of threads and any schedule, every object stays well-formed, moves
      by legal transitions, and a held mutex stays held ([interleaving_safe],
      [mutual_exclusion]).  Without a WAIT_ALL among the calls (the strict
      regime) a semaphore never passes its maximum; with one the rollback may
      lift it (Races), and the invariant is the weaker one that remains.
      [taken], in InterleaveAll, is an exact ledger of how deep an owner holds
      each mutex; an unlock or a rollback is right because of it.  Critical:
      threads whose waits were satisfied with the same mutex do not exist
      ([critical_sections_exclude]), and a wait leaves its owner holding each
      mutex as deep as before and what its outcome stands for
      ([waits_take_exactly]).
    - Guard: what the region lock is for, as a discipline of programs.
      [guarded] carries as ghost state whether the thread holds the lock and
      which waiter nodes are its own; without the lock it may change words only,
      with it the lists too, and it must leave them well-formed when it lets go;
      [LockKernel] is what is asked of the lock.  [guarded_pool_steps] is the
      soundness theorem.  GuardRules has the rules (tame, keeps, held), GuardOps
      the lock-free operations, GuardLists the list operations under the lock,
      GuardSlots the sweep, creation and closing, GuardWait and GuardLoop the
      wait, and GuardOk the theorems for any number of threads making any calls:
      [lock_guards_lists] and [nodes_come_back].
    - Watch: what the futex words are for, as a second discipline on top of the
      first.  The ghost state of a thread is what it has in mind: the objects it
      has made available and whose waiters it has yet to wake, the waiter it has
      taken off a list and has yet to bump and to wake, and, before it sleeps,
      which objects it has seen unavailable with which of its nodes on their
      lists.  [mindful] says that a program keeps it in mind; [FutexKernel] is
      what is asked of the futex calls; WatchPool has the soundness theorem,
      [mind_steps], and what it is for.  WatchRules has the rules (mild, steady,
      firm), WatchWake the wake walk, WatchOps the signals, the sweep and
      closing, WatchNodes a waiter's nodes, WatchWait and WatchLook the section
      of a wait under the lock and its last look at the objects, WatchLoop the
      whole wait, and WatchOk the theorem [no_wakeup_lost].  It leaves out
      WAIT_ALL, whose rollback wakes nobody, and the alert of a wait, which is not looked at after registration: both lose
      wake-ups (Races).  And it leaves out creation, which may reuse the slot that
      a waiter still looks at.
    - Example and Witnesses: a concrete process, kernel and region, at which
      every theorem with hypotheses is applied.
    - Lab: a bench that runs scripts, with an executable kernel that has futex
      time-outs, processes that fork, exit and are waited for.  Tests: the test
      helpers of core.rs and every test of lib.rs as a script; Soak: those of
      soak.rs; Engine: the scenarios of engine_sim.rs, their threads as programs
      of their own; Bench: the load shapes of bench.rs; Suite: all but the mixed
      load evaluated once each, under the one schedule of the bench: a check of
      the definitions, not a property of the code.  EngineOk: the threads of
      Engine and Bench are clients of which [interleaving_safe] holds.  Lockers:
      those that lock and unlock in a loop give back what they take, under every
      interleaving ([lockers_balance]).  Report: the report file of the benchmarks and the environment
      variable and the output of their worker processes as text, and that they
      read back.
      Measure: getrusage, the proc files, the comparison with the baseline and
      the quantiles, in binary64; numbers close to a baseline that was written
      pass against it ([baseline_passes]).
    - Races: schedules, found on the model and checked by evaluation, in which
      the code does not do what it means to, and one in which the threads of one
      process do not exclude each other ([own_process_not_excluded]).

    ** Bounds and fuel

    A retry loop (a compare-and-swap that may fail, a lock attempt) takes
    [loop_fuel] from [Config]; the sequential theorems assume it positive,
    which is enough since nobody makes an attempt fail.  The wake walk and the
    list walks take it too and need more than NODE_COUNT = 8192, the longest
    list there can be; a scan for dead candidates counts its own cursors, and
    the loop over the chunks of the table takes [loop_fuel], far more than the
    hundred chunks there are.  [OutOfFuel] is an outcome, and [wp] excludes it:
    each theorem with [wp] says that the code returns.  The theorems of
    Interleave, Critical and Lockers hold for every fuel.
    Lab gives a blocked call or a join a thousand rounds of turns; a test that
    needed more would count as failed.  The tests run with the sizes of the
    source, but the loops that only repeat a measurement run a hundred times,
    the death cycles three times instead of forty, the march round the slot
    table starts fifty slots before its end, an engine scenario runs forty frames
    and a benchmark thirty-two rounds.

    ** What is not modelled

    Memory is sequentially consistent: the fences and orderings of the code
    are not weakened.  The surgery on a waiter list under the region lock is one
    atomic step; Guard shows that nobody else changes a list meanwhile.  A
    thread that panics stops where it is, with the lock if it held it.  Log
    lines, the thread that writes the statistics and the dlsym lookup of two
    libc symbols are left out; so is what bench.rs and engine_sim.rs print.
    The sleeps of the load threads are no steps: any time may pass between two
    steps.  Wakeup and Timeout are about two threads and one, without debug log
    and, for time-outs, without tail spin; for any number of threads there are the theorems of InterleaveWait, GuardOk
    and WatchOk, and the tests. *)
From stdpp Require Export base tactics numbers list gmap strings.
From Stdlib Require Export ZArith Lia.
#[global] Open Scope Z_scope.
#[global] Set Default Goal Selector "!".

(** ** Machine-width integers: an unsigned w-bit integer is a [Z]. *)
Abbreviation W31 := 2147483648 (only parsing).
Abbreviation W32 := 4294967296 (only parsing).
Abbreviation W64 := 18446744073709551616 (only parsing).
Definition wrap32 (z : Z) : Z := z mod W32.
Definition wrap64 (z : Z) : Z := z mod W64.
Definition u32 (z : Z) : Prop := 0 <= z < W32.
Definition u64 (z : Z) : Prop := 0 <= z < W64.
Definition u64_saturating_sub (a b : Z) : Z := Z.max 0 (a - b).
Definition u64_saturating_add (a b : Z) : Z := Z.min (W64 - 1) (a + b).
Definition u64_saturating_mul (a b : Z) : Z := Z.min (W64 - 1) (a * b).

(** The low and the high half of a [u64] ([w as u32], [(w >> 32) as u32]). *)
Definition lo32 (w : Z) : Z := w mod W32.
Definition hi32 (w : Z) : Z := (Z.shiftr w 32) mod W32.

(** ** Rust's [Result]. *)
Inductive result (A E : Type) : Type :=
| Ok (a : A)
| Err (e : E).
Arguments Ok {A E} a.
Arguments Err {A E} e.

#[export] Instance result_eq_dec {A E} `{EqDecision A, EqDecision E} : EqDecision (result A E).
Proof. solve_decision. Defined.

Definition map_err {A E E' : Type} (f : E -> E') (r : result A E) : result A E' :=
  match r with Ok a => Ok a | Err e => Err (f e) end.

(** ** Words built from two halves. *)
Lemma shiftl_lor_add (a b n : Z) :
  0 <= n -> 0 <= b < 2 ^ n -> Z.lor (Z.shiftl a n) b = a * 2 ^ n + b.
Proof.
  intros Hn Hb. rewrite <- Z.shiftl_mul_pow2 by done.
  symmetry. rewrite Z.add_nocarry_lxor, Z.lxor_lor; [done | |].
  all: apply Z.bits_inj'; intros i Hi;
    rewrite Z.land_spec, Z.bits_0, Z.shiftl_spec by done.
  all: destruct (decide (i < n)).
  all: try (rewrite Z.testbit_neg_r by lia; done).
  all: replace b with (b mod 2 ^ n) by (apply Z.mod_small; lia).
  all: rewrite Z.mod_pow2_bits_high by lia; apply andb_false_r.
Qed.

Lemma lo32_pack (h l : Z) : 0 <= l < W32 -> lo32 (h * W32 + l) = l.
Proof. intros H. unfold lo32. rewrite Z.add_comm, Z_mod_plus_full. by apply Z.mod_small. Qed.

Lemma hi32_pack (h l : Z) :
  0 <= h < W32 -> 0 <= l < W32 -> hi32 (h * W32 + l) = h.
Proof.
  intros Hh Hl. unfold hi32. rewrite Z.shiftr_div_pow2 by lia.
  change (2 ^ 32) with W32.
  rewrite Z.div_add_l, (Z.div_small l), Z.add_0_r by lia.
  apply Z.mod_small; lia.
Qed.

Lemma lo32_range (w : Z) : 0 <= lo32 w < W32.
Proof. apply Z.mod_pos_bound; lia. Qed.

Lemma hi32_range (w : Z) : 0 <= hi32 w < W32.
Proof. apply Z.mod_pos_bound; lia. Qed.

Lemma split64 (w : Z) : u64 w -> w = hi32 w * W32 + lo32 w.
Proof.
  intros [H0 H1]. unfold hi32, lo32. rewrite Z.shiftr_div_pow2 by lia.
  change (2 ^ 32) with W32.
  rewrite (Z.mod_small (w / W32)).
  - pose proof (Z_div_mod_eq_full w W32). lia.
  - split; [apply Z.div_pos; lia | apply Z.div_lt_upper_bound; lia].
Qed.

Lemma wrap32_small (z : Z) : 0 <= z < W32 -> wrap32 z = z.
Proof. apply Z.mod_small. Qed.

Lemma wrap64_small (z : Z) : 0 <= z < W64 -> wrap64 z = z.
Proof. apply Z.mod_small. Qed.
