(* ===== verification/Prog.v ===== *)
(** * Programs over shared memory

    The code under src/ runs in many threads of many processes over one
    shared region.  A piece of it is modelled as a [prog]: a tree whose nodes
    are its atomic accesses to the shared memory ([Mem]), its accesses to
    process- and thread-local state ([Loc]) and its system calls ([Sys]).  The
    same definition is executed alone by [run] and interleaved with other
    programs by [pool_step].  Kernel and libc are not under src/: their
    answers come from an interface, the class [Kernel]. *)
From S2P Require Import Prelude.

(** ** System calls and the interface to the kernel *)

(** The libc and kernel calls of the source.  Durations and clock values are
    nanoseconds.  A call answers [0] on success and the positive errno on
    failure; where the C function answers [-1] and sets [errno], the answer is
    that [errno].  [Open] and [Fstat], which have a value to answer, answer it
    or the negated errno.  The last constructor serves the load programs of the
    tests: their threads share stop flags and counters outside the region; an
    operation on one answers the old value. *)
Inductive atomic_op : Type := AtomicLoad | AtomicStore (v : Z) | AtomicAdd (modulus n : Z).

Inductive syscall : Type :=
| GetPid
| GetTid
| Kill0 (pid : Z)                    (* kill(pid, 0) *)
| ClockMonotonic                     (* CLOCK_MONOTONIC, Instant::now *)
| ClockRealtime
| MutexLock                          (* pthread_mutex_lock on Header.lock *)
| MutexTimedlock (abs_ns : Z)
| MutexUnlock
| MutexConsistent
| SigBlockUsr1                       (* answers the old mask *)
| SigSetmask (old : Z)
| FutexWait (node expected : Z) (timeout : option Z)
| FutexWake (node : Z)
| Open (path : string)               (* a descriptor, or -errno *)
| FlockEx | FlockUn
| Fstat                              (* st_size, or -errno *)
| Ftruncate (len : Z)
| Mmap (len : Z)
| Munmap (len : Z)
| CloseFd
| Unlink (path : string)
| MutexInit                          (* pthread_mutex_init, pshared and robust *)
| Atomic (cell : nat) (op : atomic_op).  (* not a call: an atomic of the process outside the region *)

(** What the kernel does with a call: answer it, put the thread to sleep
    inside the call (a futex wait), or keep it from entering (a held mutex). *)
Inductive kanswer (G : Type) : Type :=
| Answer (z : Z) (g : G)
| Sleep (g : G)
| Block.
Arguments Answer {G} z g.
Arguments Sleep {G} g.
Arguments Block {G}.

(** [kcall t c m g] is the kernel's reaction to call [c] of thread [t] with
    shared memory [m] (which a futex wait reads) in kernel state [g]. *)
Class Kernel (M G : Type) := kcall : nat -> syscall -> M -> G -> kanswer G.

Section prog.
Context {M L : Type}.

Inductive prog (A : Type) : Type :=
| Ret (a : A)
| Mem {B : Type} (f : M -> B * M) (k : B -> prog A)
| Loc {B : Type} (f : L -> B * L) (k : B -> prog A)
| Sys (c : syscall) (k : Z -> prog A)
| Panic
| OutOfFuel.
Arguments Ret {A} a.
Arguments Mem {A B} f k.
Arguments Loc {A B} f k.
Arguments Sys {A} c k.
Arguments Panic {A}.
Arguments OutOfFuel {A}.

Fixpoint bind {A B : Type} (p : prog A) (q : A -> prog B) : prog B :=
  match p with
  | Ret a => q a
  | Mem f k => Mem f (fun b => bind (k b) q)
  | Loc f k => Loc f (fun b => bind (k b) q)
  | Sys c k => Sys c (fun z => bind (k z) q)
  | Panic => Panic
  | OutOfFuel => OutOfFuel
  end.

Definition mem_read {B : Type} (f : M -> B) : prog B := Mem (fun m => (f m, m)) Ret.
Definition mem_write (f : M -> M) : prog unit := Mem (fun m => (tt, f m)) Ret.
Definition mem_do {B : Type} (f : M -> B * M) : prog B := Mem f Ret.
Definition loc_do {B : Type} (f : L -> B * L) : prog B := Loc f Ret.
Definition sys (c : syscall) : prog Z := Sys c Ret.

(** ** Execution of one program with nobody interfering *)
Inductive outcome (A : Type) : Type :=
| Done (a : A)
| Panicked
| Blocked
| Diverged.
Arguments Done {A} a.
Arguments Panicked {A}.
Arguments Blocked {A}.
Arguments Diverged {A}.

Section run.
Context {G : Type} `{!Kernel M G}.

Record world : Type := World { mem : M; loc : L; ker : G }.

Variable t : nat.

Fixpoint run {A : Type} (p : prog A) (w : world) : outcome A * world :=
  match p with
  | Ret a => (Done a, w)
  | Mem f k =>
      let r := f (mem w) in run (k (fst r)) (World (snd r) (loc w) (ker w))
  | Loc f k =>
      let r := f (loc w) in run (k (fst r)) (World (mem w) (snd r) (ker w))
  | Sys c k =>
      match kcall t c (mem w) (ker w) with
      | Answer z g => run (k z) (World (mem w) (loc w) g)
      | Sleep g => (Blocked, World (mem w) (loc w) g)
      | Block => (Blocked, w)
      end
  | Panic => (Panicked, w)
  | OutOfFuel => (Diverged, w)
  end.

(** Total correctness: the program returns, and [Q] holds then. *)
Definition wp {A : Type} (p : prog A) (Q : A -> world -> Prop) (w : world) : Prop :=
  match run p w with (Done a, w') => Q a w' | _ => False end.

(** As far as the program gets on its own: what is left of it, and the state. *)
Fixpoint advance {A : Type} (p : prog A) (w : world) : prog A * world :=
  match p with
  | Ret _ | Panic | OutOfFuel => (p, w)
  | Mem f k =>
      let r := f (mem w) in advance (k (fst r)) (World (snd r) (loc w) (ker w))
  | Loc f k =>
      let r := f (loc w) in advance (k (fst r)) (World (mem w) (snd r) (ker w))
  | Sys c k =>
      match kcall t c (mem w) (ker w) with
      | Answer z g => advance (k z) (World (mem w) (loc w) g)
      | Sleep g => (p, World (mem w) (loc w) g)
      | Block => (p, w)
      end
  end.

Definition outcome_of {A : Type} (p : prog A) : outcome A :=
  match p with
  | Ret a => Done a
  | Panic => Panicked
  | OutOfFuel => Diverged
  | _ => Blocked
  end.

(** [run] is [advance] without what is left. *)
Lemma run_advance {A : Type} (p : prog A) (w : world) :
  run p w = (outcome_of (advance p w).1, (advance p w).2).
Proof.
  revert w. induction p as [a|B' f k IH|B' f k IH|c k IH| |]; intros w; simpl; auto.
  by destruct (kcall t c (mem w) (ker w)).
Qed.

Lemma run_bind {A B : Type} (p : prog A) (q : A -> prog B) (w : world) :
  run (bind p q) w =
  match run p w with
  | (Done a, w') => run (q a) w'
  | (Panicked, w') => (Panicked, w')
  | (Blocked, w') => (Blocked, w')
  | (Diverged, w') => (Diverged, w')
  end.
Proof.
  revert w. induction p as [a|B' f k IH|B' f k IH|c k IH| |]; intros w; simpl; auto.
  destruct (kcall t c (mem w) (ker w)); auto.
Qed.

Lemma wp_bind {A B : Type} (p : prog A) (q : A -> prog B) Q w :
  wp p (fun a => wp (q a) Q) w -> wp (bind p q) Q w.
Proof. unfold wp. rewrite run_bind. by destruct (run p w) as [[] w']. Qed.

Lemma wp_mono {A : Type} (p : prog A) (Q Q' : A -> world -> Prop) w :
  (forall a w', Q a w' -> Q' a w') -> wp p Q w -> wp p Q' w.
Proof. unfold wp. intros HQ. destruct (run p w) as [[] w']; auto. Qed.

Lemma wp_frame_bind {A B : Type} (p : prog A) (q : A -> prog B) (P : A -> world -> Prop) Q w :
  wp p P w -> (forall a w', P a w' -> wp (q a) Q w') -> wp (bind p q) Q w.
Proof. intros Hp Hq. apply wp_bind. by eapply wp_mono. Qed.

Lemma wp_ret {A : Type} (a : A) (Q : A -> world -> Prop) w : Q a w -> wp (Ret a) Q w.
Proof. done. Qed.

Lemma wp_mem {A : Type} (f : M -> A * M) (Q : A -> world -> Prop) w :
  Q (fst (f (mem w))) (World (snd (f (mem w))) (loc w) (ker w)) -> wp (mem_do f) Q w.
Proof. done. Qed.

Lemma wp_read {A : Type} (f : M -> A) (Q : A -> world -> Prop) w :
  Q (f (mem w)) w -> wp (mem_read f) Q w.
Proof. by destruct w. Qed.

Lemma wp_write (f : M -> M) (Q : unit -> world -> Prop) w :
  Q tt (World (f (mem w)) (loc w) (ker w)) -> wp (mem_write f) Q w.
Proof. done. Qed.

Lemma wp_loc {A : Type} (f : L -> A * L) (Q : A -> world -> Prop) w :
  Q (fst (f (loc w))) (World (mem w) (snd (f (loc w))) (ker w)) -> wp (loc_do f) Q w.
Proof. done. Qed.

Lemma wp_sys (c : syscall) (Q : Z -> world -> Prop) w z g :
  kcall t c (mem w) (ker w) = Answer z g -> Q z (World (mem w) (loc w) g) -> wp (sys c) Q w.
Proof. intros Hk HQ. unfold wp. simpl. by rewrite Hk. Qed.
End run.

(** ** Interleaved execution

    A pool is the shared memory, the kernel state and a list of threads,
    each with its own local state. *)
Section pool.
Context {G : Type} `{!Kernel M G} {A : Type}.

Record thread : Type := Thread { code : prog A; tls : L }.
Record pool : Type := Pool { pmem : M; pker : G; threads : list thread }.

(** The state after one atomic step of thread [t]; [None] when it has
    finished or is blocked. *)
Definition thread_step (t : nat) (m : M) (g : G) (th : thread) : option (M * G * thread) :=
  match code th with
  | Ret _ | Panic | OutOfFuel => None
  | Mem f k => let r := f m in Some (snd r, g, Thread (k (fst r)) (tls th))
  | Loc f k => let r := f (tls th) in Some (m, g, Thread (k (fst r)) (snd r))
  | Sys c k =>
      match kcall t c m g with
      | Answer z g' => Some (m, g', Thread (k z) (tls th))
      | Sleep g' => Some (m, g', th)
      | Block => None
      end
  end.

Definition pool_step (t : nat) (s : pool) : option pool :=
  match threads s !! t with
  | None => None
  | Some th =>
      match thread_step t (pmem s) (pker s) th with
      | None => None
      | Some (m, g, th') => Some (Pool m g (<[t := th']> (threads s)))
      end
  end.

(** A schedule names the thread that takes each step. *)
Fixpoint pool_run (sched : list nat) (s : pool) : option pool :=
  match sched with
  | [] => Some s
  | t :: sched' =>
      match pool_step t s with
      | None => None
      | Some s' => pool_run sched' s'
      end
  end.

Inductive steps : pool -> pool -> Prop :=
| steps_refl s : steps s s
| steps_step t s s' s'' : pool_step t s = Some s' -> steps s' s'' -> steps s s''.

Lemma steps_trans s1 s2 s3 : steps s1 s2 -> steps s2 s3 -> steps s1 s3.
Proof. induction 1; [done|]. intros. econstructor; eauto. Qed.

(** Letting one thread run as far as it gets is an execution of the pool. *)
Lemma advance_steps t p w m g l ths p' w' :
  advance t p w = (p', w') -> w = World m l g -> ths !! t = Some (Thread p l) ->
  steps (Pool m g ths) (Pool (mem w') (ker w') (<[t := Thread p' (loc w')]> ths)).
Proof.
  revert w m g l ths. induction p as [a|B' f k IH|B' f k IH|c k IH| |]; intros w m g l ths Ha -> Ht.
  all: cbn [advance mem loc ker] in Ha.
  1,5,6: simplify_eq; cbn; rewrite list_insert_id by done; constructor.
  - eapply (steps_step t); [unfold pool_step, thread_step; cbn; by rewrite Ht|].
    rewrite <- (list_insert_insert_eq ths t (Thread p' (loc w')) (Thread (k (f m).1) l)).
    eapply IH; [exact Ha|done|]. apply list_lookup_insert_eq. by eapply lookup_lt_Some.
  - eapply (steps_step t); [unfold pool_step, thread_step; cbn; by rewrite Ht|].
    rewrite <- (list_insert_insert_eq ths t (Thread p' (loc w')) (Thread (k (f l).1) (f l).2)).
    eapply IH; [exact Ha|done|]. apply list_lookup_insert_eq. by eapply lookup_lt_Some.
  - destruct (kcall t c m g) as [z g'|g'|] eqn:E; simplify_eq; cbn [mem loc ker].
    + eapply (steps_step t); [unfold pool_step, thread_step; cbn [threads pmem pker]; rewrite Ht; cbn [code]; by rewrite E|].
      rewrite <- (list_insert_insert_eq ths t (Thread p' (loc w')) (Thread (k z) l)).
      eapply IH; [exact Ha|done|]. apply list_lookup_insert_eq. by eapply lookup_lt_Some.
    + eapply (steps_step t); [unfold pool_step, thread_step; cbn [threads pmem pker]; rewrite Ht; cbn [code]; by rewrite E|]. constructor.
    + rewrite list_insert_id by done. constructor.
Qed.

Lemma pool_run_steps sched s s' : pool_run sched s = Some s' -> steps s s'.
Proof.
  revert s. induction sched as [|t sched IH]; intros s; simpl.
  - intros [= ->]. constructor.
  - destruct (pool_step t s) as [s1|] eqn:E; [|done].
    intros H. econstructor; eauto.
Qed.
End pool.

(** ** Programs all of whose memory steps respect a relation

    Rely/guarantee.  [safe I J R S Q p m]: started in memory [m], every
    memory step of [p] is a step of [R] (what the thread guarantees), if
    between its steps the other threads make only steps of [S] (what it
    relies on) and everybody keeps the invariant [I], whatever the system
    calls answer; [J] holds of the thread's local state throughout, and [Q]
    of what [p] returns and of every memory it can return to. *)
Section obeys.
Context (I : M -> Prop) (J : L -> Prop) (R S : M -> M -> Prop).

(** What the other threads may have made of [m]. *)
Definition later (m m' : M) : Prop := rtc S m m' /\ I m'.

Fixpoint safe {A : Type} (Q : A -> M -> Prop) (p : prog A) (m : M) : Prop :=
  match p with
  | Ret a => forall m', later m m' -> Q a m'
  | Panic | OutOfFuel => True
  | Mem f k => forall m', later m m' ->
      R m' (snd (f m')) /\ safe Q (k (fst (f m'))) (snd (f m'))
  | Loc f k => forall l, J l -> J (snd (f l)) /\ safe Q (k (fst (f l))) m
  | Sys c k => forall z, safe Q (k z) m
  end.

(** The same from every memory, with a postcondition on the result alone. *)
Definition obeys {A : Type} (Q : A -> Prop) (p : prog A) : Prop :=
  forall m, I m -> safe (fun a _ => Q a) p m.

Lemma later_refl m : I m -> later m m.
Proof. by split. Qed.

Lemma later_trans m1 m2 m3 : later m1 m2 -> later m2 m3 -> later m1 m3.
Proof. intros [H1 _] [H2 H3]. split; [by etrans|done]. Qed.

(** The other threads cannot break it. *)
Lemma safe_later {A : Type} (Q : A -> M -> Prop) (p : prog A) m m' :
  later m m' -> safe Q p m -> safe Q p m'.
Proof.
  intros Hm. revert m m' Hm. induction p as [a|B' f k IH|B' f k IH|c k IH| |]; simpl; intros m m' Hm; auto.
  - intros HQ m2 H2. apply HQ. by eapply later_trans.
  - intros Hp m2 H2. apply Hp. by eapply later_trans.
  - intros Hp l Hl. destruct (Hp l Hl). split; [done|]. by eapply IH.
  - intros Hp z. eapply IH; eauto.
Qed.

Lemma safe_mono {A : Type} (Q Q' : A -> M -> Prop) (p : prog A) m :
  (forall a m', I m' -> Q a m' -> Q' a m') -> safe Q p m -> safe Q' p m.
Proof.
  intros HQ. revert m. induction p as [a|B' f k IH|B' f k IH|c k IH| |]; simpl; intros m; auto.
  - intros Hp m' Hm. apply HQ; [apply Hm|auto].
  - intros Hp m' Hm. destruct (Hp m' Hm). auto.
  - intros Hp l Hl. destruct (Hp l Hl). auto.
Qed.

Lemma obeys_mono {A : Type} (Q Q' : A -> Prop) (p : prog A) :
  (forall a, Q a -> Q' a) -> obeys Q p -> obeys Q' p.
Proof. intros HQ Hp m Hm. eapply safe_mono; [|by apply Hp]. auto. Qed.

Lemma obeys_ret {A : Type} (Q : A -> Prop) (a : A) : Q a -> obeys Q (Ret a).
Proof. intros HQ m _ m' _. done. Qed.

Lemma obeys_panic {A : Type} (Q : A -> Prop) : obeys Q Panic.
Proof. done. Qed.

Lemma obeys_out {A : Type} (Q : A -> Prop) : obeys Q OutOfFuel.
Proof. done. Qed.

Context (HI : forall m m', I m -> R m m' -> I m').

Lemma safe_bind {A B : Type} (P : A -> M -> Prop) (Q : B -> M -> Prop) (p : prog A) (q : A -> prog B) m :
  I m -> safe P p m -> (forall a m', I m' -> P a m' -> safe Q (q a) m') -> safe Q (bind p q) m.
Proof.
  intros Hm Hp Hq. revert m Hm Hp.
  induction p as [a|B' f k IH|B' f k IH|c k IH| |]; simpl; intros m Hm Hp; auto.
  - apply Hq; [done|]. by apply Hp, later_refl.
  - intros m' Hm'. destruct (Hp m' Hm') as [HR Hk]. split; [done|]. apply IH; [|done].
    eapply HI; [apply Hm'|done].
  - intros l Hl. destruct (Hp l Hl). auto.
Qed.

Lemma obeys_bind {A B : Type} (P : A -> Prop) (Q : B -> Prop) (p : prog A) (q : A -> prog B) :
  obeys P p -> (forall a, P a -> obeys Q (q a)) -> obeys Q (bind p q).
Proof.
  intros Hp Hq m Hm. eapply safe_bind; [done|by apply Hp|]. intros a m' Hm' HP. by apply Hq.
Qed.

Lemma safe_do {A : Type} (Q : A -> M -> Prop) (f : M -> A * M) m :
  (forall m', later m m' -> R m' (snd (f m')) /\
    forall m2, later (snd (f m')) m2 -> Q (fst (f m')) m2) -> safe Q (mem_do f) m.
Proof. done. Qed.

Lemma safe_read {A : Type} (Q : A -> M -> Prop) (f : M -> A) m :
  (forall m, R m m) ->
  (forall m' m2, later m m' -> later m' m2 -> Q (f m') m2) -> safe Q (mem_read f) m.
Proof. simpl. eauto. Qed.

Lemma obeys_do {A : Type} (Q : A -> Prop) (f : M -> A * M) :
  (forall m, I m -> R m (snd (f m)) /\ Q (fst (f m))) -> obeys Q (mem_do f).
Proof. intros Hf m _ m' Hm'. destruct (Hf m' (proj2 Hm')). by split; simpl. Qed.

Lemma obeys_read {A : Type} (Q : A -> Prop) (f : M -> A) :
  (forall m, R m m) -> (forall m, I m -> Q (f m)) -> obeys Q (mem_read f).
Proof. intros HR HQ. apply obeys_do. simpl. auto. Qed.

Lemma obeys_write (Q : unit -> Prop) (f : M -> M) :
  (forall m, I m -> R m (f m)) -> Q tt -> obeys Q (mem_write f).
Proof. intros HR HQ. apply obeys_do. simpl. auto. Qed.

Lemma obeys_loc {A : Type} (Q : A -> Prop) (f : L -> A * L) :
  (forall l, J l -> J (snd (f l)) /\ Q (fst (f l))) -> obeys Q (loc_do f).
Proof. intros Hf m _ l Hl. destruct (Hf l Hl). by split; simpl. Qed.

Lemma obeys_sys (Q : Z -> Prop) c : (forall z, Q z) -> obeys Q (sys c).
Proof. simpl. intros HQ m _ z m' _. done. Qed.

(** A step of shared memory, with what is known of its result. *)
Lemma safe_mem {A B : Type} (Q : B -> M -> Prop) (f : M -> A * M) (q : A -> prog B) m :
  (forall m', later m m' -> R m' (snd (f m')) /\ safe Q (q (fst (f m'))) (snd (f m'))) ->
  safe Q (bind (mem_do f) q) m.
Proof. done. Qed.

Lemma safe_mem_read {A B : Type} (Q : B -> M -> Prop) (f : M -> A) (q : A -> prog B) m :
  (forall m, R m m) -> (forall m', later m m' -> safe Q (q (f m')) m') ->
  safe Q (bind (mem_read f) q) m.
Proof. intros HR Hq. apply safe_mem. simpl. auto. Qed.

Lemma safe_ret {A : Type} (Q : A -> M -> Prop) (a : A) m :
  (forall m', later m m' -> Q a m') -> safe Q (Ret a) m.
Proof. done. Qed.
End obeys.

(** A thread whose own steps are of a smaller relation keeps what these
    steps and the other threads keep. *)
Lemma safe_frame (I : M -> Prop) (J : L -> Prop) (R0 R S : M -> M -> Prop) (F : M -> Prop)
  {A : Type} (Q : A -> M -> Prop) (p : prog A) m :
  (forall m m', R0 m m' -> R m m') -> (forall m m', R0 m m' -> F m -> F m') ->
  (forall m m', S m m' -> F m -> F m') ->
  F m -> safe I J R0 S Q p m -> safe I J R S (fun a m' => Q a m' /\ F m') p m.
Proof.
  intros HR HF HS.
  assert (forall m m', later I S m m' -> F m -> F m') as HL.
  { intros m1 m2 [Hr _]. induction Hr; eauto. }
  revert m. induction p as [a|B' f k IH|B' f k IH|c k IH| |]; simpl; intros m Hm Hp; eauto.
  - intros m' Hm'. destruct (Hp m' Hm') as [H1 H2]. split; [by apply HR|].
    apply IH; [|done]. eapply HF; eauto.
  - intros l Hl. destruct (Hp l Hl). auto.
Qed.

(** *** Many threads

    Thread [t] guarantees [R t] and relies on [S t]; what one thread
    guarantees every other one may rely on. *)
Section family.
Context (I : M -> Prop) (J : L -> Prop) (R S : nat -> M -> M -> Prop).
Context (HI : forall t m m', I m -> R t m m' -> I m').
Context (HRS : forall t u m m', t <> u -> R u m m' -> S t m m').
Context {G : Type} `{!Kernel M G} {A : Type}.

(** A thread that obeys and is in a good local state. *)
Definition good_thread (Q : nat -> A -> M -> Prop) (t : nat) (m : M) (th : thread) : Prop :=
  safe I J (R t) (S t) (Q t) (code th) m /\ J (tls th).

Definition good_threads (Q : nat -> A -> M -> Prop) (s : @pool G A) : Prop :=
  forall t th, threads s !! t = Some th -> good_thread Q t (pmem s) th.

(** One step of the pool is a guaranteed step of one thread, or none at all. *)
Definition some_step (n : nat) (m m' : M) : Prop := exists t, (t < n)%nat /\ R t m m'.

Lemma good_step Q t m m' th : I m' -> S t m m' -> good_thread Q t m th -> good_thread Q t m' th.
Proof.
  intros Hm HS [H1 H2]. split; [|done]. eapply safe_later; [|exact H1].
  split; [by apply rtc_once|done].
Qed.

Lemma good_pool_step Q t (s s' : @pool G A) :
  pool_step t s = Some s' -> good_threads Q s -> I (pmem s) ->
  (some_step (length (threads s)) (pmem s) (pmem s') \/ pmem s' = pmem s) /\
  good_threads Q s' /\ I (pmem s') /\ length (threads s') = length (threads s).
Proof.
  unfold pool_step. intros Hs Hall Hm.
  destruct (threads s !! t) as [th|] eqn:Et; [|done].
  pose proof (Hall _ _ Et) as [Hth Htl]. pose proof (lookup_lt_Some _ _ _ Et) as Hlt.
  assert (forall m g th', I m -> good_thread Q t m th' ->
    (forall u th2, u <> t -> threads s !! u = Some th2 -> good_thread Q u m th2) ->
    good_threads Q (Pool m g (<[t:=th']> (threads s)))) as Hput.
  { intros m g th' Hm' Hth' Hoth u th2 Hu. cbn [threads pmem] in *. destruct (decide (u = t)) as [->|Hne].
    - rewrite list_lookup_insert_eq in Hu by done. by simplify_eq.
    - rewrite list_lookup_insert_ne in Hu by done. by apply Hoth. }
  unfold thread_step in Hs.
  destruct (code th) as [a|B' f k|B' f k|c k| |]; simpl in *; try done.
  - simplify_eq. cbn [pmem threads]. rewrite length_insert.
    destruct (Hth _ (later_refl _ _ _ Hm)) as [HR Hk]. pose proof (HI _ _ _ Hm HR) as Hm'.
    split_and!; [left; by exists t| |done|done]. apply Hput; [done|by split|].
    intros u th2 Hne Hu. eapply good_step; [done|by eapply HRS|eauto].
  - simplify_eq. cbn [pmem threads]. rewrite length_insert. destruct (Hth _ Htl).
    split_and!; [by right|idtac|done|done]. apply Hput; [done|by split|]. eauto.
  - destruct (kcall t c (pmem s) (pker s)); simplify_eq; cbn [pmem threads]; rewrite length_insert.
    all: split_and!; [by right| |done|done]; apply Hput; [done| |by eauto].
    + split; simpl; auto.
    + by eapply Hall.
Qed.

(** Every interleaving keeps the invariant and makes guaranteed steps only. *)
Lemma good_steps Q (s s' : @pool G A) :
  steps s s' -> good_threads Q s -> I (pmem s) ->
  I (pmem s') /\ rtc (some_step (length (threads s))) (pmem s) (pmem s') /\ good_threads Q s'.
Proof.
  induction 1 as [s|t s s1 s2 Hs _ IH]; intros Hall Hm; [done|].
  destruct (good_pool_step _ _ _ _ Hs Hall Hm) as (Hst & Hall' & Hm' & Hlen).
  destruct (IH Hall' Hm') as (H1&H2&H3). rewrite Hlen in H2. split; [done|]. split; [|done].
  destruct Hst as [HR|Heq]; [by eapply rtc_l|]. by rewrite <- Heq.
Qed.
End family.
End prog.

Arguments prog : clear implicits.
Arguments Ret {M L A} a.
Arguments Mem {M L A B} f k.
Arguments Loc {M L A B} f k.
Arguments Sys {M L A} c k.
Arguments Panic {M L A}.
Arguments OutOfFuel {M L A}.
Arguments outcome : clear implicits.
Arguments Done {A} a.
Arguments Panicked {A}.
Arguments Blocked {A}.
Arguments Diverged {A}.
Arguments world : clear implicits.
Arguments World {M L G}.
Arguments thread : clear implicits.
Arguments pool : clear implicits.

Declare Scope prog_scope.
Delimit Scope prog_scope with prog.
Notation "x <- p ;; q" := (bind p (fun x => q))
  (at level 100, p at next level, right associativity) : prog_scope.
Notation "p ;;; q" := (bind p (fun _ => q))
  (at level 100, right associativity) : prog_scope.
(** Rust's [?] on a call: propagate the error. *)
Notation "x <-? p ;; q" :=
  (bind p (fun r => match r with Ok x => q | Err e => Ret (Err e) end))
  (at level 100, p at next level, right associativity) : prog_scope.
Notation "'when' c 'do' p" := (if c then p else Ret tt)
  (at level 95, c at level 90, p at level 94) : prog_scope.
#[global] Open Scope prog_scope.

(** Run the head of a [wp] goal. *)
Ltac wp_step :=
  lazymatch goal with
  | |- wp _ (bind (Ret _) _) _ _ => simpl bind
  | |- wp _ (bind (bind _ _) _) _ _ => apply wp_bind
  | |- wp _ (bind (mem_read _) _) _ _ => apply wp_bind, wp_read
  | |- wp _ (bind (mem_write _) _) _ _ => apply wp_bind, wp_write
  | |- wp _ (bind (mem_do _) _) _ _ => apply wp_bind, wp_mem
  | |- wp _ (bind (loc_do _) _) _ _ => apply wp_bind, wp_loc
  | |- wp _ (mem_read _) _ _ => apply wp_read
  | |- wp _ (mem_write _) _ _ => apply wp_write
  | |- wp _ (mem_do _) _ _ => apply wp_mem
  | |- wp _ (loc_do _) _ _ => apply wp_loc
  | |- wp _ (Ret _) _ _ => apply wp_ret
  end.
