(* ===== verification/Config.v ===== *)
(** * Config: the environment variables that tune the library

    Each knob of src/src/core.rs is read once from the environment and cached
    in a [OnceLock]; the model reads all of them at once into a [Config] that
    every other definition takes.  [loop_fuel] is not a variable of the
    program: it bounds the iterations of the loops the source does not bound
    itself. *)
From S2P Require Import Prelude.

Class Config : Type := {
  debug_enabled : bool;
  sigusr1_block_enabled : bool;
  sweep_interval_ns : Z;
  spin_max_iters : Z;
  spin_tail : option Z;              (* nanoseconds *)
  spin_tail_budget_ns : Z;
  loop_fuel : nat;
  getenv : string -> option string;  (* std::env::var *)
  mutex_size : Z;                    (* size_of::<pthread_mutex_t>() *)
}.

(** ** [str::parse] at an unsigned type with maximum [max] *)
Definition digit_of (a : Ascii.ascii) : option Z :=
  let n := Z.of_nat (Ascii.nat_of_ascii a) in
  if (48 <=? n) && (n <=? 57) then Some (n - 48) else None.

Fixpoint parse_digits (max acc : Z) (s : string) : option Z :=
  match s with
  | EmptyString => Some acc
  | String a s' =>
      match digit_of a with
      | None => None
      | Some d =>
          let acc' := acc * 10 + d in
          if acc' <=? max then parse_digits max acc' s' else None
      end
  end.

Definition parse_uint (max : Z) (s : string) : option Z :=
  match s with
  | EmptyString => None
  | String a s' =>
      if Ascii.eqb a (Ascii.ascii_of_nat 43) (* '+' *) then
        if String.eqb s' "" then None else parse_digits max 0 s'
      else parse_digits max 0 s
  end.

Section env.
Variable env : string -> option string.

Definition env_debug_enabled : bool :=
  match env "NTSYNC_DEBUG" with
  | Some v => negb (String.eqb v "") && negb (String.eqb v "0")
  | None => false
  end.

Definition env_sigusr1_block_enabled : bool :=
  match env "NTSYNC_NO_SIGUSR1_BLOCK" with
  | Some v => String.eqb v "" || String.eqb v "0"
  | None => true
  end.

Definition env_uint (name : string) (max dflt : Z) : Z :=
  default dflt (env name ≫= parse_uint max).

(** [secs * 1_000_000_000] wraps around in a release build. *)
Definition env_sweep_interval_ns : Z :=
  let secs := env_uint "NTSYNC_SWEEP_INTERVAL_SEC" (W64 - 1) 30 in
  wrap64 (secs * 1000000000).

Definition env_spin_max_iters : Z :=
  Z.min (env_uint "NTSYNC_SPIN_ITERS" (W32 - 1) 0) 100000.

Definition env_spin_tail : option Z :=
  let us := Z.min (env_uint "NTSYNC_SPIN_TAIL_US" (W64 - 1) 0) 2000 in
  if 0 <? us then Some (us * 1000) else None.

Definition env_spin_tail_budget_ns : Z :=
  let pct := Z.min (env_uint "NTSYNC_SPIN_TAIL_BUDGET_PCT" (W64 - 1) 15) 100 in
  pct * 10000000.

Definition config_of_env (fuel : nat) (msize : Z) : Config := {|
  debug_enabled := env_debug_enabled;
  sigusr1_block_enabled := env_sigusr1_block_enabled;
  sweep_interval_ns := env_sweep_interval_ns;
  spin_max_iters := env_spin_max_iters;
  spin_tail := env_spin_tail;
  spin_tail_budget_ns := env_spin_tail_budget_ns;
  loop_fuel := fuel;
  getenv := env;
  mutex_size := msize;
|}.
End env.

(** ** Bounds that hold whatever the environment says *)
Lemma parse_digits_bound max s acc n :
  0 <= acc <= max -> parse_digits max acc s = Some n -> 0 <= n <= max.
Proof.
  revert acc. induction s as [|a s IH]; intros acc Hacc; simpl.
  { intros [= <-]. done. }
  unfold digit_of. set (d := Z.of_nat _).
  destruct ((48 <=? d) && (d <=? 57)) eqn:Ed; [|done].
  apply andb_true_iff in Ed as [Hd1%Z.leb_le Hd2%Z.leb_le].
  case_match eqn:El; [|done]. apply Z.leb_le in El.
  intros H. eapply IH; [|done]. lia.
Qed.

Lemma parse_uint_bound max s n : 0 <= max -> parse_uint max s = Some n -> 0 <= n <= max.
Proof.
  intros Hmax. unfold parse_uint.
  assert (forall s', parse_digits max 0 s' = Some n -> 0 <= n <= max) as H.
  { intros s'. apply parse_digits_bound. lia. }
  repeat case_match; try done; apply H.
Qed.

Lemma env_uint_bound env name max dflt :
  0 <= dflt <= max -> 0 <= env_uint env name max dflt <= max.
Proof.
  intros Hd. unfold env_uint. destruct (env name) as [v|]; simpl; [|done].
  destruct (parse_uint max v) as [n|] eqn:E; simpl; [|done].
  apply parse_uint_bound in E; lia.
Qed.

(** C35: Whatever the environment holds, the knobs stay in the range the rest
    of the library counts on: at most 100000 spins, a deadline spin of 1 to
    2000 microseconds or none, a spin budget of at most one full core, a sweep
    interval that fits in 64 bits.  Unset or unparsable variables give the
    documented defaults. *)
Theorem env_bounds env fuel msize :
  (let c := config_of_env env fuel msize in
   0 <= @spin_max_iters c <= 100000 /\
   match @spin_tail c with Some ns => 1000 <= ns <= 2000000 | None => True end /\
   0 <= @spin_tail_budget_ns c <= 1000000000 /\
   0 <= @sweep_interval_ns c < W64) /\
  (let unset := fun name max => env name ≫= parse_uint max = None in
   (unset "NTSYNC_SPIN_ITERS"%string (W32 - 1) -> env_spin_max_iters env = 0) /\
   (unset "NTSYNC_SPIN_TAIL_US"%string (W64 - 1) -> env_spin_tail env = None) /\
   (unset "NTSYNC_SPIN_TAIL_BUDGET_PCT"%string (W64 - 1) -> env_spin_tail_budget_ns env = 150000000) /\
   (unset "NTSYNC_SWEEP_INTERVAL_SEC"%string (W64 - 1) -> env_sweep_interval_ns env = 30000000000)).
Proof.
  pose proof (env_uint_bound env "NTSYNC_SPIN_ITERS" (W32 - 1) 0 ltac:(lia)) as H1.
  pose proof (env_uint_bound env "NTSYNC_SPIN_TAIL_US" (W64 - 1) 0 ltac:(lia)) as H2.
  pose proof (env_uint_bound env "NTSYNC_SPIN_TAIL_BUDGET_PCT" (W64 - 1) 15 ltac:(lia)) as H3.
  split; cbn zeta.
  - unfold config_of_env. cbn [spin_max_iters spin_tail spin_tail_budget_ns sweep_interval_ns].
    unfold env_spin_max_iters, env_spin_tail, env_spin_tail_budget_ns, env_sweep_interval_ns.
    split; [lia|]. split; [|split; [lia|apply Z.mod_pos_bound; lia]].
    destruct (Z.ltb_spec 0 (Z.min (env_uint env "NTSYNC_SPIN_TAIL_US" (W64 - 1) 0) 2000)); [lia|done].
  - unfold env_spin_max_iters, env_spin_tail, env_spin_tail_budget_ns, env_sweep_interval_ns, env_uint.
    by split_and!; intros ->.
Qed.

(** The interval in nanoseconds wraps around: 18446744074 seconds, some 584
    years, become 290 milliseconds. *)
Theorem sweep_interval_wraps :
  env_sweep_interval_ns (fun name => if String.eqb name "NTSYNC_SWEEP_INTERVAL_SEC" then Some "18446744074"%string else None)
  = 290448384.
Proof. vm_compute. reflexivity. Qed.
