(* ===== verification/Region.v ===== *)
(** * Region: the shared region and the process-local state

    The layout of src/src/core.rs: [Slot], [WaitNode], [Header], the table
    constants, the packed state words, and the accessors.  The region is a
    file of zero pages: a slot or a node that was never written reads as all
    zeros, which the finite maps give by a default. *)
From S2P Require Import Prelude Prog Config.

Definition MAX_WAIT_COUNT : Z := 64.
Definition MAGIC : Z := 0x6E7473796E635F75.
Definition VERSION : Z := 10.
Definition SLOT_COUNT : Z := 16384.
Definition NODE_COUNT : Z := 8192.
Definition INDEX_BITS : Z := 14.
Definition INDEX_MASK : Z := Z.shiftl 1 INDEX_BITS - 1.
Definition NIL : Z := 4294967295.
Definition SLOT_FREE : Z := 0.
Definition SLOT_USED : Z := 1.
Definition MAX_HOLDERS : Z := 8.
Definition HOLDER_OVERFLOW : Z := 0x80000000.
Definition TYPE_SEM : Z := 1.
Definition TYPE_MUTEX : Z := 2.
Definition TYPE_EVENT : Z := 3.
Definition TYPE_RESERVED : Z := 4.
Definition SCAN_WRAPPED : Z := 0x80000000.

(** errno values of Linux. *)
Definition EPERM : Z := 1.
Definition ESRCH : Z := 3.
Definition EINTR : Z := 4.
Definition EAGAIN : Z := 11.
Definition ENOMEM : Z := 12.
Definition EFAULT : Z := 14.
Definition EINVAL : Z := 22.
Definition EOVERFLOW : Z := 75.
Definition ETIMEDOUT : Z := 110.
Definition ESTALE : Z := 116.
Definition EOWNERDEAD : Z := 130.

Inductive Error : Type :=
| Invalid
| Perm
| Overflow
| Init (errno : Z).

Inductive WaitOutcome : Type :=
| Signaled (index : Z) (owner_dead : bool)
| Timeout
| WaitInvalid.

#[export] Instance Error_eq_dec : EqDecision Error.
Proof. solve_decision. Defined.
#[export] Instance WaitOutcome_eq_dec : EqDecision WaitOutcome.
Proof. solve_decision. Defined.

(** [n as i32] for a [u32] *)
Definition as_i32 (n : Z) : Z := if W31 <=? n then n - W32 else n.

(** ** Data *)
Record Slot : Type := mkSlot {
  s_state : Z;
  s_generation : Z;
  s_obj_type : Z;
  s_pid : Z;
  s_waiter_head : Z;
  s_holders_len : Z;
  s_w0 : Z;
  s_d : Z;
  s_holders : list Z;
}.

Record WaitNode : Type := mkNode {
  n_seq : Z;
  n_registered : Z;
  n_obj : Z;
  n_wait_word : Z;
  n_obj_prev : Z;
  n_obj_next : Z;
  n_waiter_next : Z;
  n_pid : Z;
  n_wake_ts : Z;
}.

Record Header : Type := mkHeader {
  h_magic : Z;
  h_version : Z;
  h_capacity : Z;
  h_node_capacity : Z;
  h_node_free_head : Z;
  h_node_fresh : Z;
  h_next_scan : Z;
  h_sweep_ns : Z;
  h_lock_owner_pid : Z;
  h_lock_owner_tid : Z;
}.

Record Region : Type := mkRegion {
  header : Header;
  slots : gmap Z Slot;
  nodes : gmap Z WaitNode;
}.

Definition zero_holders : list Z := replicate 8 0.
Definition zero_slot : Slot := mkSlot 0 0 0 0 0 0 0 0 zero_holders.
Definition zero_node : WaitNode := mkNode 0 0 0 0 0 0 0 0 0.
Definition zero_header : Header := mkHeader 0 0 0 0 0 0 0 0 0 0.
Definition zero_region : Region := mkRegion zero_header ∅ ∅.

(** ** [repr(C)] sizes: u32 and u64 fields, and the pthread mutex, whose size
    is the platform's.  A struct with a u64 is padded to a multiple of 8. *)
Definition align_up (n a : Z) : Z := (n + a - 1) / a * a.
Definition SLOT_SIZE : Z := 6 * 4 + 2 * 8 + MAX_HOLDERS * 4.
Definition NODE_SIZE : Z := 8 * 4 + 8.
Definition HEADER_SIZE (mutex_size : Z) : Z := align_up (8 + 6 * 4 + 8 + 2 * 4 + mutex_size) 8.
Definition nodes_offset (mutex_size : Z) : Z := HEADER_SIZE mutex_size + SLOT_COUNT * SLOT_SIZE.
Definition region_size (mutex_size : Z) : Z := nodes_offset mutex_size + NODE_COUNT * NODE_SIZE.

(** ** Field updates *)
Definition set_state v s := mkSlot v (s_generation s) (s_obj_type s) (s_pid s)
  (s_waiter_head s) (s_holders_len s) (s_w0 s) (s_d s) (s_holders s).
Definition set_generation v s := mkSlot (s_state s) v (s_obj_type s) (s_pid s)
  (s_waiter_head s) (s_holders_len s) (s_w0 s) (s_d s) (s_holders s).
Definition set_obj_type v s := mkSlot (s_state s) (s_generation s) v (s_pid s)
  (s_waiter_head s) (s_holders_len s) (s_w0 s) (s_d s) (s_holders s).
Definition set_spid v s := mkSlot (s_state s) (s_generation s) (s_obj_type s) v
  (s_waiter_head s) (s_holders_len s) (s_w0 s) (s_d s) (s_holders s).
Definition set_waiter_head v s := mkSlot (s_state s) (s_generation s) (s_obj_type s) (s_pid s)
  v (s_holders_len s) (s_w0 s) (s_d s) (s_holders s).
Definition set_holders len hs s := mkSlot (s_state s) (s_generation s) (s_obj_type s) (s_pid s)
  (s_waiter_head s) len (s_w0 s) (s_d s) hs.
Definition set_w0 v s := mkSlot (s_state s) (s_generation s) (s_obj_type s) (s_pid s)
  (s_waiter_head s) (s_holders_len s) v (s_d s) (s_holders s).
Definition set_d v s := mkSlot (s_state s) (s_generation s) (s_obj_type s) (s_pid s)
  (s_waiter_head s) (s_holders_len s) (s_w0 s) v (s_holders s).

Definition set_seq v n := mkNode v (n_registered n) (n_obj n) (n_wait_word n)
  (n_obj_prev n) (n_obj_next n) (n_waiter_next n) (n_pid n) (n_wake_ts n).
Definition set_links registered obj prev next n := mkNode (n_seq n) registered obj (n_wait_word n)
  prev next (n_waiter_next n) (n_pid n) (n_wake_ts n).
Definition set_obj_prev v n := mkNode (n_seq n) (n_registered n) (n_obj n) (n_wait_word n)
  v (n_obj_next n) (n_waiter_next n) (n_pid n) (n_wake_ts n).
Definition set_obj_next v n := mkNode (n_seq n) (n_registered n) (n_obj n) (n_wait_word n)
  (n_obj_prev n) v (n_waiter_next n) (n_pid n) (n_wake_ts n).
Definition set_wait_word v n := mkNode (n_seq n) (n_registered n) (n_obj n) v
  (n_obj_prev n) (n_obj_next n) (n_waiter_next n) (n_pid n) (n_wake_ts n).
Definition set_waiter_next v n := mkNode (n_seq n) (n_registered n) (n_obj n) (n_wait_word n)
  (n_obj_prev n) (n_obj_next n) v (n_pid n) (n_wake_ts n).
Definition set_npid v n := mkNode (n_seq n) (n_registered n) (n_obj n) (n_wait_word n)
  (n_obj_prev n) (n_obj_next n) (n_waiter_next n) v (n_wake_ts n).
Definition set_wake_ts v n := mkNode (n_seq n) (n_registered n) (n_obj n) (n_wait_word n)
  (n_obj_prev n) (n_obj_next n) (n_waiter_next n) (n_pid n) v.

Definition set_node_free_head v h := mkHeader (h_magic h) (h_version h) (h_capacity h)
  (h_node_capacity h) v (h_node_fresh h) (h_next_scan h) (h_sweep_ns h)
  (h_lock_owner_pid h) (h_lock_owner_tid h).
Definition set_node_fresh v h := mkHeader (h_magic h) (h_version h) (h_capacity h)
  (h_node_capacity h) (h_node_free_head h) v (h_next_scan h) (h_sweep_ns h)
  (h_lock_owner_pid h) (h_lock_owner_tid h).
Definition set_next_scan v h := mkHeader (h_magic h) (h_version h) (h_capacity h)
  (h_node_capacity h) (h_node_free_head h) (h_node_fresh h) v (h_sweep_ns h)
  (h_lock_owner_pid h) (h_lock_owner_tid h).
Definition set_sweep_ns v h := mkHeader (h_magic h) (h_version h) (h_capacity h)
  (h_node_capacity h) (h_node_free_head h) (h_node_fresh h) (h_next_scan h) v
  (h_lock_owner_pid h) (h_lock_owner_tid h).
Definition set_lock_owner pid tid h := mkHeader (h_magic h) (h_version h) (h_capacity h)
  (h_node_capacity h) (h_node_free_head h) (h_node_fresh h) (h_next_scan h) (h_sweep_ns h)
  pid tid.

(** ** Access: [slot_ptr], [node_ptr] *)
Definition slot_ptr (r : Region) (i : Z) : Slot := default zero_slot (slots r !! i).
Definition node_ptr (r : Region) (i : Z) : WaitNode := default zero_node (nodes r !! i).
Definition upd_slot (i : Z) (f : Slot -> Slot) (r : Region) : Region :=
  mkRegion (header r) (<[i := f (slot_ptr r i)]> (slots r)) (nodes r).
Definition upd_node (i : Z) (f : WaitNode -> WaitNode) (r : Region) : Region :=
  mkRegion (header r) (slots r) (<[i := f (node_ptr r i)]> (nodes r)).
Definition upd_header (f : Header -> Header) (r : Region) : Region :=
  mkRegion (f (header r)) (slots r) (nodes r).

Lemma slot_ptr_upd_slot r i f j :
  slot_ptr (upd_slot i f r) j = if decide (i = j) then f (slot_ptr r i) else slot_ptr r j.
Proof. unfold slot_ptr at 1, upd_slot. simpl. rewrite lookup_insert. by case_decide. Qed.

Lemma node_ptr_upd_node r i f j :
  node_ptr (upd_node i f r) j = if decide (i = j) then f (node_ptr r i) else node_ptr r j.
Proof. unfold node_ptr at 1, upd_node. simpl. rewrite lookup_insert. by case_decide. Qed.

Lemma upd_slot_upd_slot i f g r :
  upd_slot i f (upd_slot i g r) = upd_slot i (fun s => f (g s)) r.
Proof.
  unfold upd_slot at 1. simpl. rewrite slot_ptr_upd_slot, decide_True by done.
  unfold upd_slot. by rewrite insert_insert_eq.
Qed.

Lemma upd_slot_ext i f g r :
  f (slot_ptr r i) = g (slot_ptr r i) -> upd_slot i f r = upd_slot i g r.
Proof. intros H. unfold upd_slot. by rewrite H. Qed.

Lemma slot_ptr_upd_node r i f j : slot_ptr (upd_node i f r) j = slot_ptr r j.
Proof. done. Qed.
Lemma node_ptr_upd_slot r i f j : node_ptr (upd_slot i f r) j = node_ptr r j.
Proof. done. Qed.
Lemma slot_ptr_upd_header r f j : slot_ptr (upd_header f r) j = slot_ptr r j.
Proof. done. Qed.
Lemma node_ptr_upd_header r f j : node_ptr (upd_header f r) j = node_ptr r j.
Proof. done. Qed.
Lemma header_upd_slot r i f : header (upd_slot i f r) = header r.
Proof. done. Qed.
Lemma header_upd_node r i f : header (upd_node i f r) = header r.
Proof. done. Qed.
Lemma header_upd_header r f : header (upd_header f r) = f (header r).
Proof. done. Qed.

Create Rewrite HintDb region.
#[export] Hint Rewrite slot_ptr_upd_slot node_ptr_upd_node slot_ptr_upd_node node_ptr_upd_slot
  slot_ptr_upd_header node_ptr_upd_header header_upd_slot header_upd_node
  header_upd_header : region.

(** Simplify accesses to an updated region, case by case. *)
Ltac region_simpl := autorewrite with region; simpl.
Ltac region_cases :=
  repeat (region_simpl; try case_decide; simplify_eq; try done).

(** ** Packed words *)
Definition pack_sem (count max : Z) : Z := Z.lor (Z.shiftl max 32) count.
Definition pack_mutex (owner count : Z) (ownerdead : bool) : Z :=
  Z.lor (Z.shiftl (Z.lor (Z.land count 0x7fffffff) (Z.shiftl (Z.b2z ownerdead) 31)) 32) owner.
Definition pack_event (signaled manual : bool) : Z :=
  Z.lor (Z.shiftl (Z.b2z manual) 32) (Z.b2z signaled).

(** ** Process- and thread-local state

    [l_region] is the [OnceLock] REGION; the counters are [stats::COUNTERS];
    the rest is thread-local. *)
Record Local : Type := mkLocal {
  l_region : option (result unit Z);
  l_stats : list Z;
  l_tail_budget : Z * Z;        (* TAIL_BUDGET: (tokens, last refill) *)
  l_spin_credit : Z;            (* SPIN_CREDIT *)
  l_spin_probe : Z;             (* SPIN_PROBE *)
  l_calls : Z;                  (* CALLS of auto_sweep_dead *)
}.

Definition init_local : Local := mkLocal None (replicate 15 0) (0, 0) 1 0 0.

Definition set_region v l := mkLocal v (l_stats l) (l_tail_budget l) (l_spin_credit l)
  (l_spin_probe l) (l_calls l).
Definition set_stats v l := mkLocal (l_region l) v (l_tail_budget l) (l_spin_credit l)
  (l_spin_probe l) (l_calls l).
Definition set_tail_budget v l := mkLocal (l_region l) (l_stats l) v (l_spin_credit l)
  (l_spin_probe l) (l_calls l).
Definition set_spin_credit v l := mkLocal (l_region l) (l_stats l) (l_tail_budget l) v
  (l_spin_probe l) (l_calls l).
Definition set_spin_probe v l := mkLocal (l_region l) (l_stats l) (l_tail_budget l) (l_spin_credit l)
  v (l_calls l).
Definition set_calls v l := mkLocal (l_region l) (l_stats l) (l_tail_budget l) (l_spin_credit l)
  (l_spin_probe l) v.

Abbreviation action := (prog Region Local).

(** [stats::bump], [stats::add], and [fetch_max] on one counter. *)
Definition stat_add (i : nat) (n : Z) : action unit :=
  loc_do (fun l => (tt, set_stats (alter (fun v => wrap64 (v + n)) i (l_stats l)) l)).
Definition stat_bump (i : nat) : action unit := stat_add i 1.
Definition stat_max (i : nat) (n : Z) : action unit :=
  loc_do (fun l => (tt, set_stats (alter (Z.max n) i (l_stats l)) l)).

(** ** Atomic accesses *)
Definition ld_state i : action Z := mem_read (fun r => s_state (slot_ptr r i)).
Definition ld_generation i : action Z := mem_read (fun r => s_generation (slot_ptr r i)).
Definition ld_obj_type i : action Z := mem_read (fun r => s_obj_type (slot_ptr r i)).
Definition ld_waiter_head i : action Z := mem_read (fun r => s_waiter_head (slot_ptr r i)).
Definition ld_w0 i : action Z := mem_read (fun r => s_w0 (slot_ptr r i)).
Definition ld_d i : action Z := mem_read (fun r => s_d (slot_ptr r i)).
Definition st_w0 i v : action unit := mem_write (upd_slot i (set_w0 v)).
Definition st_d i v : action unit := mem_write (upd_slot i (set_d v)).

Definition cas_w0_step (i old new : Z) (r : Region) : bool * Region :=
  if s_w0 (slot_ptr r i) =? old then (true, upd_slot i (set_w0 new) r) else (false, r).

(** [cas64] on a slot's [w0]; a failure is counted. *)
Definition cas64 (i old new : Z) : action bool :=
  ok <- mem_do (cas_w0_step i old new) ;;
  if ok then Ret true else stat_bump 6 ;;; Ret false.

Definition handle_index (handle : Z) : Z := Z.land handle INDEX_MASK.
Definition handle_generation (handle : Z) : Z := Z.shiftr handle INDEX_BITS.

(** [Region::slot]: the index of the used slot a handle names. *)
Definition slot (handle : Z) : action (option Z) :=
  let index := handle_index handle in
  let generation := handle_generation handle in
  if SLOT_COUNT <=? index then Ret None
  else
    st <- ld_state index ;;
    if st =? SLOT_USED then
      g <- ld_generation index ;;
      if g =? generation then Ret (Some index) else Ret None
    else Ret None.
