(* ===== verification/Layout.v ===== *)
(** * Layout: where the tables lie in the file

    The region is one mapped file: the header, the slots, the waiter nodes,
    each found by address arithmetic.  The model keeps them in two maps; that
    this is faithful is the theorem of this file.  The layout of a [repr(C)]
    struct is computed as the C ABI prescribes. *)
From S2P Require Import Prelude Prog Config Region.

(** ** [repr(C)] *)

(** Size and alignment of a field. *)
Definition field : Type := Z * Z.
Definition u32_field : field := (4, 4).
Definition u64_field : field := (8, 8).

(** The offset of every field from [off] on, and the end of the last one. *)
Fixpoint place (off : Z) (fs : list field) : list Z * Z :=
  match fs with
  | [] => ([], off)
  | (size, align) :: fs' =>
      let at_ := align_up off align in
      let '(offs, e) := place (at_ + size) fs' in (at_ :: offs, e)
  end.

Definition offsets (fs : list field) : list Z := (place 0 fs).1.
Definition max_align (fs : list field) : Z := foldl (fun a f => Z.max a f.2) 1 fs.
Definition sizeof (fs : list field) : Z := align_up (place 0 fs).2 (max_align fs).

(** The fields in the order of the declarations. *)
Definition slot_fields : list field :=
  replicate 6 u32_field ++ [u64_field; u64_field; (MAX_HOLDERS * 4, 4)].
Definition node_fields : list field := replicate 8 u32_field ++ [u64_field].
Definition header_fields (mutex_size mutex_align : Z) : list field :=
  [u64_field] ++ replicate 6 u32_field ++ [u64_field; u32_field; u32_field; (mutex_size, mutex_align)].

(** ** Addresses *)
Section addresses.
Context (base msize : Z).

Definition slot_addr (index : Z) : Z := base + (HEADER_SIZE msize + index * SLOT_SIZE).
Definition node_addr (index : Z) : Z := base + (nodes_offset msize + index * NODE_SIZE).

(** The bytes [a, a + n) lie in [b, b + m). *)
Definition inside (a n b m : Z) : Prop := b <= a /\ a + n <= b + m.
Definition disjoint_bytes (a n b m : Z) : Prop := a + n <= b \/ b + m <= a.

Lemma align_up_spec n a : 0 < a -> n <= align_up n a < n + a /\ align_up n a mod a = 0.
Proof.
  intros Ha. unfold align_up. split; [|by apply Z_mod_mult].
  pose proof (Z.div_mod (n + a - 1) a ltac:(lia)). pose proof (Z.mod_pos_bound (n + a - 1) a Ha).
  rewrite Z.mul_comm. lia.
Qed.

Lemma align_up_mod n a : 0 < a -> n mod a = 0 -> align_up n a = n.
Proof.
  intros Ha Hn. destruct (align_up_spec n a Ha) as [Hr Hm].
  pose proof (Z.div_mod (align_up n a) a ltac:(lia)). pose proof (Z.div_mod n a ltac:(lia)).
  rewrite Hm in *. rewrite Hn in *.
  assert (a * (align_up n a / a) - a * (n / a) = align_up n a - n) by lia.
  assert (align_up n a / a = n / a) by nia. lia.
Qed.

Lemma header_sizeof : 0 < msize ->
  sizeof (header_fields msize 8) = HEADER_SIZE msize /\ sizeof (header_fields msize 4) = HEADER_SIZE msize.
Proof.
  intros Hm. split; unfold sizeof, header_fields, HEADER_SIZE; cbn [app replicate place fst snd].
  all: reflexivity.
Qed.

Lemma header_size : 48 + msize <= HEADER_SIZE msize < 56 + msize /\ HEADER_SIZE msize mod 8 = 0.
Proof.
  unfold HEADER_SIZE. pose proof (align_up_spec (8 + 6 * 4 + 8 + 2 * 4 + msize) 8 ltac:(lia)). lia.
Qed.

(** Entries of one table do not overlap. *)
Lemma entries_disjoint start size i j :
  0 < size -> i <> j -> disjoint_bytes (base + (start + i * size)) size (base + (start + j * size)) size.
Proof. intros Hs Hij. unfold disjoint_bytes. destruct (Z.lt_total i j) as [|[|]]; [left|lia|right]; nia. Qed.

Lemma aligned_8 x y : x mod 8 = 0 -> y mod 8 = 0 -> (x + y) mod 8 = 0.
Proof. intros Hx Hy. rewrite Z.add_mod, Hx, Hy by lia. done. Qed.

(** C22: The layout is sound.  The size constants are the sizes the C ABI gives
    the structs; a slot and a node whose index is in range lie wholly inside
    the mapped file, after the header and each in its own table; two entries
    never share a byte; and in a mapping that is aligned the atomic 64-bit
    fields (the packed word and the pulse count of a slot, the time stamp of a
    node) and the futex word of a node are naturally aligned. *)
Theorem layout_sound : 0 < msize -> base mod 8 = 0 ->
  sizeof slot_fields = SLOT_SIZE /\ sizeof node_fields = NODE_SIZE /\
  sizeof (header_fields msize 8) = HEADER_SIZE msize /\
  (forall i, 0 <= i < SLOT_COUNT ->
    inside (slot_addr i) SLOT_SIZE (base + HEADER_SIZE msize) (SLOT_COUNT * SLOT_SIZE) /\
    (slot_addr i + nth 6 (offsets slot_fields) 0) mod 8 = 0 /\
    (slot_addr i + nth 7 (offsets slot_fields) 0) mod 8 = 0) /\
  (forall i, 0 <= i < NODE_COUNT ->
    inside (node_addr i) NODE_SIZE (base + nodes_offset msize) (NODE_COUNT * NODE_SIZE) /\
    (node_addr i + nth 0 (offsets node_fields) 0) mod 4 = 0 /\
    (node_addr i + nth 8 (offsets node_fields) 0) mod 8 = 0) /\
  (forall i j, i <> j -> disjoint_bytes (slot_addr i) SLOT_SIZE (slot_addr j) SLOT_SIZE) /\
  (forall i j, i <> j -> disjoint_bytes (node_addr i) NODE_SIZE (node_addr j) NODE_SIZE) /\
  (forall i j, i < SLOT_COUNT -> 0 <= j -> disjoint_bytes (slot_addr i) SLOT_SIZE (node_addr j) NODE_SIZE) /\
  base + nodes_offset msize + NODE_COUNT * NODE_SIZE = base + region_size msize.
Proof.
  intros Hm Hb. destruct header_size as [Hh Hh8].
  assert (SLOT_SIZE = 9 * 8) as ES by reflexivity. assert (NODE_SIZE = 5 * 8) as EN by reflexivity.
  assert (forall i, slot_addr i mod 8 = 0) as Hs8.
  { intros i. unfold slot_addr. rewrite ES, Z.mul_assoc. repeat apply aligned_8; [done|done|apply Z_mod_mult]. }
  assert (forall i, node_addr i mod 8 = 0) as Hn8.
  { intros i. unfold node_addr, nodes_offset. rewrite ES, EN, !Z.mul_assoc.
    repeat apply aligned_8; [done|done|apply Z_mod_mult|apply Z_mod_mult]. }
  split_and!; [reflexivity|reflexivity|by apply header_sizeof| | | | | |unfold region_size; lia].
  - intros i Hi. split; [|split; apply aligned_8; [apply Hs8|reflexivity|apply Hs8|reflexivity]].
    unfold inside, slot_addr. rewrite ES. unfold SLOT_COUNT in *. lia.
  - intros i Hi. split; [|split; [|apply aligned_8; [apply Hn8|reflexivity]]].
    + unfold inside, node_addr. rewrite EN. unfold NODE_COUNT in *. lia.
    + change (nth 0 (offsets node_fields) 0) with 0. rewrite Z.add_0_r.
      pose proof (Z.div_mod (node_addr i) 8 ltac:(lia)) as E. rewrite Hn8 in E. rewrite E.
      replace (8 * (node_addr i / 8) + 0) with (node_addr i / 8 * 2 * 4) by lia. apply Z_mod_mult.
  - intros i j. by apply entries_disjoint.
  - intros i j. by apply entries_disjoint.
  - intros i j Hi Hj. left. unfold slot_addr, node_addr, nodes_offset. rewrite ES, EN. nia.
Qed.
End addresses.
