(* ===== verification/Kernel.v ===== *)
(** * Kernel: what the library relies on from the operating system

    [QuietKernel] states, as a type class, the documented behaviour of the
    system calls for a thread that runs undisturbed: an uncontended mutex is
    granted, unlocking releases it, a process id does not change and the
    liveness of a process is what kill(2) reports.  Sequential theorems are
    proved against the class; [sim] is an executable kernel that implements it
    and serves the witnesses and the interleaved executions. *)
From S2P Require Import Prelude Prog Config Region.

(** ** Regions up to the debug owner of the lock

    [lock_owner_pid] and [lock_owner_tid] are diagnostics, rewritten at every
    acquisition and release; two regions that differ there only are equivalent. *)
#[global] Instance region_equiv : Equiv Region := fun r r' =>
  slots r = slots r' /\ nodes r = nodes r' /\
  set_lock_owner 0 0 (header r) = set_lock_owner 0 0 (header r').

#[global] Instance region_equivalence : Equivalence (≡@{Region}).
Proof.
  split.
  - by intros r.
  - by intros r r' (?&?&?).
  - intros r r' r'' (?&?&?) (?&?&?). by repeat split; etrans.
Qed.

(** Proves that a function that does not read the owner respects [≡]. *)
Ltac region_proper :=
  let s := fresh "s" in let n := fresh "n" in
  intros [[] s n] [[] ? ?] (?&?&?); simpl in *; simplify_eq; try done;
  unfold slot_ptr, node_ptr, upd_slot, upd_node, upd_header; simpl;
  repeat case_match; simpl in *; simplify_eq; try done;
  repeat split; try done.

#[global] Instance slot_ptr_proper : Proper ((≡) ==> (=) ==> (=)) slot_ptr.
Proof. intros r r' (Hs&_&_) i ? <-. unfold slot_ptr. by rewrite Hs. Qed.
#[global] Instance node_ptr_proper : Proper ((≡) ==> (=) ==> (=)) node_ptr.
Proof. intros r r' (_&Hn&_) i ? <-. unfold node_ptr. by rewrite Hn. Qed.
#[global] Instance upd_slot_proper i f : Proper ((≡) ==> (≡)) (upd_slot i f).
Proof. region_proper. Qed.
#[global] Instance upd_node_proper i f : Proper ((≡) ==> (≡)) (upd_node i f).
Proof. region_proper. Qed.
#[global] Instance free_head_proper : Proper ((≡) ==> (=)) (fun r => h_node_free_head (header r)).
Proof. region_proper. Qed.
#[global] Instance next_scan_proper : Proper ((≡) ==> (=)) (fun r => h_next_scan (header r)).
Proof. region_proper. Qed.
#[global] Instance node_fresh_proper : Proper ((≡) ==> (=)) (fun r => h_node_fresh (header r)).
Proof. region_proper. Qed.
#[global] Instance sweep_ns_proper : Proper ((≡) ==> (=)) (fun r => h_sweep_ns (header r)).
Proof. region_proper. Qed.

Lemma set_lock_owner_equiv p t r : upd_header (set_lock_owner p t) r ≡ r.
Proof. by destruct r as [[] s n]. Qed.

(** ** The interface *)

(** Calls that neither block nor touch the region mutex. *)
Definition is_quiet (c : syscall) : bool :=
  match c with
  | MutexLock | MutexTimedlock _ | MutexUnlock | FutexWait _ _ _ => false
  | _ => true
  end.

Class QuietKernel (G : Type) `{!Kernel Region G} (t : nat) : Type := {
  k_lock : bool -> G -> Prop;       (* is the region mutex held (by [t])? *)
  k_pid : Z;
  k_alive : Z -> bool;
  law_pid_range : 0 < k_pid < W31;
  law_lock m g : k_lock false g -> exists z g',
    kcall t MutexLock m g = Answer z g' /\ (z = 0 \/ z = EOWNERDEAD) /\ k_lock true g';
  law_timedlock abs m g : k_lock false g -> exists z g',
    kcall t (MutexTimedlock abs) m g = Answer z g' /\ (z = 0 \/ z = EOWNERDEAD) /\ k_lock true g';
  law_unlock m g : k_lock true g -> exists z g',
    kcall t MutexUnlock m g = Answer z g' /\ k_lock false g';
  law_quiet c m g : is_quiet c = true -> exists z g',
    kcall t c m g = Answer z g' /\ forall b, k_lock b g -> k_lock b g';
  law_getpid m g z g' : kcall t GetPid m g = Answer z g' -> z = k_pid;
  law_kill pid m g z g' : kcall t (Kill0 (as_i32 pid)) m g = Answer z g' ->
    pid <> 0 -> (z =? ESRCH) = negb (k_alive pid);
  law_clock b c m g z g' : c = ClockMonotonic \/ c = ClockRealtime -> k_lock b g ->
    kcall t c m g = Answer z g' -> 0 <= z;
}.

Section quiet.
Context {G : Type} `{!Kernel Region G} {t : nat} `{!QuietKernel G t}.

(** A step that changes neither the region nor the lock. *)
Definition calm (w w' : world Region Local G) : Prop :=
  mem w' ≡ mem w /\ l_region (loc w') = l_region (loc w) /\
  forall b, k_lock b (ker w) -> k_lock b (ker w').

(** The region is mapped and the mutex is free, or held by us. *)
Definition ready (b : bool) (w : world Region Local G) : Prop :=
  l_region (loc w) = Some (Ok tt) /\ k_lock b (ker w).
Abbreviation idle := (ready false).
Abbreviation held := (ready true).

Lemma calm_refl w : calm w w.
Proof. by repeat split. Qed.

Lemma calm_trans w1 w2 w3 : calm w1 w2 -> calm w2 w3 -> calm w1 w3.
Proof.
  intros (M1&L1&K1) (M2&L2&K2). split; [by rewrite M2|].
  split; [congruence | auto].
Qed.

Lemma calm_ready b w w' : calm w w' -> ready b w -> ready b w'.
Proof. intros (_&L1&K1) [HL HK]. split; [congruence | auto]. Qed.

Lemma calm_mem w w' : calm w w' -> mem w' ≡ mem w.
Proof. by intros (?&_&_). Qed.

Lemma wp_quiet c (Q : Z -> world Region Local G -> Prop) w :
  is_quiet c = true -> (forall z w', calm w w' -> Q z w') -> wp t (sys c) Q w.
Proof.
  intros Hc HQ. destruct (law_quiet c (mem w) (ker w) Hc) as (z & g & Hk & Hl).
  eapply wp_sys; [exact Hk|]. by apply HQ.
Qed.

Lemma wp_getpid (Q : Z -> world Region Local G -> Prop) w :
  (forall w', calm w w' -> Q k_pid w') -> wp t (sys GetPid) Q w.
Proof.
  intros HQ. destruct (law_quiet GetPid (mem w) (ker w) eq_refl) as (z & g & Hk & Hl).
  pose proof (law_getpid _ _ _ _ Hk) as ->.
  eapply wp_sys; [exact Hk|]. by apply HQ.
Qed.

Lemma wp_stat_add i n (Q : unit -> world Region Local G -> Prop) w :
  (forall w', calm w w' -> Q tt w') -> wp t (stat_add i n) Q w.
Proof. intros HQ. apply wp_loc, HQ. by repeat split. Qed.

Lemma wp_stat_bump i (Q : unit -> world Region Local G -> Prop) w :
  (forall w', calm w w' -> Q tt w') -> wp t (stat_bump i) Q w.
Proof. apply wp_stat_add. Qed.
End quiet.

Abbreviation idle := (ready false).
Abbreviation held := (ready true).

(** ** An executable kernel *)
Module Sim.
Record sim : Type := mkSim {
  sim_lock : option nat;                 (* holder of the region mutex *)
  sim_clock : Z;
  sim_sleepers : list (nat * Z * bool);  (* thread, futex node, woken? *)
  sim_size : Z;                          (* size of the region file *)
}.

Definition sim0 : sim := mkSim None 1000 [] 0.

Fixpoint find_sleeper (t : nat) (l : list (nat * Z * bool)) : option bool :=
  match l with
  | [] => None
  | (t', _, woken) :: l' => if Nat.eqb t t' then Some woken else find_sleeper t l'
  end.

Fixpoint wake_one (node : Z) (l : list (nat * Z * bool)) : list (nat * Z * bool) :=
  match l with
  | [] => []
  | (t, n, woken) :: l' =>
      if (n =? node) && negb woken then (t, n, true) :: l' else (t, n, woken) :: wake_one node l'
  end.

Definition drop_sleeper (t : nat) (l : list (nat * Z * bool)) : list (nat * Z * bool) :=
  filter (fun e => fst (fst e) <> t) l.

Section sim.
Variable pids : nat -> Z.      (* the process of each thread *)
Variable alive : Z -> bool.

Definition with_lock_of (l : option nat) (g : sim) : sim :=
  mkSim l (sim_clock g) (sim_sleepers g) (sim_size g).
Definition with_clock (c : Z) (g : sim) : sim :=
  mkSim (sim_lock g) c (sim_sleepers g) (sim_size g).
Definition with_sleepers l (g : sim) : sim :=
  mkSim (sim_lock g) (sim_clock g) l (sim_size g).
Definition with_size n (g : sim) : sim :=
  mkSim (sim_lock g) (sim_clock g) (sim_sleepers g) n.

Definition sim_acquire (t : nat) (g : sim) : kanswer sim :=
  match sim_lock g with
  | None => Answer 0 (with_lock_of (Some t) g)
  | Some _ => Block
  end.

Definition sim_futex_wait (t : nat) (node expected : Z) (timeout : option Z)
  (m : Region) (g : sim) : kanswer sim :=
  match find_sleeper t (sim_sleepers g) with
  | Some true => Answer 0 (with_sleepers (drop_sleeper t (sim_sleepers g)) g)
  | Some false => Block
  | None =>
      if negb (n_seq (node_ptr m node) =? expected) then Answer EAGAIN g
      else
        match timeout with
        | Some d => Answer ETIMEDOUT (with_clock (sim_clock g + Z.max 0 d) g)
        | None => Sleep (with_sleepers (sim_sleepers g ++ [(t, node, false)]) g)
        end
  end.

Definition sim_call (t : nat) (c : syscall) (m : Region) (g : sim) : kanswer sim :=
  match c with
  | GetPid => Answer (pids t) g
  | GetTid => Answer (1000 + Z.of_nat t) g
  | Kill0 p => Answer (if alive p then 0 else ESRCH) g
  | ClockMonotonic | ClockRealtime => Answer (sim_clock g) (with_clock (sim_clock g + 1) g)
  | MutexLock | MutexTimedlock _ => sim_acquire t g
  | MutexUnlock => Answer 0 (with_lock_of None g)
  | FutexWait node expected timeout => sim_futex_wait t node expected timeout m g
  | FutexWake node => Answer 0 (with_sleepers (wake_one node (sim_sleepers g)) g)
  | Open _ => Answer 3 g
  | Fstat => Answer (sim_size g) g
  | Ftruncate n => Answer 0 (with_size n g)
  | Unlink _ => Answer 0 (with_size 0 g)
  | _ => Answer 0 g
  end.

#[local] Instance sim_kernel : Kernel Region sim := sim_call.

Context (Hpid : forall t, 0 < pids t < W31).
Context (Halive : forall p, alive (as_i32 p) = alive p).

Program Definition sim_quiet (t : nat) : QuietKernel sim t := {|
  k_lock b g := sim_lock g = (if b then Some t else None) /\ 0 <= sim_clock g;
  k_pid := pids t;
  k_alive := alive;
|}.
Next Obligation. intros t. apply Hpid. Qed.
Next Obligation.
  intros t m g [H Hc]. unfold kcall, sim_kernel, sim_call, sim_acquire. rewrite H.
  eexists _, _. split; [done|]. auto.
Qed.
Next Obligation.
  intros t abs m g [H Hc]. unfold kcall, sim_kernel, sim_call, sim_acquire. rewrite H.
  eexists _, _. split; [done|]. auto.
Qed.
Next Obligation. intros t m g [_ Hc]. by eexists _, _. Qed.
Next Obligation.
  intros t c m g Hc. destruct c; try discriminate Hc; eexists _, _; (split; [done|]).
  all: intros b [H1 H2]; (split; [done|]); cbn; lia.
Qed.
Next Obligation. by intros t m g z g' [= <- <-]. Qed.
Next Obligation.
  intros t pid m g z g' [= <- <-] _. rewrite Halive. by destruct (alive pid).
Qed.
Next Obligation. by intros t b c m g z g' [-> | ->] [_ Hc] [= <- <-]. Qed.
End sim.
End Sim.
