(* ===== verification/Lock.v ===== *)
(** * Lock: the region mutex

    [Region::lock_guard] and the [Drop] of [RegionGuard].  The debug log lines
    (standard output and a log file) are not modelled. *)
From S2P Require Import Prelude Prog Config Region Kernel.

Section lock.
Context `{!Config}.

Definition set_owner_pid pid h := set_lock_owner pid (h_lock_owner_tid h) h.
Definition set_owner_tid tid h := set_lock_owner (h_lock_owner_pid h) tid h.

Fixpoint lock_loop (fuel : nat) (old_mask : option Z) (tries : Z) : action (result (option Z) Z) :=
  match fuel with
  | O => OutOfFuel
  | S fuel' =>
      let tries := wrap32 (tries + 1) in
      ret <- (if debug_enabled then
                now <- sys ClockRealtime ;;
                sys (MutexTimedlock (now + 5 * 1000000000))
              else sys MutexLock) ;;
      if (ret =? 0) || (ret =? EOWNERDEAD) then
        stat_bump 4 ;;;
        (when (1 <? tries) do stat_bump 5) ;;;
        (when (ret =? EOWNERDEAD) do (sys MutexConsistent ;;; Ret tt)) ;;;
        (when debug_enabled do
           (pid <- sys GetPid ;;
            mem_write (upd_header (set_owner_pid pid)) ;;;
            tid <- sys GetTid ;;
            mem_write (upd_header (set_owner_tid tid)))) ;;;
        Ret (Ok old_mask)
      else if ret =? ETIMEDOUT then lock_loop fuel' old_mask tries
      else if negb (ret =? EINTR) then
        match old_mask with
        | Some m => sys (SigSetmask m) ;;; Ret (Err (- ret))
        | None => Ret (Err (- ret))
        end
      else lock_loop fuel' old_mask tries
  end.

Definition lock_guard : action (result (option Z) Z) :=
  old_mask <- (if sigusr1_block_enabled then m <- sys SigBlockUsr1 ;; Ret (Some m)
               else Ret None) ;;
  lock_loop loop_fuel old_mask 0.

Definition guard_drop (old_mask : option Z) : action unit :=
  mem_write (upd_header (set_lock_owner 0 0)) ;;;
  sys MutexUnlock ;;;
  match old_mask with
  | Some m => sys (SigSetmask m) ;;; Ret tt
  | None => Ret tt
  end.

(** [let _g = r.lock_guard().map_err(Error::Init)?; body]: the guard is
    dropped when the body returns. *)
Definition with_lock {A : Type} (body : action (result A Error)) : action (result A Error) :=
  g <- lock_guard ;;
  match g with
  | Err e => Ret (Err (Init e))
  | Ok mask => r <- body ;; guard_drop mask ;;; Ret r
  end.

(** [if let Ok(_g) = r.lock_guard() { body }] *)
Definition if_lock (body : action unit) : action unit :=
  g <- lock_guard ;;
  match g with
  | Err _ => Ret tt
  | Ok mask => body ;;; guard_drop mask
  end.
End lock.

(** ** Sequential specifications

    With nobody interfering a guard is always granted, on the debug path too,
    and a guarded section leaves the mutex free. *)
Lemma set_owner_pid_equiv p r : upd_header (set_owner_pid p) r ≡ r.
Proof. by destruct r as [[] s n]. Qed.

Lemma set_owner_tid_equiv i r : upd_header (set_owner_tid i) r ≡ r.
Proof. by destruct r as [[] s n]. Qed.

Section lock_specs.
Context `{!Config} {G : Type} `{!Kernel Region G} {t : nat} `{!QuietKernel G t}.
Context (Hfuel : (0 < loop_fuel)%nat).

Lemma acquire_call_spec (Q : Z -> world Region Local G -> Prop) w :
  idle w ->
  (forall ret w', mem w' ≡ mem w -> held w' -> ret = 0 \/ ret = EOWNERDEAD -> Q ret w') ->
  wp t (if debug_enabled then now <- sys ClockRealtime ;; sys (MutexTimedlock (now + 5 * 1000000000))
        else sys MutexLock) Q w.
Proof.
  intros [HL HK] HQ. destruct debug_enabled.
  - apply wp_bind, wp_quiet; [done|]. intros now w1 Hc.
    destruct (calm_ready _ _ _ Hc (conj HL HK)) as [HL1 HK1].
    destruct (law_timedlock (now + 5 * 1000000000) (mem w1) (ker w1) HK1) as (z & g & Hk & Hz & Hl).
    eapply wp_sys; [exact Hk|]. apply HQ; [exact (calm_mem _ _ Hc) | by split | done].
  - destruct (law_lock (mem w) (ker w) HK) as (z & g & Hk & Hz & Hl).
    eapply wp_sys; [exact Hk|]. apply HQ; [done | by split | done].
Qed.

Lemma record_owner_spec (Q : unit -> world Region Local G -> Prop) w :
  held w -> (forall w', mem w' ≡ mem w -> held w' -> Q tt w') ->
  wp t (when debug_enabled do
          (pid <- sys GetPid ;;
           mem_write (upd_header (set_owner_pid pid)) ;;;
           tid <- sys GetTid ;;
           mem_write (upd_header (set_owner_tid tid)))) Q w.
Proof.
  intros Hw HQ. destruct debug_enabled; [|by apply wp_ret, HQ].
  apply wp_bind, wp_quiet; [done|]. intros pid w1 Hc1.
  apply wp_bind, wp_write. apply wp_bind, wp_quiet; [done|]. intros tid w2 Hc2.
  apply wp_write, HQ.
  - cbn [mem]. rewrite set_owner_tid_equiv.
    rewrite (calm_mem _ _ Hc2). cbn [mem]. rewrite set_owner_pid_equiv. by apply calm_mem.
  - eapply (calm_ready true) in Hc1; [|done]. eapply (calm_ready true) in Hc2; done.
Qed.

Lemma lock_guard_spec (Q : result (option Z) Z -> world Region Local G -> Prop) w :
  idle w -> (forall mask w', mem w' ≡ mem w -> held w' -> Q (Ok mask) w') ->
  wp t lock_guard Q w.
Proof.
  intros Hw HQ. unfold lock_guard.
  assert (forall mask w', mem w' ≡ mem w -> idle w' -> wp t (lock_loop loop_fuel mask 0) Q w') as Hloop.
  { intros mask w1 Hm1 Hw1. destruct loop_fuel as [|fuel]; [lia|]. cbn [lock_loop].
    apply wp_bind, acquire_call_spec; [done|]. intros ret w2 Hm2 Hw2 Hret.
    assert ((ret =? 0) || (ret =? EOWNERDEAD) = true) as ->.
    { destruct Hret as [->| ->]; done. }
    apply wp_bind, wp_stat_bump. intros w3 Hc3.
    apply wp_bind, wp_ret. cbn beta.
    apply wp_bind. eapply (wp_mono _ _ (fun _ w4 => calm w3 w4)).
    2: { case_match; [|by apply wp_ret, calm_refl].
         apply wp_bind, wp_quiet; [done|]. intros z w4 Hc4. by apply wp_ret. }
    intros _ w4 Hc4. apply wp_bind, record_owner_spec.
    { eapply calm_ready; [exact Hc4|]. by eapply calm_ready. }
    intros w5 Hm5 Hw5. apply wp_ret, HQ; [|done].
    by rewrite Hm5, (calm_mem _ _ Hc4), (calm_mem _ _ Hc3), Hm2, Hm1. }
  destruct sigusr1_block_enabled; [|by apply Hloop].
  apply wp_bind, wp_bind, wp_quiet; [done|]. intros z w1 Hc. apply wp_ret, Hloop.
  - by apply calm_mem.
  - by eapply calm_ready.
Qed.

Lemma guard_drop_spec mask (Q : unit -> world Region Local G -> Prop) w :
  held w -> (forall w', mem w' ≡ mem w -> idle w' -> Q tt w') ->
  wp t (guard_drop mask) Q w.
Proof.
  intros [HL HK] HQ. unfold guard_drop. apply wp_bind, wp_write, wp_bind.
  destruct (law_unlock (upd_header (set_lock_owner 0 0) (mem w)) (ker w) HK) as (z & g & Hk & Hl).
  eapply wp_sys; [exact Hk|]. cbn [mem loc ker].
  destruct mask as [m|].
  - apply wp_bind, wp_quiet; [done|]. intros z' w1 Hc. apply wp_ret, HQ.
    + rewrite (calm_mem _ _ Hc). cbn [mem]. apply set_lock_owner_equiv.
    + by eapply calm_ready.
  - apply wp_ret, HQ; [apply set_lock_owner_equiv | done].
Qed.

Lemma with_lock_spec {A} (body : action (result A Error)) (Q : result A Error -> world Region Local G -> Prop) w :
  idle w ->
  (forall w1, mem w1 ≡ mem w -> held w1 ->
    wp t body (fun r w2 => held w2 /\ forall w3, mem w3 ≡ mem w2 -> idle w3 -> Q r w3) w1) ->
  wp t (with_lock body) Q w.
Proof.
  intros Hw Hbody. apply wp_bind, lock_guard_spec; [done|]. intros mask w1 Hm1 Hw1.
  eapply wp_frame_bind; [by apply Hbody|]. intros r w2 [Hw2 HQ].
  apply wp_bind, guard_drop_spec; [done|]. intros w3 Hm3 Hw3. by apply wp_ret, HQ.
Qed.

Lemma if_lock_spec (body : action unit) (Q : unit -> world Region Local G -> Prop) w :
  idle w ->
  (forall w1, mem w1 ≡ mem w -> held w1 ->
    wp t body (fun _ w2 => held w2 /\ forall w3, mem w3 ≡ mem w2 -> idle w3 -> Q tt w3) w1) ->
  wp t (if_lock body) Q w.
Proof.
  intros Hw Hbody. apply wp_bind, lock_guard_spec; [done|]. intros mask w1 Hm1 Hw1.
  eapply wp_frame_bind; [by apply Hbody|]. intros [] w2 [Hw2 HQ].
  by apply guard_drop_spec.
Qed.
End lock_specs.
