(* ===== verification/Nodes.v ===== *)
(** * Nodes: the waiter-node pool and the per-object waiter lists

    [node_alloc], [node_free], [node_detach], [node_register], [wake_object],
    [wake_waiters_if_any] and [waiter_cleanup].  The list surgery runs under
    the region lock and is one atomic step of the model; the seq bump and the
    futex wake of [wake_object] are steps of their own. *)
From S2P Require Import Prelude Prog Config Region Lock.

(** ** Futex words *)
Definition futex_wait (node expected : Z) (timeout : option Z) : action Z :=
  ret <- sys (FutexWait node expected timeout) ;;
  if ret =? 0 then Ret 0 else Ret (- ret).

Definition futex_wake (node : Z) : action unit := sys (FutexWake node) ;;; Ret tt.

(** ** The pool *)
Definition node_pop (r : Region) : option Z * Region :=
  let head := h_node_free_head (header r) in
  if negb (head =? NIL) then
    let next := n_waiter_next (node_ptr r head) in
    (Some head, upd_header (set_node_free_head next) r)
  else
    let fresh := h_node_fresh (header r) in
    if NODE_COUNT <=? fresh then (None, r)
    else (Some fresh, upd_header (set_node_fresh (fresh + 1)) r).

Definition node_reset (n : WaitNode) : WaitNode :=
  set_waiter_next NIL (set_wait_word NIL (set_links 0 NIL NIL NIL n)).

Definition node_alloc : action (option Z) :=
  idx <- mem_do node_pop ;;
  match idx with
  | None => Ret None
  | Some idx =>
      mem_write (upd_node idx node_reset) ;;;
      pid <- sys GetPid ;;
      mem_write (upd_node idx (set_npid pid)) ;;;
      Ret (Some idx)
  end.

Definition node_free (idx : Z) (r : Region) : Region :=
  upd_header (set_node_free_head idx)
    (upd_node idx (set_waiter_next (h_node_free_head (header r))) r).

(** ** The lists *)
Definition node_detach (idx : Z) (r : Region) : Region :=
  let node := node_ptr r idx in
  if n_registered node =? 0 then r
  else
    let obj := n_obj node in
    let r1 :=
      if n_obj_prev node =? NIL then upd_slot obj (set_waiter_head (n_obj_next node)) r
      else upd_node (n_obj_prev node) (set_obj_next (n_obj_next node)) r in
    let r2 :=
      if negb (n_obj_next node =? NIL)
      then upd_node (n_obj_next node) (set_obj_prev (n_obj_prev node)) r1
      else r1 in
    upd_node idx (set_links 0 NIL NIL NIL) r2.

Definition node_register (idx obj_idx wait_word : Z) (r : Region) : Region :=
  let old_head := s_waiter_head (slot_ptr r obj_idx) in
  let r1 := upd_node idx
    (fun n => set_wait_word wait_word (set_links 1 obj_idx NIL old_head n)) r in
  let r2 := if negb (old_head =? NIL) then upd_node old_head (set_obj_prev idx) r1 else r1 in
  upd_slot obj_idx (set_waiter_head idx) r2.

Section wake.
Context `{!Config}.

Definition wake_node (word : Z) : action unit :=
  (when debug_enabled do
     (now <- sys ClockMonotonic ;; mem_write (upd_node word (set_wake_ts now)))) ;;;
  mem_write (upd_node word (fun n => set_seq (wrap32 (n_seq n + 1)) n)) ;;;
  futex_wake word.

Fixpoint wake_loop (fuel : nat) (idx : Z) : action unit :=
  match fuel with
  | O => OutOfFuel
  | S fuel' =>
      if idx =? NIL then Ret tt
      else
        nw <- mem_read (fun r => (n_obj_next (node_ptr r idx), n_wait_word (node_ptr r idx))) ;;
        mem_write (node_detach idx) ;;;
        wake_node (snd nw) ;;;
        wake_loop fuel' (fst nw)
  end.

Definition wake_object (obj_idx : Z) : action unit :=
  idx <- ld_waiter_head obj_idx ;;
  wake_loop loop_fuel idx.

Definition wake_waiters_if_any (obj_idx : Z) : action unit :=
  head <- ld_waiter_head obj_idx ;;
  if head =? NIL then Ret tt
  else stat_bump 8 ;;; if_lock (wake_object obj_idx).
End wake.

(** ** The nodes of one waiter ([NodeSet]) *)
Definition waiter_cleanup (nodes : list Z) (r : Region) : Region :=
  foldl (fun r idx => node_free idx r) (foldl (fun r idx => node_detach idx r) r nodes) nodes.
