(* ===== verification/WaitLists.v ===== *)
(** * WaitLists: the waiter lists are lists

    [lists_ok r L]: for every slot [i], the intrusive doubly-linked list that
    starts at [waiter_head] holds exactly the nodes of the ghost list [L i],
    and these are exactly the registered nodes whose [obj] is [i].  Each list
    operation of Nodes.v is proved to act on the ghost lists: registration
    conses, detaching removes, a wake walk empties. *)
From S2P Require Import Prelude Prog Config Region Kernel Lock Nodes.

Abbreviation nd := node_ptr (only parsing).

(** The last element of [l], [p] for the empty list. *)
Definition lastd (p : Z) (l : list Z) : Z := foldl (fun _ x => x) p l.

(** The links of [l], between [prev] and [nx]. *)
Fixpoint dseg (r : Region) (prev : Z) (l : list Z) (nx : Z) : Prop :=
  match l with
  | [] => True
  | n :: l' =>
      n_obj_prev (node_ptr r n) = prev /\ n_obj_next (node_ptr r n) = hd nx l' /\ dseg r n l' nx
  end.

Record lists_ok (r : Region) (L : Z -> list Z) : Prop := {
  lo_seg i : dseg r NIL (L i) NIL;
  lo_head i : L i <> [] \/ s_state (slot_ptr r i) = SLOT_USED ->
    s_waiter_head (slot_ptr r i) = hd NIL (L i);
  lo_reg i n : n ∈ L i -> n_registered (node_ptr r n) <> 0 /\ n_obj (node_ptr r n) = i;
  lo_cov n : n_registered (node_ptr r n) <> 0 -> n ∈ L (n_obj (node_ptr r n));
  lo_nodup i : NoDup (L i);
  lo_range i n : n ∈ L i -> 0 <= n < h_node_fresh (header r);
  lo_fresh : 0 <= h_node_fresh (header r) <= NODE_COUNT;
}.

(** ** Segments *)
Lemma lastd_app p l1 l2 : lastd p (l1 ++ l2) = lastd (lastd p l1) l2.
Proof. apply foldl_app. Qed.

Lemma lastd_elem p (l : list Z) : l <> [] -> lastd p l ∈ l.
Proof.
  intros Hl. destruct (exists_last Hl) as (l' & x & ->).
  rewrite lastd_app. simpl. set_solver.
Qed.

Lemma hd_elem p (l : list Z) : l <> [] -> hd p l ∈ l.
Proof. destruct l; simpl; [done | set_solver]. Qed.

Lemma hd_default p q (l : list Z) : l <> [] -> hd p l = hd q l.
Proof. by destruct l. Qed.

Lemma dseg_app r p l1 l2 nx :
  dseg r p (l1 ++ l2) nx <-> dseg r p l1 (hd nx l2) /\ dseg r (lastd p l1) l2 nx.
Proof.
  revert p. induction l1 as [|n l1 IH]; intros p; simpl; [tauto|].
  rewrite IH. destruct l1; simpl; tauto.
Qed.

Lemma tail_elem (n : Z) l : n ∈ tail l -> n ∈ l.
Proof. destruct l; simpl; [done|]. by apply list_elem_of_further. Qed.

(** A segment depends on the links of its own nodes only. *)
Lemma dseg_ext r r' p l nx :
  (forall n, n ∈ l -> n_obj_prev (node_ptr r' n) = n_obj_prev (node_ptr r n) /\
                      n_obj_next (node_ptr r' n) = n_obj_next (node_ptr r n)) ->
  dseg r p l nx -> dseg r' p l nx.
Proof.
  revert p. induction l as [|n l IH]; intros p He; simpl; [done|].
  destruct (He n) as [-> ->]; [set_solver|]. intros (?&?&?). repeat split; [done..|].
  apply IH; [|done]. intros m Hm. apply He. set_solver.
Qed.

(** Changing the last [next]. *)
Lemma dseg_relink_next r r' p l nx nx' :
  NoDup l ->
  (forall n, n ∈ l -> n_obj_prev (node_ptr r' n) = n_obj_prev (node_ptr r n)) ->
  (forall n, n ∈ l -> n <> lastd p l -> n_obj_next (node_ptr r' n) = n_obj_next (node_ptr r n)) ->
  (l <> [] -> n_obj_next (node_ptr r' (lastd p l)) = nx') ->
  dseg r p l nx -> dseg r' p l nx'.
Proof.
  revert p. induction l as [|n l IH]; intros p Hnd Hp Hn Hlast; simpl; [done|].
  intros (H1&H2&H3). apply NoDup_cons in Hnd as [Hnotin Hnd].
  rewrite Hp by set_solver. split; [done|].
  destruct l as [|n' l].
  - simpl in *. split; [|done]. by apply Hlast.
  - assert (n <> lastd n (n' :: l)) as Hne.
    { intros He. apply Hnotin. rewrite He. by apply lastd_elem. }
    split.
    + rewrite Hn; [by rewrite H2 | set_solver | done].
    + apply IH; [done | set_solver | | | done].
      * intros m Hm. apply Hn. set_solver.
      * intros _. by apply Hlast.
Qed.

(** Changing the first [prev]. *)
Lemma dseg_relink_prev r r' p p' l nx :
  (forall n, n ∈ l -> n_obj_next (node_ptr r' n) = n_obj_next (node_ptr r n)) ->
  (forall n, n ∈ tail l -> n_obj_prev (node_ptr r' n) = n_obj_prev (node_ptr r n)) ->
  (l <> [] -> n_obj_prev (node_ptr r' (hd p l)) = p') ->
  dseg r p l nx -> dseg r' p' l nx.
Proof.
  destruct l as [|n l]; simpl; [done|]. intros Hn Hp Hhd (H1&H2&H3).
  rewrite Hn by set_solver. repeat split; [by apply Hhd | done |].
  eapply dseg_ext; [|done]. intros m Hm. split; [apply Hp; done | apply Hn; set_solver].
Qed.

(** ** What [node_detach] changes *)
Section detach_effect.
Context (r : Region) (idx : Z).
Context (Hreg : n_registered (node_ptr r idx) <> 0).
Let prev := n_obj_prev (node_ptr r idx).
Let next := n_obj_next (node_ptr r idx).
Context (Hprev : prev <> idx) (Hnext : next <> idx) (Hpn : prev = next -> prev = NIL).

Lemma node_detach_self :
  node_ptr (node_detach idx r) idx = set_links 0 NIL NIL NIL (node_ptr r idx).
Proof.
  unfold node_detach. subst prev next. rewrite (proj2 (Z.eqb_neq _ _) Hreg).
  rewrite node_ptr_upd_node, decide_True by done.
  repeat case_match; by region_cases.
Qed.

Lemma node_detach_other j :
  j <> idx ->
  node_ptr (node_detach idx r) j =
    let n := node_ptr r j in
    let n := if decide (j = prev /\ prev <> NIL) then set_obj_next next n else n in
    if decide (j = next /\ next <> NIL) then set_obj_prev prev n else n.
Proof.
  intros Hj. unfold node_detach. subst prev next. rewrite (proj2 (Z.eqb_neq _ _) Hreg).
  rewrite node_ptr_upd_node, decide_False by done. cbv zeta.
  destruct (Z.eqb_spec (n_obj_prev (node_ptr r idx)) NIL) as [Ep|Ep];
    destruct (Z.eqb_spec (n_obj_next (node_ptr r idx)) NIL) as [En|En]; simpl;
    region_simpl; repeat case_decide; naive_solver.
Qed.

Lemma node_detach_slot j :
  slot_ptr (node_detach idx r) j =
    if decide (j = n_obj (node_ptr r idx) /\ prev = NIL)
    then set_waiter_head next (slot_ptr r j) else slot_ptr r j.
Proof.
  unfold node_detach. subst prev next. rewrite (proj2 (Z.eqb_neq _ _) Hreg).
  destruct (Z.eqb_spec (n_obj_prev (node_ptr r idx)) NIL) as [Ep|Ep];
    destruct (Z.eqb_spec (n_obj_next (node_ptr r idx)) NIL) as [En|En]; simpl;
    region_simpl; repeat case_decide; naive_solver.
Qed.
End detach_effect.

Lemma node_detach_header r idx : header (node_detach idx r) = header r.
Proof. unfold node_detach. by repeat case_match. Qed.

(** ** Removing a node *)
Definition without (idx : Z) (l : list Z) : list Z := filter (fun n => n <> idx) l.

Lemma without_notin idx l : idx ∉ l -> without idx l = l.
Proof.
  unfold without. induction l as [|n l IH]; intros Hn; [done|].
  rewrite filter_cons_True by set_solver. by rewrite IH by set_solver.
Qed.

Lemma without_split idx l1 l2 :
  idx ∉ l1 -> idx ∉ l2 -> without idx (l1 ++ idx :: l2) = l1 ++ l2.
Proof.
  intros H1 H2. unfold without. rewrite filter_app, filter_cons_False by naive_solver.
  f_equal; by apply without_notin.
Qed.

Lemma elem_of_without idx n l : n ∈ without idx l <-> n <> idx /\ n ∈ l.
Proof. unfold without. by rewrite list_elem_of_filter. Qed.

Lemma lists_ok_ext r L L' : (forall i, L' i = L i) -> lists_ok r L -> lists_ok r L'.
Proof.
  intros HL [H1 H2 H3 H4 H5 H6 H7].
  split; intros *; rewrite ?HL; eauto.
Qed.

(** Nodes are indices below [NODE_COUNT], never [NIL]. *)
Lemma lists_ok_nil r L i n : lists_ok r L -> n ∈ L i -> n <> NIL.
Proof.
  intros HL Hn. pose proof (lo_range _ _ HL _ _ Hn). pose proof (lo_fresh _ _ HL).
  unfold NODE_COUNT, NIL in *. lia.
Qed.

Lemma lists_ok_disjoint r L i j n : lists_ok r L -> n ∈ L i -> n ∈ L j -> i = j.
Proof.
  intros HL Hi Hj.
  destruct (lo_reg _ _ HL _ _ Hi) as [_ <-]. by destruct (lo_reg _ _ HL _ _ Hj) as [_ <-].
Qed.

(** The neighbours of a registered node. *)
Lemma lists_ok_split r L idx :
  lists_ok r L -> n_registered (node_ptr r idx) <> 0 ->
  exists l1 l2,
    L (n_obj (node_ptr r idx)) = (l1 ++ idx :: l2) /\ (idx ∉ l1) /\ (idx ∉ l2) /\
    n_obj_prev (node_ptr r idx) = lastd NIL l1 /\ n_obj_next (node_ptr r idx) = hd NIL l2.
Proof.
  intros HL Hreg. pose proof (lo_cov _ _ HL _ Hreg) as Hin.
  pose proof (lo_nodup _ _ HL (n_obj (node_ptr r idx))) as Hnd.
  pose proof (lo_seg _ _ HL (n_obj (node_ptr r idx))) as Hseg.
  apply list_elem_of_split in Hin as (l1 & l2 & Heq). exists l1, l2.
  rewrite Heq in Hnd, Hseg. apply NoDup_app in Hnd as (_ & Hd & Hnd).
  apply NoDup_cons in Hnd as [Hn2 _]. apply dseg_app in Hseg as [_ (Hp & Hn & _)].
  split; [done|]. split; [|done]. intros H1. apply (Hd _ H1). set_solver.
Qed.

Section detach_ok.
Context (r : Region) (L : Z -> list Z) (idx : Z) (HL : lists_ok r L).
Context (Hreg : n_registered (node_ptr r idx) <> 0) (l1 l2 : list Z).
Context (Hsplit : L (n_obj (node_ptr r idx)) = l1 ++ idx :: l2).
Context (Hn1 : idx ∉ l1) (Hn2 : idx ∉ l2).
Context (Hp : n_obj_prev (node_ptr r idx) = lastd NIL l1).
Context (Hx : n_obj_next (node_ptr r idx) = hd NIL l2).

Lemma detach_nodup : NoDup (l1 ++ l2).
Proof.
  pose proof (lo_nodup _ _ HL (n_obj (node_ptr r idx))) as Hnd. rewrite Hsplit in Hnd.
  apply NoDup_app in Hnd as (?&Hd&[_ ?]%NoDup_cons). apply NoDup_app. split; [done|].
  split; [|done]. intros x Hx1 Hx2. apply (Hd x Hx1). set_solver.
Qed.

Lemma detach_in n : n ∈ l1 \/ n ∈ l2 -> n ∈ L (n_obj (node_ptr r idx)).
Proof. rewrite Hsplit. set_solver. Qed.

Lemma detach_idx : idx <> NIL.
Proof. eapply (lists_ok_nil r L); [done|]. by apply (lo_cov _ _ HL). Qed.

Lemma prev_spec : lastd NIL l1 = NIL /\ l1 = [] \/ lastd NIL l1 ∈ l1 /\ lastd NIL l1 <> NIL.
Proof.
  destruct (decide (l1 = [])) as [->|Hne]; [by left|]. right.
  pose proof (lastd_elem NIL l1 Hne). split; [done|].
  eapply (lists_ok_nil r L); [done|]. apply detach_in. by left.
Qed.

Lemma next_spec : hd NIL l2 = NIL /\ l2 = [] \/ hd NIL l2 ∈ l2 /\ hd NIL l2 <> NIL.
Proof.
  destruct (decide (l2 = [])) as [->|Hne]; [by left|]. right.
  pose proof (hd_elem NIL l2 Hne). split; [done|].
  eapply (lists_ok_nil r L); [done|]. apply detach_in. by right.
Qed.

Lemma detach_side :
  n_obj_prev (node_ptr r idx) <> idx /\ n_obj_next (node_ptr r idx) <> idx /\
  (n_obj_prev (node_ptr r idx) = n_obj_next (node_ptr r idx) -> n_obj_prev (node_ptr r idx) = NIL).
Proof.
  rewrite Hp, Hx. pose proof detach_idx. pose proof detach_nodup as (_&Hd&_)%NoDup_app.
  destruct prev_spec as [[H1 _]|[H1 H1']], next_spec as [[H2 _]|[H2 H2']].
  all: repeat split; try congruence; intros He; try congruence.
  rewrite He in H1. by destruct (Hd _ H1).
Qed.

(** Projections of the nodes after the removal. *)
Lemma detach_proj n :
  n <> idx ->
  let n' := node_ptr (node_detach idx r) n in
  n_registered n' = n_registered (node_ptr r n) /\ n_obj n' = n_obj (node_ptr r n) /\
  n_obj_next n' = (if decide (n = lastd NIL l1 /\ lastd NIL l1 <> NIL) then hd NIL l2
                   else n_obj_next (node_ptr r n)) /\
  n_obj_prev n' = (if decide (n = hd NIL l2 /\ hd NIL l2 <> NIL) then lastd NIL l1
                   else n_obj_prev (node_ptr r n)).
Proof.
  intros Hn. destruct detach_side as (?&?&?). cbv zeta.
  rewrite node_detach_other by done. rewrite Hp, Hx. cbv zeta.
  repeat case_decide; done.
Qed.

Lemma detach_seg_self : dseg (node_detach idx r) NIL (l1 ++ l2) NIL.
Proof.
  pose proof detach_nodup as (Hnd1&Hd&Hnd2)%NoDup_app.
  pose proof (lo_seg _ _ HL (n_obj (node_ptr r idx))) as Hseg. rewrite Hsplit in Hseg.
  apply dseg_app in Hseg as [Hs1 (_&_&Hs2)]. apply dseg_app. split.
  - eapply dseg_relink_next; [done | | | | exact Hs1].
    + intros n Hn. destruct (detach_proj n) as (_&_&_& ->); [set_solver|].
      rewrite decide_False; [done|]. intros [-> ?]. destruct next_spec as [[??]|[??]]; [done|].
      by eapply Hd.
    + intros n Hn Hne. destruct (detach_proj n) as (_&_& -> & _); [set_solver|].
      by rewrite decide_False by naive_solver.
    + intros Hne. pose proof (lastd_elem NIL l1 Hne).
      destruct (detach_proj (lastd NIL l1)) as (_&_& -> & _); [set_solver|].
      rewrite decide_True; [done|]. destruct prev_spec as [[??]|[??]]; naive_solver.
  - eapply dseg_relink_prev; [| | | exact Hs2].
    + intros n Hn. destruct (detach_proj n) as (_&_& -> & _); [set_solver|].
      rewrite decide_False; [done|]. intros [-> ?]. destruct prev_spec as [[??]|[??]]; [done|].
      by eapply Hd.
    + intros n Hn. destruct (detach_proj n) as (_&_&_& ->).
      { destruct l2; set_solver. }
      rewrite decide_False; [done|]. intros [-> ?]. destruct l2 as [|m l2']; [done|].
      simpl in *. apply NoDup_cons in Hnd2 as [? _]. done.
    + intros Hne. rewrite (hd_default idx NIL l2 Hne). pose proof (hd_elem NIL l2 Hne).
      destruct (detach_proj (hd NIL l2)) as (_&_&_& ->); [set_solver|].
      rewrite decide_True; [done|]. split; [done|].
      destruct next_spec as [[??]|[??]]; done.
Qed.
End detach_ok.

Lemma detach_ok_reg r L idx :
  lists_ok r L -> n_registered (node_ptr r idx) <> 0 ->
  lists_ok (node_detach idx r) (fun i => without idx (L i)).
Proof.
  intros HL Hreg. destruct (lists_ok_split _ _ _ HL Hreg) as (l1&l2&Hs&Hn1&Hn2&Hp&Hx).
  pose proof (detach_side r L idx HL Hreg l1 l2 Hs Hn1 Hn2 Hp Hx) as (Hd1&Hd2&Hd3).
  pose proof (detach_proj r L idx HL Hreg l1 l2 Hs Hn1 Hn2 Hp Hx) as Hproj.
  set (o := n_obj (node_ptr r idx)) in *.
  assert (forall i, i <> o -> idx ∉ L i) as Hother.
  { intros i Hi Hin. apply Hi. destruct (lo_reg _ _ HL _ _ Hin). done. }
  assert (without idx (L o) = l1 ++ l2) as Hw by (rewrite Hs; by apply without_split).
  split.
  - intros i. destruct (decide (i = o)) as [->|Hi].
    + rewrite Hw. by eapply detach_seg_self.
    + rewrite without_notin by auto. eapply dseg_ext; [|apply (lo_seg _ _ HL)].
      intros n Hn. assert (n <> idx) as Hne by (intros ->; by apply (Hother i)).
      destruct (Hproj n Hne) as (_&_& -> & ->).
      assert (n ∉ L o) as Hno by (intros ?; by apply Hi, (lists_ok_disjoint r L i o n)).
      rewrite Hs in Hno.
      rewrite !decide_False; [done| |].
      * intros [-> ?]. destruct (prev_spec r L idx HL Hreg l1 l2 Hs Hn1 Hn2 Hp Hx) as [[??]|[Hin _]]; [done|].
        apply Hno, elem_of_app. by left.
      * intros [-> ?]. destruct (next_spec r L idx HL Hreg l1 l2 Hs Hn1 Hn2 Hp Hx) as [[??]|[Hin _]]; [done|].
        apply Hno, elem_of_app. right. by apply list_elem_of_further.
  - intros i Hi. rewrite node_detach_slot in * by done. fold o in Hi |- *.
    destruct (decide (i = o)) as [->|Hne].
    + rewrite Hw. rewrite Hw in Hi. rewrite Hp, Hx in *.
      destruct (prev_spec r L idx HL Hreg l1 l2 Hs Hn1 Hn2 Hp Hx) as [[He ->]|[He He']].
      * rewrite decide_True by done. done.
      * rewrite decide_False by naive_solver. rewrite (lo_head _ _ HL).
        { rewrite Hs. destruct l1; [set_solver|done]. }
        left. rewrite Hs. by destruct l1.
    + rewrite decide_False in * by naive_solver. rewrite without_notin in * by auto.
      by apply (lo_head _ _ HL).
  - intros i n [Hne Hin]%elem_of_without. destruct (Hproj n Hne) as (-> & -> & _).
    by apply (lo_reg _ _ HL).
  - intros n. destruct (decide (n = idx)) as [->|Hne].
    + by rewrite node_detach_self by done.
    + destruct (Hproj n Hne) as (-> & -> & _). intros Hr. apply elem_of_without.
      split; [done|]. by apply (lo_cov _ _ HL).
  - intros i. apply NoDup_filter, (lo_nodup _ _ HL).
  - intros i n [_ Hin]%elem_of_without. rewrite node_detach_header. by apply (lo_range _ _ HL i).
  - rewrite node_detach_header. apply (lo_fresh _ _ HL).
Qed.

Lemma detach_ok r L idx :
  lists_ok r L -> lists_ok (node_detach idx r) (fun i => without idx (L i)).
Proof.
  intros HL. destruct (decide (n_registered (node_ptr r idx) = 0)) as [H0|H0].
  - assert (node_detach idx r = r) as ->.
    { unfold node_detach. by rewrite H0. }
    eapply lists_ok_ext; [|exact HL]. intros i. apply without_notin. intros Hin.
    by destruct (lo_reg _ _ HL _ _ Hin).
  - by apply detach_ok_reg.
Qed.

#[global] Instance lists_ok_proper : Proper ((≡) ==> (=) ==> iff) lists_ok.
Proof.
  assert (forall r r' L, r ≡ r' -> lists_ok r L -> lists_ok r' L) as Himp.
  { intros r r' L Hr [H1 H2 H3 H4 H5 H6 H7].
    split; intros *; rewrite <- ?(node_fresh_proper _ _ Hr); rewrite <- ?Hr; eauto.
    eapply dseg_ext; [|apply H1]. intros n _. by rewrite <- Hr. }
  intros r r' Hr L ? <-. split; by apply Himp.
Qed.

(** ** Adding a node *)
Definition push (obj idx : Z) (L : Z -> list Z) (i : Z) : list Z :=
  if decide (i = obj) then idx :: L i else L i.

Definition clear (obj : Z) (L : Z -> list Z) (i : Z) : list Z :=
  if decide (i = obj) then [] else L i.

Lemma node_register_node r idx obj ww j :
  s_waiter_head (slot_ptr r obj) <> idx ->
  node_ptr (node_register idx obj ww r) j =
    let head := s_waiter_head (slot_ptr r obj) in
    if decide (j = idx) then set_wait_word ww (set_links 1 obj NIL head (node_ptr r idx))
    else if decide (j = head /\ head <> NIL) then set_obj_prev idx (node_ptr r j)
    else node_ptr r j.
Proof.
  intros Hne. unfold node_register. cbv zeta.
  destruct (Z.eqb_spec (s_waiter_head (slot_ptr r obj)) NIL) as [E|E]; simpl;
    region_simpl; repeat case_decide; naive_solver.
Qed.

Lemma node_register_slot r idx obj ww j :
  slot_ptr (node_register idx obj ww r) j =
    if decide (j = obj) then set_waiter_head idx (slot_ptr r obj) else slot_ptr r j.
Proof.
  unfold node_register. cbv zeta.
  destruct (Z.eqb_spec (s_waiter_head (slot_ptr r obj)) NIL) as [E|E]; simpl;
    region_simpl; repeat case_decide; naive_solver.
Qed.

Lemma node_register_header r idx obj ww : header (node_register idx obj ww r) = header r.
Proof. unfold node_register. by case_match. Qed.

(** What registering [idx] does to the nodes, given what [register_ok] knows. *)
Section register.
Context (r : Region) (L : Z -> list Z) (idx obj ww : Z).
Context (HL : lists_ok r L) (Hreg : n_registered (node_ptr r idx) = 0).
Context (Hrange : 0 <= idx < h_node_fresh (header r)) (Hused : s_state (slot_ptr r obj) = SLOT_USED).
#[local] Abbreviation r' := (node_register idx obj ww r).

Lemma register_out i : idx ∉ L i.
Proof. intros Hin. by destruct (lo_reg _ _ HL _ _ Hin). Qed.

Lemma register_head : s_waiter_head (slot_ptr r obj) = hd NIL (L obj).
Proof. apply (lo_head _ _ HL obj (or_intror Hused)). Qed.

Lemma register_head_in : s_waiter_head (slot_ptr r obj) <> NIL -> s_waiter_head (slot_ptr r obj) ∈ L obj.
Proof. rewrite register_head. intros Hne. apply hd_elem. by intros E; rewrite E in Hne. Qed.

Lemma register_head_ne : s_waiter_head (slot_ptr r obj) <> idx.
Proof.
  intros E. apply (register_out obj). rewrite <- E. apply register_head_in. rewrite E.
  pose proof (lo_fresh _ _ HL). unfold NODE_COUNT, NIL in *. lia.
Qed.

Lemma register_same n : n <> idx ->
  n_registered (node_ptr r' n) = n_registered (node_ptr r n) /\
  n_obj (node_ptr r' n) = n_obj (node_ptr r n) /\
  n_obj_next (node_ptr r' n) = n_obj_next (node_ptr r n).
Proof.
  intros Hn. rewrite node_register_node, decide_False by (done || apply register_head_ne).
  by destruct (decide (n = _ /\ _)).
Qed.

Lemma register_self :
  node_ptr r' idx = set_wait_word ww (set_links 1 obj NIL (s_waiter_head (slot_ptr r obj)) (node_ptr r idx)).
Proof. by rewrite node_register_node, decide_True by (done || apply register_head_ne). Qed.

(** The list of the object, the new node in front. *)
Lemma register_seg_obj : dseg r' NIL (idx :: L obj) NIL.
Proof.
  pose proof register_out as Hout. pose proof register_head as Hhd.
  simpl. rewrite register_self. simpl. split; [done|]. split; [done|].
  eapply dseg_relink_prev; [| | |apply (lo_seg _ _ HL obj)].
  - intros n Hn. apply register_same. by intros ->; eapply Hout.
  - intros n Hn. assert (n <> idx) by (intros ->; eapply Hout; by apply tail_elem).
    rewrite node_register_node, !decide_False; [done | | done | apply register_head_ne].
    rewrite Hhd. intros [-> _]. pose proof (lo_nodup _ _ HL obj) as Hnd.
    destruct (L obj) as [|h l]; simpl in *; [set_solver|]. by apply NoDup_cons in Hnd as [? _].
  - intros Hl. pose proof (hd_elem NIL _ Hl) as Hin. rewrite node_register_node by apply register_head_ne.
    rewrite decide_False by (intros E; apply (Hout obj); by rewrite <- E).
    rewrite decide_True; [done|]. split; [by rewrite Hhd | rewrite Hhd; by eapply lists_ok_nil].
Qed.

(** The lists of the other objects. *)
Lemma register_seg_other i : i <> obj -> dseg r NIL (L i) NIL -> dseg r' NIL (L i) NIL.
Proof.
  intros Hi. apply dseg_ext. intros n Hn.
  assert (n <> idx) as Hn' by (intros ->; by eapply register_out).
  destruct (register_same n Hn') as (_&_&Hx). split; [|done].
  rewrite node_register_node, !decide_False; [done | | done | apply register_head_ne]. intros [-> Hnn].
  apply Hi. eapply lists_ok_disjoint; [done | done |]. by apply register_head_in.
Qed.

Lemma register_lists : lists_ok r' (push obj idx L).
Proof.
  pose proof register_self as Hself. pose proof register_same as Hsame. unfold push. split.
  - intros i. destruct (decide (i = obj)) as [->|Hi]; [apply register_seg_obj|].
    by apply register_seg_other, (lo_seg _ _ HL i).
  - intros i. rewrite node_register_slot. destruct (decide (i = obj)) as [->|Hi]; [done|].
    apply (lo_head _ _ HL).
  - intros i n Hin. assert (n = idx /\ i = obj \/ n <> idx /\ n ∈ L i) as [[-> ->]|[Hn Hin']].
    { destruct (decide (n = idx)) as [->|Hn].
      - left. destruct (decide (i = obj)); [done|]. by apply register_out in Hin.
      - right. split; [done|]. destruct (decide (i = obj)); [|done]. by apply elem_of_cons in Hin as [|]. }
    + by rewrite Hself.
    + destruct (Hsame n Hn) as (-> & -> & _). by apply (lo_reg _ _ HL).
  - intros n. destruct (decide (n = idx)) as [->|Hn].
    + rewrite Hself. simpl. rewrite decide_True by done. intros _. apply list_elem_of_here.
    + destruct (Hsame n Hn) as (-> & -> & _). intros Hr.
      pose proof (lo_cov _ _ HL n Hr). destruct (decide (_ = obj)); [by apply list_elem_of_further | done].
  - intros i. pose proof (lo_nodup _ _ HL i). destruct (decide (i = obj)); [|done].
    apply NoDup_cons. split; [apply register_out|done].
  - intros i n. rewrite node_register_header. destruct (decide (i = obj)); [|apply (lo_range _ _ HL)].
    intros [->|Hin]%elem_of_cons; [done|]. by eapply lo_range.
  - rewrite node_register_header. apply (lo_fresh _ _ HL).
Qed.
End register.

Lemma register_ok r L idx obj ww :
  lists_ok r L -> n_registered (node_ptr r idx) = 0 -> 0 <= idx < h_node_fresh (header r) ->
  s_state (slot_ptr r obj) = SLOT_USED ->
  lists_ok (node_register idx obj ww r) (push obj idx L).
Proof. apply register_lists. Qed.

(** ** Waking *)

(** Changing words that are not links keeps the lists. *)
Lemma lists_ok_node_frame r r' L :
  (forall n, n_registered (node_ptr r' n) = n_registered (node_ptr r n) /\
             n_obj (node_ptr r' n) = n_obj (node_ptr r n) /\
             n_obj_prev (node_ptr r' n) = n_obj_prev (node_ptr r n) /\
             n_obj_next (node_ptr r' n) = n_obj_next (node_ptr r n)) ->
  (forall i, slot_ptr r' i = slot_ptr r i) -> h_node_fresh (header r') = h_node_fresh (header r) ->
  lists_ok r L -> lists_ok r' L.
Proof.
  intros Hn Hs Hf [H1 H2 H3 H4 H5 H6 H7].
  split; intros *; rewrite ?Hs, ?Hf; eauto.
  - eapply dseg_ext; [|apply H1]. intros n _. naive_solver.
  - intros Hin. destruct (Hn n) as (-> & -> & _). by apply H3.
  - destruct (Hn n) as (-> & -> & _). apply H4.
Qed.

(** What a wake walk over the waiters [l] of object [obj] does. *)
Record woken (obj : Z) (l : list Z) (r r' : Region) : Prop := {
  wk_slot i : slot_ptr r' i =
    if decide (i = obj) then set_waiter_head NIL (slot_ptr r i) else slot_ptr r i;
  wk_fresh : h_node_fresh (header r') = h_node_fresh (header r);
  wk_free : h_node_free_head (header r') = h_node_free_head (header r);
  wk_scan : h_next_scan (header r') = h_next_scan (header r);
  wk_seq n : wrap32 (n_seq (node_ptr r' n)) =
    wrap32 (n_seq (node_ptr r n) +
            Z.of_nat (length (filter (fun k => n_wait_word (node_ptr r k) = n) l)));
  wk_reg n : n_registered (node_ptr r' n) =
    if decide (n ∈ l) then 0 else n_registered (node_ptr r n);
  wk_same n : n_wait_word (node_ptr r' n) = n_wait_word (node_ptr r n) /\
    n_waiter_next (node_ptr r' n) = n_waiter_next (node_ptr r n) /\
    n_pid (node_ptr r' n) = n_pid (node_ptr r n);
}.

(** One waiter woken: the futex word moves by one, the links stay. *)
Record bumped (word : Z) (r r' : Region) : Prop := {
  bp_slot i : slot_ptr r' i = slot_ptr r i;
  bp_fresh : h_node_fresh (header r') = h_node_fresh (header r);
  bp_free : h_node_free_head (header r') = h_node_free_head (header r);
  bp_scan : h_next_scan (header r') = h_next_scan (header r);
  bp_seq n : n_seq (node_ptr r' n) =
    if decide (n = word) then wrap32 (n_seq (node_ptr r n) + 1) else n_seq (node_ptr r n);
  bp_links n : n_registered (node_ptr r' n) = n_registered (node_ptr r n) /\
    n_obj (node_ptr r' n) = n_obj (node_ptr r n) /\
    n_obj_prev (node_ptr r' n) = n_obj_prev (node_ptr r n) /\
    n_obj_next (node_ptr r' n) = n_obj_next (node_ptr r n);
  bp_same n : n_wait_word (node_ptr r' n) = n_wait_word (node_ptr r n) /\
    n_waiter_next (node_ptr r' n) = n_waiter_next (node_ptr r n) /\
    n_pid (node_ptr r' n) = n_pid (node_ptr r n);
}.

Lemma bumped_upd word ts r rm r' :
  rm = r \/ rm = upd_node word (set_wake_ts ts) r ->
  r' ≡ upd_node word (fun n => set_seq (wrap32 (n_seq n + 1)) n) rm -> bumped word r r'.
Proof.
  intros Hrm Hr.
  assert (forall n, n <> word -> node_ptr r' n = node_ptr r n) as Hother.
  { intros n Hn. rewrite Hr, node_ptr_upd_node, decide_False by done.
    destruct Hrm as [->| ->]; [done|]. by rewrite node_ptr_upd_node, decide_False. }
  assert (exists n, node_ptr r' word = set_seq (wrap32 (n_seq (node_ptr r word) + 1)) n /\
    (n = node_ptr r word \/ n = set_wake_ts ts (node_ptr r word))) as (n & Hself & Hn).
  { assert (node_ptr r' word = set_seq (wrap32 (n_seq (node_ptr rm word) + 1)) (node_ptr rm word)) as ->.
    { by rewrite Hr, node_ptr_upd_node, decide_True. }
    destruct Hrm as [->| ->]; eauto. rewrite node_ptr_upd_node, decide_True by done. eauto. }
  split.
  - intros i. rewrite Hr. by destruct Hrm as [->| ->].
  - rewrite (node_fresh_proper _ _ Hr). by destruct Hrm as [->| ->].
  - rewrite (free_head_proper _ _ Hr). by destruct Hrm as [->| ->].
  - rewrite (next_scan_proper _ _ Hr). by destruct Hrm as [->| ->].
  - intros k. destruct (decide (k = word)) as [->|Hk]; [by rewrite Hself | by rewrite Hother].
  - intros k. destruct (decide (k = word)) as [->|Hk]; [|by rewrite Hother].
    rewrite Hself. by destruct Hn as [->| ->].
  - intros k. destruct (decide (k = word)) as [->|Hk]; [|by rewrite Hother].
    rewrite Hself. by destruct Hn as [->| ->].
Qed.

(** The first waiter of an object has no predecessor. *)
Lemma detach_first r L obj n l :
  lists_ok r L -> L obj = n :: l ->
  n_registered (node_ptr r n) <> 0 /\ n_obj (node_ptr r n) = obj /\
  n_obj_prev (node_ptr r n) = NIL /\ n_obj_next (node_ptr r n) = hd NIL l /\
  n_obj_next (node_ptr r n) <> n.
Proof.
  intros HL Hobj. pose proof (lo_seg _ _ HL obj) as Hseg. rewrite Hobj in Hseg.
  destruct Hseg as (Hp & Hx & _).
  assert (n ∈ L obj) as Hin by (rewrite Hobj; apply list_elem_of_here).
  destruct (lo_reg _ _ HL _ _ Hin). repeat split; try done. rewrite Hx.
  pose proof (lo_nodup _ _ HL obj) as Hnd. rewrite Hobj in Hnd.
  destruct l as [|m l]; simpl; [by apply not_eq_sym, (lists_ok_nil r L obj)|].
  apply NoDup_cons in Hnd as [Hnd _]. intros ->. apply Hnd, list_elem_of_here.
Qed.

Lemma detach_first_slot r L obj n l i :
  lists_ok r L -> L obj = n :: l ->
  slot_ptr (node_detach n r) i =
    if decide (i = obj) then set_waiter_head (hd NIL l) (slot_ptr r i) else slot_ptr r i.
Proof.
  intros HL Hobj. destruct (detach_first _ _ _ _ _ HL Hobj) as (Hreg & Ho & Hp & Hx & _).
  rewrite node_detach_slot by done. rewrite Ho, Hp, Hx.
  destruct (decide (i = obj)) as [->|Hi]; [by rewrite decide_True|].
  rewrite decide_False; [done|]. by intros [??].
Qed.

Lemma detach_first_other r L obj n l k :
  lists_ok r L -> L obj = n :: l -> k <> n ->
  exists p, node_ptr (node_detach n r) k = set_obj_prev p (node_ptr r k).
Proof.
  intros HL Hobj Hk. destruct (detach_first _ _ _ _ _ HL Hobj) as (Hreg & Ho & Hp & Hx & Hne).
  assert (n <> NIL) as Hnil.
  { apply (lists_ok_nil r L obj); [done|]. rewrite Hobj. apply list_elem_of_here. }
  rewrite node_detach_other by (rewrite ?Hp; auto). rewrite Hp. cbv zeta.
  rewrite (decide_False (P := k = NIL /\ _)) by (by intros [_ ?]).
  destruct (decide (k = _ /\ _)); [eauto|]. exists (n_obj_prev (node_ptr r k)).
  by destruct (node_ptr r k).
Qed.

(** A wake walk continues: [n], at the head of the list, is detached and its
    word bumped, then the rest is woken. *)
Lemma woken_cons obj n l r r1 r2 L :
  lists_ok r L -> L obj = n :: l ->
  bumped (n_wait_word (node_ptr r n)) (node_detach n r) r1 ->
  woken obj l r1 r2 -> woken obj (n :: l) r r2.
Proof.
  intros HL Hobj Hb Hw.
  destruct (detach_first _ _ _ _ _ HL Hobj) as (Hreg & Ho & Hp & Hx & Hne).
  assert (n <> NIL) as Hnil.
  { apply (lists_ok_nil r L obj); [done|]. rewrite Hobj. apply list_elem_of_here. }
  assert (node_ptr (node_detach n r) n = set_links 0 NIL NIL NIL (node_ptr r n)) as Hself.
  { apply node_detach_self; rewrite ?Hp; auto. }
  assert (forall k, n_seq (node_ptr (node_detach n r) k) = n_seq (node_ptr r k) /\
    n_wait_word (node_ptr (node_detach n r) k) = n_wait_word (node_ptr r k) /\
    n_waiter_next (node_ptr (node_detach n r) k) = n_waiter_next (node_ptr r k) /\
    n_pid (node_ptr (node_detach n r) k) = n_pid (node_ptr r k)) as Hkeep.
  { intros k. destruct (decide (k = n)) as [->|Hk]; [by rewrite Hself|].
    by destruct (detach_first_other _ _ _ _ _ k HL Hobj Hk) as [p ->]. }
  split.
  - intros i. rewrite (wk_slot _ _ _ _ Hw), (bp_slot _ _ _ Hb).
    rewrite (detach_first_slot _ _ _ _ _ i HL Hobj). by destruct (decide (i = obj)).
  - by rewrite (wk_fresh _ _ _ _ Hw), (bp_fresh _ _ _ Hb), node_detach_header.
  - by rewrite (wk_free _ _ _ _ Hw), (bp_free _ _ _ Hb), node_detach_header.
  - by rewrite (wk_scan _ _ _ _ Hw), (bp_scan _ _ _ Hb), node_detach_header.
  - intros k. rewrite (wk_seq _ _ _ _ Hw), (bp_seq _ _ _ Hb).
    destruct (Hkeep k) as (-> & _).
    assert (filter (fun j => n_wait_word (node_ptr r1 j) = k) l =
            filter (fun j => n_wait_word (node_ptr r j) = k) l) as ->.
    { apply list_filter_iff. intros j. destruct (bp_same _ _ _ Hb j) as (-> & _).
      by destruct (Hkeep j) as (_ & -> & _). }
    destruct (decide (k = n_wait_word (node_ptr r n))) as [->|Hk].
    + rewrite filter_cons_True by done. cbn [length]. unfold wrap32.
      rewrite Zplus_mod_idemp_l. f_equal. lia.
    + by rewrite filter_cons_False by done.
  - intros k. rewrite (wk_reg _ _ _ _ Hw). destruct (bp_links _ _ _ Hb k) as (-> & _).
    destruct (decide (k = n)) as [->|Hk].
    + rewrite Hself, (decide_True (P := n ∈ n :: l)) by apply list_elem_of_here.
      by destruct (decide (n ∈ l)).
    + destruct (detach_first_other _ _ _ _ _ k HL Hobj Hk) as [p ->]. simpl.
      apply decide_ext. rewrite elem_of_cons. naive_solver.
  - intros k. destruct (wk_same _ _ _ _ Hw k) as (-> & -> & ->).
    destruct (bp_same _ _ _ Hb k) as (-> & -> & ->). by destruct (Hkeep k) as (_ & -> & -> & ->).
Qed.

Lemma woken_nil obj r : s_waiter_head (slot_ptr r obj) = NIL -> woken obj [] r r.
Proof.
  intros H. split; try done.
  - intros i. destruct (decide (i = obj)) as [->|]; [|done].
    destruct (slot_ptr r obj); simpl in *. by subst.
  - intros n. simpl. f_equal. lia.
Qed.

Lemma bumped_lists_ok word r r' L : bumped word r r' -> lists_ok r L -> lists_ok r' L.
Proof.
  intros [] . apply lists_ok_node_frame; auto.
Qed.

Section wake_specs.
Context `{!Config} {G : Type} `{!Kernel Region G} {t : nat} `{!QuietKernel G t}.

Lemma wake_node_spec b word (Q : unit -> world Region Local G -> Prop) w :
  ready b w ->
  (forall w', ready b w' -> bumped word (mem w) (mem w') -> Q tt w') ->
  wp t (wake_node word) Q w.
Proof.
  intros Hw HQ. unfold wake_node. apply wp_bind.
  apply (wp_mono _ _ (fun _ w1 => ready b w1 /\ exists ts,
    mem w1 ≡ mem w \/ mem w1 ≡ upd_node word (set_wake_ts ts) (mem w))).
  2: { destruct debug_enabled; [|apply wp_ret; split; [done | exists 0; by left]].
       apply wp_bind, wp_quiet; [done|]. intros now w1 Hc. apply wp_write. split.
       - eapply (calm_ready b) in Hc; done.
       - exists now. right. cbn [mem]. by rewrite (calm_mem _ _ Hc). }
  intros _ w1 (Hw1 & ts & Hm). apply wp_bind, wp_write. unfold futex_wake.
  apply wp_bind, wp_quiet; [done|]. intros z w2 Hc. apply wp_ret, HQ.
  { eapply (calm_ready b) in Hc; done. }
  pose proof (calm_mem _ _ Hc) as Hm2. cbn [mem] in Hm2.
  destruct Hm as [Hm|Hm]; rewrite Hm in Hm2; (eapply (bumped_upd word ts); [|exact Hm2]); auto.
Qed.

Lemma wake_loop_spec b obj l : forall fuel L (Q : unit -> world Region Local G -> Prop) w,
  (length l < fuel)%nat -> ready b w -> lists_ok (mem w) L -> L obj = l ->
  s_waiter_head (slot_ptr (mem w) obj) = hd NIL l ->
  (forall w', ready b w' -> woken obj l (mem w) (mem w') ->
     lists_ok (mem w') (clear obj L) -> Q tt w') ->
  wp t (wake_loop fuel (hd NIL l)) Q w.
Proof.
  induction l as [|n l IH]; intros fuel L Q w Hf Hw HL Hobj Hhd HQ;
    (destruct fuel as [|fuel]; [simpl in Hf; lia|]); cbn [wake_loop hd].
  - rewrite Z.eqb_refl. apply wp_ret, HQ; [done | by apply woken_nil |].
    eapply lists_ok_ext; [|done]. intros i. unfold clear.
    destruct (decide (i = obj)) as [->|]; done.
  - assert (n ∈ L obj) as Hin by (rewrite Hobj; apply list_elem_of_here).
    pose proof (lists_ok_nil _ _ _ _ HL Hin) as Hnil.
    rewrite (proj2 (Z.eqb_neq _ _) Hnil).
    apply wp_bind, wp_read. cbn [fst snd].
    destruct (detach_first _ _ _ _ _ HL Hobj) as (_ & _ & _ & -> & _).
    apply wp_bind, wp_write, wp_bind, (wake_node_spec b); [done|]. cbn [mem].
    intros w1 Hw1 Hb.
    pose proof (bumped_lists_ok _ _ _ _ Hb (detach_ok _ _ n HL)) as HL1.
    assert (without n (L obj) = l) as Hl.
    { rewrite Hobj. pose proof (lo_nodup _ _ HL obj) as Hnd. rewrite Hobj in Hnd.
      apply NoDup_cons in Hnd as [Hn _]. by apply (without_split n [] l); [set_solver|]. }
    eapply IH; [simpl in Hf; lia | done | exact HL1 | done | |].
    + rewrite (bp_slot _ _ _ Hb), (detach_first_slot _ _ _ _ _ obj HL Hobj).
      by rewrite decide_True.
    + intros w2 Hw2 Hwk HL2. apply HQ; [done | by eapply woken_cons |].
      eapply lists_ok_ext; [|exact HL2]. intros i. unfold clear.
      destruct (decide (i = obj)); [done|]. symmetry. apply without_notin.
      intros Hi. by pose proof (lists_ok_disjoint _ _ _ _ _ HL Hi Hin).
Qed.
End wake_specs.
