(* ===== verification/NodePool.v ===== *)
(** * NodePool: the free list of waiter nodes

    [pool_ok r L F]: besides the waiter lists [L], the chain from
    [node_free_head] through [waiter_next] holds exactly [F], a list of
    distinct unregistered nodes below the fresh cursor.  A node is then never
    handed out twice, and a waiter's clean-up gives all its nodes back. *)
From S2P Require Import Prelude Prog Config Region Kernel Lock Nodes WaitLists.

Fixpoint chain (r : Region) (head : Z) (F : list Z) : Prop :=
  match F with
  | [] => head = NIL
  | n :: F' => head = n /\ chain r (n_waiter_next (node_ptr r n)) F'
  end.

Record pool_ok (r : Region) (L : Z -> list Z) (F : list Z) : Prop := {
  po_lists : lists_ok r L;
  po_chain : chain r (h_node_free_head (header r)) F;
  po_nodup : NoDup F;
  po_free n : n ∈ F -> n_registered (node_ptr r n) = 0 /\ 0 <= n < h_node_fresh (header r);
}.

(** A node that a waiter owns: handed out and not in the free list. *)
Definition owned (r : Region) (F : list Z) (n : Z) : Prop :=
  0 <= n < h_node_fresh (header r) /\ n ∉ F.

Lemma chain_ext r r' head F :
  (forall n, n ∈ F -> n_waiter_next (node_ptr r' n) = n_waiter_next (node_ptr r n)) ->
  chain r head F -> chain r' head F.
Proof.
  revert head. induction F as [|n F IH]; intros head He; simpl; [done|].
  intros [-> Hc]. split; [done|]. rewrite He by apply list_elem_of_here.
  apply IH; [|done]. intros m Hm. by apply He, list_elem_of_further.
Qed.

#[global] Instance pool_ok_proper : Proper ((≡) ==> (=) ==> (=) ==> iff) pool_ok.
Proof.
  assert (forall r r' L F, r ≡ r' -> pool_ok r L F -> pool_ok r' L F) as Himp.
  { intros r r' L F Hr [H1 H2 H3 H4]. split; [by rewrite <- Hr | | done |].
    - rewrite <- (free_head_proper _ _ Hr). eapply chain_ext; [|done].
      intros n _. by rewrite <- Hr.
    - intros n Hn. rewrite <- (node_fresh_proper _ _ Hr), <- Hr. by apply H4. }
  intros r r' Hr L ? <- F ? <-. split; by apply Himp.
Qed.

(** ** Registration and removal do not touch the pool *)
Lemma detach_waiter_next r L idx n :
  lists_ok r L ->
  n_waiter_next (node_ptr (node_detach idx r) n) = n_waiter_next (node_ptr r n) /\
  n_wait_word (node_ptr (node_detach idx r) n) = n_wait_word (node_ptr r n) /\
  n_pid (node_ptr (node_detach idx r) n) = n_pid (node_ptr r n) /\
  n_registered (node_ptr (node_detach idx r) n) =
    (if decide (n = idx) then 0 else n_registered (node_ptr r n)).
Proof.
  intros HL. destruct (decide (n_registered (node_ptr r idx) = 0)) as [H0|H0].
  { assert (node_detach idx r = r) as -> by (unfold node_detach; by rewrite H0).
    by destruct (decide (n = idx)) as [->|]. }
  destruct (lists_ok_split _ _ _ HL H0) as (l1&l2&Hs&Hn1&Hn2&Hp&Hx).
  destruct (detach_side r L idx HL H0 l1 l2 Hs Hn1 Hn2 Hp Hx) as (Hd1&Hd2&Hd3).
  destruct (decide (n = idx)) as [->|Hn].
  - by rewrite node_detach_self.
  - rewrite node_detach_other by done. cbv zeta.
    destruct (decide (n = _ /\ _)), (decide (n = _ /\ _)); done.
Qed.

Lemma detach_pool_ok r L F idx :
  pool_ok r L F -> pool_ok (node_detach idx r) (fun i => without idx (L i)) F.
Proof.
  intros [H1 H2 H3 H4]. split; [by apply detach_ok | | done |].
  - rewrite node_detach_header. eapply chain_ext; [|done].
    intros n _. by apply (detach_waiter_next r L idx n).
  - intros n Hn. rewrite node_detach_header. destruct (H4 n Hn). split; [|done].
    destruct (detach_waiter_next r L idx n H1) as (_&_&_& ->). by destruct (decide (n = idx)).
Qed.

Lemma register_pool_ok r L F idx obj ww :
  pool_ok r L F -> n_registered (node_ptr r idx) = 0 -> owned r F idx ->
  s_state (slot_ptr r obj) = SLOT_USED ->
  pool_ok (node_register idx obj ww r) (push obj idx L) F.
Proof.
  intros [H1 H2 H3 H4] Hreg [Hr HF] Hused.
  assert (s_waiter_head (slot_ptr r obj) <> idx) as Hne.
  { rewrite (lo_head _ _ H1 obj (or_intror Hused)).
    destruct (L obj) as [|h l] eqn:Eo; simpl.
    - pose proof (lo_fresh _ _ H1). unfold NODE_COUNT, NIL in *. lia.
    - intros ->. destruct (lo_reg _ _ H1 obj idx); [|done].
      rewrite Eo. apply list_elem_of_here. }
  assert (forall n, n <> idx ->
    n_waiter_next (node_ptr (node_register idx obj ww r) n) = n_waiter_next (node_ptr r n) /\
    n_registered (node_ptr (node_register idx obj ww r) n) = n_registered (node_ptr r n)) as Hsame.
  { intros n Hn. rewrite node_register_node by done. cbv zeta. rewrite decide_False by done.
    by destruct (decide (n = _ /\ _)). }
  split; [by apply register_ok | | done |]; rewrite node_register_header.
  - eapply chain_ext; [|done]. intros n Hn. apply Hsame. by intros ->.
  - intros n Hn. destruct (Hsame n) as [_ ->]; [by intros ->|]. auto.
Qed.

Lemma unregistered_not_listed r L F n i :
  pool_ok r L F -> n_registered (node_ptr r n) = 0 -> n ∉ L i.
Proof. intros HP H0 Hin. by destruct (lo_reg _ _ (po_lists _ _ _ HP) _ _ Hin). Qed.

(** A write to a node that is not on any list and not free. *)
Lemma upd_mine_pool_ok r L F idx f :
  pool_ok r L F -> owned r F idx -> n_registered (node_ptr r idx) = 0 ->
  n_registered (f (node_ptr r idx)) = 0 -> pool_ok (upd_node idx f r) L F.
Proof.
  intros HP [Hr HF] H0 Hf. assert (forall i, idx ∉ L i) as Hni.
  { intros i. by apply (unregistered_not_listed r L F). }
  destruct HP as [[A1 A2 A3 A4 A5 A6 A7] H2 H3 H4].
  assert (forall n, n <> idx -> node_ptr (upd_node idx f r) n = node_ptr r n) as Hne.
  { intros n Hn. by rewrite node_ptr_upd_node, decide_False. }
  split; [| |done|].
  - split; intros *; region_simpl; auto.
    + eapply dseg_ext; [|apply A1]. intros n Hn. rewrite Hne; [done|]. intros ->. by apply (Hni i).
    + intros Hn. rewrite decide_False; [by apply A3|]. intros ->. by apply (Hni i).
    + destruct (decide (idx = n)) as [<-|]; [done|apply A4].
    + apply A6.
  - eapply chain_ext; [|exact H2]. intros n Hn. rewrite Hne; [done|]. by intros ->.
  - intros n Hn. rewrite Hne by (by intros ->). by apply H4.
Qed.

(** ** Allocation and release *)
Lemma lists_ok_header r f L :
  h_node_fresh (header r) <= h_node_fresh (f (header r)) <= NODE_COUNT ->
  lists_ok r L -> lists_ok (upd_header f r) L.
Proof.
  intros Hf [H1 H2 H3 H4 H5 H6 H7]. split; intros *; region_simpl; auto.
  - eapply dseg_ext; [|apply H1]. done.
  - intros Hn. specialize (H6 _ _ Hn). lia.
  - lia.
Qed.

Lemma node_pop_some r L F idx r' :
  pool_ok r L F -> node_pop r = (Some idx, r') ->
  exists F', pool_ok r' L F' /\ owned r' F' idx /\ n_registered (node_ptr r' idx) = 0 /\
    (F = idx :: F' \/ F = [] /\ F' = [] /\ idx = h_node_fresh (header r)) /\
    (forall n, owned r F n -> owned r' F' n /\ n <> idx) /\
    (forall i, slot_ptr r' i = slot_ptr r i).
Proof.
  intros [H1 H2 H3 H4]. unfold node_pop. pose proof (lo_fresh _ _ H1) as Hfr.
  destruct F as [|n F]; simpl in H2.
  - rewrite H2, Z.eqb_refl. simpl. destruct (Z.leb_spec NODE_COUNT (h_node_fresh (header r))); [done|].
    intros [= <- <-]. exists []. split.
    { split; simpl; [|done|apply NoDup_nil_2|set_solver].
      apply lists_ok_header; [simpl; lia | done]. }
    split; [by split; [simpl; lia | set_solver]|]. split.
    { destruct (decide (n_registered (node_ptr r (h_node_fresh (header r))) = 0)); [done|].
      exfalso. pose proof (lo_cov _ _ H1 _ n) as Hin. pose proof (lo_range _ _ H1 _ _ Hin). lia. }
    split; [by right|]. split; [|done]. intros n [Hn _]. split; [|lia].
    split; [simpl; lia | set_solver].
  - destruct H2 as [Hh Hc]. destruct (H4 n) as [Hreg Hr]; [set_solver|].
    rewrite Hh. assert (n <> NIL) as Hnil by (unfold NODE_COUNT, NIL in *; lia).
    rewrite (proj2 (Z.eqb_neq _ _) Hnil). simpl. intros [= <- <-].
    apply NoDup_cons in H3 as [Hn Hnd]. exists F. split.
    { split; simpl; [| |done|].
      - apply lists_ok_header; [simpl; lia | done].
      - eapply chain_ext; [|done]. done.
      - intros m Hm. apply H4. set_solver. }
    split; [done|]. split; [done|]. split; [by left|]. split; [|done].
    intros m [Hm Hm']. split; [split; [done | set_solver] | set_solver].
Qed.

(** Who owns what after a pop. *)
Lemma pop_owned m n m' L F : pool_ok m L F -> node_pop m = (Some n, m') ->
  exists F', pool_ok m' L F' /\ n_registered (node_ptr m' n) = 0 /\
    (forall i, slot_ptr m' i = slot_ptr m i) /\ (forall k, node_ptr m' k = node_ptr m k) /\
    ~ owned m F n /\ owned m' F' n /\ (forall k, owned m F k -> owned m' F' k) /\
    (forall k, owned m' F' k -> k = n \/ owned m F k) /\
    (F = n :: F' \/ F = [] /\ F' = [] /\ n = h_node_fresh (header m)).
Proof.
  intros HP E. destruct (node_pop_some _ _ _ _ _ HP E) as (F' & HP' & Hn & Hreg & Hpop & Hoth & Hslots).
  exists F'. assert (forall k, node_ptr m' k = node_ptr m k) as Hnodes.
  { unfold node_pop in E. repeat case_match; simplify_eq; done. }
  assert (~ owned m F n /\ forall k, owned m' F' k -> k = n \/ owned m F k) as [Hno Hback]; [|split_and!; try done; intros k Hk; by apply Hoth].
  pose proof (po_free _ _ _ HP) as Hfree. pose proof (lo_fresh _ _ (po_lists _ _ _ HP)).
  unfold node_pop in E. unfold owned.
  destruct (Z.eqb_spec (h_node_free_head (header m)) NIL) as [Hnil|Hnil]; cbn [negb] in E.
  - destruct (NODE_COUNT <=? h_node_fresh (header m)); simplify_eq. cbn.
    destruct Hpop as [->|(-> & -> & _)]; [|split; [lia|]; intros k [Hk _]; destruct (decide (k = h_node_fresh (header m))); [by left|right; split; [lia|set_solver]]].
    destruct (Hfree (h_node_fresh (header m))); [set_solver|lia].
  - simplify_eq. cbn. destruct Hpop as [->|(-> & _ & ->)]; [|pose proof (po_chain _ _ _ HP); done].
    split; [set_solver|]. intros k [Hk1 Hk2]. destruct (decide (k = h_node_free_head (header m))); [by left|set_solver].
Qed.

Lemma node_pop_none r L F r' :
  pool_ok r L F -> node_pop r = (None, r') ->
  r' = r /\ F = [] /\ h_node_fresh (header r) = NODE_COUNT.
Proof.
  intros [H1 H2 H3 H4]. unfold node_pop. pose proof (lo_fresh _ _ H1) as Hfr.
  destruct (Z.eqb_spec (h_node_free_head (header r)) NIL) as [E|E]; simpl; [|done].
  destruct (Z.leb_spec NODE_COUNT (h_node_fresh (header r))); [|done].
  intros [= <-]. split; [done|]. split; [|lia].
  destruct F as [|n F]; [done|]. exfalso. destruct H2 as [<- _].
  destruct (H4 (h_node_free_head (header r))); [set_solver|].
  unfold NODE_COUNT, NIL in *. lia.
Qed.

Lemma node_free_pool_ok r L F idx :
  pool_ok r L F -> owned r F idx -> n_registered (node_ptr r idx) = 0 ->
  pool_ok (node_free idx r) L (idx :: F).
Proof.
  intros [H1 H2 H3 H4] [Hr HF] Hreg. unfold node_free. split.
  - eapply lists_ok_node_frame; [| | |exact H1]; region_simpl; try done.
    intros n. region_simpl. by destruct (decide (idx = n)) as [<-|].
  - simpl. split; [done|]. region_simpl. rewrite decide_True by done. simpl.
    eapply chain_ext; [|done]. intros n Hn. region_simpl.
    rewrite decide_False; [done|]. by intros ->.
  - by apply NoDup_cons.
  - intros n Hn. region_simpl. destruct (decide (idx = n)) as [<-|]; [done|].
    apply H4. set_solver.
Qed.

(** ** [waiter_cleanup] *)
Definition without_all (nodes : list Z) (L : Z -> list Z) (i : Z) : list Z :=
  foldl (fun l n => without n l) (L i) nodes.

Lemma detach_all_pool_ok nodes r L F :
  pool_ok r L F ->
  pool_ok (foldl (fun r idx => node_detach idx r) r nodes) (without_all nodes L) F /\
  h_node_fresh (header (foldl (fun r idx => node_detach idx r) r nodes)) = h_node_fresh (header r) /\
  forall n, n ∈ nodes \/ n_registered (node_ptr r n) = 0 ->
    n_registered (node_ptr (foldl (fun r idx => node_detach idx r) r nodes) n) = 0.
Proof.
  revert r L. induction nodes as [|m nodes IH]; intros r L HP; simpl.
  { split; [done|]. split; [done|]. intros n [Hn|Hn]; [set_solver|done]. }
  destruct (IH _ _ (detach_pool_ok _ _ _ m HP)) as (H1&H2&H3).
  split; [done|]. split; [by rewrite H2, node_detach_header|].
  intros n Hn. apply H3.
  destruct (detach_waiter_next r L m n (po_lists _ _ _ HP)) as (_&_&_& ->).
  destruct (decide (n = m)); [by right|]. destruct Hn as [[->|Hn]%elem_of_cons|Hn]; [done|auto|auto].
Qed.

Lemma free_all_pool_ok nodes r L F :
  pool_ok r L F -> NoDup nodes ->
  (forall n, n ∈ nodes -> owned r F n /\ n_registered (node_ptr r n) = 0) ->
  pool_ok (foldl (fun r idx => node_free idx r) r nodes) L (rev nodes ++ F).
Proof.
  revert r F. induction nodes as [|m nodes IH]; intros r F HP Hnd Hn; simpl; [done|].
  apply NoDup_cons in Hnd as [Hm Hnd]. destruct (Hn m) as [Ho Hreg]; [set_solver|].
  rewrite <- app_assoc. apply IH; [by apply node_free_pool_ok | done |].
  intros n Hin. destruct (Hn n) as [[Ho1 Ho2] Hreg']; [set_solver|].
  split; [split; [done | set_solver]|]. unfold node_free. region_simpl.
  by destruct (decide (m = n)) as [<-|].
Qed.

Lemma waiter_cleanup_ok r L F nodes :
  pool_ok r L F -> NoDup nodes -> (forall n, n ∈ nodes -> owned r F n) ->
  pool_ok (waiter_cleanup nodes r) (without_all nodes L) (rev nodes ++ F).
Proof.
  intros HP Hnd Hn. unfold waiter_cleanup.
  destruct (detach_all_pool_ok nodes r L F HP) as (H1&H2&H3).
  apply free_all_pool_ok; [done|done|]. intros n Hin. destruct (Hn n Hin) as [Hr HF].
  split; [split; [by rewrite H2|done]|]. apply H3. by left.
Qed.

Lemma woken_pool_ok obj l r r' L F :
  woken obj l r r' -> lists_ok r' (clear obj L) -> pool_ok r L F -> pool_ok r' (clear obj L) F.
Proof.
  intros Hw HL [H1 H2 H3 H4]. split; [done| |done|].
  - rewrite (wk_free _ _ _ _ Hw). eapply chain_ext; [|done].
    intros n _. by destruct (wk_same _ _ _ _ Hw n) as (_ & -> & _).
  - intros n Hn. rewrite (wk_reg _ _ _ _ Hw), (wk_fresh _ _ _ _ Hw).
    destruct (H4 n Hn). split; [|done]. by destruct (decide (n ∈ l)).
Qed.

Lemma waiters_bound r L i : lists_ok r L -> (length (L i) <= Z.to_nat NODE_COUNT)%nat.
Proof.
  intros HL. pose proof (lo_nodup _ _ HL i) as Hnd.
  assert (L i ⊆ seqZ 0 NODE_COUNT) as Hsub.
  { intros n Hn. apply elem_of_seqZ. pose proof (lo_range _ _ HL _ _ Hn).
    pose proof (lo_fresh _ _ HL). lia. }
  pose proof (submseteq_length _ _ (NoDup_submseteq _ _ Hnd Hsub)) as Hlen.
  by rewrite length_seqZ in Hlen.
Qed.

(** The futex word of a waiter that was woken has moved: no more than
    [NODE_COUNT] waiters lead to it, so it cannot have come round. *)
Lemma woken_moves obj l r r' r0 L n :
  woken obj l r r' -> lists_ok r0 L -> l = L obj -> n ∈ l ->
  let word := n_wait_word (node_ptr r n) in n_seq (node_ptr r' word) <> n_seq (node_ptr r word).
Proof.
  intros Hw HL -> Hn head E. subst head. pose proof (wk_seq _ _ _ _ Hw (n_wait_word (node_ptr r n))) as Hsq.
  set (head := n_wait_word (node_ptr r n)) in *. set (l := filter _ (L obj)) in Hsq.
  assert (n ∈ l) as Hnl by (by apply list_elem_of_filter).
  assert (0 < length l)%nat as Hpos by (destruct l; [by apply elem_of_nil in Hnl|simpl; lia]).
  pose proof (length_filter (fun k => n_wait_word (node_ptr r k) = head) (L obj)) as Hle. fold l in Hle.
  pose proof (waiters_bound r0 L obj HL) as Hb.
  rewrite E in Hsq. unfold wrap32, NODE_COUNT in *.
  pose proof (Z.div_mod (n_seq (node_ptr r head)) W32 ltac:(lia)).
  pose proof (Z.div_mod (n_seq (node_ptr r head) + Z.of_nat (length l)) W32 ltac:(lia)). lia.
Qed.

#[global] Instance woken_proper : Proper ((=) ==> (=) ==> (≡) ==> (≡) ==> iff) woken.
Proof.
  assert (forall o l r1 r1' r2 r2', r1 ≡ r1' -> r2 ≡ r2' -> woken o l r1 r2 -> woken o l r1' r2') as Himp.
  { intros o l r1 r1' r2 r2' H1 H2 [A1 A2 A3 A4 A5 A6 A7].
    assert (forall i, slot_ptr r1' i = slot_ptr r1 i) as S1 by (intros i; by rewrite H1).
    assert (forall i, slot_ptr r2' i = slot_ptr r2 i) as S2 by (intros i; by rewrite H2).
    assert (forall n, node_ptr r1' n = node_ptr r1 n) as N1 by (intros n; by rewrite H1).
    assert (forall n, node_ptr r2' n = node_ptr r2 n) as N2 by (intros n; by rewrite H2).
    split; intros *; rewrite <- ?(node_fresh_proper _ _ H1), <- ?(node_fresh_proper _ _ H2),
      <- ?(free_head_proper _ _ H1), <- ?(free_head_proper _ _ H2),
      <- ?(next_scan_proper _ _ H1), <- ?(next_scan_proper _ _ H2), ?S1, ?S2, ?N1, ?N2; auto.
    rewrite A5. do 4 f_equal. apply list_filter_iff. intros k. by rewrite N1. }
  intros o ? <- l ? <- r1 r1' H1 r2 r2' H2. split; by apply Himp.
Qed.

Section pool_specs.
Context `{!Config} {G : Type} `{!Kernel Region G} {t : nat} `{!QuietKernel G t}.
(** Enough iterations for a list of every node of the pool. *)
Context (Hfuel : (Z.to_nat NODE_COUNT < loop_fuel)%nat).

Lemma wake_object_spec b obj L F (Q : unit -> world Region Local G -> Prop) w :
  ready b w -> pool_ok (mem w) L F ->
  s_waiter_head (slot_ptr (mem w) obj) = hd NIL (L obj) ->
  (forall w', ready b w' -> woken obj (L obj) (mem w) (mem w') ->
     pool_ok (mem w') (clear obj L) F -> Q tt w') ->
  wp t (wake_object obj) Q w.
Proof.
  intros Hw HP Hhd HQ. apply wp_bind, wp_read. cbn beta. rewrite Hhd.
  eapply (wake_loop_spec b obj (L obj)); [|done|apply (po_lists _ _ _ HP)|done|done|].
  - pose proof (waiters_bound _ _ obj (po_lists _ _ _ HP)). lia.
  - intros w' Hw' Hwk HL. apply HQ; [done|done|]. by eapply woken_pool_ok.
Qed.

Lemma wake_waiters_if_any_spec obj L F (Q : unit -> world Region Local G -> Prop) w :
  idle w -> pool_ok (mem w) L F -> s_waiter_head (slot_ptr (mem w) obj) = hd NIL (L obj) ->
  (forall w', idle w' -> woken obj (L obj) (mem w) (mem w') ->
     pool_ok (mem w') (clear obj L) F -> Q tt w') ->
  wp t (wake_waiters_if_any obj) Q w.
Proof.
  intros Hw HP Hhd HQ. apply wp_bind, wp_read. cbn beta.
  destruct (Z.eqb_spec (s_waiter_head (slot_ptr (mem w) obj)) NIL) as [E|E].
  - apply wp_ret. assert (L obj = []) as Hnil.
    { rewrite Hhd in E. destruct (L obj) as [|n l] eqn:El; [done|]. simpl in E. exfalso.
      eapply (lists_ok_nil _ L obj n); [apply (po_lists _ _ _ HP)| |done].
      rewrite El. apply list_elem_of_here. }
    apply HQ; [done | rewrite Hnil; by apply woken_nil |].
    destruct HP as [H1 H2 H3 H4]. split; [|done|done|done].
    eapply lists_ok_ext; [|done]. intros i. unfold clear.
    destruct (decide (i = obj)) as [->|]; done.
  - apply wp_bind, wp_stat_bump. intros w1 Hc. apply if_lock_spec; [lia|by eapply calm_ready|].
    intros w2 Hm2 Hw2. rewrite (calm_mem _ _ Hc) in Hm2.
    eapply (wake_object_spec true); [done | by rewrite Hm2 | by rewrite Hm2 |].
    intros w3 Hw3 Hwk HP3. split; [done|]. intros w4 Hm4 Hw4.
    apply HQ; [done | | by rewrite Hm4]. by rewrite Hm4, <- Hm2.
Qed.
End pool_specs.
