(* ===== verification/Policy.v ===== *)
(** * Policy: the per-thread spin policies

    The token bucket of the deadline spin tail ([tail_budget]) and the
    adaptive spin credit ([spin_budget], [spin_credit_reward],
    [spin_credit_penalize]). *)
From S2P Require Import Prelude Prog Config Region.

Definition tail_budget_cap (budget : Z) : Z := Z.max (budget / 100) 1.

(** One refill at time [now]: the new tokens.  [last = 0] marks a bucket
    that was never used. *)
Definition tail_refill (budget now tokens last : Z) : Z :=
  let cap := tail_budget_cap budget in
  if last =? 0 then cap
  else
    let elapsed := u64_saturating_sub now last in
    Z.min (u64_saturating_add tokens (u64_saturating_mul elapsed budget / 1000000000)) cap.

Definition tail_step (budget now want_ns : Z) (charge : bool) (l : Local) : bool * Local :=
  let '(tokens, last) := l_tail_budget l in
  let tokens := tail_refill budget now tokens last in
  let ok := want_ns <=? tokens in
  let tokens := if ok && charge then tokens - want_ns else tokens in
  (ok, set_tail_budget (tokens, now) l).

Section policy.
Context `{!Config}.

Definition tail_budget (want_ns : Z) (charge : bool) : action bool :=
  let budget := spin_tail_budget_ns in
  if budget =? 0 then Ret true
  else
    now <- sys ClockMonotonic ;;
    loc_do (tail_step budget now want_ns charge).

Definition tail_budget_take (want_ns : Z) : action bool := tail_budget want_ns true.
Definition tail_budget_can (want_ns : Z) : action bool := tail_budget want_ns false.

Definition spin_budget_step (max : Z) (l : Local) : Z * Local :=
  if 0 <? l_spin_credit l then (max, l)
  else
    let n := wrap32 (l_spin_probe l + 1) in
    (if n mod 8 =? 0 then Z.min (Z.max (max / 8) 8) 64 else 0, set_spin_probe n l).

Definition spin_budget : action Z :=
  let max := spin_max_iters in
  if max =? 0 then Ret 0 else loc_do (spin_budget_step max).

Definition credit_reward (l : Local) : Local :=
  set_spin_credit (Z.min (l_spin_credit l + 1) 16) l.
Definition credit_penalize (l : Local) : Local :=
  set_spin_credit (Z.max (l_spin_credit l - 2) (-8)) l.

Definition spin_credit_reward : action unit := loc_do (fun l => (tt, credit_reward l)).
Definition spin_credit_penalize : action unit := loc_do (fun l => (tt, credit_penalize l)).
End policy.
