(* ===== verification/PolicyOk.v ===== *)
(** * PolicyOk: what the spin policies guarantee

    The token bucket bounds the time a thread may spin: over any sequence of
    requests it grants at most its capacity plus its share of the elapsed
    time.  The credit stays within its clamps whatever happens, and a thread
    out of credit still probes once in eight waits. *)
From S2P Require Import Prelude Prog Config Region Policy.

(** ** The token bucket *)

(** A sequence of [tail_budget_take] and [tail_budget_can] calls of one
    thread: time, nanoseconds wanted, charged or not.  The answer is the time
    granted and charged. *)
Definition request : Type := Z * Z * bool.

Fixpoint bucket_run (budget : Z) (reqs : list request) (l : Local) : Z * Local :=
  match reqs with
  | [] => (0, l)
  | (now, want, charge) :: rest =>
      let '(ok, l1) := tail_step budget now want charge l in
      let '(granted, l2) := bucket_run budget rest l1 in
      ((if ok && charge then want else 0) + granted, l2)
  end.

(** Times do not go back, wants are not negative. *)
Fixpoint ordered (from : Z) (reqs : list request) : Prop :=
  match reqs with
  | [] => True
  | (now, want, _) :: rest => from <= now /\ 0 <= want /\ ordered now rest
  end.

Definition last_time (from : Z) (reqs : list request) : Z :=
  foldl (fun _ q => q.1.1) from reqs.

Lemma ordered_last reqs : forall from, ordered from reqs -> from <= last_time from reqs.
Proof.
  induction reqs as [|[[now want] ch] rest IH]; intros from; simpl; [lia|].
  intros (H1&H2&H3). specialize (IH _ H3). unfold last_time in *. simpl in *. lia.
Qed.

Definition bucket_ok (budget : Z) (l : Local) : Prop :=
  0 <= (l_tail_budget l).1 <= tail_budget_cap budget.

Lemma cap_pos budget : 1 <= tail_budget_cap budget.
Proof. unfold tail_budget_cap. lia. Qed.

Lemma refill_range budget now tokens last :
  0 <= budget -> 0 <= tokens -> 0 <= tail_refill budget now tokens last <= tail_budget_cap budget.
Proof.
  intros Hb Ht. pose proof (cap_pos budget). unfold tail_refill.
  destruct (last =? 0); [lia|].
  unfold u64_saturating_add, u64_saturating_mul, u64_saturating_sub.
  pose proof (Z.div_pos (Z.min (W64 - 1) (Z.max 0 (now - last) * budget)) 1000000000). nia.
Qed.

Lemma refill_rate budget now tokens last :
  0 <= budget -> 0 < last <= now ->
  tail_refill budget now tokens last * 1000000000 <= tokens * 1000000000 + budget * (now - last).
Proof.
  intros Hb Hl. unfold tail_refill. rewrite (proj2 (Z.eqb_neq last 0)) by lia.
  unfold u64_saturating_add, u64_saturating_mul, u64_saturating_sub.
  rewrite Z.max_r by lia.
  pose proof (Z.mul_div_le (Z.min (W64 - 1) ((now - last) * budget)) 1000000000). nia.
Qed.

Lemma tail_step_ok budget now want charge l :
  0 <= budget -> 0 <= want -> bucket_ok budget l ->
  bucket_ok budget (snd (tail_step budget now want charge l)) /\
  snd (l_tail_budget (snd (tail_step budget now want charge l))) = now.
Proof.
  intros Hb Hw [H0 H1]. unfold tail_step. destruct (l_tail_budget l) as [tokens last].
  cbn [fst snd] in *. pose proof (refill_range budget now tokens last Hb H0) as Hr.
  unfold bucket_ok. cbn [set_tail_budget l_tail_budget fst snd].
  destruct (Z.leb_spec want (tail_refill budget now tokens last)), charge; cbn [andb]; lia.
Qed.

Lemma bucket_run_rate budget reqs : forall l,
  0 <= budget -> 0 < snd (l_tail_budget l) -> ordered (snd (l_tail_budget l)) reqs ->
  bucket_ok budget l ->
  fst (bucket_run budget reqs l) * 1000000000 <=
    fst (l_tail_budget l) * 1000000000
    + budget * (last_time (snd (l_tail_budget l)) reqs - snd (l_tail_budget l)) /\
  bucket_ok budget (snd (bucket_run budget reqs l)).
Proof.
  induction reqs as [|[[now want] charge] rest IH]; intros l Hb Hl Ho Hok.
  { simpl. split; [|done]. destruct Hok. unfold last_time. simpl. nia. }
  destruct Ho as (Hnow & Hwant & Ho). cbn [bucket_run].
  pose proof (tail_step_ok budget now want charge l Hb Hwant Hok) as [Hok1 Hlast].
  destruct (tail_step budget now want charge l) as [ok l1] eqn:Es. cbn [snd] in *.
  specialize (IH l1 Hb). rewrite Hlast in IH. specialize (IH ltac:(lia) Ho Hok1).
  destruct (bucket_run budget rest l1) as [granted l2]. cbn [fst snd] in *.
  destruct IH as [IH Hok2]. split; [|done].
  change (last_time (snd (l_tail_budget l)) ((now, want, charge) :: rest)) with (last_time now rest).
  unfold tail_step in Es. destruct (l_tail_budget l) as [tokens last] eqn:El. cbn [fst snd] in *.
  pose proof (refill_rate budget now tokens last Hb ltac:(lia)) as Hr.
  injection Es as <- <-. cbn [set_tail_budget l_tail_budget fst snd] in *.
  destruct (want <=? _), charge; cbn [andb] in *; nia.
Qed.

(** C34: The deadline spin is paid for.  Over any sequence of requests of a
    thread that never spun before, at times that do not go back, the time
    granted is at most the capacity of the bucket plus the budgeted share of
    the time elapsed since the first request, and the bucket never leaves its
    range. *)
Theorem spin_time_bounded budget now want charge reqs l :
  0 <= budget -> l_tail_budget l = (0, 0) -> 0 < now -> 0 <= want -> ordered now reqs ->
  fst (bucket_run budget ((now, want, charge) :: reqs) l) * 1000000000 <=
    tail_budget_cap budget * 1000000000 + budget * (last_time now reqs - now) /\
  bucket_ok budget (snd (bucket_run budget ((now, want, charge) :: reqs) l)).
Proof.
  intros Hb Hl Hnow Hw Ho. pose proof (cap_pos budget).
  assert (bucket_ok budget l) as Hok by (unfold bucket_ok; rewrite Hl; simpl; lia).
  cbn [bucket_run]. destruct (tail_step_ok budget now want charge l Hb Hw Hok) as [Hok1 Hlast].
  destruct (tail_step budget now want charge l) as [ok l1] eqn:Es. cbn [snd] in *.
  pose proof (bucket_run_rate budget reqs l1 Hb) as Hr. rewrite Hlast in Hr.
  specialize (Hr Hnow Ho Hok1). destruct (bucket_run budget reqs l1) as [granted l2].
  cbn [fst snd] in *. destruct Hr as [Hr Hok2]. split; [|done].
  unfold tail_step, tail_refill in Es. rewrite Hl in Es. cbn [Z.eqb] in Es.
  injection Es as <- <-. cbn [set_tail_budget l_tail_budget fst snd] in Hr.
  destruct (want <=? _), charge; cbn [andb] in *; lia.
Qed.

Section credit.
Context `{!Config}.

(** ** The credit *)
Definition credit_ok (l : Local) : Prop := -8 <= l_spin_credit l <= 16.

Lemma credit_init : credit_ok init_local.
Proof. unfold credit_ok. simpl. lia. Qed.

(** What a thread's spins earned: [true] a win, [false] an exhausted spin. *)
Definition credit_run (l : Local) (wins : list bool) : Local :=
  foldl (fun l win => if win : bool then credit_reward l else credit_penalize l) l wins.

Lemma credit_reward_ok l : credit_ok l -> credit_ok (credit_reward l).
Proof. unfold credit_ok, credit_reward. simpl. lia. Qed.

Lemma credit_penalize_ok l : credit_ok l -> credit_ok (credit_penalize l).
Proof. unfold credit_ok, credit_penalize. simpl. lia. Qed.

(** The budgets of [n] waits in a row that nothing credits. *)
Fixpoint probe_run (max : Z) (n : nat) (l : Local) : list Z * Local :=
  match n with
  | O => ([], l)
  | S n' =>
      let '(b, l1) := spin_budget_step max l in
      let '(bs, l2) := probe_run max n' l1 in
      (b :: bs, l2)
  end.

Definition probe_len (max : Z) : Z := Z.min (Z.max (max / 8) 8) 64.

Lemma probe_run_spec max n : forall l,
  l_spin_credit l <= 0 ->
  fst (probe_run max n l) =
    (fun k => if (l_spin_probe l + k) mod 8 =? 0 then probe_len max else 0) <$> seqZ 1 (Z.of_nat n).
Proof.
  induction n as [|n IH]; intros l Hc; [done|]. cbn [probe_run].
  unfold spin_budget_step. rewrite (proj2 (Z.ltb_ge 0 (l_spin_credit l))) by lia.
  set (l1 := set_spin_probe _ l). specialize (IH l1 Hc).
  destruct (probe_run max n l1) as [bs l2]. cbn [fst] in *. subst bs.
  assert (forall k, (wrap32 (l_spin_probe l + 1) + k) mod 8 = (l_spin_probe l + 1 + k) mod 8) as Hm.
  { intros k. unfold wrap32. rewrite <- (Zplus_mod_idemp_l (_ mod _)).
    replace ((l_spin_probe l + 1) mod W32 mod 8) with ((l_spin_probe l + 1) mod 8)
      by (symmetry; apply Z.mod_mod_divide; by exists 536870912).
    by rewrite Zplus_mod_idemp_l. }
  rewrite (seqZ_cons 1 (Z.of_nat (S n))) by lia. rewrite fmap_cons. f_equal.
  - pose proof (Hm 0) as H0. rewrite !Z.add_0_r in H0. by rewrite H0.
  - replace (Z.pred (Z.of_nat (S n))) with (Z.of_nat n) by lia.
    change (Z.succ 1) with (1 + 1). rewrite <- (fmap_add_seqZ 1 1), <- list_fmap_compose.
    apply list_fmap_ext. intros _ k _. cbn. rewrite Hm. by rewrite Z.add_assoc.
Qed.

(** Whatever a thread's spins earn, its credit stays between -8 and 16:
    nine wins in a row bring any thread back to spinning, eight exhausted
    spins in a row stop any thread. *)
Lemma credit_bounded wins l :
  credit_ok l -> credit_ok (credit_run l wins) /\
  (l_spin_credit (credit_run l (wins ++ replicate 9 true)) > 0) /\
  (l_spin_credit (credit_run l (wins ++ replicate 8 false)) <= 0).
Proof.
  intros Hl. assert (credit_ok (credit_run l wins)) as Hok.
  { revert l Hl. induction wins as [|[] wins IH]; intros l Hl; simpl; [done| |].
    - apply IH. by apply credit_reward_ok.
    - apply IH. by apply credit_penalize_ok. }
  split; [done|]. unfold credit_run in *. rewrite !foldl_app.
  destruct (foldl _ l wins) as [r st tb c pr ca]. unfold credit_ok in Hok. cbn in *. lia.
Qed.

(** A thread out of credit still probes: of any eight waits in a row
    exactly one spins, for the probe length, and the others park at once.
    The counter's wrap-around at 2^32 does not disturb the rhythm. *)
Lemma probes_one_in_eight max l :
  l_spin_credit l <= 0 ->
  fst (probe_run max 8 l) =
    (fun k => if (l_spin_probe l + k) mod 8 =? 0 then probe_len max else 0) <$> [1;2;3;4;5;6;7;8] /\
  length (filter (fun b => b <> 0) (fst (probe_run max 8 l))) = 1%nat /\
  8 <= probe_len max <= 64.
Proof.
  intros Hc. rewrite probe_run_spec by done. change (seqZ 1 (Z.of_nat 8)) with [1;2;3;4;5;6;7;8].
  assert (8 <= probe_len max <= 64) as Hp by (unfold probe_len; lia).
  split; [done|]. split; [|done].
  assert (forall k, (l_spin_probe l + k) mod 8 = (l_spin_probe l mod 8 + k) mod 8) as Hm.
  { intros k. by rewrite Zplus_mod_idemp_l. }
  pose proof (Z.mod_pos_bound (l_spin_probe l) 8 ltac:(lia)) as Hr.
  rewrite (list_fmap_ext _ (fun k => if (l_spin_probe l mod 8 + k) mod 8 =? 0 then probe_len max else 0))
    by (intros ? k _; by rewrite Hm).
  clear Hm. generalize dependent (l_spin_probe l mod 8). intros p Hr.
  assert (p = 0 \/ p = 1 \/ p = 2 \/ p = 3 \/ p = 4 \/ p = 5 \/ p = 6 \/ p = 7) as Hcases by lia.
  destruct (probe_len max) as [|q|q] eqn:Eq; [lia| |lia].
  repeat destruct Hcases as [->|Hcases]; try reflexivity. by subst p.
Qed.
End credit.
