(* ===== verification/Sweep.v ===== *)
(** * Sweep: reaping the objects and the waiter nodes of dead processes

    [pid_alive], [SweepScan], [PidCache], [cand_alive], [reap_dead_locked],
    [sweep_dead_locked] and [auto_sweep_dead] of src/src/core.rs. *)
From S2P Require Import Prelude Prog Config Region Lock Nodes.

Definition pid_alive (pid : Z) : action bool :=
  if pid =? 0 then Ret false
  else
    ret <- sys (Kill0 (as_i32 pid)) ;;
    Ret (negb (negb (ret =? 0) && (ret =? ESRCH))).

(** ** Candidates *)
Record DeadCand : Type := mkCand {
  c_node : bool;
  c_index : Z;
  c_pid : Z;
  c_generation : Z;
  c_holders : list Z;
  c_holders_len : Z;
}.

Definition node_cand (index pid : Z) : DeadCand := mkCand true index pid 0 zero_holders 0.

Definition slot_cand (index : Z) (s : Slot) : DeadCand :=
  mkCand false index (s_pid s) (s_generation s) (s_holders s) (s_holders_len s).

Definition SWEEP_CHUNK : nat := 256.

Record SweepScan : Type := mkScan {
  node_hi : Z;
  slot_hi : Z;
  next_node : Z;
  next_slot : Z;
}.

(** [SweepScan::new] *)
Definition scan_new (r : Region) : SweepScan :=
  let h := header r in
  let hi := if negb (Z.land (h_next_scan h) SCAN_WRAPPED =? 0) then SLOT_COUNT
            else h_next_scan h in
  mkScan (Z.min (h_node_fresh h) NODE_COUNT) hi 0 0.

Definition scan_left (s : SweepScan) : nat :=
  Z.to_nat (node_hi s - next_node s) + Z.to_nat (slot_hi s - next_slot s).

(** The loop of [SweepScan::next_chunk]; every iteration moves a cursor, so
    [scan_left] iterations reach the end. *)
Fixpoint chunk_loop (fuel : nat) (s : SweepScan) (r : Region) (out : list DeadCand)
  : list DeadCand * SweepScan :=
  match fuel with
  | O => (out, s)
  | S fuel' =>
      if (SWEEP_CHUNK <=? length out)%nat then (out, s)
      else if next_node s <? node_hi s then
        let index := next_node s in
        let s' := mkScan (node_hi s) (slot_hi s) (index + 1) (next_slot s) in
        let node := node_ptr r index in
        chunk_loop fuel' s' r
          (if negb (n_registered node =? 0) then out ++ [node_cand index (n_pid node)] else out)
      else if next_slot s <? slot_hi s then
        let index := next_slot s in
        let s' := mkScan (node_hi s) (slot_hi s) (next_node s) (index + 1) in
        let sl := slot_ptr r index in
        chunk_loop fuel' s' r
          (if (s_state sl =? SLOT_USED) && negb (s_pid sl =? 0)
           then out ++ [slot_cand index sl] else out)
      else (out, s)
  end.

Definition next_chunk (s : SweepScan) (r : Region) : list DeadCand * SweepScan :=
  chunk_loop (S (scan_left s)) s r [].

(** ** The pid cache *)
Definition PID_CACHE : Z := 32.

Record PidCache : Type := mkCache {
  pc_pid : list Z;
  pc_alive : list bool;
  pc_next : Z;
}.

Definition cache_new : PidCache := mkCache (replicate 32 0) (replicate 32 false) 0.

(** The cached verdict: the first entry for [pid]. *)
Fixpoint cache_find (pid : Z) (pids : list Z) (alive : list bool) : option bool :=
  match pids, alive with
  | p :: pids', a :: alive' => if p =? pid then Some a else cache_find pid pids' alive'
  | _, _ => None
  end.

Definition cache_put (pid : Z) (alive : bool) (c : PidCache) : PidCache :=
  let i := Z.to_nat (pc_next c) in
  mkCache (<[i := pid]> (pc_pid c)) (<[i := alive]> (pc_alive c)) ((pc_next c + 1) mod PID_CACHE).

Definition cache_alive (pid : Z) (c : PidCache) : action (bool * PidCache) :=
  if pid =? 0 then Ret (false, c)
  else
    match cache_find pid (pc_pid c) (pc_alive c) with
    | Some a => Ret (a, c)
    | None =>
        alive <- pid_alive pid ;;
        Ret (alive, cache_put pid alive c)
    end.

Fixpoint any_alive (holders : list Z) (c : PidCache) : action (bool * PidCache) :=
  match holders with
  | [] => Ret (false, c)
  | holder :: rest =>
      if holder =? 0 then any_alive rest c
      else
        ac <- cache_alive holder c ;;
        if fst ac : bool then Ret (true, snd ac) else any_alive rest (snd ac)
  end.

Definition holders_count (holders_len : Z) : Z := Z.ldiff holders_len HOLDER_OVERFLOW.

Definition cand_alive (c : DeadCand) (cache : PidCache) : action (bool * PidCache) :=
  ac <- cache_alive (c_pid c) cache ;;
  if fst ac : bool then Ret (true, snd ac)
  else
    let len := holders_count (c_holders_len c) in
    any_alive (take (Z.to_nat (Z.min len MAX_HOLDERS)) (c_holders c)) (snd ac).

Fixpoint verdicts (cands : list DeadCand) (cache : PidCache) : action (list bool * PidCache) :=
  match cands with
  | [] => Ret ([], cache)
  | c :: rest =>
      ac <- cand_alive c cache ;;
      vs <- verdicts rest (snd ac) ;;
      Ret (fst ac :: fst vs, snd vs)
  end.

(** ** Reaping *)
Definition reap_node (c : DeadCand) (r : Region) : Region :=
  let node := node_ptr r (c_index c) in
  if negb (n_registered node =? 0) && (n_pid node =? c_pid c)
  then node_free (c_index c) (node_detach (c_index c) r)
  else r.

Definition reapable (c : DeadCand) (s : Slot) : bool :=
  (s_state s =? SLOT_USED) && (s_pid s =? c_pid c) && (s_generation s =? c_generation c)
  && (s_holders_len s =? c_holders_len c) && bool_decide (s_holders s = c_holders c)
  && (Z.land (s_holders_len s) HOLDER_OVERFLOW =? 0).

Definition free_slot (s : Slot) : Slot :=
  set_generation (wrap32 (s_generation s + 1)) (set_state SLOT_FREE s).

Definition reap_slot (c : DeadCand) (r : Region) : bool * Region :=
  if reapable c (slot_ptr r (c_index c))
  then (true, upd_slot (c_index c) free_slot r)
  else (false, r).

Section sweep.
Context `{!Config}.

Fixpoint reap_dead_locked (cands : list DeadCand) (alive : list bool) (freed : Z) : action Z :=
  match cands, alive with
  | c :: cands', is_alive :: alive' =>
      if is_alive : bool then reap_dead_locked cands' alive' freed
      else if c_node c then
        mem_write (reap_node c) ;;;
        reap_dead_locked cands' alive' freed
      else
        ok <- mem_do (reap_slot c) ;;
        if ok : bool then
          wake_object (c_index c) ;;;
          reap_dead_locked cands' alive' (freed + 1)
        else reap_dead_locked cands' alive' freed
  | _, _ => Ret freed
  end.

Fixpoint sweep_loop (fuel : nat) (scan : SweepScan) (cache : PidCache) (freed : Z) : action Z :=
  match fuel with
  | O => OutOfFuel
  | S fuel' =>
      cs <- mem_read (next_chunk scan) ;;
      let '(cands, scan) := cs in
      match cands with
      | [] => Ret freed
      | _ =>
          vc <- verdicts cands cache ;;
          n <- reap_dead_locked cands (fst vc) 0 ;;
          sweep_loop fuel' scan (snd vc) (freed + n)
      end
  end.

Definition sweep_dead_locked : action Z :=
  scan <- mem_read scan_new ;;
  sweep_loop loop_fuel scan cache_new 0.

(** The loop of [auto_sweep_dead]: the lock is dropped while the liveness
    of a chunk is probed. *)
Fixpoint auto_sweep_loop (fuel : nat) (guard : option Z) (scan : SweepScan) (cache : PidCache)
  (freed : Z) : action Z :=
  match fuel with
  | O => OutOfFuel
  | S fuel' =>
      cs <- mem_read (next_chunk scan) ;;
      let '(cands, scan) := cs in
      match cands with
      | [] => guard_drop guard ;;; Ret freed
      | _ =>
          guard_drop guard ;;;
          vc <- verdicts cands cache ;;
          g <- lock_guard ;;
          match g with
          | Err _ => Ret freed
          | Ok guard =>
              n <- reap_dead_locked cands (fst vc) 0 ;;
              auto_sweep_loop fuel' guard scan (snd vc) (freed + n)
          end
      end
  end.

Definition auto_sweep_dead : action unit :=
  n <- loc_do (fun l => (l_calls l, set_calls (wrap64 (l_calls l + 1)) l)) ;;
  if negb (Z.land n 0xFF =? 0) then Ret tt
  else
    let interval := sweep_interval_ns in
    if interval =? 0 then Ret tt
    else
      now <- sys ClockMonotonic ;;
      last <- mem_read (fun r => h_sweep_ns (header r)) ;;
      if u64_saturating_sub now last <? interval then Ret tt
      else
        g <- lock_guard ;;
        match g with
        | Err _ => Ret tt
        | Ok guard =>
            now <- sys ClockMonotonic ;;
            last <- mem_read (fun r => h_sweep_ns (header r)) ;;
            if u64_saturating_sub now last <? interval then guard_drop guard
            else
              mem_write (upd_header (set_sweep_ns now)) ;;;
              scan <- mem_read scan_new ;;
              auto_sweep_loop loop_fuel guard scan cache_new 0 ;;;
              Ret tt
        end.
End sweep.
