(* ===== verification/Init.v ===== *)
(** * Init: opening and mapping the region file

    [resolve_path], [open_and_map], [try_open_and_map], [init] and [region] of
    src/src/core.rs.  The file system and mmap are the kernel's; a freshly
    truncated file maps as zero pages ([zero_region]). *)
From S2P Require Import Prelude Prog Config Region.

(** ** Paths *)
Definition dot : Ascii.ascii := Ascii.ascii_of_nat 46.
Definition nul : Ascii.ascii := Ascii.ascii_of_nat 0.

(** [str::rsplit_once]: split at the last occurrence of [c]. *)
Fixpoint rsplit_once (c : Ascii.ascii) (s : string) : option (string * string) :=
  match s with
  | EmptyString => None
  | String a s' =>
      match rsplit_once c s' with
      | Some (l, r) => Some (String a l, r)
      | None => if Ascii.eqb a c then Some (EmptyString, s') else None
      end
  end.

Fixpoint has_char (c : Ascii.ascii) (s : string) : bool :=
  match s with
  | EmptyString => false
  | String a s' => Ascii.eqb a c || has_char c s'
  end.

(** [format!("{VERSION}")] for the layout version of this build. *)
Definition version_string : string := "10".

Definition versioned_path (path : string) : string :=
  match rsplit_once dot path with
  | Some (stem, "shm"%string) => (stem +:+ ".v" +:+ version_string +:+ ".shm")%string
  | _ => (path +:+ ".v" +:+ version_string)%string
  end.

Section init.
Context `{!Config}.

Definition resolve_path (path : option string) : result string Z :=
  match path with
  | Some p => Ok p
  | None =>
      match getenv "NTSYNC_SHM" with
      | Some shm =>
          if negb (String.eqb shm "") then Ok shm
          else
            match getenv "TMPDIR" with
            | Some tmp =>
                if negb (String.eqb tmp "") then Ok (tmp +:+ "/ntsync_userspace.shm")%string
                else Err EINVAL
            | None => Err EINVAL
            end
      | None =>
          match getenv "TMPDIR" with
          | Some tmp =>
              if negb (String.eqb tmp "") then Ok (tmp +:+ "/ntsync_userspace.shm")%string
              else Err EINVAL
          | None => Err EINVAL
          end
      end
  end.

Definition file_size : Z := region_size mutex_size.

(** The header and the reserved slot 0 of a fresh region. *)
Definition init_header (r : Region) : Region :=
  let h := header r in
  mkRegion
    (mkHeader MAGIC VERSION SLOT_COUNT NODE_COUNT NIL 0 0 0
              (h_lock_owner_pid h) (h_lock_owner_tid h))
    (slots r) (nodes r).

Definition reserve_slot0 (s : Slot) : Slot :=
  set_state SLOT_USED (set_spid 0 (set_obj_type TYPE_RESERVED (set_waiter_head NIL s))).

Definition layout_matches (r : Region) : bool :=
  let h := header r in
  (h_magic h =? MAGIC) && (h_version h =? VERSION)
  && (h_capacity h =? SLOT_COUNT) && (h_node_capacity h =? NODE_COUNT).

Definition unlock_close : action unit := sys FlockUn ;;; sys CloseFd ;;; Ret tt.

Definition try_open_and_map (c_path : string) : action (result unit Z) :=
  fd <- sys (Open c_path) ;;
  if fd <? 0 then Ret (Err (- fd))
  else
    e <- sys FlockEx ;;
    if negb (e =? 0) then sys CloseFd ;;; Ret (Err e)
    else
      st_size <- sys Fstat ;;
      if st_size <? 0 then unlock_close ;;; Ret (Err (- st_size))
      else if negb (st_size =? 0) && negb (st_size =? file_size) then
        unlock_close ;;; Ret (Err ESTALE)
      else
        let need_init := st_size =? 0 in
        e <- (if need_init then sys (Ftruncate file_size) else Ret 0) ;;
        if negb (e =? 0) then unlock_close ;;; Ret (Err e)
        else
          e <- sys (Mmap file_size) ;;
          if negb (e =? 0) then unlock_close ;;; Ret (Err e)
          else if need_init then
            (* the truncated file reads as zeros *)
            mem_write (fun _ => zero_region) ;;;
            sys MutexInit ;;;
            mem_write init_header ;;;
            mem_write (upd_slot 0 reserve_slot0) ;;;
            unlock_close ;;; Ret (Ok tt)
          else
            ok <- mem_read layout_matches ;;
            if negb ok then
              sys (Munmap file_size) ;;; unlock_close ;;; Ret (Err ESTALE)
            else unlock_close ;;; Ret (Ok tt).

Fixpoint open_retry (n : nat) (c_path : string) : action (result unit Z) :=
  match n with
  | O => Ret (Err ESTALE)
  | S n' =>
      res <- try_open_and_map c_path ;;
      match res with
      | Ok r => Ret (Ok r)
      | Err e =>
          if e =? ESTALE then sys (Unlink c_path) ;;; open_retry n' c_path
          else Ret (Err e)
      end
  end.

Definition open_and_map (path : string) : action (result unit Z) :=
  let path := versioned_path path in
  if has_char nul path then Ret (Err EINVAL) else open_retry 4 path.

(** REGION.get_or_init *)
Definition init (path : option string) : action (result unit Error) :=
  cell <- loc_do (fun l => (l_region l, l)) ;;
  res <- match cell with
         | Some res => Ret res
         | None =>
             res <- match resolve_path path with
                    | Ok p => open_and_map p
                    | Err e => Ret (Err e)
                    end ;;
             loc_do (fun l => (tt, set_region (Some res) l)) ;;;
             Ret res
         end ;;
  match res with
  | Ok _ => Ret (Ok tt)
  | Err e => Ret (Err (Init e))
  end.

Definition region : action (result unit Error) :=
  _ <-? init None ;;
  cell <- loc_do (fun l => (l_region l, l)) ;;
  match cell with
  | Some (Ok _) => Ret (Ok tt)
  | Some (Err e) => Ret (Err (Init e))
  | None => Panic
  end.
End init.

(** ** Paths *)
(** ** Paths *)
Lemma rsplit_once_join c s l r : rsplit_once c s = Some (l, r) -> s = (l +:+ String c r)%string.
Proof.
  revert l r. induction s as [|a s IH]; intros l r; simpl; [done|].
  destruct (rsplit_once c s) as [[l' r']|] eqn:E.
  - intros [= <- <-]. change (String a l' +:+ String c r')%string with (String a (l' +:+ String c r')).
    f_equal. by apply IH.
  - destruct (Ascii.eqb_spec a c) as [->|]; [|done]. by intros [= <- <-].
Qed.

Lemma rsplit_once_none c s : rsplit_once c s = None -> has_char c s = false.
Proof.
  induction s as [|a s IH]; simpl; [done|]. destruct (rsplit_once c s) as [[]|]; [done|].
  destruct (Ascii.eqb a c); [done|]. auto.
Qed.

Lemma has_char_none c s : has_char c s = false -> rsplit_once c s = None.
Proof.
  induction s as [|a s IH]; simpl; [done|]. intros [Ha Hs]%orb_false_iff. by rewrite IH, Ha.
Qed.

Lemma rsplit_once_last c l r :
  has_char c r = false -> rsplit_once c (l +:+ String c r)%string = Some (l, r).
Proof.
  intros Hr. induction l as [|a l IH].
  - change (EmptyString +:+ String c r)%string with (String c r). simpl.
    by rewrite has_char_none, Ascii.eqb_refl.
  - change (String a l +:+ String c r)%string with (String a (l +:+ String c r)). simpl. by rewrite IH.
Qed.

(** The file that is opened always carries the layout version in its name:
    a path ending in ".shm" gets ".v10" before that ending, any other path
    gets it at the end. *)
Lemma versioned_path_spec :
  (forall stem, versioned_path (stem +:+ ".shm") = (stem +:+ ".v10.shm")%string) /\
  (forall path, (forall stem, path <> (stem +:+ ".shm")%string) -> versioned_path path = (path +:+ ".v10")%string).
Proof.
  split.
  - intros stem. unfold versioned_path. change ".shm"%string with (String dot "shm").
    by rewrite rsplit_once_last.
  - intros path Hp. unfold versioned_path. destruct (rsplit_once dot path) as [[l r]|] eqn:E; [|done].
    apply rsplit_once_join in E. destruct (decide (r = "shm"%string)) as [->|Hr]; [by destruct (Hp l)|].
    repeat (case_match; simplify_eq; try done).
Qed.

(** ** Once per process *)
(** Initialisation happens once: after it, [init] with any path answers
    the recorded outcome and does nothing at all, no system call included. *)
Lemma init_once `{!Config} {G} `{!Kernel Region G} t path (w : world Region Local G) out :
  l_region (loc w) = Some out ->
  run t (init path) w = (Done (map_err Init out), w).
Proof.
  intros Hl. destruct w as [m l g]. cbn in Hl. cbn. rewrite Hl. by destruct out as [[]|].
Qed.
