(* ===== verification/Slots.v ===== *)
(** * Slots: allocation, creation, holders and closing of objects

    [alloc_slot], [alloc_slot_or_sweep], [slot_publish], the three [create_*],
    [holder_add], [holder_remove], [retain], [release] and [close]. *)
From S2P Require Import Prelude Prog Config Region Lock Nodes Sweep Init.

(** ** Allocation *)
Definition scan_cursor (r : Region) : Z := Z.ldiff (h_next_scan (header r)) SCAN_WRAPPED.

Definition take_slot (index : Z) (r : Region) : Z * Region :=
  let r1 := upd_slot index (set_waiter_head NIL) r in
  let next := (index + 1) mod SLOT_COUNT in
  let flags := if next =? 0 then SCAN_WRAPPED
               else Z.land (h_next_scan (header r)) SCAN_WRAPPED in
  let r2 := upd_header (set_next_scan (Z.lor next flags)) r1 in
  (Z.lor (wrap32 (Z.shiftl (s_generation (slot_ptr r index)) INDEX_BITS)) index, r2).

Fixpoint alloc_loop (n : nat) (i : Z) (r : Region) : option Z * Region :=
  match n with
  | O => (None, r)
  | S n' =>
      let index := (scan_cursor r + i) mod SLOT_COUNT in
      if s_state (slot_ptr r index) =? SLOT_FREE then
        let '(handle, r') := take_slot index r in (Some handle, r')
      else alloc_loop n' (i + 1) r
  end.

Definition alloc_slot (r : Region) : option Z * Region := alloc_loop (Z.to_nat SLOT_COUNT) 0 r.

(** ** Holders *)
Definition holder_pos (pid : Z) (cap : nat) (hs : list Z) : option nat :=
  fst <$> list_find (fun p => p = pid) (take cap hs).

Definition holder_cap (s : Slot) : nat :=
  Z.to_nat (Z.min (holders_count (s_holders_len s)) MAX_HOLDERS).

Definition holder_remove (pid : Z) (s : Slot) : Slot :=
  let cap := holder_cap s in
  match holder_pos pid cap (s_holders s) with
  | Some i =>
      let last := (cap - 1)%nat in
      let hs := <[i := nth last (s_holders s) 0]> (s_holders s) in
      let hs := <[last := 0]> hs in
      set_holders (Z.lor (Z.of_nat last) (Z.land (s_holders_len s) HOLDER_OVERFLOW)) hs s
  | None => s
  end.

Definition holder_add (pid : Z) (s : Slot) : Slot :=
  let cap := holder_cap s in
  match holder_pos pid cap (s_holders s) with
  | Some _ => s
  | None =>
      if Z.of_nat cap =? MAX_HOLDERS then
        set_holders (Z.lor (s_holders_len s) HOLDER_OVERFLOW) (s_holders s) s
      else
        set_holders (Z.lor (Z.of_nat cap + 1) (Z.land (s_holders_len s) HOLDER_OVERFLOW))
                    (<[cap := pid]> (s_holders s)) s
  end.

Section slots.
Context `{!Config}.

Definition alloc_slot_or_sweep : action (option Z) :=
  h <- mem_do alloc_slot ;;
  match h with
  | Some h => Ret (Some h)
  | None =>
      n <- sweep_dead_locked ;;
      if 0 <? n then mem_do alloc_slot else Ret None
  end.

Definition slot_publish (handle obj_type w0 : Z) : action unit :=
  let i := handle_index handle in
  st_w0 i w0 ;;;
  st_d i 0 ;;;
  mem_write (upd_slot i (set_obj_type obj_type)) ;;;
  pid <- sys GetPid ;;
  mem_write (upd_slot i (set_spid pid)) ;;;
  mem_write (upd_slot i (set_holders 0 zero_holders)) ;;;
  mem_write (upd_slot i (set_state SLOT_USED)).

(** The body the three constructors share: allocate, publish. *)
Definition create_object (obj_type w0 : Z) : action (result Z Error) :=
  _ <-? region ;;
  with_lock
    (h <- alloc_slot_or_sweep ;;
     match h with
     | None => Ret (Err (Init ENOMEM))
     | Some handle => slot_publish handle obj_type w0 ;;; Ret (Ok handle)
     end).

Definition create_semaphore (count max : Z) : action (result Z Error) :=
  if max <? count then Ret (Err Invalid)
  else create_object TYPE_SEM (pack_sem count max).

Definition create_mutex (owner count : Z) : action (result Z Error) :=
  if negb (Bool.eqb (owner =? 0) (count =? 0)) || (0x7fffffff <? count)
  then Ret (Err Invalid)
  else create_object TYPE_MUTEX (pack_mutex owner count false).

Definition create_event (manual signaled : bool) : action (result Z Error) :=
  create_object TYPE_EVENT (pack_event signaled manual).

(** [r.slot(handle).ok_or(Error::Invalid)] *)
Definition slot_or_invalid (handle : Z) : action (result Z Error) :=
  s <- slot handle ;;
  match s with Some i => Ret (Ok i) | None => Ret (Err Invalid) end.

Definition retain (handle : Z) : action (result unit Error) :=
  if handle_index handle =? 0 then Ret (Err Invalid)
  else
    _ <-? region ;;
    with_lock
      (i <-? slot_or_invalid handle ;;
       pid <- sys GetPid ;;
       mem_write (upd_slot i (holder_add pid)) ;;;
       Ret (Ok tt)).

Definition release (handle : Z) : action (result unit Error) :=
  if handle_index handle =? 0 then Ret (Err Invalid)
  else
    _ <-? region ;;
    with_lock
      (i <-? slot_or_invalid handle ;;
       pid <- sys GetPid ;;
       mem_write (upd_slot i (holder_remove pid)) ;;;
       Ret (Ok tt)).

Definition close_body (handle : Z) : action bool :=
  s <- slot handle ;;
  match s with
  | None => Ret false
  | Some i =>
      pid <- sys GetPid ;;
      mem_write (upd_slot i (holder_remove pid)) ;;;
      mem_write (upd_slot i (set_state SLOT_FREE)) ;;;
      mem_write (upd_slot i (fun s => set_generation (wrap32 (s_generation s + 1)) s)) ;;;
      wake_object (handle_index handle) ;;;
      Ret true
  end.

Definition close (handle : Z) : action bool :=
  if handle_index handle =? 0 then Ret false
  else
    r <- region ;;
    match r with
    | Err _ => Ret false
    | Ok _ =>
        g <- lock_guard ;;
        match g with
        | Err _ => Ret false
        | Ok mask => b <- close_body handle ;; guard_drop mask ;;; Ret b
        end
    end.

Definition sweep_dead : action (result Z Error) :=
  _ <-? region ;;
  with_lock (n <- sweep_dead_locked ;; Ret (Ok n)).
End slots.
