(* ===== verification/Objects.v ===== *)
(** * Objects: semaphores, mutexes and events

    The lock-free operations on a slot's packed word, and [event_pulse], which
    takes the region lock.  A compare-and-swap loop retries at most
    [loop_fuel] times in the model. *)
From S2P Require Import Prelude Prog Config Region Lock Nodes Init.

Section objects.
Context `{!Config}.

(** [r.slot(handle).filter(|s| s.obj_type == ty).ok_or(Error::Invalid)] *)
Definition typed_slot (ty handle : Z) : action (result Z Error) :=
  s <- slot handle ;;
  match s with
  | None => Ret (Err Invalid)
  | Some i =>
      t <- ld_obj_type i ;;
      if t =? ty then Ret (Ok i) else Ret (Err Invalid)
  end.

(** ** Semaphores *)
Fixpoint sem_release_loop (fuel : nat) (i handle count : Z) : action (result Z Error) :=
  match fuel with
  | O => OutOfFuel
  | S fuel' =>
      w <- ld_w0 i ;;
      let cur := lo32 w in
      let max := hi32 w in
      stat_bump 7 ;;;
      let sum := cur + count in
      if (sum <? W32) && (sum <=? max) then
        ok <- cas64 i w (pack_sem sum max) ;;
        if ok : bool then wake_waiters_if_any (handle_index handle) ;;; Ret (Ok cur)
        else sem_release_loop fuel' i handle count
      else Ret (Err Overflow)
  end.

Definition sem_release (handle count : Z) : action (result Z Error) :=
  _ <-? region ;;
  i <-? typed_slot TYPE_SEM handle ;;
  sem_release_loop loop_fuel i handle count.

Definition read_sem (handle : Z) : action (result (Z * Z) Error) :=
  _ <-? region ;;
  i <-? typed_slot TYPE_SEM handle ;;
  w <- ld_w0 i ;;
  Ret (Ok (lo32 w, hi32 w)).

(** ** Events *)
Fixpoint event_set_loop (fuel : nat) (i handle : Z) : action (result Z Error) :=
  match fuel with
  | O => OutOfFuel
  | S fuel' =>
      w <- ld_w0 i ;;
      let prev := lo32 w in
      if negb (prev =? 0) then Ret (Ok prev)
      else
        ok <- cas64 i w (Z.lor w 1) ;;
        if ok : bool then wake_waiters_if_any (handle_index handle) ;;; Ret (Ok 0)
        else event_set_loop fuel' i handle
  end.

Definition event_set (handle : Z) : action (result Z Error) :=
  stat_bump 7 ;;;
  _ <-? region ;;
  i <-? typed_slot TYPE_EVENT handle ;;
  event_set_loop loop_fuel i handle.

Fixpoint event_reset_loop (fuel : nat) (i : Z) : action (result Z Error) :=
  match fuel with
  | O => OutOfFuel
  | S fuel' =>
      w <- ld_w0 i ;;
      let prev := lo32 w in
      if prev =? 0 then Ret (Ok 0)
      else
        ok <- cas64 i w (Z.ldiff w 1) ;;
        if ok : bool then Ret (Ok prev) else event_reset_loop fuel' i
  end.

Definition event_reset (handle : Z) : action (result Z Error) :=
  stat_bump 7 ;;;
  _ <-? region ;;
  i <-? typed_slot TYPE_EVENT handle ;;
  event_reset_loop loop_fuel i.

Definition event_pulse (handle : Z) : action (result Z Error) :=
  _ <-? region ;;
  with_lock
    (i <-? typed_slot TYPE_EVENT handle ;;
     w <- ld_w0 i ;;
     let prev := lo32 w in
     d <- ld_d i ;;
     st_d i (wrap64 (d + 1)) ;;;
     w <- ld_w0 i ;;
     st_w0 i (Z.ldiff w 1) ;;;
     wake_object (handle_index handle) ;;;
     Ret (Ok prev)).

Definition read_event (handle : Z) : action (result (bool * bool) Error) :=
  _ <-? region ;;
  i <-? typed_slot TYPE_EVENT handle ;;
  w <- ld_w0 i ;;
  Ret (Ok (negb (Z.shiftr w 32 =? 0), negb (lo32 w =? 0))).

(** ** Mutexes *)
Definition m_count (w : Z) : Z := Z.land (hi32 w) 0x7fffffff.
Definition m_dead (w : Z) : bool := negb (Z.shiftr (hi32 w) 31 =? 0).

Fixpoint mutex_unlock_loop (fuel : nat) (i handle owner : Z) : action (result Z Error) :=
  match fuel with
  | O => OutOfFuel
  | S fuel' =>
      w <- ld_w0 i ;;
      let cur_owner := lo32 w in
      let count := m_count w in
      let ownerdead := m_dead w in
      if negb (cur_owner =? owner) then Ret (Err Perm)
      else
        let freed := count =? 1 in
        let new := pack_mutex (if freed then 0 else owner) (wrap32 (count - 1)) ownerdead in
        ok <- cas64 i w new ;;
        if ok : bool then
          (when freed do wake_waiters_if_any (handle_index handle)) ;;;
          Ret (Ok count)
        else mutex_unlock_loop fuel' i handle owner
  end.

Definition mutex_unlock (handle owner : Z) : action (result Z Error) :=
  stat_bump 7 ;;;
  if owner =? 0 then Ret (Err Invalid)
  else
    _ <-? region ;;
    i <-? typed_slot TYPE_MUTEX handle ;;
    mutex_unlock_loop loop_fuel i handle owner.

Fixpoint mutex_kill_loop (fuel : nat) (i handle owner : Z) : action (result unit Error) :=
  match fuel with
  | O => OutOfFuel
  | S fuel' =>
      w <- ld_w0 i ;;
      if negb (lo32 w =? owner) then Ret (Err Perm)
      else
        ok <- cas64 i w (pack_mutex 0 0 true) ;;
        if ok : bool then wake_waiters_if_any (handle_index handle) ;;; Ret (Ok tt)
        else mutex_kill_loop fuel' i handle owner
  end.

Definition mutex_kill (handle owner : Z) : action (result unit Error) :=
  stat_bump 7 ;;;
  if owner =? 0 then Ret (Err Invalid)
  else
    _ <-? region ;;
    i <-? typed_slot TYPE_MUTEX handle ;;
    mutex_kill_loop loop_fuel i handle owner.

Definition read_mutex (handle : Z) : action (result (Z * Z * bool) Error) :=
  _ <-? region ;;
  i <-? typed_slot TYPE_MUTEX handle ;;
  w <- ld_w0 i ;;
  Ret (Ok (m_count w, lo32 w, m_dead w)).

(** ** Acquiring an object *)
Definition is_locked (i owner entry_seq : Z) : action bool :=
  w <- ld_w0 i ;;
  ty <- ld_obj_type i ;;
  if ty =? TYPE_SEM then Ret (0 <? lo32 w)
  else if ty =? TYPE_MUTEX then
    let cur_owner := lo32 w in
    Ret (((cur_owner =? 0) || (cur_owner =? owner)) && (m_count w <? 0x7fffffff))
  else if ty =? TYPE_EVENT then
    if negb (lo32 w =? 0) then Ret true
    else d <- ld_d i ;; Ret (negb (d =? entry_seq))
  else Ret false.

Fixpoint acquire_sem (fuel : nat) (i : Z) : action (option bool) :=
  match fuel with
  | O => OutOfFuel
  | S fuel' =>
      w <- ld_w0 i ;;
      let count := lo32 w in
      if count =? 0 then Ret None
      else
        let max := hi32 w in
        ok <- cas64 i w (pack_sem (count - 1) max) ;;
        if ok : bool then Ret (Some false) else acquire_sem fuel' i
  end.

Fixpoint acquire_mutex (fuel : nat) (i owner : Z) : action (option bool) :=
  match fuel with
  | O => OutOfFuel
  | S fuel' =>
      w <- ld_w0 i ;;
      let cur_owner := lo32 w in
      let count := m_count w in
      let ownerdead := m_dead w in
      if 0x7fffffff <=? count then Ret None
      else
        let attempt (new : Z) (od : bool) :=
          ok <- cas64 i w new ;;
          if ok : bool then Ret (Some od) else acquire_mutex fuel' i owner in
        if cur_owner =? 0 then attempt (pack_mutex owner (count + 1) false) ownerdead
        else if cur_owner =? owner then attempt (pack_mutex owner (count + 1) ownerdead) false
        else Ret None
  end.

(** The claim of an auto-reset event: [false] when the race was lost. *)
Fixpoint claim_event (fuel : nat) (i : Z) : action bool :=
  match fuel with
  | O => OutOfFuel
  | S fuel' =>
      w <- ld_w0 i ;;
      if lo32 w =? 0 then Ret false
      else
        ok <- cas64 i w (Z.ldiff w 1) ;;
        if ok : bool then Ret true else claim_event fuel' i
  end.

Definition pulse_check (i entry_seq : Z) : action (option bool) :=
  d <- ld_d i ;;
  if negb (d =? entry_seq) then Ret (Some false) else Ret None.

Definition acquire_event (i entry_seq : Z) : action (option bool) :=
  w <- ld_w0 i ;;
  if negb (lo32 w =? 0) then
    if Z.shiftr w 32 =? 0 then
      won <- claim_event loop_fuel i ;;
      if won : bool then Ret (Some false) else pulse_check i entry_seq
    else Ret (Some false)
  else pulse_check i entry_seq.

Definition try_acquire (i owner entry_seq : Z) : action (option bool) :=
  ty <- ld_obj_type i ;;
  if ty =? TYPE_SEM then acquire_sem loop_fuel i
  else if ty =? TYPE_MUTEX then acquire_mutex loop_fuel i owner
  else if ty =? TYPE_EVENT then acquire_event i entry_seq
  else Ret None.

(** ** Undoing an acquisition *)
Fixpoint rollback_sem (fuel : nat) (i : Z) : action unit :=
  match fuel with
  | O => OutOfFuel
  | S fuel' =>
      w <- ld_w0 i ;;
      let count := lo32 w in
      let max := hi32 w in
      ok <- cas64 i w (pack_sem (wrap32 (count + 1)) max) ;;
      if ok : bool then Ret tt else rollback_sem fuel' i
  end.

Fixpoint rollback_mutex (fuel : nat) (i owner : Z) (owner_dead_was : bool) : action unit :=
  match fuel with
  | O => OutOfFuel
  | S fuel' =>
      w <- ld_w0 i ;;
      let count := m_count w in
      if count =? 1 then
        ok <- cas64 i w (pack_mutex 0 0 owner_dead_was) ;;
        if ok : bool then Ret tt else rollback_mutex fuel' i owner owner_dead_was
      else
        ok <- cas64 i w (pack_mutex owner (wrap32 (count - 1)) (m_dead w)) ;;
        if ok : bool then Ret tt else rollback_mutex fuel' i owner owner_dead_was
  end.

Fixpoint rollback_event (fuel : nat) (i : Z) : action unit :=
  match fuel with
  | O => OutOfFuel
  | S fuel' =>
      w <- ld_w0 i ;;
      if (Z.shiftr w 32 =? 0) && (lo32 w =? 0) then
        ok <- cas64 i w (Z.lor w 1) ;;
        if ok : bool then Ret tt else rollback_event fuel' i
      else Ret tt
  end.

Definition rollback_acquire (i owner : Z) (owner_dead_was : bool) : action unit :=
  ty <- ld_obj_type i ;;
  if ty =? TYPE_SEM then rollback_sem loop_fuel i
  else if ty =? TYPE_MUTEX then rollback_mutex loop_fuel i owner owner_dead_was
  else if ty =? TYPE_EVENT then rollback_event loop_fuel i
  else Ret tt.
End objects.
