(* ===== verification/Words.v ===== *)
(** * Words: the packed state of an object, and what it stands for

    The three packings of [w0] and their inverses, and the abstract objects:
    [repr o s] says that slot [s] holds object [o]. *)
From S2P Require Import Prelude Prog Config Region Kernel Objects.

(** ** Packing and unpacking *)
Lemma pack_sem_add count max : 0 <= count < W32 -> pack_sem count max = max * W32 + count.
Proof. intros H. unfold pack_sem. by rewrite shiftl_lor_add. Qed.

Lemma pack_event_add signaled manual :
  pack_event signaled manual = Z.b2z manual * W32 + Z.b2z signaled.
Proof. by destruct signaled, manual. Qed.

Lemma land_31 n : Z.land n 0x7fffffff = n mod W31.
Proof. change 0x7fffffff with (Z.ones 31). by rewrite Z.land_ones. Qed.

Lemma pack_mutex_add owner count dead :
  0 <= owner < W32 ->
  pack_mutex owner count dead = (Z.b2z dead * W31 + count mod W31) * W32 + owner.
Proof.
  intros H. unfold pack_mutex. rewrite shiftl_lor_add by (done || lia).
  rewrite land_31, Z.lor_comm.
  rewrite shiftl_lor_add; [done|lia|]. apply Z.mod_pos_bound. lia.
Qed.

Lemma lo32_sem count max : 0 <= count < W32 -> lo32 (pack_sem count max) = count.
Proof. intros H. by rewrite pack_sem_add, lo32_pack. Qed.

Lemma hi32_sem count max : 0 <= count < W32 -> 0 <= max < W32 -> hi32 (pack_sem count max) = max.
Proof. intros H1 H2. by rewrite pack_sem_add, hi32_pack. Qed.

Lemma mutex_hi_range count dead : 0 <= Z.b2z dead * W31 + count mod W31 < W32.
Proof. pose proof (Z.mod_pos_bound count W31). destruct dead; simpl; lia. Qed.

Lemma lo32_mutex owner count dead : 0 <= owner < W32 -> lo32 (pack_mutex owner count dead) = owner.
Proof. intros H. by rewrite pack_mutex_add, lo32_pack. Qed.

Lemma m_count_mutex owner count dead :
  0 <= owner < W32 -> 0 <= count < W31 -> m_count (pack_mutex owner count dead) = count.
Proof.
  intros H Hc. unfold m_count.
  rewrite pack_mutex_add, hi32_pack by (done || apply mutex_hi_range).
  rewrite land_31, (Z.mod_small count) by done. rewrite Z.add_comm, Z_mod_plus_full.
  by apply Z.mod_small.
Qed.

Lemma m_dead_mutex owner count dead :
  0 <= owner < W32 -> m_dead (pack_mutex owner count dead) = dead.
Proof.
  intros H. unfold m_dead.
  rewrite pack_mutex_add, hi32_pack by (done || apply mutex_hi_range).
  rewrite Z.shiftr_div_pow2 by lia. change (2 ^ 31) with W31.
  rewrite Z.div_add_l by lia. rewrite (Z.div_small (_ mod _)) by (apply Z.mod_pos_bound; lia).
  by destruct dead.
Qed.

Lemma lo32_event s m : lo32 (pack_event s m) = Z.b2z s.
Proof. by destruct s, m. Qed.
Lemma manual_event s m : (Z.shiftr (pack_event s m) 32 =? 0) = negb m.
Proof. by destruct s, m. Qed.
Lemma set_event s m : Z.lor (pack_event s m) 1 = pack_event true m.
Proof. by destruct s, m. Qed.
Lemma clear_event s m : Z.ldiff (pack_event s m) 1 = pack_event false m.
Proof. by destruct s, m. Qed.
Lemma event_flag b : (Z.b2z b =? 0) = negb b.
Proof. by destruct b. Qed.

#[export] Hint Rewrite lo32_event manual_event set_event clear_event event_flag : region.

(** ** Abstract objects *)
Inductive obj : Type :=
| OSem (count max : Z)
| OMutex (owner count : Z) (dead : bool)
| OEvent (manual signaled : bool) (pulses : Z).

Definition obj_type (o : obj) : Z :=
  match o with OSem _ _ => TYPE_SEM | OMutex _ _ _ => TYPE_MUTEX | OEvent _ _ _ => TYPE_EVENT end.

Definition obj_word (o : obj) : Z :=
  match o with
  | OSem count max => pack_sem count max
  | OMutex owner count dead => pack_mutex owner count dead
  | OEvent manual signaled _ => pack_event signaled manual
  end.

(** A semaphore never exceeds its maximum; a mutex has an owner exactly when
    its recursion count is positive. *)
Definition obj_wf (o : obj) : Prop :=
  match o with
  | OSem count max => 0 <= count <= max /\ max < W32
  | OMutex owner count _ => 0 <= owner < W32 /\ 0 <= count < W31 /\ (owner = 0 <-> count = 0)
  | OEvent _ _ pulses => u64 pulses
  end.

#[export] Instance obj_wf_dec o : Decision (obj_wf o).
Proof. destruct o; unfold obj_wf, u64; apply _. Defined.

(** [d] counts the pulses of an event and is not used otherwise. *)
Definition repr (o : obj) (s : Slot) : Prop :=
  s_obj_type s = obj_type o /\ s_w0 s = obj_word o /\ obj_wf o /\
  match o with OEvent _ _ pulses => s_d s = pulses | _ => True end.

Definition put_obj (o : obj) (s : Slot) : Slot := set_w0 (obj_word o) s.

Lemma repr_put o o' s :
  repr o s -> obj_wf o' -> obj_type o' = obj_type o ->
  (forall m g p, o' = OEvent m g p -> s_d s = p) -> repr o' (put_obj o' s).
Proof.
  intros (H1&H2&H3&H4) Hwf Hty Hd. split; [by rewrite Hty|]. split; [done|].
  split; [done|]. destruct o'; try done. by eapply Hd.
Qed.

(** A slot holds at most one object. *)
Lemma repr_inj o o' s : repr o s -> repr o' s -> o = o'.
Proof.
  intros (H1&H2&H3&H4) (H1'&H2'&H3'&H4'). rewrite H1 in H1'. rewrite H2 in H2'.
  destruct o as [c m|ow c d|m g p], o' as [c' m'|ow' c' d'|m' g' p']; try done.
  - simpl in *. f_equal.
    + rewrite <- (lo32_sem c m), <- (lo32_sem c' m') by lia. by rewrite H2'.
    + rewrite <- (hi32_sem c m), <- (hi32_sem c' m') by lia. by rewrite H2'.
  - simpl in *. f_equal.
    + rewrite <- (lo32_mutex ow c d), <- (lo32_mutex ow' c' d') by lia. by rewrite H2'.
    + rewrite <- (m_count_mutex ow c d), <- (m_count_mutex ow' c' d') by lia. by rewrite H2'.
    + rewrite <- (m_dead_mutex ow c d), <- (m_dead_mutex ow' c' d') by lia. by rewrite H2'.
  - simpl in *. subst. f_equal; by destruct m, m', g, g'.
Qed.

(** ** What the operations do to an abstract object *)
Definition spec_sem_release (n : Z) (o : obj) : result Z Error * obj :=
  match o with
  | OSem count max =>
      if count + n <=? max then (Ok count, OSem (count + n) max) else (Err Overflow, o)
  | _ => (Err Invalid, o)
  end.

Definition spec_event_set (o : obj) : result Z Error * obj :=
  match o with
  | OEvent manual signaled p => (Ok (Z.b2z signaled), OEvent manual true p)
  | _ => (Err Invalid, o)
  end.

Definition spec_event_reset (o : obj) : result Z Error * obj :=
  match o with
  | OEvent manual signaled p => (Ok (Z.b2z signaled), OEvent manual false p)
  | _ => (Err Invalid, o)
  end.

Definition spec_event_pulse (o : obj) : result Z Error * obj :=
  match o with
  | OEvent manual signaled p => (Ok (Z.b2z signaled), OEvent manual false (wrap64 (p + 1)))
  | _ => (Err Invalid, o)
  end.

Definition spec_mutex_unlock (by_owner : Z) (o : obj) : result Z Error * obj :=
  match o with
  | OMutex owner count dead =>
      if by_owner =? 0 then (Err Invalid, o)
      else if negb (owner =? by_owner) then (Err Perm, o)
      else if count =? 1 then (Ok count, OMutex 0 0 dead)
      else (Ok count, OMutex owner (count - 1) dead)
  | _ => (Err Invalid, o)
  end.

Definition spec_mutex_kill (by_owner : Z) (o : obj) : result unit Error * obj :=
  match o with
  | OMutex owner count dead =>
      if by_owner =? 0 then (Err Invalid, o)
      else if negb (owner =? by_owner) then (Err Perm, o)
      else (Ok tt, OMutex 0 0 true)
  | _ => (Err Invalid, o)
  end.

(** Acquiring for a wait of [owner] that saw [entry_seq] pulses at its start:
    [Some owner_dead] and the object after it, or [None]. *)
Definition spec_acquire (owner entry_seq : Z) (o : obj) : option (bool * obj) :=
  match o with
  | OSem count max => if 0 <? count then Some (false, OSem (count - 1) max) else None
  | OMutex cur count dead =>
      if 0x7fffffff <=? count then None
      else if cur =? 0 then Some (dead, OMutex owner (count + 1) false)
      else if cur =? owner then Some (false, OMutex owner (count + 1) dead)
      else None
  | OEvent manual signaled p =>
      if signaled then Some (false, OEvent manual manual p)
      else if negb (p =? entry_seq) then Some (false, o) else None
  end.

Lemma spec_acquire_wf owner seq o od o' :
  0 < owner < W32 -> obj_wf o -> spec_acquire owner seq o = Some (od, o') ->
  obj_wf o' /\ obj_type o' = obj_type o.
Proof.
  intros Ho Hwf Hs. destruct o as [c m|ow c d|m g p]; simpl in *.
  - destruct (Z.ltb_spec 0 c); simplify_eq. simpl. lia.
  - destruct (Z.leb_spec 0x7fffffff c); [done|].
    destruct (Z.eqb_spec ow 0); [simplify_eq; simpl; split; [lia|done]|].
    destruct (Z.eqb_spec ow owner); simplify_eq; simpl; split; [lia|done].
  - destruct g; simplify_eq; simpl; [done|]. by destruct (negb _); simplify_eq.
Qed.
