(* ===== verification/ObjectsOk.v ===== *)
(** * ObjectsOk: the object operations refine the abstract objects

    Run alone, every operation of Objects.v on a live handle does to the
    packed word what Words.v says it does to the object, answers what the
    specification answers, and wakes the object's waiters exactly when it may
    have made the object acquirable. *)
From S2P Require Import Prelude Prog Config Region Kernel Lock Nodes WaitLists NodePool Init Objects Words.

(** The pure reading of [Region::slot]. *)
Definition lookup_handle (r : Region) (handle : Z) : option Z :=
  let i := handle_index handle in
  if (s_state (slot_ptr r i) =? SLOT_USED)
     && (s_generation (slot_ptr r i) =? handle_generation handle)
  then Some i else None.

Lemma handle_index_range h : 0 <= handle_index h < SLOT_COUNT.
Proof.
  unfold handle_index, INDEX_MASK, INDEX_BITS, SLOT_COUNT.
  change (Z.shiftl 1 14 - 1) with (Z.ones 14). rewrite Z.land_ones by lia.
  apply Z.mod_pos_bound. lia.
Qed.

Lemma lookup_handle_Some r h i :
  lookup_handle r h = Some i ->
  i = handle_index h /\ s_state (slot_ptr r i) = SLOT_USED /\
  s_generation (slot_ptr r i) = handle_generation h.
Proof.
  unfold lookup_handle. destruct (_ && _) eqn:E; [|done]. intros [= <-].
  apply andb_true_iff in E as [?%Z.eqb_eq ?%Z.eqb_eq]. done.
Qed.

#[global] Instance lookup_handle_proper : Proper ((≡) ==> (=) ==> (=)) lookup_handle.
Proof. intros r r' Hr h ? <-. unfold lookup_handle. by rewrite Hr. Qed.

(** [effect i o woke L F r r']: slot [i] now holds [o]; if [woke], all its
    waiters [L i] were woken after the change. *)
Definition effect (i : Z) (o : obj) (woke : bool) (L : Z -> list Z) (F : list Z) (r r' : Region) : Prop :=
  exists r1, r1 ≡ upd_slot i (put_obj o) r /\
    (if woke then woken i (L i) r1 r' else r' ≡ r1) /\
    pool_ok r' (if woke then clear i L else L) F.

Lemma upd_slot_pool_ok r L F i f :
  (forall s, s_waiter_head (f s) = s_waiter_head s /\ s_state (f s) = s_state s) ->
  pool_ok r L F -> pool_ok (upd_slot i f r) L F.
Proof.
  intros Hf [[A1 A2 A3 A4 A5 A6 A7] H2 H3 H4]. split; [|by eapply chain_ext; [|done] | done | done].
  split; auto.
  - intros j. by eapply dseg_ext; [|apply A1].
  - intros j. rewrite slot_ptr_upd_slot. destruct (decide (i = j)) as [<-|]; [|apply A2].
    destruct (Hf (slot_ptr r i)) as [-> ->]. apply A2.
Qed.

(** The waiters of a used slot start at its [waiter_head]. *)
Lemma used_head r L F i :
  pool_ok r L F -> s_state (slot_ptr r i) = SLOT_USED ->
  s_waiter_head (slot_ptr r i) = hd NIL (L i).
Proof. intros HP Hu. apply (lo_head _ _ (po_lists _ _ _ HP)). by right. Qed.

Section access.
Context `{!Config} {G : Type} `{!Kernel Region G} {t : nat} `{!QuietKernel G t}.
Implicit Types (w : world Region Local G).

Lemma wp_region b (Q : result unit Error -> world Region Local G -> Prop) w :
  ready b w -> Q (Ok tt) w -> wp t region Q w.
Proof.
  destruct w as [m l g]. intros [HL _] HQ. unfold wp. cbn. simpl in HL. rewrite HL. cbn.
  rewrite HL. exact HQ.
Qed.

Lemma wp_slot h (Q : option Z -> world Region Local G -> Prop) w :
  Q (lookup_handle (mem w) h) w -> wp t (slot h) Q w.
Proof.
  unfold slot, lookup_handle. pose proof (handle_index_range h).
  rewrite (proj2 (Z.leb_gt SLOT_COUNT (handle_index h))) by lia.
  destruct (s_state (slot_ptr (mem w) (handle_index h)) =? SLOT_USED) eqn:E1;
    destruct (s_generation (slot_ptr (mem w) (handle_index h)) =? handle_generation h) eqn:E2;
    cbn [andb]; intros HQ; apply wp_bind, wp_read; rewrite E1;
    try (apply wp_bind, wp_read; rewrite E2); by apply wp_ret.
Qed.

Lemma wp_typed_slot ty h (Q : result Z Error -> world Region Local G -> Prop) w :
  Q (match lookup_handle (mem w) h with
     | None => Err Invalid
     | Some i => if s_obj_type (slot_ptr (mem w) i) =? ty then Ok i else Err Invalid
     end) w ->
  wp t (typed_slot ty h) Q w.
Proof.
  intros HQ. apply wp_bind, wp_slot. destruct (lookup_handle (mem w) h) as [i|]; [|done].
  apply wp_bind, wp_read. by destruct (s_obj_type (slot_ptr (mem w) i) =? ty).
Qed.

(** With nobody interfering a compare-and-swap succeeds at once. *)
Lemma wp_cas64 i old new (Q : bool -> world Region Local G -> Prop) w :
  s_w0 (slot_ptr (mem w) i) = old ->
  Q true (World (upd_slot i (set_w0 new) (mem w)) (loc w) (ker w)) ->
  wp t (cas64 i old new) Q w.
Proof.
  intros Hw HQ. apply wp_bind, wp_mem. unfold cas_w0_step. by rewrite Hw, Z.eqb_refl.
Qed.
End access.

Section signals.
Context `{!Config} {G : Type} `{!Kernel Region G} {t : nat} `{!QuietKernel G t}.
Context (Hfuel : (Z.to_nat NODE_COUNT < loop_fuel)%nat).
Context (L : Z -> list Z) (F : list Z).
Implicit Types (w : world Region Local G).

Lemma fuel_pos : exists n, loop_fuel = S n.
Proof. destruct loop_fuel; [lia | eauto]. Qed.

(** The end of every signal operation: write the word, wake the waiters. *)
Lemma store_and_wake {A} (a : A) i o m0 h (Q : A -> world Region Local G -> Prop) w :
  idle w -> mem w ≡ upd_slot i (put_obj o) m0 -> pool_ok m0 L F -> handle_index h = i ->
  s_state (slot_ptr m0 i) = SLOT_USED ->
  (forall w', idle w' -> effect i o true L F m0 (mem w') -> Q a w') ->
  wp t (wake_waiters_if_any (handle_index h) ;;; Ret a) Q w.
Proof.
  intros Hw Hm HP Hi Hu HQ. rewrite Hi.
  assert (pool_ok (mem w) L F) as HP1.
  { rewrite Hm. by apply upd_slot_pool_ok. }
  apply wp_bind. eapply (wake_waiters_if_any_spec Hfuel i L F); [done|done| |].
  - apply (used_head _ _ F); [done|]. by rewrite Hm, slot_ptr_upd_slot, decide_True.
  - intros w' Hw' Hwk HP'. apply wp_ret, HQ; [done|]. by exists (mem w).
Qed.

(** Handle [h] names slot [i], which holds [o]; nobody holds the lock. *)
Record live (w : world Region Local G) (h i : Z) (o : obj) : Prop := {
  lv_idle : idle w;
  lv_pool : pool_ok (mem w) L F;
  lv_handle : lookup_handle (mem w) h = Some i;
  lv_repr : repr o (slot_ptr (mem w) i);
}.

Lemma lv_word w h i o : live w h i o -> s_w0 (slot_ptr (mem w) i) = obj_word o.
Proof. intros Hl. apply (proj1 (proj2 (lv_repr _ _ _ _ Hl))). Qed.

Lemma lv_wf w h i o : live w h i o -> obj_wf o.
Proof. intros Hl. apply (proj1 (proj2 (proj2 (lv_repr _ _ _ _ Hl)))). Qed.

(** The slot after the word was replaced, with nobody to wake. *)
Lemma cas_effect w h i o o' w1 :
  live w h i o -> mem w1 ≡ mem w ->
  effect i o' false L F (mem w) (upd_slot i (put_obj o') (mem w1)).
Proof.
  intros [Hw HP Hh Ho] Hm. exists (upd_slot i (put_obj o') (mem w)). split; [done|].
  split; [by rewrite Hm|]. rewrite Hm. by apply upd_slot_pool_ok.
Qed.

(** A successful [cas64] of the word of [o]. *)
Lemma wp_cas_live w h i o o' (Q : bool -> world Region Local G -> Prop) w1 :
  live w h i o -> mem w1 ≡ mem w ->
  Q true (World (upd_slot i (put_obj o') (mem w1)) (loc w1) (ker w1)) ->
  wp t (cas64 i (obj_word o) (obj_word o')) Q w1.
Proof. intros Hl Hm HQ. apply wp_cas64; [|done]. rewrite Hm. by eapply lv_word. Qed.

Lemma finish_wake {A} (a : A) w h i o o' (Q : A -> world Region Local G -> Prop) w1 :
  live w h i o -> calm w w1 ->
  (forall w', idle w' -> effect i o' true L F (mem w) (mem w') -> Q a w') ->
  wp t (wake_waiters_if_any (handle_index h) ;;; Ret a) Q
    (World (upd_slot i (put_obj o') (mem w1)) (loc w1) (ker w1)).
Proof.
  intros [Hw HP Hh Ho] Hc HQ. destruct (lookup_handle_Some _ _ _ Hh) as (Hi & Hu & _).
  eapply (store_and_wake a i o' (mem w)); [exact (calm_ready _ _ _ Hc Hw)| |done..].
  cbn [mem]. by rewrite (calm_mem _ _ Hc).
Qed.

Lemma wp_typed_then {A} ty (f : Z -> action (result A Error)) w h i o Q w1 :
  live w h i o -> mem w1 ≡ mem w ->
  (obj_type o = ty -> wp t (f i) Q w1) -> (obj_type o <> ty -> Q (Err Invalid) w1) ->
  wp t (i <-? typed_slot ty h ;; f i) Q w1.
Proof.
  intros [Hw HP Hh Ho] Hm H1 H2. apply wp_bind, wp_typed_slot. rewrite Hm, Hh.
  rewrite Hm, (proj1 Ho).
  destruct (Z.eqb_spec (obj_type o) ty); [by apply H1 | by apply wp_ret, H2].
Qed.

(** The load at the head of every retry loop reads the word of [o]. *)
Lemma wp_ld_w0_live w h i o (Q : Z -> world Region Local G -> Prop) w1 :
  live w h i o -> mem w1 ≡ mem w -> Q (obj_word o) w1 -> wp t (ld_w0 i) Q w1.
Proof. intros Hl Hm HQ. apply wp_read. rewrite Hm. by erewrite lv_word. Qed.

(** Open a live operation: region, typed slot, first iteration of the loop. *)
Ltac enter Hl :=
  first [apply wp_bind, (wp_region false); [by apply (lv_idle _ _ _ _ Hl)|]
        | apply wp_bind, wp_stat_bump; let w0 := fresh "w" in let Hc := fresh "Hc" in
          intros w0 Hc; apply wp_bind, (wp_region false);
          [by eapply calm_ready; [|apply (lv_idle _ _ _ _ Hl)]|]];
  cbn beta iota.

Lemma sem_release_run w h i o n :
  live w h i o -> 0 <= n ->
  wp t (sem_release h n) (fun res w' => idle w' /\
    res = fst (spec_sem_release n o) /\
    match res with
    | Ok _ => effect i (snd (spec_sem_release n o)) true L F (mem w) (mem w')
    | Err _ => mem w' ≡ mem w
    end) w.
Proof.
  intros Hl Hn. enter Hl. eapply wp_typed_then; [done|done| |]; destruct o as [c m|ow c d|m g p];
    intros Hty; try done; [|by split; [apply (lv_idle _ _ _ _ Hl)|]..].
  destruct fuel_pos as [fuel ->]. pose proof (lv_wf _ _ _ _ Hl) as Hwf. cbn in Hwf.
  cbn [sem_release_loop]. apply wp_bind. eapply wp_ld_w0_live; [done|done|].
  apply wp_bind, wp_stat_bump. intros w1 Hc. cbn [obj_word].
  rewrite lo32_sem, hi32_sem by lia. cbn [spec_sem_release fst snd].
  destruct (Z.leb_spec (c + n) m) as [Hle|Hgt].
  - rewrite (proj2 (Z.ltb_lt (c + n) W32)) by lia. cbn [andb].
    apply wp_bind. eapply (wp_cas_live _ _ _ _ (OSem (c + n) m) _ _ Hl); [by apply calm_mem|]. cbn iota.
    eapply finish_wake; done.
  - rewrite andb_false_r. apply wp_ret. split; [by eapply calm_ready; [|apply (lv_idle _ _ _ _ Hl)]|].
    split; [done|]. by apply calm_mem.
Qed.

(** Leave an operation that changed nothing. *)
Ltac quit Hl := split; [by eapply calm_ready; [eassumption|apply (lv_idle _ _ _ _ Hl)]|];
  split; [done|]; by apply calm_mem.

Ltac bad_type Hl := by quit Hl.

Lemma event_set_run w h i o :
  live w h i o ->
  wp t (event_set h) (fun res w' => idle w' /\
    res = fst (spec_event_set o) /\
    if bool_decide (res = Ok 0)
    then effect i (snd (spec_event_set o)) true L F (mem w) (mem w')
    else mem w' ≡ mem w) w.
Proof.
  intros Hl. enter Hl. eapply wp_typed_then; [done|by apply calm_mem| |];
    destruct o as [c m|ow c d|m g p]; intros Hty; try done; [|by quit Hl..].
  destruct fuel_pos as [fuel ->]. cbn [event_set_loop]. apply wp_bind.
  eapply wp_ld_w0_live; [done|by apply calm_mem|]. cbn [obj_word spec_event_set fst snd].
  rewrite lo32_event, event_flag. destruct g; cbn [negb Z.b2z]; [by apply wp_ret; quit Hl|].
  rewrite set_event. apply wp_bind.
  eapply (wp_cas_live _ _ _ _ (OEvent m true p) _ _ Hl); [by apply calm_mem|]. cbn iota.
  eapply finish_wake; [done|done|]. intros w' Hw' He. by rewrite bool_decide_eq_true_2.
Qed.

(** Resetting an event answers the previous state and clears it; it wakes nobody. *)
Lemma event_reset_run w h i o :
  live w h i o ->
  wp t (event_reset h) (fun res w' => idle w' /\
    res = fst (spec_event_reset o) /\
    if bool_decide (res = Ok 1)
    then effect i (snd (spec_event_reset o)) false L F (mem w) (mem w')
    else mem w' ≡ mem w) w.
Proof.
  intros Hl. enter Hl. eapply wp_typed_then; [done|by apply calm_mem| |];
    destruct o as [c m|ow c d|m g p]; intros Hty; try done; [|by quit Hl..].
  destruct fuel_pos as [fuel ->]. cbn [event_reset_loop]. apply wp_bind.
  eapply wp_ld_w0_live; [done|by apply calm_mem|]. cbn [obj_word spec_event_reset fst snd].
  rewrite lo32_event, event_flag. destruct g; cbn [negb Z.b2z]; [|by apply wp_ret; quit Hl].
  rewrite clear_event. apply wp_bind.
  eapply (wp_cas_live _ _ _ _ (OEvent m false p) _ _ Hl); [by apply calm_mem|]. cbn iota.
  apply wp_ret. split; [exact (calm_ready _ _ _ Hc (lv_idle _ _ _ _ Hl))|]. split; [done|].
  rewrite bool_decide_eq_true_2 by done. eapply cas_effect; [done|by apply calm_mem].
Qed.

Lemma mutex_unlock_run w h i o by_owner :
  live w h i o ->
  wp t (mutex_unlock h by_owner) (fun res w' => idle w' /\
    res = fst (spec_mutex_unlock by_owner o) /\
    match res with
    | Ok c => effect i (snd (spec_mutex_unlock by_owner o)) (c =? 1) L F (mem w) (mem w')
    | Err _ => mem w' ≡ mem w
    end) w.
Proof.
  intros Hl. apply wp_bind, wp_stat_bump. intros w1 Hc.
  destruct (Z.eqb_spec by_owner 0) as [->|Hb].
  { apply wp_ret. destruct o; by quit Hl. }
  apply wp_bind, (wp_region false); [by eapply calm_ready; [|apply (lv_idle _ _ _ _ Hl)]|].
  cbn beta iota. eapply wp_typed_then; [done|by apply calm_mem| |];
    destruct o as [c m|ow c d|m g p]; intros Hty; try done; [|by quit Hl..].
  destruct fuel_pos as [fuel ->]. pose proof (lv_wf _ _ _ _ Hl) as Hwf. cbn in Hwf.
  cbn [mutex_unlock_loop]. apply wp_bind. eapply wp_ld_w0_live; [done|by apply calm_mem|].
  cbn [obj_word spec_mutex_unlock]. rewrite lo32_mutex, m_count_mutex, m_dead_mutex by lia.
  rewrite (proj2 (Z.eqb_neq by_owner 0)) by done.
  destruct (Z.eqb_spec ow by_owner) as [->|Ho]; cbn [negb]; [|by apply wp_ret; quit Hl].
  apply wp_bind. destruct (Z.eqb_spec c 1) as [->|Hc1].
  - eapply (wp_cas_live _ _ _ _ (OMutex 0 0 d) _ _ Hl); [by apply calm_mem|]. cbn iota.
    eapply finish_wake; done.
  - rewrite wrap32_small by lia.
    eapply (wp_cas_live _ _ _ _ (OMutex by_owner (c - 1) d) _ _ Hl); [by apply calm_mem|].
    cbn iota. apply wp_ret. split; [exact (calm_ready _ _ _ Hc (lv_idle _ _ _ _ Hl))|].
    split; [done|]. cbn [fst snd]. rewrite (proj2 (Z.eqb_neq c 1)) by done.
    eapply cas_effect; [done|by apply calm_mem].
Qed.

Lemma mutex_kill_run w h i o by_owner :
  live w h i o ->
  wp t (mutex_kill h by_owner) (fun res w' => idle w' /\
    res = fst (spec_mutex_kill by_owner o) /\
    match res with
    | Ok _ => effect i (OMutex 0 0 true) true L F (mem w) (mem w')
    | Err _ => mem w' ≡ mem w
    end) w.
Proof.
  intros Hl. apply wp_bind, wp_stat_bump. intros w1 Hc.
  destruct (Z.eqb_spec by_owner 0) as [->|Hb].
  { apply wp_ret. destruct o; by quit Hl. }
  apply wp_bind, (wp_region false); [by eapply calm_ready; [|apply (lv_idle _ _ _ _ Hl)]|].
  cbn beta iota. eapply wp_typed_then; [done|by apply calm_mem| |];
    destruct o as [c m|ow c d|m g p]; intros Hty; try done; [|by quit Hl..].
  destruct fuel_pos as [fuel ->]. pose proof (lv_wf _ _ _ _ Hl) as Hwf. cbn in Hwf.
  cbn [mutex_kill_loop]. apply wp_bind. eapply wp_ld_w0_live; [done|by apply calm_mem|].
  cbn [obj_word spec_mutex_kill]. rewrite lo32_mutex by lia.
  rewrite (proj2 (Z.eqb_neq by_owner 0)) by done.
  destruct (Z.eqb_spec ow by_owner) as [->|Ho]; cbn [negb]; [|by apply wp_ret; quit Hl].
  apply wp_bind. eapply (wp_cas_live _ _ _ _ (OMutex 0 0 true) _ _ Hl); [by apply calm_mem|].
  cbn iota. eapply finish_wake; done.
Qed.

(** A pulse counts itself, leaves the event unsignaled and wakes every waiter, all under the region lock, and answers the previous state. *)
Lemma event_pulse_run w h i o :
  live w h i o ->
  wp t (event_pulse h) (fun res w' => idle w' /\
    res = fst (spec_event_pulse o) /\
    match res with
    | Ok _ => exists r1,
        r1 ≡ upd_slot i (fun s => set_w0 (obj_word (snd (spec_event_pulse o)))
                                   (set_d (wrap64 (s_d s + 1)) s)) (mem w) /\
        woken i (L i) r1 (mem w') /\ pool_ok (mem w') (clear i L) F
    | Err _ => mem w' ≡ mem w
    end) w.
Proof.
  intros Hl. enter Hl. apply with_lock_spec; [lia|apply (lv_idle _ _ _ _ Hl)|].
  intros w1 Hm1 Hw1. eapply wp_typed_then; [done|done| |];
    destruct o as [c m|ow c d|m g p] eqn:Eo; intros Hty; try done.
  2,3: split; [done|]; intros w3 Hm3 Hw3; (split; [done|]); (split; [done|]); by rewrite Hm3.
  destruct (lookup_handle_Some _ _ _ (lv_handle _ _ _ _ Hl)) as (Hi & Hu & _).
  apply wp_bind. eapply wp_ld_w0_live; [done|done|]. apply wp_bind, wp_read.
  apply wp_bind, wp_write, wp_bind, wp_read. cbn [mem].
  rewrite slot_ptr_upd_slot, decide_True by done. cbn [set_d s_w0].
  pose proof (lv_word _ _ _ _ Hl) as Hword. cbn [obj_word] in Hword.
  apply wp_bind, wp_write. cbn [mem loc ker].
  assert (s_w0 (slot_ptr (mem w1) i) = pack_event g m) as -> by (by rewrite Hm1).
  rewrite clear_event.
  set (r1 := upd_slot i _ (upd_slot i _ (mem w1))).
  assert (r1 ≡ upd_slot i (fun s => set_w0 (pack_event false m) (set_d (wrap64 (s_d s + 1)) s)) (mem w)) as Hr1.
  { subst r1. rewrite upd_slot_upd_slot. rewrite <- Hm1. apply reflexive_eq, upd_slot_ext. done. }
  assert (pool_ok r1 L F) as HP1.
  { rewrite Hr1. apply upd_slot_pool_ok; [done|]. apply (lv_pool _ _ _ _ Hl). }
  apply wp_bind. rewrite <- Hi. eapply (wake_object_spec Hfuel true i L F); [exact Hw1|exact HP1| |].
  { cbn [mem]. apply (used_head _ _ F); [done|]. by rewrite Hr1, slot_ptr_upd_slot, decide_True. }
  intros w2 Hw2 Hwk HP2. apply wp_ret. split; [done|]. intros w3 Hm3 Hw3.
  split; [done|]. split; [cbn [obj_word spec_event_pulse fst]; by rewrite lo32_event|]. exists r1.
  split; [done|]. by rewrite Hm3.
Qed.

(** A stale or foreign handle is refused and nothing changes. *)
Definition refused {A} (w : world Region Local G) (res : result A Error) (w' : world Region Local G) : Prop :=
  idle w' /\ res = Err Invalid /\ mem w' ≡ mem w.

Lemma typed_slot_dead {A} ty (f : Z -> action (result A Error)) w h w1 :
  lookup_handle (mem w) h = None -> mem w1 ≡ mem w ->
  (forall (Q : result A Error -> world Region Local G -> Prop),
    Q (Err Invalid) w1 -> wp t (i <-? typed_slot ty h ;; f i) Q w1).
Proof.
  intros Hh Hm Q HQ. apply wp_bind, wp_typed_slot. rewrite Hm, Hh. by apply wp_ret.
Qed.

(** Every operation on a handle that names no object (a stale handle, a
    free slot) answers [Invalid] and changes nothing. *)
Lemma stale_handle_refused w h n by_owner :
  idle w -> lookup_handle (mem w) h = None ->
  wp t (sem_release h n) (refused w) w /\ wp t (event_set h) (refused w) w /\
  wp t (event_reset h) (refused w) w /\ wp t (event_pulse h) (refused w) w /\
  wp t (mutex_unlock h by_owner) (refused w) w /\ wp t (mutex_kill h by_owner) (refused w) w.
Proof.
  intros Hw Hh.
  assert (forall A ty (f : Z -> action (result A Error)),
    wp t (stat_bump 7 ;;; _ <-? region ;; i <-? typed_slot ty h ;; f i) (refused w) w) as Hop.
  { intros A ty f. apply wp_bind, wp_stat_bump. intros w1 Hc.
    apply wp_bind, (wp_region false); [exact (calm_ready _ _ _ Hc Hw)|].
    apply (typed_slot_dead _ _ w); [done|by apply calm_mem|].
    split; [exact (calm_ready _ _ _ Hc Hw)|]. split; [done|]. by apply calm_mem. }
  repeat split; try (by apply Hop).
  - apply wp_bind, (wp_region false); [done|]. by apply (typed_slot_dead _ _ w).
  - apply wp_bind, (wp_region false); [done|]. apply with_lock_spec; [lia|done|].
    intros w1 Hm1 Hw1. apply (typed_slot_dead _ _ w); [done|done|]. split; [done|].
    intros w3 Hm3 Hw3. split; [done|]. split; [done|]. by rewrite Hm3.
  - unfold mutex_unlock. destruct (by_owner =? 0); [|by apply Hop].
    apply wp_bind, wp_stat_bump. intros w1 Hc. apply wp_ret.
    split; [exact (calm_ready _ _ _ Hc Hw)|]. split; [done|]. by apply calm_mem.
  - unfold mutex_kill. destruct (by_owner =? 0); [|by apply Hop].
    apply wp_bind, wp_stat_bump. intros w1 Hc. apply wp_ret.
    split; [exact (calm_ready _ _ _ Hc Hw)|]. split; [done|]. by apply calm_mem.
Qed.
End signals.
