(* ===== verification/Signals.v ===== *)
(** * Signals: the contract of the operations on objects

    What a caller is promised of the operations that change an object's state,
    in one specification: the answer, the object afterwards, and whether the
    waiters are woken.  [operations_refine] says that the code keeps it. *)
From S2P Require Import Prelude Prog Config Region Kernel Lock Nodes WaitLists NodePool Init Slots Objects Words ObjectsOk.

Inductive op : Type :=
| OpRelease (n : Z)
| OpSet
| OpReset
| OpPulse
| OpUnlock (owner : Z)
| OpKill (owner : Z).

(** The answer and, if the state is stored to, the object after it and whether
    its waiters are woken. *)
Definition spec_op (c : op) (o : obj) : result Z Error * option (obj * bool) :=
  match c, o with
  | OpRelease n, OSem count max =>
      if count + n <=? max then (Ok count, Some (OSem (count + n) max, true)) else (Err Overflow, None)
  | OpSet, OEvent manual signaled p =>
      (Ok (Z.b2z signaled), if signaled then None else Some (OEvent manual true p, true))
  | OpReset, OEvent manual signaled p =>
      (Ok (Z.b2z signaled), if signaled then Some (OEvent manual false p, false) else None)
  | OpPulse, OEvent manual signaled p =>
      (Ok (Z.b2z signaled), Some (OEvent manual false (wrap64 (p + 1)), true))
  | OpUnlock by_owner, OMutex owner count dead =>
      if by_owner =? 0 then (Err Invalid, None)
      else if negb (owner =? by_owner) then (Err Perm, None)
      else if count =? 1 then (Ok 1, Some (OMutex 0 0 dead, true))
      else (Ok count, Some (OMutex owner (count - 1) dead, false))
  | OpKill by_owner, OMutex owner count dead =>
      if by_owner =? 0 then (Err Invalid, None)
      else if negb (owner =? by_owner) then (Err Perm, None)
      else (Ok 0, Some (OMutex 0 0 true, true))
  | _, _ => (Err Invalid, None)
  end.

Definition op_ok (c : op) : Prop := match c with OpRelease n => 0 <= n | _ => True end.

(** The words of an object in its slot. *)
Definition store_obj (o : obj) (s : Slot) : Slot :=
  set_w0 (obj_word o) (match o with OEvent _ _ p => set_d p s | _ => s end).

(** The object is stored; its waiters, if they are woken, are off its list and
    their futex words have moved. *)
Definition stored (i : Z) (o : obj) (wakes : bool) (L : Z -> list Z) (F : list Z) (r r' : Region) : Prop :=
  exists r1, r1 ≡ upd_slot i (store_obj o) r /\
    (if wakes then woken i (L i) r1 r' else r' ≡ r1) /\
    pool_ok r' (if wakes then clear i L else L) F.

Section signals.
Context `{!Config} {G : Type} `{!Kernel Region G} {t : nat} `{!QuietKernel G t}.
Context (Hfuel : (Z.to_nat NODE_COUNT < loop_fuel)%nat).
Context (L : Z -> list Z) (F : list Z).
Implicit Types (w : world Region Local G).

(** The call; the kill answers nothing, written 0 here. *)
Definition call (c : op) (h : Z) : action (result Z Error) :=
  match c with
  | OpRelease n => sem_release h n
  | OpSet => event_set h
  | OpReset => event_reset h
  | OpPulse => event_pulse h
  | OpUnlock owner => mutex_unlock h owner
  | OpKill owner => r <- mutex_kill h owner ;; Ret (match r with Ok _ => Ok 0 | Err e => Err e end)
  end.

Lemma stored_slot i f g r : (f (slot_ptr r i) = g (slot_ptr r i)) -> upd_slot i f r = upd_slot i g r.
Proof. intros E. unfold upd_slot. by rewrite E. Qed.

Lemma effect_stored i o o' b r r' :
  repr o (slot_ptr r i) -> (forall m g p, o' = OEvent m g p -> exists g', o = OEvent m g' p) ->
  effect i o' b L F r r' -> stored i o' b L F r r'.
Proof.
  intros (_ & _ & _ & Hd) Ho (r1 & H1 & H2 & H3). exists r1. split; [|done].
  rewrite H1. apply reflexive_eq, stored_slot. unfold put_obj, store_obj.
  destruct o' as [| |m g p]; [done..|]. destruct (Ho m g p eq_refl) as [g' ->]. f_equal.
  destruct (slot_ptr r i). cbn in *. by subst.
Qed.

(** C7: The operations on objects keep their contract.  On every handle that
    names an object, each of release, set, reset, pulse, unlock and kill returns;
    it answers what the specification says for that object, errors included;
    where the specification stores, the object in the slot is the specified
    one, nothing else of the region but the woken waiters has changed, and
    exactly where it says so every waiter was taken off the object's list with
    its futex word moved; where it does not, the region is unchanged. *)
Theorem operations_refine w h i o c :
  live (t := t) L F w h i o -> op_ok c ->
  wp t (call c h) (fun res w' => ready (t := t) false w' /\ res = fst (spec_op c o) /\
    match snd (spec_op c o) with
    | Some (o', wakes) => stored i o' wakes L F (mem w) (mem w')
    | None => mem w' ≡ mem w
    end) w.
Proof.
  intros Hl Hc. pose proof (lv_repr _ _ _ _ _ _ Hl) as Hr.
  destruct c as [n| | | |ow|ow]; cbn [call].
  - eapply wp_mono; [|by apply (sem_release_run Hfuel L F w h i o n)]. intros res w' (Hw' & -> & He).
    split; [done|]. destruct o as [k m| |]; try done. cbn [spec_op spec_sem_release] in *.
    destruct (k + n <=? m); (split; [done|]); [|done]. by eapply effect_stored.
  - eapply wp_mono; [|by apply (event_set_run Hfuel L F w h i o)]. intros res w' (Hw' & -> & He).
    split; [done|]. destruct o as [| |m [] p]; try done. split; [done|]. cbn in He |- *.
    eapply effect_stored; [exact Hr| |exact He]. intros ? ? ? [= <- <- <-]. eauto.
  - eapply wp_mono; [|by apply (event_reset_run Hfuel L F w h i o)]. intros res w' (Hw' & -> & He).
    split; [done|]. destruct o as [| |m [] p]; try done. split; [done|]. cbn in He |- *.
    eapply effect_stored; [exact Hr| |exact He]. intros ? ? ? [= <- <- <-]. eauto.
  - eapply wp_mono; [|by apply (event_pulse_run Hfuel L F w h i o)]. intros res w' (Hw' & -> & He).
    split; [done|]. destruct o as [| |m g p]; try done. split; [done|]. cbn [spec_op spec_event_pulse fst snd] in *.
    destruct He as (r1 & H1 & H2 & H3). exists r1. split; [|done]. rewrite H1.
    apply reflexive_eq, stored_slot. unfold store_obj. destruct Hr as (_ & _ & _ & ->). done.
  - eapply wp_mono; [|by apply (mutex_unlock_run Hfuel L F w h i o ow)]. intros res w' (Hw' & -> & He).
    split; [done|]. destruct o as [|x k d|]; try done. cbn [spec_op spec_mutex_unlock] in *.
    destruct (ow =? 0); [done|]. destruct (x =? ow); [|done]. cbn [negb] in *.
    destruct (Z.eqb_spec k 1) as [->|Hk]; cbn [fst snd] in *; (split; [done|]).
    + by eapply effect_stored.
    + rewrite (proj2 (Z.eqb_neq _ _)) in He by done. by eapply effect_stored.
  - eapply wp_frame_bind; [by apply (mutex_kill_run Hfuel L F w h i o ow)|]. intros res w' (Hw' & -> & He).
    apply wp_ret. split; [done|]. destruct o as [|x k d|]; try done. cbn [spec_op spec_mutex_kill] in *.
    destruct (ow =? 0); [done|]. destruct (x =? ow); [|done]. cbn [negb fst snd] in *. split; [done|].
    by eapply effect_stored.
Qed.
End signals.
