(* ===== verification/Acquire.v ===== *)
(** * Acquire: acquiring and rolling back, alone

    [try_acquire], [is_locked] and [rollback_acquire] on an object nobody else
    touches: they act as [spec_acquire] and [spec_rollback] on the abstract
    object, and run no system call ([keeps]). *)
From S2P Require Import Prelude Prog Config Region Kernel Objects Words ObjectsOk.

Definition spec_rollback (owner : Z) (od : bool) (o : obj) : obj :=
  match o with
  | OSem count max => OSem (count + 1) max
  | OMutex cur count dead =>
      if count =? 1 then OMutex 0 0 od else OMutex owner (count - 1) dead
  | OEvent manual signaled p => if manual || signaled then o else OEvent manual true p
  end.

(** An auto-reset event that only a pulse makes acquirable: the acquisition
    does not change it, so there is nothing to undo. *)
Definition pulse_only (o : obj) : bool :=
  match o with OEvent manual signaled _ => negb manual && negb signaled | _ => false end.

Lemma rollback_undoes owner seq o od o' :
  obj_wf o -> pulse_only o = false ->
  spec_acquire owner seq o = Some (od, o') -> spec_rollback owner od o' = o.
Proof.
  intros Hwf Hp Hs. destruct o as [c m|ow c d|m g p]; simpl in *.
  - destruct (Z.ltb_spec 0 c); simplify_eq. simpl. f_equal. lia.
  - destruct (Z.leb_spec 0x7fffffff c); [done|].
    destruct (Z.eqb_spec ow 0) as [->|Ho]; simplify_eq; simpl.
    + assert (c = 0) as -> by lia. done.
    + destruct (Z.eqb_spec ow owner) as [->|]; simplify_eq. simpl.
      rewrite (proj2 (Z.eqb_neq (c + 1) 1)) by lia. f_equal. lia.
  - destruct m, g; simplify_eq; simpl in *; try done. by destruct (negb _); simplify_eq.
Qed.

Section acquire.
Context `{!Config} {G : Type} `{!Kernel Region G} {t : nat}.
Context (Hfuel : (0 < loop_fuel)%nat).
Implicit Types (w : world Region Local G).

(** Only packed words change; no system call, no local state. *)
Definition keeps (w w' : world Region Local G) : Prop :=
  loc w' = loc w /\ ker w' = ker w /\ nodes (mem w') = nodes (mem w) /\
  header (mem w') = header (mem w) /\
  forall j, set_w0 0 (slot_ptr (mem w') j) = set_w0 0 (slot_ptr (mem w) j).

Lemma keeps_refl w : keeps w w.
Proof. done. Qed.

Lemma keeps_trans w1 w2 w3 : keeps w1 w2 -> keeps w2 w3 -> keeps w1 w3.
Proof.
  intros (A1&A2&A3&A4&A5) (B1&B2&B3&B4&B5). split_and!; try congruence.
Qed.

(** Slot [i] goes to object [o]; every other slot stays. *)
Definition becomes (i : Z) (o : obj) (w w' : world Region Local G) : Prop :=
  keeps w w' /\ (forall j, j <> i -> slot_ptr (mem w') j = slot_ptr (mem w) j) /\
  repr o (slot_ptr (mem w') i).

Lemma becomes_refl i o w : repr o (slot_ptr (mem w) i) -> becomes i o w w.
Proof. by split; [apply keeps_refl|]. Qed.

Lemma becomes_trans i o1 o2 w w1 w2 : becomes i o1 w w1 -> becomes i o2 w1 w2 -> becomes i o2 w w2.
Proof.
  intros (K1 & S1 & _) (K2 & S2 & R2). split; [by eapply keeps_trans|]. split; [|done].
  intros j Hj. by rewrite S2, S1.
Qed.

Lemma becomes_put i o o' w :
  repr o (slot_ptr (mem w) i) -> obj_wf o' -> obj_type o' = obj_type o ->
  (forall m g p, o' = OEvent m g p -> s_d (slot_ptr (mem w) i) = p) ->
  becomes i o' w (World (upd_slot i (put_obj o') (mem w)) (loc w) (ker w)).
Proof.
  intros Ho Hwf Hty Hd. split; [|split].
  - repeat split; try done. intros j. cbn [mem]. rewrite slot_ptr_upd_slot.
    by destruct (decide (i = j)) as [<-|].
  - intros j Hj. cbn [mem]. by rewrite slot_ptr_upd_slot, decide_False.
  - cbn [mem]. rewrite slot_ptr_upd_slot, decide_True by done. by eapply repr_put.
Qed.

(** A successful compare-and-swap from one representation to another. *)
Lemma wp_cas_obj i o o' (Q : bool -> world Region Local G -> Prop) w :
  repr o (slot_ptr (mem w) i) -> obj_wf o' -> obj_type o' = obj_type o ->
  (forall m g p, o' = OEvent m g p -> s_d (slot_ptr (mem w) i) = p) ->
  (forall w', becomes i o' w w' -> Q true w') ->
  wp t (cas64 i (obj_word o) (obj_word o')) Q w.
Proof.
  intros Ho Hwf Hty Hd HQ. apply wp_cas64; [apply (proj1 (proj2 Ho))|].
  by apply HQ, (becomes_put i o).
Qed.

Lemma wp_ld_word i o (Q : Z -> world Region Local G -> Prop) w :
  repr o (slot_ptr (mem w) i) -> Q (obj_word o) w -> wp t (ld_w0 i) Q w.
Proof. intros Ho HQ. apply wp_read. by rewrite (proj1 (proj2 Ho)). Qed.

Lemma fuel_S : exists n, loop_fuel = S n.
Proof. destruct loop_fuel; [lia | eauto]. Qed.

(** What [try_acquire] must do on object [o] in slot [i]. *)
Definition acquires (i owner seq : Z) (o : obj) (w : world Region Local G)
  (res : option bool) (w' : world Region Local G) : Prop :=
  match spec_acquire owner seq o with
  | Some (od, o') => res = Some od /\ becomes i o' w w'
  | None => res = None /\ w' = w
  end.

Lemma pulse_check_spec i owner seq m p w :
  repr (OEvent m false p) (slot_ptr (mem w) i) ->
  wp t (pulse_check i seq) (acquires i owner seq (OEvent m false p) w) w.
Proof.
  intros Ho. apply wp_bind, wp_read. destruct Ho as (H1&H2&H3&H4).
  rewrite H4. unfold acquires. simpl.
  destruct (p =? seq); simpl; apply wp_ret; [done|]. split; [done|]. by apply becomes_refl.
Qed.

Lemma try_acquire_spec i owner seq o w :
  0 < owner < W32 -> repr o (slot_ptr (mem w) i) ->
  wp t (try_acquire i owner seq) (acquires i owner seq o w) w.
Proof.
  intros Hown Ho. apply wp_bind, wp_read. rewrite (proj1 Ho).
  pose proof (proj1 (proj2 (proj2 Ho))) as Hwf.
  destruct o as [c m|ow c d|m g p]; cbn [obj_type]; cbn in Hwf.
  - change (TYPE_SEM =? TYPE_SEM) with true. cbn iota. destruct fuel_S as [n ->]. cbn [acquire_sem].
    apply wp_bind, (wp_ld_word _ _ _ _ Ho). cbn [obj_word]. rewrite lo32_sem, hi32_sem by lia.
    unfold acquires. cbn [spec_acquire].
    destruct (Z.eqb_spec c 0) as [->|Hc]; [by apply wp_ret|].
    rewrite (proj2 (Z.ltb_lt 0 c)) by lia.
    apply wp_bind, (wp_cas_obj _ _ (OSem (c - 1) m) _ _ Ho); [cbn; lia|done|done|].
    intros w' Hw'. by apply wp_ret.
  - change (TYPE_MUTEX =? TYPE_SEM) with false. change (TYPE_MUTEX =? TYPE_MUTEX) with true.
    cbn iota. destruct fuel_S as [n ->]. cbn [acquire_mutex].
    apply wp_bind, (wp_ld_word _ _ _ _ Ho). cbn [obj_word].
    rewrite lo32_mutex, m_count_mutex, m_dead_mutex by lia.
    unfold acquires. cbn [spec_acquire].
    destruct (Z.leb_spec 0x7fffffff c) as [Hc|Hc]; [by apply wp_ret|].
    destruct (Z.eqb_spec ow 0) as [->|How].
    + apply wp_bind, (wp_cas_obj _ _ (OMutex owner (c + 1) false) _ _ Ho); [cbn; lia|done|done|].
      intros w' Hw'. by apply wp_ret.
    + destruct (Z.eqb_spec ow owner) as [->|Hne]; [|by apply wp_ret].
      apply wp_bind, (wp_cas_obj _ _ (OMutex owner (c + 1) d) _ _ Ho); [cbn; lia|done|done|].
      intros w' Hw'. by apply wp_ret.
  - change (TYPE_EVENT =? TYPE_SEM) with false. change (TYPE_EVENT =? TYPE_MUTEX) with false.
    change (TYPE_EVENT =? TYPE_EVENT) with true. cbn iota.
    apply wp_bind, (wp_ld_word _ _ _ _ Ho). cbn [obj_word].
    rewrite lo32_event, manual_event, event_flag, negb_involutive.
    destruct g; [|by apply pulse_check_spec].
    destruct m; cbn [negb]; [by apply wp_ret; split; [|apply becomes_refl]|].
    destruct fuel_S as [n ->]. cbn [claim_event].
    apply wp_bind, wp_bind, (wp_ld_word _ _ _ _ Ho). cbn [obj_word]. rewrite lo32_event.
    cbn [Z.b2z Z.eqb]. rewrite clear_event.
    change (pack_event true false) with (obj_word (OEvent false true p)).
    apply wp_bind, (wp_cas_obj _ _ (OEvent false false p) _ _ Ho); try done.
    { intros m' g' p' [= <- <- <-]. apply (proj2 (proj2 (proj2 Ho))). }
Qed.

(** The read-only check agrees with the acquisition. *)
Lemma is_locked_spec i owner seq o w :
  0 < owner < W32 -> repr o (slot_ptr (mem w) i) ->
  wp t (is_locked i owner seq) (fun b w' => w' = w /\
    b = match spec_acquire owner seq o with Some _ => true | None => false end) w.
Proof.
  intros Hown Ho. apply wp_bind, (wp_ld_word _ _ _ _ Ho), wp_bind, wp_read.
  rewrite (proj1 Ho). pose proof (proj1 (proj2 (proj2 Ho))) as Hwf.
  destruct o as [c m|ow c d|m g p]; cbn [obj_type obj_word spec_acquire]; cbn in Hwf.
  - change (TYPE_SEM =? TYPE_SEM) with true. apply wp_ret. rewrite lo32_sem by lia.
    by destruct (0 <? c).
  - change (TYPE_MUTEX =? TYPE_SEM) with false. change (TYPE_MUTEX =? TYPE_MUTEX) with true.
    apply wp_ret. split; [done|]. rewrite lo32_mutex, m_count_mutex by lia.
    destruct (Z.leb_spec 0x7fffffff c), (Z.ltb_spec c 0x7fffffff); try lia.
    all: by destruct (ow =? 0), (ow =? owner).
  - change (TYPE_EVENT =? TYPE_SEM) with false. change (TYPE_EVENT =? TYPE_MUTEX) with false.
    change (TYPE_EVENT =? TYPE_EVENT) with true. cbn iota.
    rewrite lo32_event, event_flag, negb_involutive. destruct g; [by apply wp_ret|].
    apply wp_bind, wp_read. rewrite (proj2 (proj2 (proj2 Ho))). apply wp_ret.
    split; [done|]. by destruct (p =? seq).
Qed.

Lemma rollback_acquire_spec i owner od o w :
  0 < owner < W32 -> repr o (slot_ptr (mem w) i) ->
  obj_wf (spec_rollback owner od o) ->
  wp t (rollback_acquire i owner od)
    (fun _ w' => becomes i (spec_rollback owner od o) w w') w.
Proof.
  intros Hown Ho Hwf'. apply wp_bind, wp_read. rewrite (proj1 Ho).
  pose proof (proj1 (proj2 (proj2 Ho))) as Hwf.
  destruct o as [c m|ow c d|m g p]; cbn [obj_type spec_rollback] in *; cbn in Hwf.
  - change (TYPE_SEM =? TYPE_SEM) with true. cbn iota. destruct fuel_S as [n ->]. cbn [rollback_sem].
    apply wp_bind, (wp_ld_word _ _ _ _ Ho). cbn [obj_word].
    cbn in Hwf'. rewrite lo32_sem, hi32_sem by lia.
    rewrite wrap32_small by lia.
    apply wp_bind, (wp_cas_obj _ _ (OSem (c + 1) m) _ _ Ho); try done.
  - change (TYPE_MUTEX =? TYPE_SEM) with false. change (TYPE_MUTEX =? TYPE_MUTEX) with true.
    cbn iota. destruct fuel_S as [n ->]. cbn [rollback_mutex].
    apply wp_bind, (wp_ld_word _ _ _ _ Ho). cbn [obj_word].
    rewrite m_count_mutex, m_dead_mutex by lia.
    destruct (Z.eqb_spec c 1) as [->|Hc1].
    + apply wp_bind, (wp_cas_obj _ _ (OMutex 0 0 od) _ _ Ho); try done.
    + cbn in Hwf'. rewrite wrap32_small by lia.
      apply wp_bind, (wp_cas_obj _ _ (OMutex owner (c - 1) d) _ _ Ho); try done.
  - change (TYPE_EVENT =? TYPE_SEM) with false. change (TYPE_EVENT =? TYPE_MUTEX) with false.
    change (TYPE_EVENT =? TYPE_EVENT) with true. cbn iota. destruct fuel_S as [n ->].
    cbn [rollback_event]. apply wp_bind, (wp_ld_word _ _ _ _ Ho). cbn [obj_word].
    rewrite manual_event, lo32_event, event_flag.
    destruct m, g; cbn [negb andb orb]; try by apply wp_ret, becomes_refl.
    rewrite set_event. change (pack_event false false) with (obj_word (OEvent false false p)).
    apply wp_bind, (wp_cas_obj _ _ (OEvent false true p) _ _ Ho); try done.
    { intros m' g' p' [= <- <- <-]. apply (proj2 (proj2 (proj2 Ho))). }
Qed.

(** C17: Acquiring an object does to it exactly what its kind prescribes (one
    unit of a semaphore, one recursion level of a mutex that is free or the
    caller's own, the signal of an auto-reset event), answers whether the
    mutex's last owner had died, touches no other slot and makes no system
    call; the read-only test foretells whether it succeeds. *)
Theorem try_acquire_refines i owner seq o w :
  0 < owner < W32 -> repr o (slot_ptr (mem w) i) ->
  wp t (b <- is_locked i owner seq ;; r <- try_acquire i owner seq ;; Ret (b, r)) (fun res w' =>
    match spec_acquire owner seq o with
    | Some (od, o') => res = (true, Some od) /\ becomes i o' w w'
    | None => res = (false, None) /\ w' = w
    end) w.
Proof.
  intros Hown Ho. eapply wp_frame_bind; [by apply is_locked_spec|]. intros b w1 (-> & ->).
  eapply wp_frame_bind; [by apply (try_acquire_spec i owner seq o)|]. intros r w1 Hr.
  apply wp_ret. unfold acquires in Hr.
  destruct (spec_acquire owner seq o) as [[od o']|]; destruct Hr as [-> Hr]; by split.
Qed.
End acquire.
