(* ===== verification/Wait.v ===== *)
(** * Wait: WAIT_ANY and WAIT_ALL

    [try_satisfy], [wait] and its two entry points, [wait_any] and
    [wait_all].  The body of [wait] is split at its phases: the argument
    check, the lock-free fast path, the section under the region lock, the
    bounded spin, the sleep and the detach.  [Instant::now] is
    [ClockMonotonic]; a [Duration] is a number of nanoseconds. *)
From S2P Require Import Prelude Prog Config Region Lock Nodes Policy Sweep Init Objects.

Definition SECS5 : Z := 5 * 1000000000.

Definition is_waitable (ty : Z) : bool :=
  (ty =? TYPE_SEM) || (ty =? TYPE_MUTEX) || (ty =? TYPE_EVENT).

(** Duplicate handles. *)
Fixpoint has_dup (handles : list Z) : bool :=
  match handles with
  | [] => false
  | h :: rest => existsb (Z.eqb h) rest || has_dup rest
  end.

Definition bad_args (handles : list Z) (owner : Z) : bool :=
  (owner =? 0) || (length handles =? 0)%nat || (MAX_WAIT_COUNT <? Z.of_nat (length handles))
  || has_dup handles.

Definition zero_seqs : list Z := replicate 64 0.

(** [nodes\[i\]] and [entry_seqs\[i\]]: zero-initialised arrays. *)
Definition arr (l : list Z) (i : nat) : Z := nth i l 0.

Section wait.
Context `{!Config}.

(** ** try_satisfy *)
Fixpoint satisfy_any (i : nat) (handles : list Z) (owner : Z) (seqs : list Z)
  : action (option WaitOutcome) :=
  match handles with
  | [] => Ret None
  | h :: rest =>
      got <- try_acquire (handle_index h) owner (arr seqs i) ;;
      match got with
      | Some owner_dead => Ret (Some (Signaled (Z.of_nat i) owner_dead))
      | None => satisfy_any (S i) rest owner seqs
      end
  end.

Fixpoint rollback_all (acquired : list (Z * bool)) (owner : Z) : action unit :=
  match acquired with
  | [] => Ret tt
  | (idx, od) :: rest => rollback_acquire idx owner od ;;; rollback_all rest owner
  end.

Fixpoint satisfy_all (i : nat) (handles : list Z) (owner : Z) (seqs : list Z)
  (acquired : list (Z * bool)) (owner_dead : bool) : action (option WaitOutcome) :=
  match handles with
  | [] => Ret (Some (Signaled 0 owner_dead))
  | h :: rest =>
      got <- try_acquire (handle_index h) owner (arr seqs i) ;;
      match got with
      | Some od =>
          satisfy_all (S i) rest owner seqs (acquired ++ [(handle_index h, od)]) (owner_dead || od)
      | None => rollback_all acquired owner ;;; Ret None
      end
  end.

Definition try_satisfy (handles : list Z) (owner : Z) (seqs : list Z) (all : bool)
  : action (option WaitOutcome) :=
  if negb all then satisfy_any 0 handles owner seqs
  else satisfy_all 0 handles owner seqs [] false.

(** ** The fast path *)
Fixpoint fast_objects (i : nat) (handles : list Z) (seqs : list Z) : action (bool * list Z) :=
  match handles with
  | [] => Ret (true, seqs)
  | h :: rest =>
      s <- slot h ;;
      match s with
      | None => Ret (false, seqs)
      | Some idx =>
          ty <- ld_obj_type idx ;;
          seqs <- (if ty =? TYPE_EVENT then d <- ld_d idx ;; Ret (<[i := d]> seqs)
                   else Ret (<[i := 0]> seqs)) ;;
          if is_waitable ty then fast_objects (S i) rest seqs else Ret (false, seqs)
      end
  end.

(** [matches!(r.slot(alert), Some(s) if s.obj_type == TYPE_EVENT)] *)
Definition alert_valid (alert : Z) : action bool :=
  if alert =? 0 then Ret true
  else
    s <- slot alert ;;
    match s with
    | None => Ret false
    | Some idx => ty <- ld_obj_type idx ;; Ret (ty =? TYPE_EVENT)
    end.

(** Whether the alert event is signaled; the handle is looked up again and
    a failed lookup panics ([unwrap], [expect]). *)
Definition alert_fired (alert : Z) : action bool :=
  if alert =? 0 then Ret false
  else
    s <- slot alert ;;
    match s with
    | None => Panic
    | Some idx => w <- ld_w0 idx ;; Ret (negb (lo32 w =? 0))
    end.

Definition alerted (handles : list Z) : WaitOutcome :=
  Signaled (Z.of_nat (length handles)) false.

Definition fast_path (handles : list Z) (owner : Z) (timeout : option Z) (all : bool) (alert : Z)
  : action (option WaitOutcome * list Z) :=
  fv <- fast_objects 0 handles zero_seqs ;;
  let seqs := snd fv in
  valid <- (if fst fv : bool then alert_valid alert else Ret false) ;;
  if negb valid then Ret (None, seqs)
  else
    fired <- alert_fired alert ;;
    if fired : bool then Ret (Some (alerted handles), seqs)
    else
      got <- try_satisfy handles owner seqs all ;;
      match got with
      | Some outcome => stat_bump 1 ;;; Ret (Some outcome, seqs)
      | None =>
          if bool_decide (timeout = Some 0) then Ret (Some Timeout, seqs) else Ret (None, seqs)
      end.

(** ** The section under the region lock *)
Inductive locked_result : Type :=
| LockedDone (outcome : WaitOutcome)
| LockedSleep (seq : Z) (remaining : option Z) (nodes seqs : list Z).

Fixpoint validate (i : nat) (handles nodes seqs : list Z) : action (bool * list Z) :=
  match handles with
  | [] => Ret (true, seqs)
  | h :: rest =>
      s <- slot h ;;
      match s with
      | None => Ret (false, seqs)
      | Some idx =>
          ty <- ld_obj_type idx ;;
          if negb (is_waitable ty) then Ret (false, seqs)
          else
            seqs <- (if (length nodes =? 0)%nat && (ty =? TYPE_EVENT)
                     then d <- ld_d idx ;; Ret (<[i := d]> seqs)
                     else Ret seqs) ;;
            validate (S i) rest nodes seqs
      end
  end.

Definition cleanup (nodes : list Z) : action unit := mem_write (waiter_cleanup nodes).

(** Allocate [n] nodes; on exhaustion those already taken are returned. *)
Fixpoint alloc_nodes (n : nat) (nodes : list Z) : action (option (list Z)) :=
  match n with
  | O => Ret (Some nodes)
  | S n' =>
      idx <- node_alloc ;;
      match idx with
      | Some idx => alloc_nodes n' (nodes ++ [idx])
      | None => cleanup nodes ;;; Ret None
      end
  end.

Definition register_if_needed (node obj head : Z) : action unit :=
  reg <- mem_read (fun r => n_registered (node_ptr r node)) ;;
  when (reg =? 0) do mem_write (node_register node (handle_index obj) head).

Fixpoint register_objects (i : nat) (handles nodes : list Z) (head : Z) : action unit :=
  match handles with
  | [] => Ret tt
  | h :: rest =>
      register_if_needed (arr nodes i) h head ;;;
      register_objects (S i) rest nodes head
  end.

Definition n_nodes (handles : list Z) (alert : Z) : nat :=
  (length handles + (if (alert =? 0)%Z then 0 else 1))%nat.

(** Registered: the last look at the objects, and the decision to sleep. *)
Definition check_registered (handles : list Z) (owner : Z) (deadline : option Z)
  (all : bool) (alert : Z) (nodes seqs : list Z) : action locked_result :=
  got <- try_satisfy handles owner seqs all ;;
  match got with
  | Some outcome => cleanup nodes ;;; Ret (LockedDone outcome)
  | None =>
      remaining <- match deadline with
                   | Some dl =>
                       now <- sys ClockMonotonic ;;
                       Ret (if dl <=? now then None else Some (Some (dl - now)))
                   | None => Ret (Some None)
                   end ;;
      match remaining with
      | None => cleanup nodes ;;; Ret (LockedDone Timeout)
      | Some remaining =>
          stat_bump 2 ;;;
          stat_add 9 (Z.of_nat (n_nodes handles alert)) ;;;
          seq <- mem_read (fun r => n_seq (node_ptr r (arr nodes 0))) ;;
          Ret (LockedSleep seq remaining nodes seqs)
      end
  end.

(** From registration to the decision to sleep. *)
Definition register_and_check (handles : list Z) (owner : Z) (deadline : option Z)
  (all : bool) (alert : Z) (nodes seqs : list Z) : action locked_result :=
  let head := arr nodes 0 in
  register_objects 0 handles nodes head ;;;
  (when negb (alert =? 0) do register_if_needed (arr nodes (length handles)) alert head) ;;;
  (* fence(SeqCst): the model is sequentially consistent *)
  check_registered handles owner deadline all alert nodes seqs.

Definition locked_body (handles : list Z) (owner : Z) (deadline : option Z)
  (all : bool) (alert : Z) (nodes seqs : list Z) : action locked_result :=
  vs <- validate 0 handles nodes seqs ;;
  let seqs := snd vs in
  valid <- (if fst vs : bool then alert_valid alert else Ret false) ;;
  if negb valid then cleanup nodes ;;; Ret (LockedDone WaitInvalid)
  else
    fired <- alert_fired alert ;;
    if fired : bool then cleanup nodes ;;; Ret (LockedDone (alerted handles))
    else
      nodes <- (if (length nodes =? 0)%nat then alloc_nodes (n_nodes handles alert) []
                else Ret (Some nodes)) ;;
      match nodes with
      | None => Ret (LockedDone WaitInvalid)
      | Some nodes => register_and_check handles owner deadline all alert nodes seqs
      end.

Definition locked_section (handles : list Z) (owner : Z) (deadline : option Z)
  (all : bool) (alert : Z) (nodes seqs : list Z) : action locked_result :=
  g <- lock_guard ;;
  match g with
  | Err _ => if_lock (cleanup nodes) ;;; Ret (LockedDone WaitInvalid)
  | Ok mask =>
      r <- locked_body handles owner deadline all alert nodes seqs ;;
      guard_drop mask ;;;
      Ret r
  end.

(** ** The bounded spin *)
Inductive spin_result : Type :=
| SpinWon (outcome : WaitOutcome)
| SpinNeutral
| SpinExhausted.

Fixpoint any_locked (i : nat) (handles : list Z) (owner : Z) (seqs : list Z) : action bool :=
  match handles with
  | [] => Ret false
  | h :: rest =>
      b <- is_locked (handle_index h) owner (arr seqs i) ;;
      if b : bool then Ret true else any_locked (S i) rest owner seqs
  end.

Fixpoint all_locked (i : nat) (handles : list Z) (owner : Z) (seqs : list Z) : action bool :=
  match handles with
  | [] => Ret true
  | h :: rest =>
      b <- is_locked (handle_index h) owner (arr seqs i) ;;
      if b : bool then all_locked (S i) rest owner seqs else Ret false
  end.

Definition spin_peek (handles : list Z) (owner : Z) (seqs : list Z) (all : bool) : action bool :=
  b <- any_locked 0 handles owner seqs ;;
  if b : bool then (if negb all then Ret true else all_locked 0 handles owner seqs)
  else Ret false.

Fixpoint spin_loop (spin : nat) (handles : list Z) (owner : Z) (all : bool) (alert : Z)
  (nodes seqs : list Z) : action spin_result :=
  match spin with
  | O => Ret SpinExhausted
  | S spin' =>
      fired <- alert_fired alert ;;
      if fired : bool then
        stat_bump 13 ;;; spin_credit_reward ;;;
        if_lock (cleanup nodes) ;;;
        Ret (SpinWon (alerted handles))
      else
        peek <- spin_peek handles owner seqs all ;;
        got <- (if peek : bool then try_satisfy handles owner seqs all else Ret None) ;;
        match got with
        | Some outcome =>
            stat_bump 13 ;;;
            if_lock (cleanup nodes) ;;;
            spin_credit_reward ;;;
            Ret (SpinWon outcome)
        | None =>
            reg <- mem_read (fun r => n_registered (node_ptr r (arr nodes 0))) ;;
            if reg =? 0 then Ret SpinNeutral
            else spin_loop spin' handles owner all alert nodes seqs
        end
  end.

Definition spin_phase (handles : list Z) (owner : Z) (all : bool) (alert : Z)
  (nodes seqs : list Z) : action (option WaitOutcome) :=
  spin <- spin_budget ;;
  if 0 <? spin then
    s <- spin_loop (Z.to_nat spin) handles owner all alert nodes seqs ;;
    match s with
    | SpinWon outcome => Ret (Some outcome)
    | SpinNeutral => Ret None
    | SpinExhausted => stat_bump 14 ;;; spin_credit_penalize ;;; Ret None
    end
  else Ret None.

(** ** The sleep *)
Fixpoint tail_spin (fuel : nat) (head seq dl : Z) : action unit :=
  match fuel with
  | O => OutOfFuel
  | S fuel' =>
      now <- sys ClockMonotonic ;;
      if now <? dl then
        s <- mem_read (fun r => n_seq (node_ptr r head)) ;;
        if negb (s =? seq) then Ret tt else tail_spin fuel' head seq dl
      else Ret tt
  end.

(** The park length, or [None] when the remainder was spun out. *)
Definition park_slice (head seq : Z) (remaining : option Z) : action (option (option Z)) :=
  let slice := if debug_enabled
               then Some (match remaining with None => SECS5 | Some r => Z.min r SECS5 end)
               else remaining in
  match spin_tail, slice with
  | Some tail, Some rest =>
      if tail <? rest then
        can <- tail_budget_can tail ;;
        Ret (Some (if can : bool then Some (rest - tail) else slice))
      else
        took <- tail_budget_take rest ;;
        if took : bool then
          now <- sys ClockMonotonic ;;
          tail_spin loop_fuel head seq (now + rest) ;;;
          Ret None
        else Ret (Some slice)
  | _, _ => Ret (Some slice)
  end.

(** [debug_dump_stuck_wait]; what it reads goes to the log only. *)
Fixpoint dump_objects (handles : list Z) (owner : Z) : action unit :=
  match handles with
  | [] => Ret tt
  | h :: rest =>
      s <- slot h ;;
      match s with
      | Some idx =>
          d <- ld_d idx ;;
          is_locked idx owner d ;;;
          pid <- mem_read (fun r => s_pid (slot_ptr r idx)) ;;
          pid_alive pid ;;;
          dump_objects rest owner
      | None => dump_objects rest owner
      end
  end.

Definition debug_dump_stuck_wait (handles : list Z) (owner alert : Z) : action unit :=
  if_lock (dump_objects (handles ++ (if alert =? 0 then [] else [alert])) owner).

Definition wake_latency (head : Z) : action unit :=
  ts <- mem_read (fun r => n_wake_ts (node_ptr r head)) ;;
  if negb (ts =? 0) then
    now <- sys ClockMonotonic ;;
    let lat_us := u64_saturating_sub now ts / 1000 in
    stat_bump 10 ;;; stat_add 11 lat_us ;;; stat_max 12 lat_us
  else Ret tt.

(** What is done with the answer of [futex_wait]; returns [last_dump]. *)
Definition after_futex (ret : Z) (handles : list Z) (owner alert : Z) (deadline : option Z)
  (last_dump : Z) : action Z :=
  if (ret =? 0) || (ret =? EAGAIN) then Ret last_dump
  else if ret =? ETIMEDOUT then
    auto_sweep_dead ;;;
    if debug_enabled then
      early <- match deadline with
               | None => Ret true
               | Some dl => now <- sys ClockMonotonic ;; Ret (now <? dl)
               end ;;
      if negb early then Ret last_dump
      else
        now <- sys ClockMonotonic ;;
        if SECS5 <=? now - last_dump then
          debug_dump_stuck_wait handles owner alert ;;;
          sys ClockMonotonic
        else Ret last_dump
    else Ret last_dump
  else Ret last_dump.

Fixpoint any_registered (nodes : list Z) : action bool :=
  match nodes with
  | [] => Ret false
  | n :: rest =>
      reg <- mem_read (fun r => n_registered (node_ptr r n)) ;;
      if negb (reg =? 0) then Ret true else any_registered rest
  end.

Definition detach_nodes (nodes : list Z) : action unit :=
  b <- any_registered nodes ;;
  if b : bool
  then if_lock (mem_write (fun r => foldl (fun r idx => node_detach idx r) r nodes))
  else Ret tt.

(** ** The loop *)
Fixpoint wait_loop (fuel : nat) (handles : list Z) (owner : Z) (deadline : option Z)
  (all : bool) (alert : Z) (nodes seqs : list Z) (last_dump : Z) : action WaitOutcome :=
  match fuel with
  | O => OutOfFuel
  | S fuel' =>
      l <- locked_section handles owner deadline all alert nodes seqs ;;
      match l with
      | LockedDone outcome => Ret outcome
      | LockedSleep seq remaining nodes seqs =>
          let head := arr nodes 0 in
          won <- spin_phase handles owner all alert nodes seqs ;;
          match won with
          | Some outcome => Ret outcome
          | None =>
              auto_sweep_dead ;;;
              slice <- park_slice head seq remaining ;;
              match slice with
              | None => wait_loop fuel' handles owner deadline all alert nodes seqs last_dump
              | Some slice =>
                  stat_bump 3 ;;;
                  ret <- futex_wait head seq slice ;;
                  (when ((ret =? 0) && debug_enabled) do wake_latency head) ;;;
                  last_dump <- after_futex ret handles owner alert deadline last_dump ;;
                  detach_nodes nodes ;;;
                  wait_loop fuel' handles owner deadline all alert nodes seqs last_dump
              end
          end
      end
  end.

Definition wait (handles : list Z) (owner : Z) (timeout : option Z) (all : bool) (alert : Z)
  : action WaitOutcome :=
  if bad_args handles owner then Ret WaitInvalid
  else
    r <- region ;;
    match r with
    | Err _ => Ret WaitInvalid
    | Ok _ =>
        stat_bump 0 ;;;
        deadline <- match timeout with
                    | Some d => now <- sys ClockMonotonic ;; Ret (Some (now + d))
                    | None => Ret None
                    end ;;
        start <- sys ClockMonotonic ;;
        fast <- fast_path handles owner timeout all alert ;;
        match fst fast with
        | Some outcome => Ret outcome
        | None => wait_loop loop_fuel handles owner deadline all alert [] (snd fast) start
        end
    end.

Definition wait_any (handles : list Z) (owner : Z) (timeout : option Z) (alert : Z)
  : action WaitOutcome := wait handles owner timeout false alert.
Definition wait_all (handles : list Z) (owner : Z) (timeout : option Z) (alert : Z)
  : action WaitOutcome := wait handles owner timeout true alert.
End wait.

(** C38: The kernel reports a failed futex wait by a positive errno, which
    [futex_wait] negates; the tests for ETIMEDOUT and EAGAIN that follow compare
    with the positive values, so neither ever holds: after a timeout the dead
    are not swept and a stuck wait is never reported. *)
Theorem timeout_arm_dead `{!Config} {G} `{!Kernel Region G} t head seq slice handles owner alert deadline last m l g z g' :
  kcall t (FutexWait head seq slice) m g = Answer z g' -> 0 <= z ->
  run t (ret <- futex_wait head seq slice ;; after_futex ret handles owner alert deadline last) (World m l g)
  = (Done last, World m l g').
Proof.
  intros Hk Hz. cbn. rewrite Hk. destruct (Z.eqb_spec z 0) as [->|Hne]; [done|]. cbn [bind].
  unfold after_futex, EAGAIN, ETIMEDOUT.
  rewrite (proj2 (Z.eqb_neq (- z) 0)), (proj2 (Z.eqb_neq (- z) 11)), (proj2 (Z.eqb_neq (- z) 110)) by lia.
  done.
Qed.
