(* ===== verification/NodeSets.v ===== *)
(** * NodeSets: the fixed array in which a wait keeps its nodes

    core.rs keeps the nodes of one wait in [NodeSet], an array on the stack of
    [MAX_WAIT_COUNT + 1] indices with a length, and an index or a push out of
    range panics.  Wait passes the indices as a list.  Here are the array's own
    operations, a panic written as [None], and the reasons the list may stand
    for it: every operation does to [iter] what the list operation does, and
    the nodes one admissible wait takes always fit. *)
From S2P Require Import Prelude Prog Config Region Nodes Wait.

Definition NODE_SET_SIZE : nat := Z.to_nat MAX_WAIT_COUNT + 1.

Record NodeSet := { ns_idx : list Z; ns_len : nat }.

Definition node_set_new : NodeSet := {| ns_idx := replicate NODE_SET_SIZE 0; ns_len := 0 |}.

(** [self.idx\[self.len\] = v] panics when the array is full. *)
Definition node_set_push (v : Z) (s : NodeSet) : option NodeSet :=
  if (ns_len s <? length (ns_idx s))%nat
  then Some {| ns_idx := <[ns_len s := v]> (ns_idx s); ns_len := S (ns_len s) |}
  else None.

Definition node_set_is_empty (s : NodeSet) : bool := (ns_len s =? 0)%nat.

Definition node_set_clear (s : NodeSet) : NodeSet := {| ns_idx := ns_idx s; ns_len := 0 |}.

Definition node_set_iter (s : NodeSet) : list Z := take (ns_len s) (ns_idx s).

(** [Index::index] looks at the whole array, past [len] as well. *)
Definition node_set_index (s : NodeSet) (i : nat) : option Z := ns_idx s !! i.

(** [waiter_cleanup] as written: two passes over the set, which it then
    empties. *)
Definition waiter_cleanup_set (s : NodeSet) (r : Region) : Region * NodeSet :=
  let r1 := foldl (fun r idx => node_detach idx r) r (node_set_iter s) in
  let r2 := foldl (fun r idx => node_free idx r) r1 (node_set_iter s) in
  (r2, node_set_clear s).

(** The pushes of the allocation loop. *)
Fixpoint node_set_fill (vs : list Z) (s : NodeSet) : option NodeSet :=
  match vs with
  | [] => Some s
  | v :: vs' => s' ← node_set_push v s; node_set_fill vs' s'
  end.

(** What every reachable set satisfies. *)
Record set_ok (s : NodeSet) : Prop := {
  so_size : length (ns_idx s) = NODE_SET_SIZE;
  so_len : (ns_len s <= NODE_SET_SIZE)%nat }.

#[local] Hint Constructors set_ok : core.

Lemma set_ok_new : set_ok node_set_new /\ node_set_iter node_set_new = [].
Proof. repeat split; cbn; rewrite ?length_replicate; lia. Qed.

Lemma set_iter_length s : set_ok s -> length (node_set_iter s) = ns_len s.
Proof. intros [H1 H2]. unfold node_set_iter. rewrite length_take. lia. Qed.

Lemma set_ok_clear s : set_ok s -> set_ok (node_set_clear s) /\ node_set_iter (node_set_clear s) = [].
Proof. intros [H1 H2]. repeat split; cbn; [done|lia]. Qed.

Lemma set_is_empty s : set_ok s -> node_set_is_empty s = (length (node_set_iter s) =? 0)%nat.
Proof. intros H. by rewrite set_iter_length. Qed.

(** A push below the capacity appends; at the capacity it panics. *)
Lemma set_push s v :
  set_ok s ->
  match node_set_push v s with
  | Some s' => set_ok s' /\ node_set_iter s' = node_set_iter s ++ [v] /\ (ns_len s < NODE_SET_SIZE)%nat
  | None => ns_len s = NODE_SET_SIZE
  end.
Proof.
  intros [H1 H2]. unfold node_set_push. rewrite H1.
  destruct (Nat.ltb_spec (ns_len s) NODE_SET_SIZE) as [Hl|Hl]; [|lia].
  split; [split; cbn; [by rewrite length_insert|lia]|]. split; [|done].
  unfold node_set_iter; cbn [ns_idx ns_len].
  rewrite (take_S_r _ _ v) by (apply list_lookup_insert_eq; lia). f_equal. apply take_insert_ge. lia.
Qed.

(** An index below the length is the list's. *)
Lemma set_index s i :
  set_ok s -> (i < ns_len s)%nat -> node_set_index s i = Some (arr (node_set_iter s) i).
Proof.
  intros [H1 H2] Hi. unfold node_set_index, arr, node_set_iter.
  destruct (lookup_lt_is_Some_2 (ns_idx s) i) as [x Hx]; [lia|].
  rewrite Hx. f_equal. symmetry. apply nth_lookup_Some. by rewrite lookup_take_lt.
Qed.

Lemma set_cleanup s r :
  set_ok s ->
  fst (waiter_cleanup_set s r) = waiter_cleanup (node_set_iter s) r /\
  set_ok (snd (waiter_cleanup_set s r)) /\ node_set_iter (snd (waiter_cleanup_set s r)) = [].
Proof. intros H. split; [done|]. by apply set_ok_clear. Qed.

Lemma set_fill vs : forall s,
  set_ok s -> (ns_len s + length vs <= NODE_SET_SIZE)%nat ->
  exists s', node_set_fill vs s = Some s' /\ set_ok s' /\ node_set_iter s' = node_set_iter s ++ vs.
Proof.
  induction vs as [|v vs IH]; intros s Hs Hl; cbn [node_set_fill length] in *.
  { exists s. by rewrite app_nil_r. }
  pose proof (set_push s v Hs) as Hp. destruct (node_set_push v s) as [s1|]; cbn; [|lia].
  destruct Hp as (Hs1 & E & Hlt).
  destruct (IH s1) as (s' & Hf & Hs' & E'); [done| |].
  - rewrite <-(set_iter_length s1), E, length_app, (set_iter_length s) by done. cbn. lia.
  - exists s'. split; [done|]. split; [done|]. by rewrite E', E, <-app_assoc.
Qed.

(** The array of a wait whose arguments [wait] admits never panics and holds
    the nodes the loop allocated, whatever their indices are; one handle more
    would overflow it. *)
Lemma wait_nodes_fit handles owner alert vs :
  bad_args handles owner = false -> length vs = n_nodes handles alert ->
  exists s, node_set_fill vs node_set_new = Some s /\ set_ok s /\ node_set_iter s = vs.
Proof.
  intros Hb Hl. destruct (set_fill vs node_set_new) as (s & H1 & H2 & H3).
  - apply set_ok_new.
  - cbn. rewrite Hl. unfold bad_args in Hb. repeat (apply orb_false_iff in Hb as [Hb ?]).
    unfold NODE_SET_SIZE, n_nodes, MAX_WAIT_COUNT in *. destruct (alert =? 0); lia.
  - by exists s.
Qed.

Example full_set_panics : node_set_fill (replicate 66 7) node_set_new = None.
Proof. by vm_compute. Qed.
