(* ===== verification/LockFree.v ===== *)
(** * LockFree: every retry is somebody else's success

    The operations swap a packed word and start again when it has changed in
    between.  [run_env] runs a program while an environment may do anything
    to the shared memory before each of its atomic accesses, and counts how
    often the environment changed one of the words the program is about.  An
    attempt to satisfy a wait, its rollback included, repeats a loop only as
    often as that happens: it returns unless the others change the words of
    its objects [loop_fuel] times while it runs. *)
From S2P Require Import Prelude Prog Config Region Kernel Objects Wait.

Section lockfree.
Context `{!Config}.

(** The environment before the [k]-th access, and the slots that count. *)
Context (env : nat -> Region -> Region) (slots_of : list Z).

Definition hit (m m' : Region) : nat :=
  if existsb (fun i => negb (s_w0 (slot_ptr m' i) =? s_w0 (slot_ptr m i))) slots_of then 1 else 0.

(** A run, the number of its accesses so far and of the changes by others. *)
Record trace (A : Type) : Type := Trace {
  t_out : outcome A;
  t_mem : Region;
  t_loc : Local;
  t_step : nat;
  t_hits : nat;
}.
Arguments Trace {A}.
Arguments t_out {A}.
Arguments t_mem {A}.
Arguments t_loc {A}.
Arguments t_step {A}.
Arguments t_hits {A}.

Fixpoint run_env {A} (p : action A) (m : Region) (l : Local) (k h : nat) : trace A :=
  match p with
  | Ret a => Trace (Done a) m l k h
  | Mem f q =>
      let m1 := env k m in
      let r := f m1 in
      run_env (q (fst r)) (snd r) l (S k) (h + hit m m1)
  | Loc f q => let r := f l in run_env (q (fst r)) m (snd r) k h
  | Sys _ _ => Trace Blocked m l k h
  | Panic => Trace Panicked m l k h
  | OutOfFuel => Trace Diverged m l k h
  end.

Lemma run_env_bind {A B} (p : action A) (q : A -> action B) m l k h :
  run_env (bind p q) m l k h =
  let r := run_env p m l k h in
  match t_out r with
  | Done a => run_env (q a) (t_mem r) (t_loc r) (t_step r) (t_hits r)
  | Panicked => Trace Panicked (t_mem r) (t_loc r) (t_step r) (t_hits r)
  | Blocked => Trace Blocked (t_mem r) (t_loc r) (t_step r) (t_hits r)
  | Diverged => Trace Diverged (t_mem r) (t_loc r) (t_step r) (t_hits r)
  end.
Proof.
  revert m l k h. induction p as [a|B' f g IH|B' f g IH|c g IH| |]; intros m l k h; simpl; done.
Qed.

Lemma hits_mono {A} (p : action A) : forall m l k h, (h <= t_hits (run_env p m l k h))%nat.
Proof.
  induction p as [a|B' f g IH|B' f g IH|c g IH| |]; intros m l k h; simpl; try lia.
  - etrans; [|apply IH]. lia.
  - apply IH.
Qed.

(** [p] returns unless the others interfere [n] times. *)
Definition returns_unless {A} (n : nat) (p : action A) : Prop :=
  forall m l k h, let r := run_env p m l k h in
    (h <= t_hits r)%nat /\ ((exists a, t_out r = Done a) \/ (n + h <= t_hits r)%nat).

Lemma ret_returns {A} n (a : A) : returns_unless n (Ret a).
Proof. intros m l k h. simpl. split; [lia|eauto]. Qed.

Lemma bind_returns {A B} n (p : action A) (q : A -> action B) :
  returns_unless n p -> (forall a, returns_unless n (q a)) -> returns_unless n (bind p q).
Proof.
  intros Hp Hq m l k h. cbn zeta. rewrite run_env_bind. cbn zeta.
  destruct (Hp m l k h) as [H1 H2]. destruct (run_env p m l k h) as [o m1 l1 k1 h1]. cbn in *.
  destruct H2 as [[a ->]|H2].
  - destruct (Hq a m1 l1 k1 h1) as [H3 H4]. split; [lia|]. destruct H4; [by left|right; lia].
  - destruct o as [a| | |]; cbn; try (split; [lia|right; lia]).
    destruct (Hq a m1 l1 k1 h1) as [H3 H4]. split; [lia|]. right; lia.
Qed.

Lemma read_returns {A} n (f : Region -> A) : returns_unless n (mem_read f).
Proof. intros m l k h. simpl. split; [lia|eauto]. Qed.

(** ** A loop around one compare-and-swap *)

(** What an iteration does with the word it read. *)
Inductive swaps {A} (i w : Z) (again : action A) : action A -> Prop :=
| swaps_ret a : swaps i w again (Ret a)
| swaps_cas new a : swaps i w again (ok <- cas64 i w new ;; if ok : bool then Ret a else again).

Lemma hit_changed i m m' :
  In i slots_of -> s_w0 (slot_ptr m' i) <> s_w0 (slot_ptr m i) -> hit m m' = 1%nat.
Proof.
  intros Hi Hne. unfold hit. rewrite (proj2 (existsb_exists _ _)); [done|].
  exists i. split; [done|]. apply negb_true_iff. by apply Z.eqb_neq.
Qed.

Lemma loop_returns {A} n i (body : Z -> action A) again :
  In i slots_of -> (forall w, swaps i w again (body w)) -> returns_unless n again ->
  returns_unless (S n) (w <- ld_w0 i ;; body w).
Proof.
  intros Hi Hb Hagain m l k h. cbn zeta. unfold ld_w0. cbn.
  set (m1 := env k m). set (h1 := (h + hit m m1)%nat). assert (h <= h1)%nat as Hh1 by lia.
  clearbody h1. destruct (Hb (s_w0 (slot_ptr m1 i))) as [a|new a].
  { simpl. split; [lia|eauto]. }
  unfold cas64. cbn. set (m2 := env (S k) m1). unfold cas_w0_step.
  destruct (Z.eqb_spec (s_w0 (slot_ptr m2 i)) (s_w0 (slot_ptr m1 i))) as [E|E]; cbn.
  { split; [lia|eauto]. }
  rewrite (hit_changed i m1 m2) by done.
  match goal with |- context [run_env again ?a ?b ?c ?d] => destruct (Hagain a b c d) as [H1 H2] end.
  cbn zeta in *. split; [lia|]. destruct H2 as [H2|H2]; [by left|right; lia].
Qed.

Lemma fuel_returns {A} i (loop : nat -> action A) (body : nat -> Z -> action A) :
  In i slots_of -> (forall n, loop (S n) = (w <- ld_w0 i ;; body n w)) ->
  (forall n w, swaps i w (loop n) (body n w)) ->
  forall n, returns_unless n (loop n).
Proof.
  intros Hi Heq Hb. induction n as [|n IH].
  - intros m l k h. cbn zeta.
    split; [apply hits_mono|]. right. simpl. apply hits_mono.
  - rewrite Heq. apply (loop_returns n i _ (loop n)); auto.
Qed.

(** ** The loops of the operations *)
Ltac swapping := intros; cbv beta zeta; repeat case_match; apply swaps_cas || apply swaps_ret.
Ltac looping f i := eapply (fuel_returns i f); [done|intros ?; reflexivity|swapping].

Section loops.
Context (i : Z) (Hi : In i slots_of).

Lemma acquire_sem_returns n : returns_unless n (acquire_sem n i).
Proof. revert n. looping (fun n => acquire_sem n i) i. Qed.

Lemma acquire_mutex_returns n owner : returns_unless n (acquire_mutex n i owner).
Proof. revert n. looping (fun n => acquire_mutex n i owner) i. Qed.

Lemma claim_event_returns n : returns_unless n (claim_event n i).
Proof. revert n. looping (fun n => claim_event n i) i. Qed.

Lemma rollback_sem_returns n : returns_unless n (rollback_sem n i).
Proof. revert n. looping (fun n => rollback_sem n i) i. Qed.

Lemma rollback_mutex_returns n owner od : returns_unless n (rollback_mutex n i owner od).
Proof. revert n. looping (fun n => rollback_mutex n i owner od) i. Qed.

Lemma rollback_event_returns n : returns_unless n (rollback_event n i).
Proof. revert n. looping (fun n => rollback_event n i) i. Qed.

Lemma event_reset_returns n : returns_unless n (event_reset_loop n i).
Proof. revert n. looping (fun n => event_reset_loop n i) i. Qed.

Lemma pulse_check_returns n seq : returns_unless n (pulse_check i seq).
Proof.
  apply bind_returns; [apply read_returns|]. intros d. destruct (negb _); apply ret_returns.
Qed.

Lemma try_acquire_returns owner seq : returns_unless loop_fuel (try_acquire i owner seq).
Proof.
  apply bind_returns; [apply read_returns|]. intros ty.
  destruct (_ =? _); [apply acquire_sem_returns|].
  destruct (_ =? _); [apply acquire_mutex_returns|].
  destruct (_ =? _); [|apply ret_returns].
  apply bind_returns; [apply read_returns|]. intros w.
  destruct (negb _); [|apply pulse_check_returns]. destruct (_ =? 0); [|apply ret_returns].
  apply bind_returns; [apply claim_event_returns|].
  intros []; [apply ret_returns|apply pulse_check_returns].
Qed.

Lemma rollback_acquire_returns owner od : returns_unless loop_fuel (rollback_acquire i owner od).
Proof.
  apply bind_returns; [apply read_returns|]. intros ty.
  destruct (_ =? _); [apply rollback_sem_returns|].
  destruct (_ =? _); [apply rollback_mutex_returns|].
  destruct (_ =? _); [apply rollback_event_returns|apply ret_returns].
Qed.
End loops.

Lemma rollback_all_returns owner acquired :
  Forall (fun a => In a.1 slots_of) acquired -> returns_unless loop_fuel (rollback_all acquired owner).
Proof.
  induction 1 as [|[i od] acquired Hi _ IH]; cbn [rollback_all]; [apply ret_returns|].
  apply bind_returns; [by apply rollback_acquire_returns|done].
Qed.

Lemma satisfy_any_returns owner seqs handles : forall n,
  Forall (fun h => In (handle_index h) slots_of) handles ->
  returns_unless loop_fuel (satisfy_any n handles owner seqs).
Proof.
  induction handles as [|h hs IH]; intros n Hs; cbn [satisfy_any]; [apply ret_returns|].
  apply Forall_cons in Hs as [Hh Hs].
  apply bind_returns; [by apply try_acquire_returns|]. intros [od|]; [apply ret_returns|auto].
Qed.

Lemma satisfy_all_returns owner seqs handles : forall n acquired dead,
  Forall (fun h => In (handle_index h) slots_of) handles ->
  Forall (fun a => In a.1 slots_of) acquired ->
  returns_unless loop_fuel (satisfy_all n handles owner seqs acquired dead).
Proof.
  induction handles as [|h hs IH]; intros n acquired dead Hs Ha; cbn [satisfy_all]; [apply ret_returns|].
  apply Forall_cons in Hs as [Hh Hs].
  apply bind_returns; [by apply try_acquire_returns|]. intros [od|].
  - apply IH; [done|]. apply Forall_app. split; [done|]. by constructor.
  - apply bind_returns; [by apply rollback_all_returns|]. intros _. apply ret_returns.
Qed.
End lockfree.

(** C16: An attempt to satisfy a wait always comes to an end: whatever the other
    threads do to the shared memory between its accesses, a WAIT_ANY or
    WAIT_ALL attempt, with the rollback of the latter, returns, unless the
    others change the words of its own objects [loop_fuel] times meanwhile.
    Every repetition of a loop is paid for by somebody else's change, so some
    thread always makes progress. *)
Theorem attempt_terminates `{!Config} env handles owner seqs all m l :
  let r := run_env env (handle_index <$> handles) (try_satisfy handles owner seqs all) m l 0 0 in
  (exists answer, t_out _ r = Done answer) \/ (loop_fuel <= t_hits _ r)%nat.
Proof.
  assert (Forall (fun h => In (handle_index h) (handle_index <$> handles)) handles) as Hs.
  { apply Forall_forall. intros h Hh. by apply list_elem_of_In, list_elem_of_fmap_2. }
  assert (returns_unless env (handle_index <$> handles) loop_fuel (try_satisfy handles owner seqs all)) as Hr.
  { unfold try_satisfy. destruct all; cbn [negb].
    - by apply satisfy_all_returns.
    - by apply satisfy_any_returns. }
  destruct (Hr m l 0%nat 0%nat) as [_ Hd]. by rewrite Nat.add_0_r in Hd.
Qed.
