(* ===== verification/Satisfy.v ===== *)
(** * Satisfy: one attempt to satisfy a wait

    [try_satisfy] on objects nobody else touches.  WAIT_ANY takes the first
    object that can be acquired and no other; WAIT_ALL takes all of them, or
    gives back what it took.  Giving back restores every object, with one
    exception that [restore] makes explicit: an auto-reset event that only a
    pulse made acquirable comes back signaled. *)
From S2P Require Import Prelude Prog Config Region Kernel Objects Words ObjectsOk Acquire Wait.

(** ** Specification on abstract objects *)
Fixpoint spec_any (owner : Z) (k : nat) (seqs : list Z) (objs : list obj) : option (nat * bool * obj) :=
  match objs with
  | [] => None
  | o :: rest =>
      match spec_acquire owner (arr seqs k) o with
      | Some (od, o') => Some (k, od, o')
      | None => spec_any owner (S k) seqs rest
      end
  end.

Fixpoint spec_all (owner : Z) (k : nat) (seqs : list Z) (objs : list obj) : option (bool * list obj) :=
  match objs with
  | [] => Some (false, [])
  | o :: rest =>
      match spec_acquire owner (arr seqs k) o with
      | None => None
      | Some (od, o') =>
          match spec_all owner (S k) seqs rest with
          | None => None
          | Some (d, rest') => Some (od || d, o' :: rest')
          end
      end
  end.

Definition restore (o : obj) : obj :=
  match o with
  | OEvent false false p => OEvent false true p
  | _ => o
  end.

(** The objects after a failed WAIT_ALL: those before the first busy one were
    taken and given back. *)
Fixpoint undone (owner : Z) (k : nat) (seqs : list Z) (objs : list obj) : list obj :=
  match objs with
  | [] => []
  | o :: rest =>
      match spec_acquire owner (arr seqs k) o with
      | None => objs
      | Some _ => restore o :: undone owner (S k) seqs rest
      end
  end.

Lemma restore_id o : pulse_only o = false -> restore o = o.
Proof. by destruct o as [| |[] []]. Qed.

Lemma restore_wf o : obj_wf o -> obj_wf (restore o).
Proof. by destruct o as [| |[] []]. Qed.

Lemma rollback_restores owner seq o od o' :
  obj_wf o -> spec_acquire owner seq o = Some (od, o') -> spec_rollback owner od o' = restore o.
Proof.
  intros Hwf Hs. destruct (pulse_only o) eqn:Hp.
  - destruct o as [| |[] [] p]; try done. simpl in *. by destruct (negb _); simplify_eq.
  - rewrite restore_id by done. by eapply rollback_undoes.
Qed.

Lemma undone_id owner seqs objs k :
  Forall (fun o => pulse_only o = false) objs -> undone owner k seqs objs = objs.
Proof.
  intros Hp. revert k. induction Hp as [|o objs Ho _ IH]; intros k; simpl; [done|].
  destruct (spec_acquire _ _ _); [|done]. by rewrite restore_id, IH.
Qed.

Section satisfy.
Context `{!Config} {G : Type} `{!Kernel Region G} {t : nat}.
Context (Hfuel : (0 < loop_fuel)%nat).
Implicit Types (w : world Region Local G) (l : list (Z * obj)).

(** Slots hold the listed objects. *)
Definition holds w l : Prop := Forall (fun io => repr io.2 (slot_ptr (mem w) io.1)) l.

(** Exactly the listed slots changed, each to its object. *)
Definition moved w w' l : Prop :=
  keeps w w' /\ (forall j, j ∉ l.*1 -> slot_ptr (mem w') j = slot_ptr (mem w) j) /\ holds w' l.

Lemma moved_refl w l : holds w l -> moved w w l.
Proof. by split. Qed.

Lemma moved_after w w1 w' l :
  keeps w w1 -> (forall j, j ∉ l.*1 -> slot_ptr (mem w1) j = slot_ptr (mem w) j) ->
  moved w1 w' l -> moved w w' l.
Proof.
  intros Hk Hs (Hk1&Hs1&Hh). split; [by eapply keeps_trans|]. split; [|done].
  intros j Hj. by rewrite Hs1, Hs.
Qed.

Lemma holds_same w w' l :
  (forall j, j ∈ l.*1 -> slot_ptr (mem w') j = slot_ptr (mem w) j) -> holds w l -> holds w' l.
Proof.
  intros Hs Hl. apply Forall_forall. intros [i o] Hi. simpl.
  rewrite Hs by (by apply list_elem_of_fmap; exists (i, o)).
  exact (proj1 (Forall_forall _ _) Hl _ Hi).
Qed.

Lemma becomes_moved i o w w' : becomes i o w w' -> moved w w' [(i, o)].
Proof.
  intros (Hk&Hs&Ho). split; [done|]. split; [|by constructor].
  intros j Hj. apply Hs. intros ->. apply Hj, list_elem_of_here.
Qed.

(** Extend a change by slots it did not touch. *)
Lemma moved_app w w' l l' :
  (forall j, j ∈ l'.*1 -> j ∉ l.*1) -> holds w l' -> moved w w' l -> moved w w' (l ++ l').
Proof.
  intros Hd Hl' (Hk&Hs&Hh). split; [done|]. split.
  - intros j Hj. apply Hs. intros ?. apply Hj. rewrite fmap_app, elem_of_app. by left.
  - apply Forall_app. split; [done|]. eapply holds_same; [|exact Hl'].
    intros j Hj. by apply Hs, Hd.
Qed.

Lemma moved_cons w w1 w' i o l :
  i ∉ l.*1 -> becomes i o w w1 -> moved w1 w' l -> moved w w' ((i, o) :: l).
Proof.
  intros Hi (Hk&Hs&Ho) (Hk1&Hs1&Hh). split; [by eapply keeps_trans|]. split.
  - intros j [Hj1 Hj2]%not_elem_of_cons. simpl in Hj1. by rewrite Hs1, Hs.
  - constructor; [|done]. simpl. by rewrite Hs1.
Qed.

(** ** WAIT_ANY *)
Lemma satisfy_any_spec owner seqs : 0 < owner < W32 -> forall handles objs k w,
  holds w (zip (handle_index <$> handles) objs) -> length objs = length handles ->
  wp t (satisfy_any k handles owner seqs) (fun res w' =>
    match spec_any owner k seqs objs with
    | Some (n, od, o') => (k <= n)%nat /\ res = Some (Signaled (Z.of_nat n) od) /\
        exists h, handles !! (n - k)%nat = Some h /\ becomes (handle_index h) o' w w'
    | None => res = None /\ w' = w
    end) w.
Proof.
  intros Hown handles. induction handles as [|h rest IH]; intros [|o objs] k w Hh Hlen; try done.
  simpl in Hh. apply Forall_cons in Hh as [Ho Hh]. simpl in Ho.
  cbn [satisfy_any spec_any]. apply wp_bind. eapply wp_mono; [|by apply (try_acquire_spec Hfuel _ _ _ o)].
  intros res w1 Ha. unfold acquires in Ha.
  destruct (spec_acquire owner (arr seqs k) o) as [[od o']|].
  - destruct Ha as [-> Hb]. apply wp_ret. split; [lia|]. split; [done|]. exists h.
    by rewrite Nat.sub_diag.
  - destruct Ha as [-> ->]. simplify_eq/=. eapply wp_mono; [|apply (IH objs (S k) w); done].
    intros res w2. destruct (spec_any owner (S k) seqs objs) as [[[n od] o']|]; [|done].
    intros (Hle & -> & h' & Hh' & Hb). split; [lia|]. split; [done|]. exists h'. split; [|done].
    by replace (n - k)%nat with (S (n - S k)) by lia.
Qed.

(** ** WAIT_ALL *)

(** An acquisition made so far: slot, owner-dead, object before and after. *)
Record entry : Type := mkEntry { e_idx : Z; e_od : bool; e_old : obj; e_new : obj }.
Definition taken (e : entry) : Z * bool := (e_idx e, e_od e).
Definition entry_ok (owner : Z) (e : entry) : Prop :=
  obj_wf (e_old e) /\ exists seq, spec_acquire owner seq (e_old e) = Some (e_od e, e_new e).
Definition now_held (e : entry) : Z * obj := (e_idx e, e_new e).
Definition given_back (e : entry) : Z * obj := (e_idx e, restore (e_old e)).

Lemma fst_fmap_entries (f : entry -> Z * obj) es : (forall e, (f e).1 = e_idx e) -> (f <$> es).*1 = e_idx <$> es.
Proof. intros Hf. rewrite <- list_fmap_compose. apply list_fmap_ext. intros ? e _. apply Hf. Qed.

Lemma rollback_all_spec owner : 0 < owner < W32 -> forall es w,
  Forall (entry_ok owner) es -> NoDup (e_idx <$> es) -> holds w (now_held <$> es) ->
  wp t (rollback_all (taken <$> es) owner) (fun _ w' => moved w w' (given_back <$> es)) w.
Proof.
  intros Hown es. induction es as [|e es IH]; intros w Hok Hnd Hh; [by apply wp_ret, moved_refl|].
  apply Forall_cons in Hok as [[Hwf [seq Hs]] Hok]. apply NoDup_cons in Hnd as [Hni Hnd].
  apply Forall_cons in Hh as [Ho Hh]. cbn [now_held snd fst] in Ho. cbn [rollback_all taken fmap list_fmap].
  pose proof (rollback_restores _ _ _ _ _ Hwf Hs) as Hr.
  eapply wp_frame_bind; [apply (rollback_acquire_spec Hfuel _ _ _ _ _ Hown Ho)|].
  { rewrite Hr. by apply restore_wf. }
  intros [] w1 Hb. cbn [now_held snd fst] in Hb. rewrite Hr in Hb.
  eapply wp_mono; [|apply (IH w1)]; [|done|done|].
  - intros [] w2 Hm. eapply moved_cons; [|exact Hb|exact Hm]. by rewrite fst_fmap_entries.
  - eapply holds_same; [|exact Hh]. intros j Hj. apply Hb. intros ->. apply Hni.
    by rewrite fst_fmap_entries in Hj.
Qed.

Definition all_post owner seqs k (handles : list Z) objs (es : list entry) (d : bool) w
  (res : option WaitOutcome) w' : Prop :=
  match spec_all owner k seqs objs with
  | Some (od, objs') => res = Some (Signaled 0 (d || od)) /\
      moved w w' (zip (handle_index <$> handles) objs')
  | None => res = None /\
      moved w w' ((given_back <$> es) ++ zip (handle_index <$> handles) (undone owner k seqs objs))
  end.

Lemma fst_zip_eq (l1 : list Z) (objs : list obj) : length objs = length l1 -> (zip l1 objs).*1 = l1.
Proof. intros Hlen. apply fst_zip. by rewrite Hlen. Qed.

Lemma undone_length owner seqs objs : forall k, length (undone owner k seqs objs) = length objs.
Proof.
  induction objs as [|o objs IH]; intros k; simpl; [done|].
  destruct (spec_acquire _ _ _); simpl; auto.
Qed.

Lemma spec_all_length owner seqs objs : forall k d objs',
  spec_all owner k seqs objs = Some (d, objs') -> length objs' = length objs.
Proof.
  induction objs as [|o objs IH]; intros k d objs' Hs; simpl in *; [by simplify_eq|].
  destruct (spec_acquire _ _ _) as [[od o']|]; [|done].
  destruct (spec_all owner (S k) seqs objs) as [[d' rest]|] eqn:E; simplify_eq.
  simpl. f_equal. by eapply IH.
Qed.

Lemma satisfy_all_spec owner seqs : 0 < owner < W32 -> forall handles objs k es d w,
  length objs = length handles ->
  NoDup ((e_idx <$> es) ++ (handle_index <$> handles)) -> Forall (entry_ok owner) es ->
  holds w (now_held <$> es) -> holds w (zip (handle_index <$> handles) objs) ->
  wp t (satisfy_all k handles owner seqs (taken <$> es) d)
     (all_post owner seqs k handles objs es d w) w.
Proof.
  intros Hown handles. induction handles as [|h rest IH];
    intros [|o objs] k es d w Hlen Hnd Hok Hes Hh; try done.
  { apply wp_ret. unfold all_post. simpl. rewrite orb_false_r. split; [done|]. by apply moved_refl. }
  cbn [satisfy_all]. simplify_eq/=. pose proof Hh as [Ho Hh']%Forall_cons. simpl in Ho.
  eapply wp_frame_bind; [apply (try_acquire_spec Hfuel _ _ _ _ _ Hown Ho)|].
  intros res w1 Ha. unfold acquires in Ha. unfold all_post. cbn [spec_all undone].
  destruct (spec_acquire owner (arr seqs k) o) as [[od o']|] eqn:Es.
  - destruct Ha as [-> Hb].
    set (e := mkEntry (handle_index h) od o o').
    assert (NoDup ((e_idx <$> es ++ [e]) ++ (handle_index <$> rest))) as Hnd'.
    { rewrite fmap_app, <- app_assoc. done. }
    assert (handle_index h ∉ (e_idx <$> es)) as Hni.
    { apply NoDup_app in Hnd as (_ & Hd & _). intros Hin. apply (Hd _ Hin), list_elem_of_here. }
    assert (handle_index h ∉ (handle_index <$> rest)) as Hni'.
    { apply NoDup_app in Hnd as (_ & _ & Hnd). by apply NoDup_cons in Hnd as []. }
    assert (forall l', handle_index h ∉ l'.*1 -> holds w l' -> holds w1 l') as Hkeep.
    { intros l' Hn Hl'. eapply holds_same; [|exact Hl']. intros j Hj. apply Hb. intros ->. done. }
    replace ((taken <$> es) ++ [(handle_index h, od)]) with (taken <$> (es ++ [e])) by (by rewrite fmap_app).
    eapply wp_mono; [|apply (IH objs (S k) (es ++ [e]) (d || od) w1); try done].
    + intros res w2. unfold all_post.
      destruct (spec_all owner (S k) seqs objs) as [[od2 objs2]|] eqn:E2.
      * intros [-> Hm]. split; [by rewrite orb_assoc|]. simpl. eapply moved_cons; [|exact Hb|done].
        rewrite fst_zip_eq; [done|]. rewrite length_fmap. apply spec_all_length in E2. lia.
      * intros [-> Hm]. split; [done|]. rewrite fmap_app, <- app_assoc in Hm.
        eapply moved_after; [apply Hb| |exact Hm]. intros j Hj. apply Hb. intros ->.
        apply Hj. rewrite fmap_app, elem_of_app. right. apply list_elem_of_here.
    + apply Forall_app. split; [done|]. constructor; [|done]. split; [apply Ho|]. by exists (arr seqs k).
    + rewrite fmap_app. apply Forall_app. split; [|constructor; [apply Hb|done]].
      apply Hkeep; [|done]. by rewrite fst_fmap_entries.
    + apply Hkeep; [|done]. rewrite fst_zip_eq; [done|]. by rewrite length_fmap.
  - destruct Ha as [-> ->].
    eapply wp_frame_bind; [apply (rollback_all_spec _ Hown es w Hok); [|done]|].
    { by apply NoDup_app in Hnd as []. }
    intros [] w2 Hm. apply wp_ret. split; [done|]. apply moved_app; [|done|done].
    intros j Hj Hj2. rewrite fst_fmap_entries in Hj2 by done.
    apply NoDup_app in Hnd as (_ & Hd & _). apply (Hd _ Hj2).
    simpl in Hj. rewrite fst_zip_eq in Hj by (rewrite length_fmap; lia). done.
Qed.

(** C24: Rolling an acquisition back with the owner-dead answer it gave
    restores the object, the owner-dead mark included; the one exception is
    an auto-reset event that only a pulse had made acquirable, which the
    rollback leaves signaled. *)
Theorem acquire_rollback i owner seq o w :
  0 < owner < W32 -> repr o (slot_ptr (mem w) i) ->
  wp t (r <- try_acquire i owner seq ;;
        match r with Some od => rollback_acquire i owner od | None => Ret tt end)
    (fun _ w' => match spec_acquire owner seq o with
                 | Some _ => becomes i (if pulse_only o then restore o else o) w w'
                 | None => w' = w
                 end) w.
Proof.
  intros Hown Ho. eapply wp_frame_bind; [by apply (try_acquire_spec Hfuel i owner seq o)|].
  intros r w1 Hr. unfold acquires in Hr.
  destruct (spec_acquire owner seq o) as [[od o']|] eqn:Es; destruct Hr as [-> Hr]; [|by apply wp_ret].
  pose proof (proj1 (proj2 (proj2 Ho))) as Hwf.
  assert ((if pulse_only o then restore o else o) = restore o) as ->.
  { destruct (pulse_only o) eqn:Hp; [done|]. by rewrite restore_id. }
  rewrite <- (rollback_restores _ _ _ _ _ Hwf Es).
  eapply wp_mono; [|apply (rollback_acquire_spec Hfuel i owner od o' w1); [done|apply Hr|]].
  - intros u w2. apply becomes_trans with (o1 := o'). exact Hr.
  - rewrite (rollback_restores _ _ _ _ _ Hwf Es). by apply restore_wf.
Qed.
End satisfy.
