(* ===== verification/SlotsOk.v ===== *)
(** * SlotsOk: the slot table

    [slots_ok] is the invariant of the table: slot 0 is reserved, the scan
    cursor is in range, every object lies below the high-water mark the sweep
    scans to, and a free slot has no waiter.  Against it: allocation finds a
    free slot whenever there is one, creation publishes the object it was
    asked for under a handle that names it, and closing makes the handle
    stale and wakes every waiter. *)
From S2P Require Import Prelude Prog Config Region Kernel Lock Nodes WaitLists NodePool Sweep Init Slots Objects Words ObjectsOk.

(** ** Handles *)
Definition GEN_BITS_RANGE : Z := 262144.   (* 2^18: what a handle holds of a generation *)

Definition make_handle (generation index : Z) : Z :=
  Z.lor (wrap32 (Z.shiftl generation INDEX_BITS)) index.

Lemma make_handle_add g i :
  0 <= i < SLOT_COUNT -> make_handle g i = (g mod GEN_BITS_RANGE) * SLOT_COUNT + i.
Proof.
  intros Hi. unfold make_handle, wrap32, INDEX_BITS, SLOT_COUNT, GEN_BITS_RANGE in *.
  rewrite Z.shiftl_mul_pow2 by lia. change (2 ^ 14) with 16384.
  replace (g * 16384 mod W32) with ((g mod 262144) * 16384)
    by (change W32 with (262144 * 16384); symmetry; apply Z.mul_mod_distr_r; lia).
  rewrite <- (shiftl_lor_add _ i 14) by lia. by rewrite Z.shiftl_mul_pow2 by lia.
Qed.

Lemma handle_index_mod h : handle_index h = h mod SLOT_COUNT.
Proof.
  unfold handle_index, INDEX_MASK, INDEX_BITS, SLOT_COUNT.
  change (Z.shiftl 1 14 - 1) with (Z.ones 14). by rewrite Z.land_ones by lia.
Qed.

Lemma handle_generation_div h : handle_generation h = h / SLOT_COUNT.
Proof. unfold handle_generation, INDEX_BITS, SLOT_COUNT. by rewrite Z.shiftr_div_pow2 by lia. Qed.

Lemma make_handle_index g i : 0 <= i < SLOT_COUNT -> handle_index (make_handle g i) = i.
Proof.
  intros Hi. rewrite handle_index_mod, make_handle_add by done.
  rewrite Z.add_comm, Z_mod_plus_full. by apply Z.mod_small.
Qed.

Lemma make_handle_generation g i :
  0 <= i < SLOT_COUNT -> handle_generation (make_handle g i) = g mod GEN_BITS_RANGE.
Proof.
  intros Hi. rewrite handle_generation_div, make_handle_add by done.
  rewrite Z.div_add_l by (unfold SLOT_COUNT; lia). rewrite (Z.div_small i) by done. lia.
Qed.

(** A slot has one valid handle. *)
Lemma lookup_handle_inj r h h' i :
  lookup_handle r h = Some i -> lookup_handle r h' = Some i -> h = h'.
Proof.
  intros (-> & _ & Hg)%lookup_handle_Some (Hi & _ & Hg')%lookup_handle_Some.
  rewrite Hg in Hg'. rewrite !handle_index_mod in Hi. rewrite !handle_generation_div in Hg'.
  rewrite (Z_div_mod_eq_full h SLOT_COUNT), (Z_div_mod_eq_full h' SLOT_COUNT). congruence.
Qed.

(** ** The invariant *)
Definition scan_wrapped (r : Region) : bool := negb (Z.land (h_next_scan (header r)) SCAN_WRAPPED =? 0).

Record slots_ok (r : Region) (L : Z -> list Z) : Prop := {
  so_zero : s_state (slot_ptr r 0) = SLOT_USED /\ s_obj_type (slot_ptr r 0) = TYPE_RESERVED /\
    s_pid (slot_ptr r 0) = 0;
  so_cursor : exists c b, 0 <= c < SLOT_COUNT /\
    h_next_scan (header r) = c + (if b : bool then SCAN_WRAPPED else 0);
  so_hi i : 0 < i < SLOT_COUNT -> s_state (slot_ptr r i) = SLOT_USED -> i < slot_hi (scan_new r);
  so_state i : s_state (slot_ptr r i) = SLOT_FREE \/ s_state (slot_ptr r i) = SLOT_USED;
  so_free i : s_state (slot_ptr r i) = SLOT_FREE -> L i = [];
}.

Lemma cursor_split c (b : bool) :
  0 <= c < SLOT_COUNT ->
  let v := c + (if b then SCAN_WRAPPED else 0) in
  Z.land v SCAN_WRAPPED = (if b then SCAN_WRAPPED else 0) /\ Z.ldiff v SCAN_WRAPPED = c.
Proof.
  intros Hc. unfold SCAN_WRAPPED, SLOT_COUNT in *. cbn zeta.
  assert (Z.land c 0x80000000 = 0) as H0.
  { apply Z.bits_inj'. intros n Hn. rewrite Z.land_spec, Z.bits_0.
    change 0x80000000 with (2 ^ 31). destruct (Z.eqb_spec n 31) as [->|Hne].
    - replace c with (c mod 2 ^ 31) by (apply Z.mod_small; lia).
      by rewrite Z.mod_pow2_bits_high by lia.
    - rewrite Z.pow2_bits_false by lia. apply andb_false_r. }
  assert (c + (if b then 0x80000000 else 0) = Z.lor c (if b then 0x80000000 else 0)) as ->.
  { rewrite Z.add_nocarry_lxor, Z.lxor_lor; destruct b; rewrite ?H0, ?Z.land_0_r; done. }
  split.
  - rewrite Z.land_lor_distr_l, H0. by destruct b.
  - apply Z.bits_inj'. intros n Hn.
    rewrite Z.ldiff_spec, Z.lor_spec.
    pose proof (f_equal (fun z => Z.testbit z n) H0) as Hb. cbn beta in Hb.
    rewrite Z.land_spec, Z.bits_0 in Hb. destruct b.
    + by destruct (Z.testbit c n), (Z.testbit 0x80000000 n).
    + rewrite Z.bits_0, orb_false_r. by destruct (Z.testbit c n), (Z.testbit 0x80000000 n).
Qed.

Section cursor.
Context (r : Region) (c : Z) (b : bool).
Context (Hc : 0 <= c < SLOT_COUNT).
Context (Hn : h_next_scan (header r) = c + (if b then SCAN_WRAPPED else 0)).

Lemma scan_cursor_val : scan_cursor r = c.
Proof. unfold scan_cursor. rewrite Hn. apply (cursor_split c b Hc). Qed.

Lemma scan_flag_val : Z.land (h_next_scan (header r)) SCAN_WRAPPED = (if b then SCAN_WRAPPED else 0).
Proof. rewrite Hn. apply (cursor_split c b Hc). Qed.

Lemma scan_hi_val : slot_hi (scan_new r) = if b then SLOT_COUNT else c.
Proof.
  unfold scan_new. cbn [slot_hi]. rewrite scan_flag_val, Hn.
  destruct b; [done|]. cbn. lia.
Qed.
End cursor.

(** ** Allocation *)
Lemma alloc_loop_spec r n : forall i,
  (exists k, i <= k < i + Z.of_nat n /\
     s_state (slot_ptr r ((scan_cursor r + k) mod SLOT_COUNT)) = SLOT_FREE /\
     (forall j, i <= j < k -> s_state (slot_ptr r ((scan_cursor r + j) mod SLOT_COUNT)) <> SLOT_FREE) /\
     alloc_loop n i r = let '(h, r') := take_slot ((scan_cursor r + k) mod SLOT_COUNT) r in (Some h, r')) \/
  (alloc_loop n i r = (None, r) /\
   forall j, i <= j < i + Z.of_nat n ->
     s_state (slot_ptr r ((scan_cursor r + j) mod SLOT_COUNT)) <> SLOT_FREE).
Proof.
  induction n as [|n IH]; intros i; cbn [alloc_loop].
  { right. split; [done|]. intros j Hj. lia. }
  destruct (Z.eqb_spec (s_state (slot_ptr r ((scan_cursor r + i) mod SLOT_COUNT))) SLOT_FREE) as [E|E].
  { left. exists i. split; [lia|]. split; [done|]. split; [|done]. intros j Hj. lia. }
  destruct (IH (i + 1)) as [(k&Hk&Hf&Hmin&He)|[He Hall]].
  - left. exists k. split; [lia|]. split; [done|]. split; [|done].
    intros j Hj. destruct (decide (j = i)) as [->|]; [done|]. apply Hmin. lia.
  - right. split; [done|]. intros j Hj. destruct (decide (j = i)) as [->|]; [done|]. apply Hall. lia.
Qed.

Lemma alloc_slot_cases r :
  (exists k, 0 <= k < SLOT_COUNT /\
     s_state (slot_ptr r ((scan_cursor r + k) mod SLOT_COUNT)) = SLOT_FREE /\
     (forall j, 0 <= j < k -> s_state (slot_ptr r ((scan_cursor r + j) mod SLOT_COUNT)) <> SLOT_FREE) /\
     alloc_slot r = let '(h, r') := take_slot ((scan_cursor r + k) mod SLOT_COUNT) r in (Some h, r')) \/
  (alloc_slot r = (None, r) /\
   forall j, 0 <= j < SLOT_COUNT ->
     s_state (slot_ptr r ((scan_cursor r + j) mod SLOT_COUNT)) <> SLOT_FREE).
Proof.
  unfold alloc_slot. generalize (Z2Nat.id SLOT_COUNT ltac:(done)).
  generalize (Z.to_nat SLOT_COUNT). intros n Hn.
  destruct (alloc_loop_spec r n 0) as [(k&Hk&H)|[He H]].
  - left. exists k. split; [lia|done].
  - right. split; [done|]. intros j Hj. apply H. lia.
Qed.

(** Allocation fails only when the whole table is in use. *)
Lemma alloc_slot_none r L :
  slots_ok r L -> fst (alloc_slot r) = None ->
  forall i, 0 <= i < SLOT_COUNT -> s_state (slot_ptr r i) = SLOT_USED.
Proof.
  intros [Hz [c [b [Hc Hn]]] Hhi Hst Hfr] He i Hi.
  destruct (alloc_slot_cases r) as [(k&_&_&_&Ek)|[_ Hall]].
  { rewrite Ek in He. by destruct (take_slot _ r). }
  destruct (Hst i) as [Hf|]; [|done]. exfalso.
  apply (Hall ((i - c) mod SLOT_COUNT)).
  { pose proof (Z.mod_pos_bound (i - c) SLOT_COUNT). unfold SLOT_COUNT in *. lia. }
  rewrite (scan_cursor_val _ _ _ Hc Hn), Zplus_mod_idemp_r.
  replace (c + (i - c)) with i by lia. by rewrite Z.mod_small.
Qed.

Lemma alloc_slot_some r L :
  slots_ok r L -> (exists i, 0 <= i < SLOT_COUNT /\ s_state (slot_ptr r i) = SLOT_FREE) ->
  exists i, 0 < i < SLOT_COUNT /\ s_state (slot_ptr r i) = SLOT_FREE /\
    (scan_wrapped r = false -> scan_cursor r <= i) /\
    alloc_slot r = (Some (make_handle (s_generation (slot_ptr r i)) i), snd (take_slot i r)).
Proof.
  intros Hok [f [Hf0 Hf]]. pose proof (alloc_slot_none r L Hok) as Hnone.
  destruct Hok as [[Hz _] [c [b [Hc Hn]]] Hhi Hst Hfr].
  destruct (alloc_slot_cases r) as [(k&Hk&Hfree&Hmin&Ek)|[Ek _]].
  2: { rewrite Ek in Hnone. specialize (Hnone eq_refl f Hf0). rewrite Hf in Hnone. done. }
  set (i := (scan_cursor r + k) mod SLOT_COUNT) in *.
  assert (0 <= i < SLOT_COUNT) as Hi by (apply Z.mod_pos_bound; unfold SLOT_COUNT; lia).
  exists i. split; [|split; [done|split]].
  - destruct (decide (i = 0)) as [E|]; [|lia]. rewrite E, Hz in Hfree. done.
  - unfold scan_wrapped. rewrite (scan_flag_val _ _ _ Hc Hn).
    rewrite (scan_cursor_val _ _ _ Hc Hn) in Hmin |- *.
    pose proof (scan_cursor_val _ _ _ Hc Hn) as Hsc. pose proof (scan_hi_val _ _ _ Hc Hn) as Hhv.
    destruct b; [done|]. intros _.
    destruct (decide (c = 0)) as [->|Hc0]; [lia|]. subst i. rewrite Hsc.
    destruct (decide (k = 0)) as [->|Hk0]; [rewrite Z.add_0_r, Z.mod_small by done; lia|].
    exfalso. apply (Hmin 0); [lia|]. rewrite Z.add_0_r, Z.mod_small by done.
    destruct (Hst c) as [|Hu]; [done|].
    assert (c < slot_hi (scan_new r)) as Hlt by (apply Hhi; [lia|done]).
    rewrite Hhv in Hlt. lia.
  - rewrite Ek. unfold take_slot. done.
Qed.

(** The table after slot [i] was taken and filled by [f]. *)
Lemma take_slot_ok r L i f :
  slots_ok r L -> 0 < i < SLOT_COUNT -> (scan_wrapped r = false -> scan_cursor r <= i) ->
  L i = [] -> s_state (f (set_waiter_head NIL (slot_ptr r i))) = SLOT_USED ->
  slots_ok (upd_slot i f (snd (take_slot i r))) L.
Proof.
  intros [Hz [c [b [Hc Hn]]] Hhi Hst Hfr] Hi Hge HL Hu.
  set (r' := upd_slot i f (snd (take_slot i r))).
  assert (forall j, slot_ptr r' j = if decide (i = j) then f (set_waiter_head NIL (slot_ptr r i)) else slot_ptr r j) as Hs.
  { intros j. subst r'. unfold take_slot. cbn [snd].
    rewrite slot_ptr_upd_slot, !slot_ptr_upd_header, !slot_ptr_upd_slot.
    destruct (decide (i = j)), (decide (i = i)); done. }
  set (next := (i + 1) mod SLOT_COUNT).
  set (b' := (next =? 0) || b).
  assert (0 <= next < SLOT_COUNT) as Hnext by (apply Z.mod_pos_bound; unfold SLOT_COUNT; lia).
  assert (h_next_scan (header r') = next + (if b' then SCAN_WRAPPED else 0)) as Hn'.
  { change (h_next_scan (header r')) with
      (Z.lor next (if next =? 0 then SCAN_WRAPPED else Z.land (h_next_scan (header r)) SCAN_WRAPPED)).
    rewrite (scan_flag_val _ _ _ Hc Hn). subst b'.
    destruct (cursor_split next true Hnext) as [H1 H2].
    assert (Z.lor next SCAN_WRAPPED = next + SCAN_WRAPPED) as Hor.
    { symmetry. rewrite <- Z.lor_0_r at 1. apply Z.bits_inj'. intros n Hnn.
      unfold SCAN_WRAPPED. change 0x80000000 with (1 * 2 ^ 31). rewrite Z.lor_0_r, Z.add_comm.
      rewrite <- (shiftl_lor_add 1 next 31) by (unfold SLOT_COUNT in *; lia).
      by rewrite Z.shiftl_mul_pow2, Z.lor_comm by lia. }
    destruct (next =? 0), b; simpl; rewrite ?Z.lor_0_r, ?Z.add_0_r; done. }
  split.
  - rewrite !Hs, decide_False by lia. done.
  - by exists next, b'.
  - intros j Hj. rewrite (scan_hi_val _ _ _ Hnext Hn'), Hs. subst b'.
    destruct (Z.eqb_spec next 0) as [E|E]; [intros _; simpl; lia|]. simpl.
    unfold scan_wrapped in Hge. rewrite (scan_flag_val _ _ _ Hc Hn), (scan_cursor_val _ _ _ Hc Hn) in Hge.
    assert (next = i + 1) as ->.
    { subst next. apply Z.mod_small. split; [lia|]. destruct (decide (i + 1 = SLOT_COUNT)) as [E2|]; [|lia].
      by rewrite E2, Z_mod_same_full in E. }
    destruct b; [lia|]. specialize (Hge eq_refl).
    destruct (decide (i = j)) as [<-|]; [lia|]. intros Huj. specialize (Hhi j Hj Huj).
    rewrite (scan_hi_val _ _ false Hc Hn) in Hhi. lia.
  - intros j. rewrite Hs. destruct (decide (i = j)); [by right|]. apply Hst.
  - intros j. rewrite Hs. destruct (decide (i = j)) as [<-|]; [done|]. apply Hfr.
Qed.

(** ** The waiter lists under table updates *)

(** A slot whose list head does not move, or whose list is empty. *)
Lemma table_pool_ok r r' L F :
  (forall j, s_waiter_head (slot_ptr r' j) = s_waiter_head (slot_ptr r j) /\
             (s_state (slot_ptr r' j) = SLOT_USED -> s_state (slot_ptr r j) = SLOT_USED) \/
             L j = [] /\ s_waiter_head (slot_ptr r' j) = NIL) ->
  nodes r' = nodes r -> h_node_fresh (header r') = h_node_fresh (header r) ->
  h_node_free_head (header r') = h_node_free_head (header r) ->
  pool_ok r L F -> pool_ok r' L F.
Proof.
  intros Hs Hn Hf Hh [[A1 A2 A3 A4 A5 A6 A7] H2 H3 H4].
  assert (forall n, node_ptr r' n = node_ptr r n) as Hp by (intros n; unfold node_ptr; by rewrite Hn).
  split; rewrite ?Hh; [| |done|].
  - split; intros *; rewrite ?Hp, ?Hf; auto.
    + eapply dseg_ext; [|apply A1]. intros n _. by rewrite Hp.
    + destruct (Hs i) as [[-> Hu]|[-> ->]]; [|done]. intros [?|?]; apply A2; auto.
    + apply A6.
  - eapply (chain_ext r); [|exact H2]. intros n _. by rewrite Hp.
  - intros n. rewrite Hp, Hf. apply H4.
Qed.

(** Reading the slots and the rest of a table update. *)
Lemma take_slot_slot i r j :
  slot_ptr (snd (take_slot i r)) j =
  if decide (i = j) then set_waiter_head NIL (slot_ptr r i) else slot_ptr r j.
Proof. unfold take_slot. cbn [snd]. by rewrite slot_ptr_upd_header, slot_ptr_upd_slot. Qed.

Definition fill (ty w0 pid : Z) (s : Slot) : Slot :=
  set_state SLOT_USED (set_holders 0 zero_holders (set_spid pid (set_obj_type ty (set_d 0 (set_w0 w0 s))))).

Section create.
Context `{!Config} {G : Type} `{!Kernel Region G} {t : nat} `{!QuietKernel G t}.
Context (Hfuel : (Z.to_nat NODE_COUNT < loop_fuel)%nat).
Implicit Types (w : world Region Local G).

Lemma slot_publish_spec b h ty word (Q : unit -> world Region Local G -> Prop) w :
  ready b w ->
  (forall w', ready b w' -> mem w' ≡ upd_slot (handle_index h) (fill ty word k_pid) (mem w) -> Q tt w') ->
  wp t (slot_publish h ty word) Q w.
Proof.
  intros Hw HQ. unfold slot_publish. do 3 apply wp_bind, wp_write. apply wp_bind, wp_getpid.
  intros w1 Hc. do 2 apply wp_bind, wp_write. apply wp_write. cbn [mem loc ker].
  apply HQ; [by apply (calm_ready _ _ _ Hc)|]. cbn [mem].
  rewrite !upd_slot_upd_slot, (calm_mem _ _ Hc). cbn [mem].
  rewrite !upd_slot_upd_slot. by apply reflexive_eq, upd_slot_ext.
Qed.

(** The new object, in a slot that was free; nothing else changed. *)
Record created (ty word h i : Z) (L : Z -> list Z) (F : list Z) w w' : Prop := {
  cr_index : 0 < i < SLOT_COUNT;
  cr_free : s_state (slot_ptr (mem w) i) = SLOT_FREE;
  cr_handle : h = make_handle (s_generation (slot_ptr (mem w) i)) i;
  cr_slot : slot_ptr (mem w') i = fill ty word k_pid (set_waiter_head NIL (slot_ptr (mem w) i));
  cr_other j : j <> i -> slot_ptr (mem w') j = slot_ptr (mem w) j;
  cr_nodes : nodes (mem w') = nodes (mem w);
  cr_pool : pool_ok (mem w') L F;
  cr_slots : slots_ok (mem w') L;
}.

#[local] Instance slots_ok_proper : Proper ((≡) ==> (=) ==> iff) slots_ok.
Proof.
  assert (forall r r' L, r ≡ r' -> slots_ok r L -> slots_ok r' L) as Himp.
  { intros r r' L Hr [H1 H2 H3 H4 H5]. pose proof (next_scan_proper _ _ Hr) as Hn. cbn in Hn.
    assert (forall i, slot_ptr r' i = slot_ptr r i) as S1 by (intros i; by rewrite Hr).
    split; intros *; rewrite ?S1, <- ?Hn; auto. intros Hi Hu.
    unfold scan_new. cbn [slot_hi]. rewrite <- Hn. by apply H3. }
  intros r r' Hr L ? <-. split; by apply Himp.
Qed.

Lemma create_object_spec ty word L F w :
  idle w -> pool_ok (mem w) L F -> slots_ok (mem w) L ->
  (exists i, 0 <= i < SLOT_COUNT /\ s_state (slot_ptr (mem w) i) = SLOT_FREE) ->
  wp t (create_object ty word) (fun res w' => idle w' /\
    exists h i, res = Ok h /\ created ty word h i L F w w') w.
Proof.
  intros Hw HP HS Hfree. apply wp_bind, (wp_region false); [done|].
  apply with_lock_spec; [lia|done|]. intros w1 Hm1 Hw1.
  assert (slots_ok (mem w1) L) as HS1 by (by rewrite Hm1).
  destruct (alloc_slot_some (mem w1) L HS1) as (i & Hi & Hf & Hge & Ha).
  { destruct Hfree as (j & Hj & Hfj). exists j. split; [done|]. by rewrite Hm1. }
  apply wp_bind, wp_bind, wp_mem. rewrite Ha. cbn [fst snd]. apply wp_ret, wp_bind.
  apply (slot_publish_spec true); [done|]. intros w2 Hw2 Hm2. cbn [mem] in Hm2.
  rewrite make_handle_index in Hm2 by lia.
  apply wp_ret. split; [done|]. intros w3 Hm3 Hw3. split; [done|].
  exists (make_handle (s_generation (slot_ptr (mem w1) i)) i), i. split; [done|].
  set (f := fill ty word k_pid) in *.
  assert (forall j, slot_ptr (mem w3) j =
    if decide (i = j) then f (set_waiter_head NIL (slot_ptr (mem w) i)) else slot_ptr (mem w) j) as Hs.
  { assert (forall k, slot_ptr (mem w1) k = slot_ptr (mem w) k) as S1 by (intros k; by rewrite Hm1).
    intros j. rewrite Hm3, Hm2, slot_ptr_upd_slot, !take_slot_slot, !S1.
    by destruct (decide (i = j)), (decide (i = i)). }
  split; try done.
  - by rewrite <- Hm1.
  - by rewrite Hm1.
  - by rewrite Hs, decide_True.
  - intros j Hj. by rewrite Hs, decide_False.
  - destruct Hm3 as (_&E3&_), Hm2 as (_&E2&_), Hm1 as (_&E1&_). rewrite E3, E2. exact E1.
  - rewrite Hm3, Hm2. eapply (table_pool_ok (mem w1)); [|done..|by rewrite Hm1].
    intros j. rewrite slot_ptr_upd_slot, !take_slot_slot.
    destruct (decide (i = j)) as [<-|]; [|by left]. right. rewrite decide_True by done.
    split; [|done]. by apply (so_free _ _ HS1).
  - rewrite Hm3, Hm2. apply take_slot_ok; try done. by apply (so_free _ _ HS1).
Qed.

(** The three constructors, by the object they are asked for. *)
Definition create_of (o : obj) : action (result Z Error) :=
  match o with
  | OSem count max => create_semaphore count max
  | OMutex owner count _ => create_mutex owner count
  | OEvent manual signaled _ => create_event manual signaled
  end.

(** What a constructor can be asked for: arguments in the range of their
    types, no pending owner death, no pulse yet. *)
Definition fresh_obj (o : obj) : Prop :=
  match o with
  | OSem count max => u32 count /\ u32 max
  | OMutex owner count dead => u32 owner /\ u32 count /\ dead = false
  | OEvent _ _ pulses => pulses = 0
  end.

Lemma create_of_valid o :
  fresh_obj o -> obj_wf o -> create_of o = create_object (obj_type o) (obj_word o).
Proof.
  destruct o as [c m|ow c d|m g p]; simpl; unfold u32; intros Hf Hwf; [| |done].
  - unfold create_semaphore. by rewrite (proj2 (Z.ltb_ge m c)) by lia.
  - destruct Hf as (_&_&->). unfold create_mutex.
    rewrite (proj2 (Z.ltb_ge 0x7fffffff c)) by lia.
    destruct (Z.eqb_spec ow 0), (Z.eqb_spec c 0); try done; lia.
Qed.

Lemma create_of_invalid o :
  fresh_obj o -> ~ obj_wf o -> create_of o = Ret (Err Invalid).
Proof.
  destruct o as [c m|ow c d|m g p]; simpl; unfold u32; intros Hf Hwf.
  - unfold create_semaphore. by rewrite (proj2 (Z.ltb_lt m c)) by lia.
  - unfold create_mutex.
    destruct (Z.ltb_spec 0x7fffffff c) as [|Hc]; [by rewrite orb_true_r|].
    destruct (Z.eqb_spec ow 0), (Z.eqb_spec c 0); try done; exfalso; apply Hwf; lia.
  - exfalso. apply Hwf. subst p. done.
Qed.

Lemma fill_repr o pid s : fresh_obj o -> obj_wf o -> repr o (fill (obj_type o) (obj_word o) pid s).
Proof. intros Hf Hwf. split; [done|]. split; [done|]. split; [done|]. by destruct o. Qed.

(** ** Closing *)
Definition closed_slot (pid : Z) (s : Slot) : Slot := free_slot (holder_remove pid s).

Lemma holder_remove_keeps pid s :
  s_state (holder_remove pid s) = s_state s /\ s_waiter_head (holder_remove pid s) = s_waiter_head s /\
  s_generation (holder_remove pid s) = s_generation s.
Proof. unfold holder_remove. by destruct (holder_pos _ _ _). Qed.

Lemma free_table_ok r r1 L i f :
  slots_ok r L -> i <> 0 -> r1 ≡ upd_slot i f r ->
  s_state (f (slot_ptr r i)) = SLOT_FREE ->
  forall r', woken i (L i) r1 r' -> slots_ok r' (clear i L).
Proof.
  intros [H1 H2 H3 H4 H5] Hi Hr1 Hf r' Hwk.
  assert (forall j, s_state (slot_ptr r' j) = if decide (i = j) then SLOT_FREE else s_state (slot_ptr r j)) as Hs.
  { intros j. rewrite (wk_slot _ _ _ _ Hwk).
    assert (slot_ptr r1 j = if decide (i = j) then f (slot_ptr r i) else slot_ptr r j) as ->.
    { by rewrite Hr1, slot_ptr_upd_slot. }
    destruct (decide (j = i)) as [->|]; [by rewrite !decide_True by done|].
    by rewrite !decide_False by congruence. }
  assert (h_next_scan (header r') = h_next_scan (header r)) as Hn.
  { rewrite (wk_scan _ _ _ _ Hwk). apply (next_scan_proper _ _ Hr1). }
  split.
  - rewrite Hs, decide_False by done. split; [apply H1|].
    rewrite (wk_slot _ _ _ _ Hwk), decide_False by done. rewrite Hr1, slot_ptr_upd_slot, decide_False by done.
    apply H1.
  - by rewrite Hn.
  - intros j Hj. rewrite Hs. destruct (decide (i = j)); [done|]. intros Hu.
    unfold scan_new. cbn [slot_hi]. rewrite Hn. by apply H3.
  - intros j. rewrite Hs. destruct (decide (i = j)); [by left|apply H4].
  - intros j. rewrite Hs. unfold clear. destruct (decide (i = j)) as [->|]; [by rewrite decide_True|].
    rewrite decide_False by congruence. apply H5.
Qed.

Lemma close_spec h i L F w :
  idle w -> pool_ok (mem w) L F -> slots_ok (mem w) L -> lookup_handle (mem w) h = Some i -> i <> 0 ->
  wp t (close h) (fun res w' => idle w' /\ res = true /\
    (exists r1, r1 ≡ upd_slot i (closed_slot k_pid) (mem w) /\ woken i (L i) r1 (mem w')) /\
    pool_ok (mem w') (clear i L) F /\ slots_ok (mem w') (clear i L)) w.
Proof.
  intros Hw HP HS Hh Hi. destruct (lookup_handle_Some _ _ _ Hh) as (Hidx & Hu & _).
  unfold close. rewrite <- Hidx, (proj2 (Z.eqb_neq i 0)) by done.
  apply wp_bind, (wp_region false); [done|]. cbn iota.
  apply wp_bind, lock_guard_spec; [lia|done|]. intros mask w1 Hm1 Hw1. cbn iota.
  eapply wp_frame_bind with (P := fun res w2 => held w2 /\ res = true /\
    (exists r1, r1 ≡ upd_slot i (closed_slot k_pid) (mem w) /\ woken i (L i) r1 (mem w2)) /\
    pool_ok (mem w2) (clear i L) F).
  - apply wp_bind, wp_slot. rewrite Hm1, Hh. apply wp_bind, wp_getpid. intros w2 Hc.
    do 3 apply wp_bind, wp_write. cbn [mem loc ker]. apply wp_bind.
    set (r2 := upd_slot i _ (upd_slot i _ (upd_slot i _ (mem w2)))).
    assert (r2 ≡ upd_slot i (closed_slot k_pid) (mem w)) as Hr2.
    { subst r2. rewrite !upd_slot_upd_slot, (calm_mem _ _ Hc), Hm1. by apply reflexive_eq, upd_slot_ext. }
    destruct (holder_remove_keeps k_pid (slot_ptr (mem w) i)) as (F1&F2&F3).
    assert (pool_ok r2 L F) as HP2.
    { rewrite Hr2. eapply (table_pool_ok (mem w)); [|done..]. intros j. left.
      rewrite slot_ptr_upd_slot. destruct (decide (i = j)) as [<-|]; [|done].
      split; [exact F2|done]. }
    rewrite <- Hidx. eapply (wake_object_spec Hfuel true i L F); [by apply (calm_ready _ _ _ Hc)|exact HP2| |].
    { cbn [mem]. rewrite Hr2, slot_ptr_upd_slot, decide_True by done. cbn. rewrite F2.
      by apply (used_head _ _ F). }
    intros w3 Hw3 Hwk HP3. apply wp_ret. split; [done|]. split; [done|]. split; [|done]. by exists r2.
  - intros res w2 (Hw2 & -> & (r1 & Hr1 & Hwk) & HP2). apply wp_bind, guard_drop_spec; [done|].
    intros w3 Hm3 Hw3. apply wp_ret. split; [done|]. split; [done|].
    assert (woken i (L i) r1 (mem w3)) as Hwk3 by (by rewrite Hm3).
    split; [by exists r1|]. split; [by rewrite Hm3|].
    eapply (free_table_ok (mem w) r1); [done|done|exact Hr1| |done]. done.
Qed.

(** C14: Creating an object with valid arguments, while a slot is free,
    publishes exactly that object in a free slot other than the reserved
    one, owned by the calling process and held by nobody else, leaves every
    other slot and every waiter list alone and keeps the table invariant.
    The handle it answers names the object as long as the slot was reused
    fewer than 2^18 times. *)
Theorem create_publishes o L F w :
  idle w -> pool_ok (mem w) L F -> slots_ok (mem w) L ->
  (exists i, 0 <= i < SLOT_COUNT /\ s_state (slot_ptr (mem w) i) = SLOT_FREE) ->
  fresh_obj o -> obj_wf o ->
  wp t (create_of o) (fun res w' => idle w' /\ exists h i, res = Ok h /\
    created (obj_type o) (obj_word o) h i L F w w' /\ repr o (slot_ptr (mem w') i) /\
    s_pid (slot_ptr (mem w') i) = k_pid /\ s_holders_len (slot_ptr (mem w') i) = 0 /\
    (0 <= s_generation (slot_ptr (mem w) i) < GEN_BITS_RANGE -> lookup_handle (mem w') h = Some i)) w.
Proof.
  intros Hw HP HS Hfree Hf Hwf. rewrite create_of_valid by done.
  eapply wp_mono; [|by apply create_object_spec]. intros res w' (Hw' & h & i & -> & Hc).
  split; [done|]. exists h, i. destruct Hc as [Hi Hfr -> Hs Ho Hn HP' HS'].
  split_and!; [done|by split|rewrite Hs; by apply fill_repr|by rewrite Hs|by rewrite Hs|].
  intros Hg. unfold lookup_handle. rewrite make_handle_index, make_handle_generation by lia.
  rewrite Hs, (Z.mod_small (s_generation _)) by done. cbn. by rewrite Z.eqb_refl.
Qed.

(** C30: The constructors refuse, before touching the region, exactly the
    arguments that describe no object: a count above the maximum, a mutex
    with an owner and no count or a count and no owner, a recursion count
    of 2^31 or more. *)
Theorem create_refuses o :
  fresh_obj o -> create_of o = Ret (Err Invalid) <-> ~ obj_wf o.
Proof.
  intros Hf. split; [|by apply create_of_invalid]. intros He Hwf.
  by rewrite create_of_valid in He.
Qed.

(** C37: Once the free slots were all reused 2^18 times, creation still
    succeeds but the handle it answers names nothing: the generation no
    longer fits in the handle, and the lookup compares all of it. *)
Theorem create_handle_overflow o L F w :
  idle w -> pool_ok (mem w) L F -> slots_ok (mem w) L -> fresh_obj o -> obj_wf o ->
  (exists i, 0 <= i < SLOT_COUNT /\ s_state (slot_ptr (mem w) i) = SLOT_FREE) ->
  (forall i, 0 <= i < SLOT_COUNT -> s_state (slot_ptr (mem w) i) = SLOT_FREE ->
    GEN_BITS_RANGE <= s_generation (slot_ptr (mem w) i)) ->
  wp t (create_of o) (fun res w' => exists h, res = Ok h /\ lookup_handle (mem w') h = None) w.
Proof.
  intros Hw HP HS Hf Hwf Hfree Hg. rewrite create_of_valid by done.
  eapply wp_mono; [|by apply create_object_spec]. intros res w' (Hw' & h & i & -> & Hc).
  exists h. split; [done|]. destruct Hc as [Hi Hfr -> Hs Ho Hn HP' HS'].
  unfold lookup_handle. rewrite make_handle_index, make_handle_generation by lia. rewrite Hs. cbn.
  rewrite (proj2 (Z.eqb_neq _ _)); [done|]. specialize (Hg i ltac:(lia) Hfr).
  pose proof (Z.mod_pos_bound (s_generation (slot_ptr (mem w) i)) GEN_BITS_RANGE). unfold GEN_BITS_RANGE in *. lia.
Qed.

End create.
