(* ===== verification/HoldersOk.v ===== *)
(** * HoldersOk: the holder list of an object is a bounded set

    [holder_add] and [holder_remove] act on the eight-entry array of a slot
    as insertion into and deletion from a set of process ids, with a sticky
    overflow mark once a ninth holder came. *)
From S2P Require Import Prelude Prog Config Region Kernel Lock Nodes WaitLists NodePool Sweep Init Slots Objects Words ObjectsOk SlotsOk.

(** The recorded holders, and whether some could not be recorded. *)
Definition holders_of (s : Slot) : list Z := take (holder_cap s) (s_holders s).
Definition overflowed (s : Slot) : bool := negb (Z.land (s_holders_len s) HOLDER_OVERFLOW =? 0).

Record holders_ok (s : Slot) : Prop := {
  ho_length : length (s_holders s) = 8%nat;
  ho_len : exists n b, (n <= 8)%nat /\
    s_holders_len s = Z.of_nat n + (if b : bool then HOLDER_OVERFLOW else 0);
  ho_nodup : NoDup (holders_of s);
}.

Lemma len_split (n : nat) (b : bool) :
  (n <= 8)%nat ->
  let v := Z.of_nat n + (if b then HOLDER_OVERFLOW else 0) in
  Z.land v HOLDER_OVERFLOW = (if b then HOLDER_OVERFLOW else 0) /\ Z.ldiff v HOLDER_OVERFLOW = Z.of_nat n /\
  Z.lor (Z.of_nat n) (if b then HOLDER_OVERFLOW else 0) = v.
Proof.
  intros Hn. assert (0 <= Z.of_nat n < SLOT_COUNT) as Hc by (unfold SLOT_COUNT; lia).
  destruct (cursor_split _ b Hc) as [H1 H2]. split; [exact H1|]. split; [exact H2|].
  destruct b; [|by rewrite Z.lor_0_r, Z.add_0_r].
  unfold HOLDER_OVERFLOW. rewrite Z.lor_comm. change 0x80000000 with (Z.shiftl 1 31) at 1.
  rewrite shiftl_lor_add by lia. change (2 ^ 31) with 0x80000000. lia.
Qed.

Section slot.
Context (s : Slot) (n : nat) (b : bool).
Context (Hn : (n <= 8)%nat).
Context (Hlen : s_holders_len s = Z.of_nat n + (if b then HOLDER_OVERFLOW else 0)).

Lemma holder_cap_val : holder_cap s = n.
Proof.
  unfold holder_cap, holders_count, MAX_HOLDERS. rewrite Hlen.
  destruct (len_split n b Hn) as (_&->&_). lia.
Qed.

Lemma overflow_val : Z.land (s_holders_len s) HOLDER_OVERFLOW = (if b then HOLDER_OVERFLOW else 0).
Proof. rewrite Hlen. by destruct (len_split n b Hn). Qed.

Lemma overflowed_val : overflowed s = b.
Proof. unfold overflowed. rewrite overflow_val. by destruct b. Qed.

(** The slot after its holder list became [hs], [m] entries long. *)
Lemma set_holders_ok m hs :
  (m <= 8)%nat -> length hs = 8%nat -> NoDup (take m hs) ->
  let s' := set_holders (Z.lor (Z.of_nat m) (Z.land (s_holders_len s) HOLDER_OVERFLOW)) hs s in
  holders_ok s' /\ holders_of s' = take m hs /\ overflowed s' = b.
Proof.
  intros Hm Hl Hnd s'.
  assert (s_holders_len s' = Z.of_nat m + (if b then HOLDER_OVERFLOW else 0)) as Hl'.
  { unfold s'. cbn [set_holders s_holders_len]. rewrite overflow_val. by destruct (len_split m b Hm) as (_&_&->). }
  assert (holder_cap s' = m) as Hc.
  { unfold holder_cap, holders_count, MAX_HOLDERS. rewrite Hl'.
    destruct (len_split m b Hm) as (_&->&_). lia. }
  assert (holders_of s' = take m hs) as Ho by (unfold holders_of; by rewrite Hc).
  split; [|split; [done|]].
  - split; [done|by exists m, b|by rewrite Ho].
  - unfold overflowed. rewrite Hl'. destruct (len_split m b Hm) as (->&_). by destruct b.
Qed.
End slot.

Lemma holder_pos_None pid cap hs : holder_pos pid cap hs = None <-> pid ∉ take cap hs.
Proof.
  unfold holder_pos. rewrite fmap_None, list_find_None, Forall_forall. split.
  - intros H Hin. by apply (H pid Hin).
  - intros H x Hx ->. done.
Qed.

Lemma holder_pos_Some pid cap hs i :
  holder_pos pid cap hs = Some i -> take cap hs !! i = Some pid.
Proof.
  unfold holder_pos. intros ([j x] & Hj & ->)%fmap_Some.
  apply list_find_Some in Hj as (Hj & Hx & _). simpl. by rewrite Hj, Hx.
Qed.

(** Adding a holder. *)
Lemma holder_add_in pid s : pid ∈ holders_of s -> holder_add pid s = s.
Proof.
  intros Hin. unfold holder_add. destruct (holder_pos _ _ _) eqn:E; [done|].
  by apply holder_pos_None in E.
Qed.

Lemma holder_add_room pid s :
  holders_ok s -> pid ∉ holders_of s -> (length (holders_of s) < 8)%nat ->
  holders_ok (holder_add pid s) /\ holders_of (holder_add pid s) = holders_of s ++ [pid] /\
  overflowed (holder_add pid s) = overflowed s.
Proof.
  intros [Hl [n [b [Hn Hlen]]] Hnd] Hni Hroom.
  pose proof (holder_cap_val s n b Hn Hlen) as Hc. unfold holders_of in *. rewrite Hc in *.
  rewrite length_take, Hl in Hroom. unfold holder_add.
  rewrite (proj2 (holder_pos_None _ _ _)) by (by rewrite Hc).
  rewrite Hc, (proj2 (Z.eqb_neq (Z.of_nat n) MAX_HOLDERS)) by (unfold MAX_HOLDERS; lia).
  assert (take (n + 1) (<[n:=pid]> (s_holders s)) = take n (s_holders s) ++ [pid]) as Ht.
  { replace (n + 1)%nat with (S n) by lia. erewrite take_S_r.
    - by rewrite take_insert_ge by lia.
    - apply list_lookup_insert_eq. lia. }
  replace (Z.of_nat n + 1) with (Z.of_nat (n + 1)) by lia.
  destruct (set_holders_ok s n b Hn Hlen (n + 1) (<[n:=pid]> (s_holders s))) as (H1&H2&H3).
  - lia.
  - by rewrite length_insert.
  - rewrite Ht. apply NoDup_app. split; [done|]. split; [|apply NoDup_singleton].
    intros x Hx ->%list_elem_of_singleton. done.
  - rewrite (overflowed_val s n b Hn Hlen). split; [done|]. split; [|done].
    unfold holders_of in H2. by rewrite H2.
Qed.

Lemma holder_add_full pid s :
  holders_ok s -> pid ∉ holders_of s -> length (holders_of s) = 8%nat ->
  holders_ok (holder_add pid s) /\ holders_of (holder_add pid s) = holders_of s /\
  overflowed (holder_add pid s) = true.
Proof.
  intros [Hl [n [b [Hn Hlen]]] Hnd] Hni Hroom.
  pose proof (holder_cap_val s n b Hn Hlen) as Hc. unfold holders_of in *. rewrite Hc in *.
  rewrite length_take, Hl in Hroom. assert (n = 8%nat) as -> by lia. unfold holder_add.
  rewrite (proj2 (holder_pos_None _ _ _)) by (by rewrite Hc). rewrite Hc.
  change (Z.of_nat 8 =? MAX_HOLDERS) with true. cbn iota.
  set (s' := set_holders _ _ s).
  assert (s_holders_len s' = Z.of_nat 8 + HOLDER_OVERFLOW) as Hl'.
  { unfold s'. cbn [set_holders s_holders_len]. rewrite Hlen. by destruct b. }
  pose proof (holder_cap_val s' 8 true ltac:(lia) Hl') as Hc'.
  split; [|rewrite Hc'; split; [done|by apply (overflowed_val s' 8 true)]].
  split; [done| by exists 8%nat, true | unfold holders_of; by rewrite Hc'].
Qed.

(** Removing a holder. *)
Lemma holder_remove_notin pid s : pid ∉ holders_of s -> holder_remove pid s = s.
Proof.
  intros Hni. unfold holder_remove. by rewrite (proj2 (holder_pos_None _ _ _)).
Qed.

Lemma delete_insert_same (l : list Z) i z : delete i (<[i:=z]> l) = delete i l.
Proof. revert i. induction l as [|x l IH]; intros [|i]; simpl; [done..|]. by rewrite IH. Qed.

(** Swap-remove is removal, up to order. *)
Lemma swap_remove_perm (hs : list Z) m i pid :
  (S m <= length hs)%nat -> take (S m) hs !! i = Some pid ->
  pid :: take m (<[i := nth m hs 0]> hs) ≡ₚ take (S m) hs.
Proof.
  intros Hm Hi. pose proof (lookup_lt_Some _ _ _ Hi) as Hlt. rewrite length_take in Hlt.
  rewrite lookup_take_lt in Hi by lia.
  assert (hs !! m = Some (nth m hs 0)) as Hlast.
  { destruct (hs !! m) eqn:E; [by rewrite (nth_lookup_Some _ _ _ _ E)|].
    apply lookup_ge_None in E. lia. }
  rewrite (take_S_r hs m _ Hlast).
  destruct (decide (i = m)) as [->|Hne].
  - rewrite take_insert_ge by lia. rewrite Hlast in Hi. simplify_eq.
    by rewrite Permutation_app_comm.
  - rewrite take_insert_lt by lia.
    assert (take m hs !! i = Some pid) as Hi' by (by rewrite lookup_take_lt by lia).
    set (z := nth m hs 0).
    assert (<[i:=z]> (take m hs) !! i = Some z) as Hz.
    { apply list_lookup_insert_eq. rewrite length_take. lia. }
    rewrite (delete_Permutation _ i z Hz), delete_insert_same.
    rewrite (delete_Permutation (take m hs) i pid Hi') at 2. solve_Permutation.
Qed.

Lemma holder_remove_in pid s :
  holders_ok s -> pid ∈ holders_of s ->
  holders_ok (holder_remove pid s) /\ pid :: holders_of (holder_remove pid s) ≡ₚ holders_of s /\
  overflowed (holder_remove pid s) = overflowed s.
Proof.
  intros [Hl [n [b [Hn Hlen]]] Hnd] Hin.
  pose proof (holder_cap_val s n b Hn Hlen) as Hc.
  rewrite (overflowed_val s n b Hn Hlen). unfold holder_remove.
  destruct (holder_pos pid (holder_cap s) (s_holders s)) as [i|] eqn:E.
  2: { by apply holder_pos_None in E. }
  apply holder_pos_Some in E. unfold holders_of in *. rewrite Hc in *.
  destruct n as [|m]; [by rewrite take_0 in Hin; apply elem_of_nil in Hin|].
  replace (S m - 1)%nat with m by lia.
  pose proof (swap_remove_perm (s_holders s) m i pid ltac:(lia) E) as Hp.
  assert (take m (<[m:=0]> (<[i:=nth m (s_holders s) 0]> (s_holders s)))
          = take m (<[i:=nth m (s_holders s) 0]> (s_holders s))) as Ht by (by rewrite take_insert_ge).
  rewrite <- Ht in Hp.
  destruct (set_holders_ok s (S m) b Hn Hlen m (<[m:=0]> (<[i:=nth m (s_holders s) 0]> (s_holders s))))
    as (H1&H2&H3).
  - lia.
  - by rewrite !length_insert.
  - rewrite <- Hp in Hnd. by apply NoDup_cons in Hnd as [].
  - split; [done|]. split; [|done]. unfold holders_of in H2. by rewrite H2.
Qed.

(** Both keep the rest of the slot. *)
Lemma holder_add_frame pid s : exists len hs, holder_add pid s = set_holders len hs s.
Proof.
  unfold holder_add. repeat case_match; eauto.
  exists (s_holders_len s), (s_holders s). by destruct s.
Qed.

Lemma holder_remove_frame pid s : exists len hs, holder_remove pid s = set_holders len hs s.
Proof.
  unfold holder_remove. case_match; eauto.
  exists (s_holders_len s), (s_holders s). by destruct s.
Qed.

(** Removal is removal, whether the process was recorded or not. *)
Lemma holder_removed pid s :
  holders_ok s ->
  holders_ok (holder_remove pid s) /\
  (forall p, p ∈ holders_of (holder_remove pid s) <-> p ∈ holders_of s /\ p <> pid) /\
  overflowed (holder_remove pid s) = overflowed s.
Proof.
  intros Hok. destruct (decide (pid ∈ holders_of s)) as [Hin|Hni].
  - destruct (holder_remove_in pid s Hok Hin) as (H1&H2&H3). split_and!; [done| |done].
    intros p. rewrite <- H2, elem_of_cons. pose proof (ho_nodup _ Hok) as Hnd. rewrite <- H2 in Hnd.
    apply NoDup_cons in Hnd as [Hnd _]. split; [|tauto]. intros Hp. split; [auto|]. by intros ->.
  - rewrite holder_remove_notin by done. split_and!; [done| |done].
    intros p. split; [|tauto]. intros Hp. split; [done|]. by intros ->.
Qed.

Section retain.
Context `{!Config} {G : Type} `{!Kernel Region G} {t : nat} `{!QuietKernel G t}.
Context (Hfuel : (0 < loop_fuel)%nat).
Implicit Types (w : world Region Local G).

(** [retain] and [release] differ in what they do to the slot only. *)
Definition hold_op (f : Z -> Slot -> Slot) (handle : Z) : action (result unit Error) :=
  if handle_index handle =? 0 then Ret (Err Invalid)
  else
    _ <-? region ;;
    with_lock
      (i <-? slot_or_invalid handle ;;
       pid <- sys GetPid ;;
       mem_write (upd_slot i (f pid)) ;;;
       Ret (Ok tt)).

Lemma hold_op_spec f h w :
  idle w ->
  wp t (hold_op f h) (fun res w' => idle w' /\
    match (if handle_index h =? 0 then None else lookup_handle (mem w) h) with
    | Some i => res = Ok tt /\ mem w' ≡ upd_slot i (f k_pid) (mem w)
    | None => res = Err Invalid /\ mem w' ≡ mem w
    end) w.
Proof.
  intros Hw. unfold hold_op. destruct (handle_index h =? 0); [by apply wp_ret|].
  apply wp_bind, (wp_region false); [done|]. cbn beta iota.
  apply with_lock_spec; [lia|done|]. intros w1 Hm1 Hw1.
  apply wp_bind, wp_bind, wp_slot. rewrite Hm1.
  destruct (lookup_handle (mem w) h) as [i|].
  - apply wp_ret, wp_bind, wp_getpid. intros w2 Hc. apply wp_bind, wp_write, wp_ret.
    split; [by apply (calm_ready _ _ _ Hc)|]. intros w3 Hm3 Hw3. split; [done|]. split; [done|].
    rewrite Hm3. cbn [mem]. by rewrite (calm_mem _ _ Hc), Hm1.
  - apply wp_ret, wp_ret. split; [done|]. intros w3 Hm3 Hw3. split; [done|]. split; [done|].
    by rewrite Hm3.
Qed.

(** C31: Retaining a live handle records the calling process as a holder, once
    however often it is called; when eight others are recorded it marks the
    object as overflowed instead.  No holder is lost, no other slot changes. *)
Theorem retain_records h i w :
  idle w -> handle_index h <> 0 -> lookup_handle (mem w) h = Some i ->
  holders_ok (slot_ptr (mem w) i) ->
  wp t (retain h) (fun res w' => idle w' /\ res = Ok tt /\
    let s := slot_ptr (mem w) i in let s' := slot_ptr (mem w') i in
    holders_ok s' /\
    (k_pid ∈ holders_of s' \/ overflowed s' = true /\ length (holders_of s) = 8%nat) /\
    (forall p, p ∈ holders_of s -> p ∈ holders_of s') /\
    (forall p, p ∈ holders_of s' -> p ∈ holders_of s \/ p = k_pid) /\
    (overflowed s = true -> overflowed s' = true) /\
    forall j, j <> i -> slot_ptr (mem w') j = slot_ptr (mem w) j) w.
Proof.
  intros Hw Hne Hl Hok. change (retain h) with (hold_op holder_add h).
  eapply wp_mono; [|by apply hold_op_spec]. intros res w'. rewrite (proj2 (Z.eqb_neq _ 0)), Hl by done.
  intros (Hw' & -> & Hm). split; [done|]. split; [done|]. cbv zeta.
  assert (forall j, slot_ptr (mem w') j =
    if decide (i = j) then holder_add k_pid (slot_ptr (mem w) i) else slot_ptr (mem w) j) as Hs.
  { intros j. by rewrite Hm, slot_ptr_upd_slot. }
  set (s := slot_ptr (mem w) i) in *. rewrite (Hs i), decide_True by done.
  assert (forall j, j <> i -> slot_ptr (mem w') j = slot_ptr (mem w) j) as Hother.
  { intros j Hj. by rewrite Hs, decide_False. }
  destruct (decide (k_pid ∈ holders_of s)) as [Hin|Hni].
  { rewrite holder_add_in by done. split_and!; auto. }
  destruct (decide (length (holders_of s) < 8)%nat) as [Hr|Hr].
  - destruct (holder_add_room k_pid s Hok Hni Hr) as (H1&H2&H3). rewrite H2, H3.
    split_and!; [done| | | |done|done].
    + left. apply elem_of_app. right. apply list_elem_of_here.
    + intros p Hp. apply elem_of_app. by left.
    + intros p [Hp|Hp%list_elem_of_singleton]%elem_of_app; auto.
  - assert (length (holders_of s) = 8%nat) as H8.
    { pose proof (ho_length _ Hok). unfold holders_of in *. rewrite length_take in *. lia. }
    destruct (holder_add_full k_pid s Hok Hni H8) as (H1&H2&H3). rewrite H2, H3. split_and!; auto.
Qed.

(** Releasing takes exactly the calling process off the holders of the
    object and keeps the overflow mark. *)
Theorem release_removes h i w :
  idle w -> handle_index h <> 0 -> lookup_handle (mem w) h = Some i ->
  holders_ok (slot_ptr (mem w) i) ->
  wp t (release h) (fun res w' => idle w' /\ res = Ok tt /\
    let s := slot_ptr (mem w) i in let s' := slot_ptr (mem w') i in
    holders_ok s' /\ (forall p, p ∈ holders_of s' <-> p ∈ holders_of s /\ p <> k_pid) /\
    overflowed s' = overflowed s /\
    forall j, j <> i -> slot_ptr (mem w') j = slot_ptr (mem w) j) w.
Proof.
  intros Hw Hne Hl Hok. change (release h) with (hold_op holder_remove h).
  eapply wp_mono; [|by apply hold_op_spec]. intros res w'. rewrite (proj2 (Z.eqb_neq _ 0)), Hl by done.
  intros (Hw' & -> & Hm). split; [done|]. split; [done|]. cbv zeta.
  assert (forall j, slot_ptr (mem w') j =
    if decide (i = j) then holder_remove k_pid (slot_ptr (mem w) i) else slot_ptr (mem w) j) as Hs.
  { intros j. by rewrite Hm, slot_ptr_upd_slot. }
  set (s := slot_ptr (mem w) i) in *. rewrite (Hs i), decide_True by done.
  destruct (holder_removed k_pid s Hok) as (H1&H2&H3). split_and!; [done..|].
  intros j Hj. by rewrite Hs, decide_False.
Qed.
End retain.

(** ** Closing *)
Section close.
Context `{!Config} {G : Type} `{!Kernel Region G} {t : nat} `{!QuietKernel G t}.
Context (Hfuel : (Z.to_nat NODE_COUNT < loop_fuel)%nat).
Implicit Types (w : world Region Local G).

(** The slot after [close], which freed it and emptied its waiter list. *)
Record freed (i : Z) (L : Z -> list Z) (r r' : Region) : Prop := {
  fr_state : s_state (slot_ptr r' i) = SLOT_FREE;
  fr_generation : s_generation (slot_ptr r' i) = wrap32 (s_generation (slot_ptr r i) + 1);
  fr_head : s_waiter_head (slot_ptr r' i) = NIL;
  fr_holders : holders_ok (slot_ptr r i) -> forall p,
    p ∈ holders_of (slot_ptr r' i) <-> p ∈ holders_of (slot_ptr r i) /\ p <> k_pid;
  fr_off n : n ∈ L i -> n_registered (node_ptr r' n) = 0;
  fr_woken n : n ∈ L i -> let word := n_wait_word (node_ptr r n) in
    n_seq (node_ptr r' word) <> n_seq (node_ptr r word);
  fr_other n : n ∉ L i -> n_registered (node_ptr r' n) = n_registered (node_ptr r n);
  fr_slots j : j <> i -> slot_ptr r' j = slot_ptr r j;
}.

(** C15: Closing a live handle frees its slot, takes the caller and nobody else
    off the holders, moves the generation on and wakes every waiter of the
    object: each is off the list and the futex word it sleeps on has moved, while
    no other waiter was touched.  The handle is stale from then on, no other
    slot changes, and the waiter lists, the free nodes and the table keep their
    invariants. *)
Theorem close_frees h i L F w :
  idle w -> pool_ok (mem w) L F -> slots_ok (mem w) L -> lookup_handle (mem w) h = Some i -> i <> 0 ->
  wp t (close h) (fun res w' => idle w' /\ res = true /\ lookup_handle (mem w') h = None /\
    freed i L (mem w) (mem w') /\
    pool_ok (mem w') (clear i L) F /\ slots_ok (mem w') (clear i L)) w.
Proof.
  intros Hw HP HS Hh Hi. eapply wp_mono; [|by apply (close_spec Hfuel h i L F)].
  intros res w' (Hw' & -> & (r1 & Hr1 & Hwk) & HP' & HS').
  destruct (lookup_handle_Some _ _ _ Hh) as (Hidx & _).
  assert (forall j, slot_ptr (mem w') j = if decide (j = i) then set_waiter_head NIL (closed_slot k_pid (slot_ptr (mem w) i))
    else slot_ptr (mem w) j) as Hs.
  { intros j. rewrite (wk_slot _ _ _ _ Hwk).
    assert (slot_ptr r1 j = if decide (i = j) then closed_slot k_pid (slot_ptr (mem w) i) else slot_ptr (mem w) j) as ->
      by (by rewrite Hr1, slot_ptr_upd_slot).
    destruct (decide (j = i)) as [->|]; [by rewrite decide_True|by rewrite decide_False]. }
  assert (forall n, node_ptr r1 n = node_ptr (mem w) n) as Hn1 by (intros n; by rewrite Hr1).
  split_and!; [done|done| | |done|done].
  { unfold lookup_handle. rewrite <- Hidx, Hs, decide_True by done. done. }
  pose proof (Hs i) as Hsi. rewrite decide_True in Hsi by done. split; rewrite ?Hsi; cbn.
  - done.
  - by destruct (holder_remove_keeps k_pid (slot_ptr (mem w) i)) as (_&_&->).
  - done.
  - intros Hok p. apply (holder_removed k_pid _ Hok).
  - intros n Hn. by rewrite (wk_reg _ _ _ _ Hwk), decide_True.
  - intros n Hn. pose proof (woken_moves _ _ _ _ _ L n Hwk (po_lists _ _ _ HP) eq_refl Hn) as Hm.
    cbv zeta in Hm. by rewrite !Hn1 in Hm.
  - intros n Hn. by rewrite (wk_reg _ _ _ _ Hwk), decide_False, Hn1.
  - intros j Hj. by rewrite Hs, decide_False.
Qed.
End close.
