(* ===== verification/Interleave.v ===== *)
(** * Interleave: the operations under every interleaving

    The operations are lock-free: between any two atomic accesses of one
    thread the others may do anything.  [step_ok] lists what one atomic step
    may do to the packed state of an object; every operation, run in any
    number of threads and interleaved in any way, changes the objects by such
    steps only ([obeys]).  Here are the steps and the operations on one
    object; InterleaveWait.v has the waits, the clients and the theorems.

    There are two regimes.  In the [strict] one nobody waits for all of
    several objects, and a semaphore never exceeds its maximum.  A WAIT_ALL
    that rolls back gives its units back unchecked, so in the other regime
    the count of a semaphore is only known to fit its 32 bits. *)
From S2P Require Import Prelude Prog Config Region Kernel Lock Nodes Policy Sweep Init Slots Objects Words Wait.

(** What of an object never changes. *)
Inductive kind : Type :=
| KSem (max : Z)
| KMutex
| KEvent (manual : bool).

Definition kind_of (o : obj) : kind :=
  match o with OSem _ max => KSem max | OMutex _ _ _ => KMutex | OEvent manual _ _ => KEvent manual end.

Definition kind_type (k : kind) : Z :=
  match k with KSem _ => TYPE_SEM | KMutex => TYPE_MUTEX | KEvent _ => TYPE_EVENT end.

(** What of an object holds in each regime. *)
Definition wf (strict : bool) (o : obj) : Prop :=
  match o with
  | OSem count max => if strict then 0 <= count <= max /\ max < W32 else u32 count /\ u32 max
  | _ => obj_wf o
  end.

Definition repr_in (strict : bool) (o : obj) (s : Slot) : Prop :=
  s_obj_type s = obj_type o /\ s_w0 s = obj_word o /\ wf strict o /\
  match o with OEvent _ _ pulses => s_d s = pulses | _ => True end.

Lemma wf_weaken strict o : wf strict o -> wf false o.
Proof. destruct o, strict; simpl; unfold u32; try done. lia. Qed.

Lemma repr_in_strict o s : repr_in true o s <-> repr o s.
Proof. split; intros (H1&H2&H3&H4); (split; [done|]); (split; [done|]); (split; [by destruct o|done]). Qed.

Lemma repr_in_put strict o o' s :
  repr_in strict o s -> wf strict o' -> obj_type o' = obj_type o ->
  (forall m g p, o' = OEvent m g p -> s_d s = p) -> repr_in strict o' (put_obj o' s).
Proof.
  intros (H1&H2&H3&H4) Hwf Hty Hd. split; [by rewrite Hty|]. split; [done|].
  split; [done|]. destruct o'; try done. by eapply Hd.
Qed.

Lemma repr_in_inj strict o o' s : repr_in strict o s -> repr_in strict o' s -> o = o'.
Proof.
  intros (H1&H2&H3%wf_weaken&H4) (H1'&H2'&H3'%wf_weaken&H4'). rewrite H1 in H1'. rewrite H2 in H2'.
  destruct o as [c m|ow c d|m g p], o' as [c' m'|ow' c' d'|m' g' p']; try done.
  - simpl in *. unfold u32 in *. f_equal.
    + rewrite <- (lo32_sem c m), <- (lo32_sem c' m') by lia. by rewrite H2'.
    + rewrite <- (hi32_sem c m), <- (hi32_sem c' m') by lia. by rewrite H2'.
  - apply (repr_inj _ _ s); split_and!; simpl in *; try done; congruence.
  - apply (repr_inj _ _ s); split_and!; simpl in *; try done; congruence.
Qed.

(** One step of one object; [P] says which owners the operations act for.
    Freeing a mutex keeps the mark of a dead owner, but a rollback puts back
    the mark it had found. *)
Inductive obj_step (strict : bool) (P : Z -> Prop) : obj -> obj -> Prop :=
| step_release c m n : 0 <= n -> c + n <= m -> obj_step strict P (OSem c m) (OSem (c + n) m)
| step_take c m : 0 < c -> obj_step strict P (OSem c m) (OSem (c - 1) m)
| step_give_back c m : strict = false -> obj_step strict P (OSem c m) (OSem (wrap32 (c + 1)) m)
| step_lock o d : P o -> obj_step strict P (OMutex 0 0 d) (OMutex o 1 false)
| step_relock o c d : P o -> obj_step strict P (OMutex o c d) (OMutex o (c + 1) d)
| step_unlock o c d : P o -> 1 < c -> obj_step strict P (OMutex o c d) (OMutex o (c - 1) d)
| step_free o d d' : P o -> (strict = true -> d' = d) -> obj_step strict P (OMutex o 1 d) (OMutex 0 0 d')
| step_kill o c d : P o -> obj_step strict P (OMutex o c d) (OMutex 0 0 true)
| step_event m g g' p p' : obj_step strict P (OEvent m g p) (OEvent m g' p').

Lemma obj_step_kind strict P o o' : obj_step strict P o o' -> kind_of o' = kind_of o.
Proof. by destruct 1. Qed.

Lemma obj_step_mono strict (P P' : Z -> Prop) o o' :
  (forall x, P x -> P' x) -> obj_step strict P o o' -> obj_step strict P' o o'.
Proof.
  intros HP. destruct 1; [apply step_release|apply step_take|apply step_give_back|apply step_lock
    |apply step_relock|apply step_unlock|apply step_free|apply step_kill|apply step_event]; auto.
Qed.

(** The table: slot [i] holds a well-formed object of kind [K i]. *)
Definition table_ok (strict : bool) (K : Z -> option kind) (m : Region) : Prop :=
  forall i, match K i with
    | Some k => exists o, repr_in strict o (slot_ptr m i) /\ kind_of o = k
    | None => is_waitable (s_obj_type (slot_ptr m i)) = false
    end.

(** A step of a slot: its object moves by [obj_step], or nothing that
    describes the object moves. *)
Definition slot_step (strict : bool) (P : Z -> Prop) (s s' : Slot) : Prop :=
  s_obj_type s' = s_obj_type s /\
  (s_w0 s' = s_w0 s /\ s_d s' = s_d s \/
   exists o o', repr_in strict o s /\ repr_in strict o' s' /\ obj_step strict P o o').

Definition step_ok (strict : bool) (P : Z -> Prop) (m m' : Region) : Prop :=
  forall i, slot_step strict P (slot_ptr m i) (slot_ptr m' i).

Lemma step_ok_mono strict (P P' : Z -> Prop) m m' :
  (forall x, P x -> P' x) -> step_ok strict P m m' -> step_ok strict P' m m'.
Proof.
  intros HP Hs i. destruct (Hs i) as [Ht Hw]. split; [done|].
  destruct Hw as [Hw|(o & o' & H1 & H2 & H3)]; [by left|]. right. exists o, o'.
  split; [done|]. split; [done|]. by eapply obj_step_mono.
Qed.

Lemma repr_same strict o s s' :
  s_obj_type s' = s_obj_type s -> s_w0 s' = s_w0 s -> s_d s' = s_d s ->
  repr_in strict o s -> repr_in strict o s'.
Proof. intros H1 H2 H3 (A1&A2&A3&A4). split; [congruence|]. split; [congruence|]. split; [done|]. destruct o; congruence. Qed.

Lemma table_ok_step strict K P m m' :
  table_ok strict K m -> step_ok strict P m m' -> table_ok strict K m'.
Proof.
  intros HK Hs i. specialize (HK i). destruct (Hs i) as [Ht Hw]. destruct (K i) as [k|]; [|by rewrite Ht].
  destruct HK as (o & Ho & Hk). destruct Hw as [[Hw Hd]|(o1 & o2 & Ho1 & Ho2 & Hst)].
  - exists o. split; [by eapply repr_same|done].
  - exists o2. split; [done|]. rewrite (repr_in_inj _ _ _ _ Ho Ho1) in Hk.
    by rewrite (obj_step_kind _ _ _ _ Hst).
Qed.

(** ** Steps that do not touch an object's state *)
Definition quiet (m m' : Region) : Prop :=
  forall i, s_obj_type (slot_ptr m' i) = s_obj_type (slot_ptr m i) /\
    s_w0 (slot_ptr m' i) = s_w0 (slot_ptr m i) /\ s_d (slot_ptr m' i) = s_d (slot_ptr m i).

Lemma quiet_refl m : quiet m m.
Proof. done. Qed.

Lemma quiet_trans m1 m2 m3 : quiet m1 m2 -> quiet m2 m3 -> quiet m1 m3.
Proof. intros H1 H2 i. destruct (H1 i) as (?&?&?), (H2 i) as (?&?&?). split_and!; congruence. Qed.

Lemma quiet_step strict P m m' : quiet m m' -> step_ok strict P m m'.
Proof. intros H i. destruct (H i) as (?&?&?). split; [done|]. by left. Qed.

Lemma quiet_slot i f m :
  (forall s, s_obj_type (f s) = s_obj_type s /\ s_w0 (f s) = s_w0 s /\ s_d (f s) = s_d s) ->
  quiet m (upd_slot i f m).
Proof. intros Hf j. rewrite slot_ptr_upd_slot. by destruct (decide (i = j)) as [<-|]. Qed.

Lemma quiet_node i f m : quiet m (upd_node i f m).
Proof. done. Qed.

Lemma quiet_header f m : quiet m (upd_header f m).
Proof. done. Qed.

Lemma quiet_detach idx m : quiet m (node_detach idx m).
Proof.
  unfold node_detach. destruct (_ =? 0); [done|]. cbn zeta.
  destruct (n_obj_prev _ =? NIL), (negb _).
  all: repeat first [apply quiet_refl | by apply quiet_slot | eapply quiet_trans; [|apply quiet_node]].
Qed.

Lemma quiet_register idx obj ww m : quiet m (node_register idx obj ww m).
Proof.
  unfold node_register. cbn zeta. eapply quiet_trans; [|by apply quiet_slot].
  destruct (negb _); [|apply quiet_node]. eapply quiet_trans; apply quiet_node.
Qed.

Lemma quiet_foldl {B} (f : Region -> B -> Region) l : forall m,
  (forall m b, quiet m (f m b)) -> quiet m (foldl f m l).
Proof.
  induction l as [|b l IH]; intros m Hf; simpl; [done|].
  eapply quiet_trans; [apply Hf|]. by apply IH.
Qed.

Lemma quiet_cleanup nodes m : quiet m (waiter_cleanup nodes m).
Proof.
  unfold waiter_cleanup. eapply quiet_trans; eapply quiet_foldl; intros m' b; [apply quiet_detach|].
  unfold node_free. eapply quiet_trans; [apply quiet_node|apply quiet_header].
Qed.

Lemma quiet_reap_node c m : quiet m (reap_node c m).
Proof.
  unfold reap_node. destruct (_ && _); [|done]. eapply quiet_trans; [apply quiet_detach|].
  unfold node_free. eapply quiet_trans; [apply quiet_node|apply quiet_header].
Qed.

Lemma quiet_reap_slot c m : quiet m (snd (reap_slot c m)).
Proof. unfold reap_slot. destruct (reapable _ _); [|done]. by apply quiet_slot. Qed.

Lemma quiet_node_pop m : quiet m (snd (node_pop m)).
Proof. unfold node_pop. repeat case_match; done. Qed.

Lemma quiet_holder_add pid i m : quiet m (upd_slot i (holder_add pid) m).
Proof. apply quiet_slot. intros s. unfold holder_add. repeat case_match; done. Qed.

Lemma quiet_holder_remove pid i m : quiet m (upd_slot i (holder_remove pid) m).
Proof. apply quiet_slot. intros s. unfold holder_remove. repeat case_match; done. Qed.

Create HintDb quiet.
#[export] Hint Resolve quiet_refl quiet_node quiet_header quiet_detach quiet_register quiet_cleanup
  quiet_reap_node quiet_reap_slot quiet_node_pop quiet_holder_add quiet_holder_remove : quiet.
#[export] Hint Extern 1 (quiet _ (upd_slot _ _ _)) => (apply quiet_slot; done) : quiet.
#[export] Hint Extern 1 (quiet _ (foldl _ _ _)) => (eapply quiet_foldl; auto with quiet) : quiet.

(** ** The operations obey [step_ok] *)
Create HintDb ok_db.

(** The thread has mapped the region. *)
Definition mapped (l : Local) : Prop := l_region l = Some (Ok tt).
Definition any {A} (a : A) : Prop := True.

Section rules.
Context `{!Config} (strict : bool) (K : Z -> option kind).
(** The owners this thread acts for, and those the others may act for. *)
Context (P P' : Z -> Prop).

Abbreviation ok Q p := (obeys (table_ok strict K) mapped (step_ok strict P) (step_ok strict P') Q p) (only parsing).

Lemma step_refl m : step_ok strict P m m.
Proof. apply quiet_step, quiet_refl. Qed.

Lemma step_keeps m m' : table_ok strict K m -> step_ok strict P m m' -> table_ok strict K m'.
Proof. apply table_ok_step. Qed.

Lemma ok_bind {A B} (R : A -> Prop) (Q : B -> Prop) (p : action A) (q : A -> action B) :
  ok R p -> (forall a, R a -> ok Q (q a)) -> ok Q (bind p q).
Proof. apply obeys_bind, step_keeps. Qed.

Lemma ok_seq {A B} (Q : B -> Prop) (p : action A) (q : A -> action B) :
  ok any p -> (forall a, ok Q (q a)) -> ok Q (bind p q).
Proof. intros Hp Hq. eapply ok_bind; [exact Hp|]. auto. Qed.

Lemma ok_read {A} (Q : A -> Prop) (f : Region -> A) :
  (forall m, table_ok strict K m -> Q (f m)) -> ok Q (mem_read f).
Proof. apply obeys_read. apply step_refl. Qed.

Lemma ok_write (f : Region -> Region) : (forall m, quiet m (f m)) -> ok any (mem_write f).
Proof. intros Hf. apply obeys_write; [|done]. intros m _. by apply quiet_step. Qed.

Lemma ok_do {A} (f : Region -> A * Region) : (forall m, quiet m (snd (f m))) -> ok any (mem_do f).
Proof. intros Hf. apply obeys_do. intros m _. split; [by apply quiet_step|done]. Qed.

Lemma ok_loc {A} (f : Local -> A * Local) :
  (forall l, l_region (snd (f l)) = l_region l) -> ok any (loc_do f).
Proof. intros Hf. apply obeys_loc. intros l Hl. split; [|done]. unfold mapped. by rewrite Hf. Qed.

Lemma ok_stat i n : ok any (stat_add i n).
Proof. by apply ok_loc. Qed.

End rules.

Ltac ok_end := first [apply obeys_out | apply obeys_panic | apply obeys_ret; exact I].

(** Programs made of reads, quiet writes, counters and system calls. *)
Ltac ok1 :=
  lazymatch goal with
  | |- obeys _ _ _ _ _ (bind _ _) => apply ok_seq; [|intros ?]
  | |- obeys _ _ _ _ _ (Ret _) => apply obeys_ret; try done
  | |- obeys _ _ _ _ _ (sys _) => apply obeys_sys; done
  | |- obeys _ _ _ _ _ (mem_read _) => apply ok_read; done
  | |- obeys _ _ _ _ _ (mem_write _) => apply ok_write; intros ?; auto with quiet; done
  | |- obeys _ _ _ _ _ (mem_do _) => apply ok_do; intros ?; auto with quiet; done
  | |- obeys _ _ _ _ _ (stat_add _ _) => apply ok_stat
  | |- obeys _ _ _ _ _ (stat_bump _) => apply ok_stat
  | |- obeys _ _ _ _ _ (loc_do _) => apply ok_loc; done
  | |- obeys _ _ _ _ _ (let '(_, _) := ?x in _) => destruct x
  | |- obeys _ _ _ _ _ (match ?x with _ => _ end) => destruct x
  | |- obeys _ _ _ _ _ (if ?x then _ else _) => destruct x
  | |- obeys _ _ _ _ _ OutOfFuel => apply obeys_out
  | |- obeys _ _ _ _ _ Panic => apply obeys_panic
  end.
Ltac oks := repeat (ok1; cbn [fst snd]); auto with ok_db.

Section obeys.
Context `{!Config} (strict : bool) (K : Z -> option kind).
Context (P P' : Z -> Prop).
Abbreviation ok Q p := (obeys (table_ok strict K) mapped (step_ok strict P) (step_ok strict P') Q p) (only parsing).

Lemma ok_spin_budget : ok any spin_budget.
Proof.
  unfold spin_budget. destruct (_ =? 0); [ok_end|]. apply ok_loc. intros l.
  unfold spin_budget_step. by destruct (0 <? _).
Qed.

Lemma ok_tail_budget want charge : ok any (tail_budget want charge).
Proof.
  unfold tail_budget. cbn zeta. destruct (_ =? 0); [ok_end|].
  apply ok_seq; [by apply obeys_sys|]. intros now. apply ok_loc. intros l.
  unfold tail_step. by destruct (l_tail_budget l).
Qed.


#[local] Hint Constants Opaque : ok_db.
#[local] Hint Resolve ok_spin_budget ok_tail_budget : ok_db.

Lemma ok_lock_loop fuel mask : forall tries, ok any (lock_loop fuel mask tries).
Proof. induction fuel as [|fuel IH]; intros tries; cbn [lock_loop]; oks. Qed.

Lemma ok_lock_guard : ok any lock_guard.
Proof. unfold lock_guard. oks; apply ok_lock_loop. Qed.
#[local] Hint Resolve ok_lock_guard : ok_db.

Lemma ok_guard_drop mask : ok any (guard_drop mask).
Proof. unfold guard_drop. oks. Qed.
#[local] Hint Resolve ok_guard_drop : ok_db.

Lemma ok_with_lock {A} (body : action (result A Error)) : ok any body -> ok any (with_lock body).
Proof. intros Hb. unfold with_lock. oks. Qed.

Lemma ok_if_lock body : ok any body -> ok any (if_lock body).
Proof. intros Hb. unfold if_lock. oks. Qed.

Lemma ok_futex_wait node e tmo : ok any (futex_wait node e tmo).
Proof. unfold futex_wait. oks. Qed.
#[local] Hint Resolve ok_futex_wait : ok_db.

Lemma ok_wake_node word : ok any (wake_node word).
Proof. unfold wake_node, futex_wake. oks. Qed.
#[local] Hint Resolve ok_wake_node : ok_db.

Lemma ok_wake_loop fuel : forall idx, ok any (wake_loop fuel idx).
Proof. induction fuel as [|fuel IH]; intros idx; cbn [wake_loop]; oks. Qed.

Lemma ok_wake_object i : ok any (wake_object i).
Proof. unfold wake_object, ld_waiter_head. oks; apply ok_wake_loop. Qed.
#[local] Hint Resolve ok_wake_object : ok_db.

Lemma ok_wake_waiters i : ok any (wake_waiters_if_any i).
Proof. unfold wake_waiters_if_any, ld_waiter_head. oks. apply ok_if_lock. oks. Qed.
#[local] Hint Resolve ok_wake_waiters : ok_db.

Lemma ok_node_alloc : ok any node_alloc.
Proof. unfold node_alloc. oks. Qed.
#[local] Hint Resolve ok_node_alloc : ok_db.

Lemma ok_region : ok (fun r => r = Ok tt) region.
Proof.
  intros m _ l Hl. split; [done|]. cbn. rewrite Hl. cbn. intros l' Hl'. split; [done|].
  cbn. by rewrite Hl'.
Qed.

Lemma ok_slot h : ok any (slot h).
Proof. unfold slot, ld_state, ld_generation. oks. Qed.
#[local] Hint Resolve ok_slot : ok_db.

(** ** Steps of the packed words *)
Definition typed (ty : Z) (res : result Z Error) : Prop :=
  match res with Ok i => exists k, K i = Some k /\ kind_type k = ty | Err _ => True end.

Lemma table_kind m i ty :
  table_ok strict K m -> is_waitable ty = true -> s_obj_type (slot_ptr m i) = ty ->
  exists k, K i = Some k /\ kind_type k = ty.
Proof.
  intros HK Hty Ht. specialize (HK i). destruct (K i) as [k|]; [|by rewrite Ht, Hty in HK].
  destruct HK as (o & (Ho&_) & Hk). exists k. split; [done|]. rewrite <- Ht, Ho, <- Hk. by destruct o.
Qed.

Lemma ok_typed_slot ty h : is_waitable ty = true -> ok (typed ty) (typed_slot ty h).
Proof.
  intros Hty. unfold typed_slot. apply ok_seq; [auto with ok_db|]. intros [i|]; [|ok_end].
  eapply ok_bind; [apply (ok_read _ _ _ _ (fun t => t = ty -> exists k, K i = Some k /\ kind_type k = ty))|].
  { intros m HK Ht. by eapply table_kind. }
  intros t Ht. destruct (Z.eqb_spec t ty); [|ok_end]. by apply obeys_ret, Ht.
Qed.

Lemma slot_step_put i o o' m :
  repr_in strict o (slot_ptr m i) -> wf strict o' -> obj_step strict P o o' ->
  (forall mn g p, o' = OEvent mn g p -> exists g', o = OEvent mn g' p) ->
  step_ok strict P m (upd_slot i (put_obj o') m).
Proof.
  intros Ho Hwf Hs Hp j. rewrite slot_ptr_upd_slot.
  destruct (decide (i = j)) as [<-|]; [|split; auto].
  split; [done|]. right. exists o, o'. split; [done|]. split; [|done].
  pose proof (obj_step_kind _ _ _ _ Hs) as Hk.
  apply (repr_in_put _ o); [done|done|by destruct o, o'|].
  intros m' g p Eo. destruct (Hp _ _ _ Eo) as [g' ->]. apply Ho.
Qed.

Lemma ok_cas i k old new :
  K i = Some k ->
  (forall o, kind_of o = k -> wf strict o -> obj_word o = old ->
    exists o', obj_word o' = new /\ wf strict o' /\ obj_step strict P o o' /\
      forall m g p, o' = OEvent m g p -> exists g', o = OEvent m g' p) ->
  ok any (cas64 i old new).
Proof.
  intros HKi Hst. apply ok_seq; [|intros []; oks]. apply obeys_do. intros m HK. split; [|done].
  unfold cas_w0_step. destruct (Z.eqb_spec (s_w0 (slot_ptr m i)) old) as [Hw|Hw]; [|apply step_refl].
  pose proof (HK i) as Hi. rewrite HKi in Hi. destruct Hi as (o & Ho & Hk).
  pose proof Ho as (Hty & Hword & Hwf & Hd).
  destruct (Hst o Hk Hwf) as (o' & <- & Hwf' & Hs & Hp); [congruence|].
  by apply (slot_step_put i o).
Qed.

(** The kinds of words. *)
Lemma kind_sem o mx : kind_of o = KSem mx -> exists c, o = OSem c mx.
Proof. destruct o; intros [= <-]. eauto. Qed.
Lemma kind_mutex o : kind_of o = KMutex -> exists ow c d, o = OMutex ow c d.
Proof. destruct o; try done. eauto. Qed.
Lemma kind_event o mn : kind_of o = KEvent mn -> exists g p, o = OEvent mn g p.
Proof. destruct o; intros [= <-]. eauto. Qed.

Lemma kind_type_sem k : kind_type k = TYPE_SEM -> exists mx, k = KSem mx.
Proof. destruct k; try done. eauto. Qed.
Lemma kind_type_mutex k : kind_type k = TYPE_MUTEX -> k = KMutex.
Proof. by destruct k. Qed.
Lemma kind_type_event k : kind_type k = TYPE_EVENT -> exists mn, k = KEvent mn.
Proof. destruct k; try done. eauto. Qed.

(** The fields of a semaphore word. *)
Lemma sem_word c mx w :
  wf strict (OSem c mx) -> pack_sem c mx = w -> 0 <= c < W32 /\ 0 <= mx < W32 /\ lo32 w = c /\ hi32 w = mx.
Proof.
  intros [Hc Hm]%wf_weaken <-. unfold u32 in *. rewrite lo32_sem, hi32_sem by lia. lia.
Qed.

Lemma wf_sem c mx : 0 <= c <= mx -> mx < W32 -> wf strict (OSem c mx).
Proof. intros H1 H2. destruct strict; simpl; unfold u32; lia. Qed.

Lemma wf_sem_take c mx : c <> 0 -> wf strict (OSem c mx) -> wf strict (OSem (c - 1) mx).
Proof. destruct strict; simpl; unfold u32; lia. Qed.

Lemma ok_sem_release_loop fuel i h n mx :
  0 <= n -> K i = Some (KSem mx) -> ok any (sem_release_loop fuel i h n).
Proof.
  intros Hn HKi. induction fuel as [|fuel IH]; cbn [sem_release_loop]; [ok_end|].
  apply ok_seq; [by apply ok_read|]. intros w. apply ok_seq; [apply ok_stat|]. intros _.
  destruct ((lo32 w + n <? W32) && (lo32 w + n <=? hi32 w)) eqn:E; [|ok_end].
  apply andb_true_iff in E as [E1%Z.ltb_lt E2%Z.leb_le]. apply ok_seq; [|intros []; oks].
  apply (ok_cas i (KSem mx)); [done|]. intros o (c & ->)%kind_sem Hwf Hw.
  destruct (sem_word _ _ _ Hwf Hw) as (Hc & Hm & El & Eh). rewrite El, Eh in *.
  exists (OSem (c + n) mx). split; [done|]. split; [apply wf_sem; lia|]. split; [by constructor|]. done.
Qed.

Lemma ok_sem_release h n : 0 <= n -> ok any (sem_release h n).
Proof.
  intros Hn. unfold sem_release. eapply ok_bind; [apply ok_region|]. intros r ->.
  eapply ok_bind; [by apply (ok_typed_slot TYPE_SEM)|].
  intros [i|e]; [|done]. intros (k & HKi & (mx & ->)%kind_type_sem). by eapply ok_sem_release_loop.
Qed.

Lemma ok_event_cas i mn w b :
  K i = Some (KEvent mn) ->
  ok any (cas64 i w (if b : bool then Z.lor w 1 else Z.ldiff w 1)).
Proof.
  intros HKi. apply (ok_cas i (KEvent mn)); [done|]. intros o (g & p & ->)%kind_event Hwf Hw.
  exists (OEvent mn b p). cbn [obj_word] in *. subst w. rewrite set_event, clear_event.
  split; [by destruct b|]. split; [done|]. split; [constructor|].
  intros m' g' p' [= <- <- <-]. eauto.
Qed.

Lemma ok_event_set_loop fuel i h mn : K i = Some (KEvent mn) -> ok any (event_set_loop fuel i h).
Proof.
  intros HKi. induction fuel as [|fuel IH]; cbn [event_set_loop]; [ok_end|].
  apply ok_seq; [by apply ok_read|]. intros w. destruct (negb _); [ok_end|].
  apply ok_seq; [by apply (ok_event_cas i mn w true)|]. intros []; oks.
Qed.

Lemma ok_event_reset_loop fuel i mn : K i = Some (KEvent mn) -> ok any (event_reset_loop fuel i).
Proof.
  intros HKi. induction fuel as [|fuel IH]; cbn [event_reset_loop]; [ok_end|].
  apply ok_seq; [by apply ok_read|]. intros w. destruct (_ =? 0); [ok_end|].
  apply ok_seq; [by apply (ok_event_cas i mn w false)|]. intros []; oks.
Qed.

Lemma ok_event_op (f : Z -> action (result Z Error)) h :
  (forall i mn, K i = Some (KEvent mn) -> ok any (f i)) ->
  ok any (_ <-? region ;; i <-? typed_slot TYPE_EVENT h ;; f i).
Proof.
  intros Hf. eapply ok_bind; [apply ok_region|]. intros r ->.
  eapply ok_bind; [by apply (ok_typed_slot TYPE_EVENT)|].
  intros [i|e]; [|done]. intros (k & HKi & (mn & ->)%kind_type_event). eauto.
Qed.

Lemma ok_event_set h : ok any (event_set h).
Proof.
  apply ok_seq; [apply ok_stat|]. intros _. apply ok_event_op. intros i mn. apply ok_event_set_loop.
Qed.

Lemma ok_event_reset h : ok any (event_reset h).
Proof.
  apply ok_seq; [apply ok_stat|]. intros _. apply ok_event_op. intros i mn. apply ok_event_reset_loop.
Qed.

(** A store of an event's word or pulse count. *)
Lemma ok_event_store i mn f :
  K i = Some (KEvent mn) ->
  (forall g p s, repr_in strict (OEvent mn g p) s -> exists g' p', repr_in strict (OEvent mn g' p') (f s)) ->
  ok any (mem_write (upd_slot i f)).
Proof.
  intros HKi Hf. apply obeys_write; [|done]. intros m HK. pose proof (HK i) as Hi. rewrite HKi in Hi.
  destruct Hi as (o & Ho & (g & p & ->)%kind_event). destruct (Hf _ _ _ Ho) as (g' & p' & Ho').
  intros j. rewrite slot_ptr_upd_slot. destruct (decide (i = j)) as [<-|]; [|split; auto].
  split; [by rewrite (proj1 Ho), (proj1 Ho')|]. right.
  eexists _, _. split; [exact Ho|]. split; [exact Ho'|]. constructor.
Qed.

Lemma ok_event_pulse h : ok any (event_pulse h).
Proof.
  unfold event_pulse. eapply ok_bind; [apply ok_region|]. intros r ->. apply ok_with_lock.
  eapply ok_bind; [by apply (ok_typed_slot TYPE_EVENT)|].
  intros [i|e]; [|done]. intros (k & HKi & (mn & ->)%kind_type_event).
  apply ok_seq; [by apply ok_read|]. intros w. apply ok_seq; [by apply ok_read|]. intros d.
  apply ok_seq.
  { apply (ok_event_store i mn); [done|]. intros g p s (H1&H2&H3&H4). exists g, (wrap64 (d + 1)).
    split; [done|]. split; [done|]. split; [|done]. simpl. unfold u64, wrap64.
    apply Z.mod_pos_bound. lia. }
  intros _. eapply ok_bind.
  { apply (ok_read _ _ _ _ (fun w => exists g, w = pack_event g mn)). intros m HK. specialize (HK i).
    rewrite HKi in HK. destruct HK as (o & Ho & (g & p & ->)%kind_event). exists g. apply Ho. }
  intros w2 (g2 & ->). rewrite clear_event. apply ok_seq; [|intros _; oks].
  apply (ok_event_store i mn); [done|]. intros g p s (H1&H2&H3&H4). exists false, p.
  split; [done|]. split; [done|]. by split.
Qed.

(** ** Mutexes *)
Section owner.
Context (owner : Z) (Hown : 0 < owner < W32) (HP : P owner).

Lemma ok_mutex_cas i old new :
  K i = Some KMutex ->
  (forall ow c d, obj_wf (OMutex ow c d) -> pack_mutex ow c d = old ->
    exists o', obj_word o' = new /\ wf strict o' /\ obj_step strict P (OMutex ow c d) o') ->
  ok any (cas64 i old new).
Proof.
  intros HKi Hf. apply (ok_cas i KMutex); [done|]. intros o (ow & c & d & ->)%kind_mutex Hwf Hw.
  destruct (Hf _ _ _ Hwf Hw) as (o' & H1 & H2 & H3). exists o'. split_and!; [done..|].
  intros m g p ->. apply obj_step_kind in H3. done.
Qed.

(** The fields of a mutex word. *)
Lemma mutex_word ow c d w :
  obj_wf (OMutex ow c d) -> pack_mutex ow c d = w -> lo32 w = ow /\ m_count w = c /\ m_dead w = d.
Proof. intros (H1&H2&H3) <-. by rewrite lo32_mutex, m_count_mutex, m_dead_mutex by lia. Qed.

Lemma ok_mutex_unlock_loop fuel i h : K i = Some KMutex -> ok any (mutex_unlock_loop fuel i h owner).
Proof.
  intros HKi. induction fuel as [|fuel IH]; cbn [mutex_unlock_loop]; [ok_end|].
  apply ok_seq; [by apply ok_read|]. intros w.
  destruct (Z.eqb_spec (lo32 w) owner) as [Hlo|]; [|ok_end]. cbn [negb].
  apply ok_seq; [|intros []; oks]. apply ok_mutex_cas; [done|]. intros ow c d Hwf Hw.
  destruct (mutex_word _ _ _ _ Hwf Hw) as (Ho & -> & ->). rewrite Hlo in Ho. subst ow.
  simpl in Hwf. destruct (Z.eqb_spec c 1) as [->|Hc].
  - exists (OMutex 0 0 d). split; [done|]. split; [done|]. by constructor.
  - exists (OMutex owner (c - 1) d). rewrite wrap32_small by lia. split; [done|].
    split; [simpl; lia|]. constructor; [done|lia].
Qed.

Lemma ok_mutex_kill_loop fuel i h : K i = Some KMutex -> ok any (mutex_kill_loop fuel i h owner).
Proof.
  intros HKi. induction fuel as [|fuel IH]; cbn [mutex_kill_loop]; [ok_end|].
  apply ok_seq; [by apply ok_read|]. intros w.
  destruct (Z.eqb_spec (lo32 w) owner) as [Hlo|]; [|ok_end]. cbn [negb].
  apply ok_seq; [|intros []; oks]. apply ok_mutex_cas; [done|]. intros ow c d Hwf Hw.
  destruct (mutex_word _ _ _ _ Hwf Hw) as (Ho & _). rewrite Hlo in Ho. subst ow.
  exists (OMutex 0 0 true). split; [done|]. split; [done|]. by constructor.
Qed.

Lemma ok_mutex_op {A} (f : Z -> action (result A Error)) h :
  (forall i, K i = Some KMutex -> ok any (f i)) ->
  ok any (_ <-? region ;; i <-? typed_slot TYPE_MUTEX h ;; f i).
Proof.
  intros Hf. eapply ok_bind; [apply ok_region|]. intros r ->.
  eapply ok_bind; [by apply (ok_typed_slot TYPE_MUTEX)|].
  intros [i|e]; [|done]. intros (k & HKi & ->%kind_type_mutex). eauto.
Qed.

(** ** Acquiring *)
Lemma ok_acquire_sem fuel i mx : K i = Some (KSem mx) -> ok any (acquire_sem fuel i).
Proof.
  intros HKi. induction fuel as [|fuel IH]; cbn [acquire_sem]; [ok_end|].
  apply ok_seq; [by apply ok_read|]. intros w. destruct (Z.eqb_spec (lo32 w) 0) as [|Hc]; [ok_end|].
  apply ok_seq; [|intros []; oks]. apply (ok_cas i (KSem mx)); [done|].
  intros o (c & ->)%kind_sem Hwf Hw. destruct (sem_word _ _ _ Hwf Hw) as (Hcr & Hm & El & Eh).
  rewrite El, Eh in *. exists (OSem (c - 1) mx). split; [done|].
  split; [by apply wf_sem_take|]. split; [apply step_take; lia|done].
Qed.

Lemma ok_acquire_mutex fuel i : K i = Some KMutex -> ok any (acquire_mutex fuel i owner).
Proof.
  intros HKi. induction fuel as [|fuel IH]; cbn [acquire_mutex]; [ok_end|].
  apply ok_seq; [by apply ok_read|]. intros w.
  destruct (Z.leb_spec 0x7fffffff (m_count w)) as [|Hc]; [ok_end|].
  destruct (Z.eqb_spec (lo32 w) 0) as [Hlo|Hlo].
  - apply ok_seq; [|intros []; oks]. apply ok_mutex_cas; [done|]. intros ow c d Hwf Hw.
    destruct (mutex_word _ _ _ _ Hwf Hw) as (Ho & -> & _). rewrite Hlo in Ho. subst ow. simpl in Hwf.
    assert (c = 0) as -> by lia. exists (OMutex owner 1 false).
    split; [done|]. split; [simpl; lia|]. by constructor.
  - destruct (Z.eqb_spec (lo32 w) owner) as [Hlo2|]; [|ok_end].
    apply ok_seq; [|intros []; oks]. apply ok_mutex_cas; [done|]. intros ow c d Hwf Hw.
    destruct (mutex_word _ _ _ _ Hwf Hw) as (Ho & Hcc & ->). rewrite Hcc in *.
    rewrite Hlo2 in Ho. subst ow. simpl in Hwf.
    exists (OMutex owner (c + 1) d). split; [done|]. split; [simpl; lia|]. by constructor.
Qed.

Lemma ok_claim_event fuel i mn : K i = Some (KEvent mn) -> ok any (claim_event fuel i).
Proof.
  intros HKi. induction fuel as [|fuel IH]; cbn [claim_event]; [ok_end|].
  apply ok_seq; [by apply ok_read|]. intros w. destruct (_ =? 0); [ok_end|].
  apply ok_seq; [by apply (ok_event_cas i mn w false)|]. intros []; oks.
Qed.

Lemma ok_pulse_check i seq : ok any (pulse_check i seq).
Proof. unfold pulse_check, ld_d. oks. Qed.

Lemma ok_acquire_event i seq mn : K i = Some (KEvent mn) -> ok any (acquire_event i seq).
Proof.
  intros HKi. unfold acquire_event. apply ok_seq; [by apply ok_read|]. intros w.
  destruct (negb _); [|apply ok_pulse_check]. destruct (_ =? 0); [|ok_end].
  apply ok_seq; [by eapply ok_claim_event|]. intros []; [ok_end|apply ok_pulse_check].
Qed.

Lemma ok_try_acquire i seq : ok any (try_acquire i owner seq).
Proof.
  unfold try_acquire. eapply ok_bind.
  { apply (ok_read _ _ _ _ (fun t => forall ty, is_waitable ty = true -> t = ty ->
      exists k, K i = Some k /\ kind_type k = ty)). intros m HK ty Hty Ht. by eapply table_kind. }
  intros t Ht. destruct (Z.eqb_spec t TYPE_SEM) as [E|_].
  { destruct (Ht TYPE_SEM eq_refl E) as (k & HKi & (mx & ->)%kind_type_sem). by eapply ok_acquire_sem. }
  destruct (Z.eqb_spec t TYPE_MUTEX) as [E|_].
  { destruct (Ht TYPE_MUTEX eq_refl E) as (k & HKi & ->%kind_type_mutex). by apply ok_acquire_mutex. }
  destruct (Z.eqb_spec t TYPE_EVENT) as [E|_]; [|ok_end].
  destruct (Ht TYPE_EVENT eq_refl E) as (k & HKi & (mn & ->)%kind_type_event). by eapply ok_acquire_event.
Qed.

Lemma ok_satisfy_any seqs hs : forall i, ok any (satisfy_any i hs owner seqs).
Proof.
  induction hs as [|h hs IH]; intros i; cbn [satisfy_any]; [ok_end|].
  apply ok_seq; [apply ok_try_acquire|]. intros []; oks.
Qed.
End owner.

Lemma ok_mutex_unlock h owner : u32 owner -> (owner <> 0 -> P owner) -> ok any (mutex_unlock h owner).
Proof.
  unfold u32. intros Ho HP. apply ok_seq; [apply ok_stat|]. intros _.
  destruct (Z.eqb_spec owner 0) as [|Hne]; [ok_end|]. apply ok_mutex_op. intros i HKi.
  apply ok_mutex_unlock_loop; [lia|by apply HP|done].
Qed.

Lemma ok_mutex_kill h owner : u32 owner -> (owner <> 0 -> P owner) -> ok any (mutex_kill h owner).
Proof.
  unfold u32. intros Ho HP. apply ok_seq; [apply ok_stat|]. intros _.
  destruct (Z.eqb_spec owner 0) as [|Hne]; [ok_end|]. apply ok_mutex_op. intros i HKi.
  apply ok_mutex_kill_loop; [by apply HP|done].
Qed.

(** ** The sweep *)
Lemma ok_verdicts cands : forall cache, ok any (verdicts cands cache).
Proof.
  assert (forall pid c, ok any (cache_alive pid c)) as Hc.
  { intros pid c. unfold cache_alive, pid_alive. oks. }
  assert (forall hs c, ok any (any_alive hs c)) as Ha.
  { induction hs as [|h hs IH]; intros c; cbn [any_alive]; oks. }
  induction cands as [|c cands IH]; intros cache; cbn [verdicts]; [ok_end|].
  unfold cand_alive. oks.
Qed.

Lemma ok_reap cands : forall alive freed, ok any (reap_dead_locked cands alive freed).
Proof.
  induction cands as [|c cands IH]; intros [|[] alive] freed; cbn [reap_dead_locked]; try ok_end; [auto|].
  oks.
Qed.

Lemma ok_sweep_loop fuel : forall scan cache freed, ok any (sweep_loop fuel scan cache freed).
Proof.
  induction fuel as [|fuel IH]; intros scan cache freed; cbn [sweep_loop]; [ok_end|].
  apply ok_seq; [by apply ok_read|]. intros [[|c cands] scan']; [ok_end|].
  apply ok_seq; [apply ok_verdicts|]. intros vc. apply ok_seq; [apply ok_reap|]. auto.
Qed.

Lemma ok_auto_sweep_loop fuel : forall g scan cache freed, ok any (auto_sweep_loop fuel g scan cache freed).
Proof.
  induction fuel as [|fuel IH]; intros g scan cache freed; cbn [auto_sweep_loop]; [ok_end|].
  apply ok_seq; [by apply ok_read|]. intros [[|c cands] scan']; [oks|].
  apply ok_seq; [oks|]. intros _. apply ok_seq; [apply ok_verdicts|]. intros vc.
  apply ok_seq; [oks|]. intros [|]; [|ok_end]. apply ok_seq; [apply ok_reap|]. auto.
Qed.

Lemma ok_auto_sweep : ok any auto_sweep_dead.
Proof. unfold auto_sweep_dead. oks; apply ok_auto_sweep_loop. Qed.
#[local] Hint Resolve ok_auto_sweep : ok_db.

Lemma ok_sweep_dead : ok any sweep_dead.
Proof.
  unfold sweep_dead, sweep_dead_locked. eapply ok_bind; [apply ok_region|]. intros r ->.
  apply ok_with_lock. oks. apply ok_sweep_loop.
Qed.

(** ** Closing, retaining, releasing *)
Lemma ok_close h : ok any (close h).
Proof.
  unfold close. destruct (_ =? 0); [ok_end|]. eapply ok_bind; [apply ok_region|]. intros r ->.
  unfold close_body. oks.
Qed.

Lemma ok_retain h : ok any (retain h).
Proof.
  unfold retain, slot_or_invalid. destruct (_ =? 0); [ok_end|].
  eapply ok_bind; [apply ok_region|]. intros r ->. apply ok_with_lock. oks.
Qed.

Lemma ok_release h : ok any (release h).
Proof.
  unfold release, slot_or_invalid. destruct (_ =? 0); [ok_end|].
  eapply ok_bind; [apply ok_region|]. intros r ->. apply ok_with_lock. oks.
Qed.

End obeys.
