(* ===== verification/InterleaveAll.v ===== *)
(** * InterleaveAll: WAIT_ALL among other threads

    One attempt of a WAIT_ALL takes its objects one by one and gives them
    back when one of them is busy.  Giving a mutex back is not checked by the
    code: it is right because the owner still holds it, and that cannot be
    broken by threads that act for other owners only.  [taken] says exactly how
    deep the owner holds each mutex at each moment, what it took included; it is
    stable under the steps of the others. *)
From S2P Require Import Prelude Prog Config Region Kernel Objects Words Wait Interleave.

(** How often object [i] was taken. *)
Definition times (i : Z) (acquired : list (Z * bool)) : Z :=
  Z.of_nat (length (filter (fun a => a.1 = i) acquired)).

Lemma times_nil i : times i [] = 0.
Proof. done. Qed.

Lemma times_cons i j b l : times i ((j, b) :: l) = (if decide (j = i) then 1 else 0) + times i l.
Proof. unfold times. rewrite filter_cons. cbn [fst]. destruct (decide (j = i)); simpl; lia. Qed.

Lemma times_cons_eq i b l : times i ((i, b) :: l) = times i l + 1.
Proof. rewrite times_cons, decide_True by done. lia. Qed.

Lemma times_snoc i j b l : times i (l ++ [(j, b)]) = times i l + (if decide (j = i) then 1 else 0).
Proof.
  induction l as [|[j' b'] l IH]; cbn [app]; [rewrite times_cons; lia|].
  rewrite !times_cons, IH. lia.
Qed.

Lemma times_pos i l : 0 <= times i l.
Proof. unfold times. lia. Qed.

(** While no thread acts for [o], a mutex held by [o] stays as it is. *)
Lemma step_held strict (P : Z -> Prop) o c d i m m' :
  o <> 0 -> ~ P o -> repr_in strict (OMutex o c d) (slot_ptr m i) -> step_ok strict P m m' ->
  repr_in strict (OMutex o c d) (slot_ptr m' i).
Proof.
  intros Ho HP Hm Hs. destruct (Hs i) as [Ht [[Hw Hd]|(o1 & o2 & H1 & H2 & Hst)]].
  - by eapply repr_same.
  - pose proof (repr_in_inj _ _ _ _ Hm H1) as <-. inversion Hst; subst; done.
Qed.

(** How deep [owner] holds the mutex of slot [i]: not at all when another holds
    it, or nobody. *)
Definition depth_in (owner i n : Z) (m : Region) : Prop :=
  exists ow c d, repr_in false (OMutex ow c d) (slot_ptr m i) /\ (if decide (ow = owner) then c else 0) = n.

Lemma depth_step (P : Z -> Prop) owner i n m m' :
  owner <> 0 -> ~ P owner -> depth_in owner i n m -> step_ok false P m m' -> depth_in owner i n m'.
Proof.
  intros Ho HP (ow & c & d & Hr & Hn) Hs. destruct (Hs i) as [Ht [[Hw Hd]|(o1 & o2 & H1 & H2 & Hst)]].
  - exists ow, c, d. split; [by eapply repr_same|done].
  - pose proof (repr_in_inj _ _ _ _ Hr H1) as <-. unfold depth_in.
    inversion Hst; subst; try done; (eexists _, _, _; split; [exact H2|]); repeat case_decide; subst; done.
Qed.

(** Read off the word. *)
Definition depth_at (owner : Z) (m : Region) (i : Z) : Z :=
  let w := s_w0 (slot_ptr m i) in if lo32 w =? owner then Z.max 0 (m_count w) else 0.

Lemma depth_at_pos owner m i : 0 <= depth_at owner m i.
Proof. unfold depth_at. destruct (_ =? _); lia. Qed.

Section all.
Context `{!Config} (K : Z -> option kind) (P P' : Z -> Prop).
Context (owner : Z) (Hown : 0 < owner < W32) (HP : P owner) (Hex : ~ P' owner).
(** How deep the owner held the mutexes at the start. *)
Context (D : Z -> Z) (HD : forall i, 0 <= D i).
Abbreviation sf Q p m :=
  (safe (table_ok false K) mapped (step_ok false P) (step_ok false P') Q p m) (only parsing).
Abbreviation later := (later (table_ok false K) (step_ok false P')).

(** Every mutex is held as deep as at the start, and once more for each time it
    was taken. *)
Definition taken (acquired : list (Z * bool)) (m : Region) : Prop :=
  forall i, K i = Some KMutex -> depth_in owner i (D i + times i acquired) m.

Lemma taken_step (P0 : Z -> Prop) l m m' :
  ~ P0 owner -> taken l m -> step_ok false P0 m m' -> taken l m'.
Proof. intros H0 Hl Hs i HKi. eapply depth_step; [lia|exact H0|by apply Hl|done]. Qed.

Lemma taken_later l m m' : later m m' -> taken l m -> taken l m'.
Proof. intros [Hr _]. induction Hr; [done|]. intros Hl. by eapply IHHr, taken_step. Qed.

Lemma sf_cas {A} (Q : A -> Region -> Prop) i w new (q : bool -> action A) m :
  (forall m', later m m' -> s_w0 (slot_ptr m' i) = w ->
    step_ok false P m' (upd_slot i (set_w0 new) m') /\ sf Q (q true) (upd_slot i (set_w0 new) m')) ->
  (forall m', later m m' -> sf Q (q false) m') ->
  sf Q (bind (cas64 i w new) q) m.
Proof.
  intros Ht Hf. unfold cas64. simpl. intros m' Hm'. unfold cas_w0_step.
  destruct (Z.eqb_spec (s_w0 (slot_ptr m' i)) w) as [E|E]; simpl; [by apply Ht|].
  split; [apply step_refl|]. intros l Hl. split; [done|]. by apply Hf.
Qed.

(** The mutex in a slot of the table, from its word. *)
Lemma mutex_at i w m :
  K i = Some KMutex -> table_ok false K m -> s_w0 (slot_ptr m i) = w ->
  repr_in false (OMutex (lo32 w) (m_count w) (m_dead w)) (slot_ptr m i) /\
  0 <= lo32 w < W32 /\ 0 <= m_count w < W31 /\ (lo32 w = 0 <-> m_count w = 0).
Proof.
  intros HKi HK Hw. specialize (HK i). rewrite HKi in HK. destruct HK as (o & Ho & (ow&c&d&->)%kind_mutex).
  pose proof Ho as (_ & Hw' & Hwf & _). rewrite Hw in Hw'. simpl in Hw'.
  destruct (mutex_word ow c d w) as (-> & -> & ->); [exact Hwf|done|]. split; [done|exact Hwf].
Qed.

(** What is taken can be read off the mutex. *)
Lemma taken_mine l m i ow c d :
  taken l m -> K i = Some KMutex -> repr_in false (OMutex ow c d) (slot_ptr m i) ->
  (if decide (ow = owner) then c else 0) = D i + times i l.
Proof.
  intros Hl HKi Hr. destruct (Hl i HKi) as (ow' & c' & d' & Hr' & Hc).
  by pose proof (repr_in_inj _ _ _ _ Hr Hr') as [= -> -> ->].
Qed.

(** The owner's own step on a mutex. *)
Lemma taken_put l l' i o ow c d m :
  taken l m -> repr_in false o (slot_ptr m i) -> wf false (OMutex ow c d) -> obj_type o = TYPE_MUTEX ->
  (forall j, j <> i -> times j l' = times j l) ->
  (if decide (ow = owner) then c else 0) = D i + times i l' ->
  taken l' (upd_slot i (put_obj (OMutex ow c d)) m).
Proof.
  intros Hl Ho Hwf Hty Hj Hi j HKj. unfold depth_in. rewrite slot_ptr_upd_slot.
  destruct (decide (i = j)) as [<-|Hne].
  - exists ow, c, d. split; [|done]. by apply (repr_in_put _ o).
  - rewrite Hj by done. by apply Hl.
Qed.

Lemma sf_mutex_cas {A} (Q : A -> Region -> Prop) i w ow c d (q : bool -> action A) l l' m :
  K i = Some KMutex -> taken l m ->
  (0 <= m_count w < W31 -> (lo32 w = 0 <-> m_count w = 0) ->
    (if decide (lo32 w = owner) then m_count w else 0) = D i + times i l ->
    wf false (OMutex ow c d) /\ obj_step false P (OMutex (lo32 w) (m_count w) (m_dead w)) (OMutex ow c d) /\
    (if decide (ow = owner) then c else 0) = D i + times i l') ->
  (forall j, j <> i -> times j l' = times j l) ->
  (forall m', table_ok false K m' -> taken l' m' -> sf Q (q true) m') ->
  (forall m', taken l m' -> sf Q (q false) m') ->
  sf Q (bind (cas64 i w (pack_mutex ow c d)) q) m.
Proof.
  intros HKi Hl Hst Hj Ht Hf. apply (sf_cas Q i w (obj_word (OMutex ow c d))).
  - intros m' Hm' Hw. pose proof (taken_later _ _ _ Hm' Hl) as Hl'.
    destruct (mutex_at i w m' HKi (proj2 Hm') Hw) as (Ho & _ & H2 & H3).
    destruct (Hst H2 H3) as (Hwf & Hs & Hi); [by eapply taken_mine|].
    assert (step_ok false P m' (upd_slot i (set_w0 (obj_word (OMutex ow c d))) m')) as Hstep
      by (by eapply slot_step_put; [exact Ho|..]).
    split; [done|]. apply Ht; [by eapply table_ok_step; [apply Hm'|]|by eapply (taken_put l)].
  - intros m' Hm'. apply Hf. by eapply taken_later.
Qed.

(** ** Taking *)
Definition took (l : list (Z * bool)) (i : Z) (r : option bool) (m : Region) : Prop :=
  match r with Some od => taken (l ++ [(i, od)]) m | None => taken l m end.

Lemma times_snoc_eq i b l : times i (l ++ [(i, b)]) = times i l + 1.
Proof. by rewrite times_snoc, decide_True. Qed.

Lemma times_snoc_ne i j b l : j <> i -> times j (l ++ [(i, b)]) = times j l.
Proof. intros Hn. rewrite times_snoc, decide_False by congruence. lia. Qed.

Lemma sf_acquire_mutex fuel i l : forall m,
  K i = Some KMutex -> taken l m -> sf (took l i) (acquire_mutex fuel i owner) m.
Proof.
  induction fuel as [|fuel IH]; intros m HKi Hl; cbn [acquire_mutex]; [done|].
  assert (forall r m', took l i r m' -> sf (took l i) (Ret r) m') as Hret.
  { intros r m' Hr. apply safe_ret. intros m2 Hm2. destruct r; by eapply taken_later. }
  apply safe_mem_read; [apply step_refl|]. intros m1 Hm1.
  pose proof (taken_later _ _ _ Hm1 Hl) as Hl1. set (w := s_w0 (slot_ptr m1 i)). clearbody w.
  destruct (Z.leb_spec 0x7fffffff (m_count w)) as [|Hc]; [by apply Hret|].
  assert (forall d od m', taken l m' ->
    ((lo32 w = 0 <-> m_count w = 0) -> lo32 w = 0 \/ lo32 w = owner) ->
    (lo32 w = 0 -> d = false) -> (lo32 w = owner -> d = m_dead w) ->
    sf (took l i) (ok <- cas64 i w (pack_mutex owner (m_count w + 1) d) ;;
      if ok : bool then Ret (Some od) else acquire_mutex fuel i owner) m') as Hattempt.
  { intros d od m' Hl' Hlo Hd0 Hd1.
    apply (sf_mutex_cas _ _ _ _ _ _ _ l (l ++ [(i, od)])); [done|done| | | |].
    - intros Hc0 Hz Hmine. rewrite times_snoc_eq, decide_True by done.
      destruct (Hlo Hz) as [E|E].
      + pose proof (proj1 Hz E) as Ec. rewrite decide_False in Hmine by lia. rewrite (Hd0 E), E, Ec.
        split; [simpl; lia|]. split; [by constructor|lia].
      + rewrite (Hd1 E). rewrite decide_True in Hmine by done. rewrite E.
        split; [simpl; lia|]. split; [by constructor|lia].
    - intros j Hj. by apply times_snoc_ne.
    - intros m2 _ H2. by apply Hret.
    - intros m2 H2. by apply IH. }
  destruct (Z.eqb_spec (lo32 w) 0) as [Hlo|Hlo].
  - apply (Hattempt false); [done|by left|done|lia].
  - destruct (Z.eqb_spec (lo32 w) owner) as [Hlo2|]; [|by apply Hret].
    apply (Hattempt (m_dead w)); [done|by right|done|done].
Qed.

(** What is done for another owner keeps what was taken; so does an operation
    on an object that is no mutex. *)
Lemma sf_for {A} (P0 : Z -> Prop) (Q : A -> Prop) (p : action A) l m :
  (forall o, P0 o -> P o) -> ~ P0 owner ->
  obeys (table_ok false K) mapped (step_ok false P0) (step_ok false P') Q p ->
  table_ok false K m -> taken l m -> sf (fun a m' => Q a /\ taken l m') p m.
Proof.
  intros H0 Hn Hp HK Hl. eapply safe_frame; [| | |exact Hl|by apply Hp].
  - intros m1 m2. by apply step_ok_mono.
  - intros m1 m2 Hs Hl1. by apply (taken_step P0 l m1 m2).
  - intros m1 m2 Hs Hl1. by eapply (taken_step P').
Qed.

Lemma sf_other {A} (Q : A -> Prop) (p : action A) l m :
  obeys (table_ok false K) mapped (step_ok false (fun _ => False)) (step_ok false P') Q p ->
  table_ok false K m -> taken l m -> sf (fun a m' => Q a /\ taken l m') p m.
Proof. apply sf_for; [by intros o []|by intros []]. Qed.

(** Nobody holds a mutex less than not at all. *)
Lemma taken_nonneg l m i : taken l m -> K i = Some KMutex -> 0 <= D i + times i l.
Proof.
  intros Hl HKi. destruct (Hl i HKi) as (ow & c & d & (_ & _ & (_ & Hc & _) & _) & <-). case_decide; lia.
Qed.

Lemma taken_other l i b m k : K i = Some k -> k <> KMutex -> taken l m -> taken (l ++ [(i, b)]) m.
Proof.
  intros HKi Hk Hl j HKj. rewrite times_snoc_ne; [by apply Hl|]. intros ->. congruence.
Qed.

Lemma sf_try_acquire i seq l m :
  table_ok false K m -> taken l m -> sf (took l i) (try_acquire i owner seq) m.
Proof.
  intros HK Hl. unfold try_acquire. apply safe_mem_read; [apply step_refl|]. intros m1 [Hr1 HK1].
  pose proof (taken_later _ _ _ (conj Hr1 HK1) Hl) as Hl1.
  assert (forall ty k p, K i = Some k -> kind_type k = ty -> ty <> TYPE_MUTEX ->
    obeys (table_ok false K) mapped (step_ok false (fun _ => False)) (step_ok false P') any p ->
    sf (took l i) p m1) as Hother.
  { intros ty k p HKi Hk Hty Hp. eapply safe_mono; [|exact (sf_other any p l m1 Hp HK1 Hl1)].
    intros [od|] m2 _ [_ H2]; [|done]. eapply taken_other; [done| |done]. by intros ->. }
  set (ty := s_obj_type (slot_ptr m1 i)).
  assert (forall ty', is_waitable ty' = true -> ty = ty' -> exists k, K i = Some k /\ kind_type k = ty') as Ht.
  { intros ty' Hw Hty. by eapply table_kind. } clearbody ty.
  destruct (Z.eqb_spec ty TYPE_SEM) as [E|_].
  { destruct (Ht TYPE_SEM eq_refl E) as (k & HKi & Hk). pose proof Hk as (mx & ->)%kind_type_sem.
    eapply (Hother TYPE_SEM); [done..|]. by eapply ok_acquire_sem. }
  destruct (Z.eqb_spec ty TYPE_MUTEX) as [E|_].
  { destruct (Ht TYPE_MUTEX eq_refl E) as (k & HKi & ->%kind_type_mutex). by apply sf_acquire_mutex. }
  destruct (Z.eqb_spec ty TYPE_EVENT) as [E|_].
  { destruct (Ht TYPE_EVENT eq_refl E) as (k & HKi & Hk). pose proof Hk as (mn & ->)%kind_type_event.
    eapply (Hother TYPE_EVENT); [done..|]. by eapply ok_acquire_event. }
  apply safe_ret. intros m2 H2. by eapply taken_later.
Qed.

(** ** Giving back *)
Lemma sf_rollback_mutex fuel i od l : forall m,
  K i = Some KMutex -> taken ((i, od) :: l) m ->
  sf (fun _ m' => taken l m') (rollback_mutex fuel i owner od) m.
Proof.
  induction fuel as [|fuel IH]; intros m HKi Hl; cbn [rollback_mutex]; [done|].
  apply safe_mem_read; [apply step_refl|]. intros m1 Hm1.
  pose proof (taken_later _ _ _ Hm1 Hl) as Hl1. set (w := s_w0 (slot_ptr m1 i)). clearbody w.
  assert (forall ow c d m', taken ((i, od) :: l) m' ->
    (0 <= m_count w < W31 -> lo32 w = owner -> D i + times i l + 1 = m_count w ->
     wf false (OMutex ow c d) /\ obj_step false P (OMutex (lo32 w) (m_count w) (m_dead w)) (OMutex ow c d) /\
     (if decide (ow = owner) then c else 0) = D i + times i l) ->
    sf (fun _ m' => taken l m') (ok <- cas64 i w (pack_mutex ow c d) ;;
      if ok : bool then Ret tt else rollback_mutex fuel i owner od) m') as Hattempt.
  { intros ow c d m' Hl' Ho'. apply (sf_mutex_cas _ _ _ _ _ _ _ ((i, od) :: l) l); [done|done| | | |].
    - intros Hc0 Hz Hmine. rewrite times_cons_eq in Hmine.
      pose proof (times_pos i l). pose proof (HD i). destruct (decide (lo32 w = owner)); [|lia].
      apply Ho'; [done|done|lia].
    - intros j Hj. by rewrite times_cons, decide_False by congruence.
    - intros m2 _ H2. apply safe_ret. intros m3 H3. by eapply taken_later.
    - intros m2 H2. by apply IH. }
  pose proof (times_pos i l) as Hpos. pose proof (HD i) as HDi. destruct (Z.eqb_spec (m_count w) 1) as [Hc|Hc].
  - apply (Hattempt 0 0 od); [done|]. intros Hc0 -> Ht. rewrite Hc in *.
    split; [done|]. split; [by constructor|]. rewrite decide_False by lia. lia.
  - assert (0 <= m_count w < W31 -> D i + times i l + 1 = m_count w ->
      wrap32 (m_count w - 1) = m_count w - 1) as Hwrap by (intros; apply wrap32_small; lia).
    apply (Hattempt owner (wrap32 (m_count w - 1)) (m_dead w)); [done|].
    intros Hc0 -> Ht. rewrite Hwrap, decide_True by done. split; [simpl; lia|].
    split; [apply step_unlock; [done|lia]|lia].
Qed.

Lemma ok_rollback_sem (P0 : Z -> Prop) fuel i mx :
  K i = Some (KSem mx) ->
  obeys (table_ok false K) mapped (step_ok false P0) (step_ok false P') any (rollback_sem fuel i).
Proof.
  intros HKi. induction fuel as [|fuel IH]; cbn [rollback_sem]; [ok_end|].
  apply ok_seq; [by apply ok_read|]. intros w. apply ok_seq; [|intros []; oks].
  apply (ok_cas _ _ _ _ i (KSem mx)); [done|]. intros o (c & ->)%kind_sem Hwf Hw.
  destruct (sem_word _ _ _ _ Hwf Hw) as (Hc & Hm & -> & ->).
  exists (OSem (wrap32 (c + 1)) mx). split; [done|]. split; [|split; [by apply step_give_back|done]].
  simpl. unfold u32, wrap32. split; [apply Z.mod_pos_bound|]; lia.
Qed.

Lemma ok_rollback_event (P0 : Z -> Prop) fuel i mn :
  K i = Some (KEvent mn) ->
  obeys (table_ok false K) mapped (step_ok false P0) (step_ok false P') any (rollback_event fuel i).
Proof.
  intros HKi. induction fuel as [|fuel IH]; cbn [rollback_event]; [ok_end|].
  apply ok_seq; [by apply ok_read|]. intros w. destruct (_ && _); [|ok_end].
  apply ok_seq; [by apply (ok_event_cas _ _ _ _ i mn w true)|]. intros []; oks.
Qed.

Lemma taken_tail l i b m : K i <> Some KMutex -> taken ((i, b) :: l) m -> taken l m.
Proof.
  intros HKi Hl j HKj. specialize (Hl j HKj). rewrite times_cons, decide_False in Hl by congruence. exact Hl.
Qed.

Lemma table_mutex_type i m :
  K i = Some KMutex -> table_ok false K m -> s_obj_type (slot_ptr m i) = TYPE_MUTEX.
Proof. intros HKi HK. by destruct (mutex_at i _ m HKi HK eq_refl) as ((-> & _) & _). Qed.

Lemma sf_rollback_acquire i od l m :
  table_ok false K m -> taken ((i, od) :: l) m ->
  sf (fun _ m' => taken l m') (rollback_acquire i owner od) m.
Proof.
  intros HK Hl. unfold rollback_acquire. apply safe_mem_read; [apply step_refl|]. intros m1 [Hr1 HK1].
  pose proof (taken_later _ _ _ (conj Hr1 HK1) Hl) as Hl1.
  assert (forall p : action unit, K i <> Some KMutex ->
    obeys (table_ok false K) mapped (step_ok false (fun _ => False)) (step_ok false P') any p ->
    sf (fun _ m' => taken l m') p m1) as Hother.
  { intros p Hm Hp. eapply safe_mono; [|exact (sf_other any p _ m1 Hp HK1 Hl1)].
    intros [] m2 _ [_ H2]. by eapply taken_tail. }
  set (ty := s_obj_type (slot_ptr m1 i)).
  assert (forall ty', is_waitable ty' = true -> ty = ty' -> exists k, K i = Some k /\ kind_type k = ty') as Ht.
  { intros ty' Hw Hty. by eapply table_kind. }
  assert (K i = Some KMutex -> ty = TYPE_MUTEX) as Hty by (intros; by apply table_mutex_type).
  clearbody ty.
  destruct (Z.eqb_spec ty TYPE_SEM) as [E|_].
  { destruct (Ht TYPE_SEM eq_refl E) as (k & HKi & (mx & ->)%kind_type_sem).
    apply Hother; [congruence|]. by eapply ok_rollback_sem. }
  destruct (Z.eqb_spec ty TYPE_MUTEX) as [E|Hne].
  { destruct (Ht TYPE_MUTEX eq_refl E) as (k & HKi & ->%kind_type_mutex). by apply sf_rollback_mutex. }
  destruct (Z.eqb_spec ty TYPE_EVENT) as [E|_].
  { destruct (Ht TYPE_EVENT eq_refl E) as (k & HKi & (mn & ->)%kind_type_event).
    apply Hother; [congruence|]. by eapply ok_rollback_event. }
  apply safe_ret. intros m2 H2. eapply taken_tail; [|by eapply taken_later].
  by intros HKi%Hty.
Qed.

Lemma sf_rollback_all l : forall m,
  table_ok false K m -> taken l m -> sf (fun _ m' => taken [] m') (rollback_all l owner) m.
Proof.
  induction l as [|[i od] l IH]; intros m HK Hl; cbn [rollback_all].
  { apply safe_ret. intros m' Hm'. by eapply taken_later. }
  eapply safe_bind; [apply step_keeps|done|by apply sf_rollback_acquire|]. intros u m' HK' Hl'. by apply IH.
Qed.

(** What a WAIT_ALL has taken when it is satisfied. *)
Definition grabbed (hs : list Z) : list (Z * bool) := map (fun h => (handle_index h, false)) hs.

Lemma taken_times l l' m : (forall i, times i l' = times i l) -> taken l m -> taken l' m.
Proof. intros Ht Hl i HKi. rewrite Ht. by apply Hl. Qed.

Lemma sf_satisfy_all hs seqs : forall i l od m,
  table_ok false K m -> taken l m ->
  sf (fun got m' => match got with Some out => taken (l ++ grabbed hs) m' /\ exists od, out = Signaled 0 od | None => taken [] m' end)
    (satisfy_all i hs owner seqs l od) m.
Proof.
  induction hs as [|h hs IH]; intros i l od m HK Hl; cbn [satisfy_all].
  { apply safe_ret. intros m' Hm'. rewrite app_nil_r. split; [by eapply taken_later|eauto]. }
  eapply safe_bind; [apply step_keeps|done|by apply (sf_try_acquire _ _ l)|].
  intros [b|] m' HK' Hl'.
  - eapply safe_mono; [|by apply IH]. intros [out|] m2 _; [|done]. intros [H2 Ho]. split; [|done].
    eapply taken_times; [|exact H2]. intros j. unfold times. cbn [grabbed map].
    rewrite <- app_assoc, !filter_app, !length_app. cbn [app]. by rewrite !filter_cons; cbn [fst]; destruct (decide _).
  - eapply safe_bind; [apply step_keeps|done|by apply sf_rollback_all|].
    intros u m2 _ H2. apply safe_ret. intros m3 H3. by eapply taken_later.
Qed.

End all.

(** Only the depths count. *)
Lemma taken_depths (K : Z -> option kind) owner D D' l l' m :
  (forall i, D i + times i l = D' i + times i l') -> taken K owner D l m -> taken K owner D' l' m.
Proof. intros He Hl i HKi. rewrite <- He. by apply Hl. Qed.

(** A start: what the memory says. *)
Lemma taken_start (K : Z -> option kind) owner m :
  table_ok false K m -> taken K owner (depth_at owner m) [] m.
Proof.
  intros HK i HKi. destruct (mutex_at K i _ m HKi HK eq_refl) as (Ho & _ & Hc & _).
  eexists _, _, _. split; [exact Ho|]. rewrite times_nil. unfold depth_at.
  destruct (Z.eqb_spec (lo32 (s_w0 (slot_ptr m i))) owner); [rewrite decide_True by done|rewrite decide_False by done]; lia.
Qed.

Lemma ok_satisfy_all `{!Config} K (P P' : Z -> Prop) owner :
  0 < owner < W32 -> P owner -> ~ P' owner -> forall hs seqs,
  obeys (table_ok false K) mapped (step_ok false P) (step_ok false P') any
    (satisfy_all 0 hs owner seqs [] false).
Proof.
  intros Hown HP Hex hs seqs m HK. eapply safe_mono; [done|].
  apply (sf_satisfy_all K P P' owner Hown HP Hex (depth_at owner m) (depth_at_pos owner m)); [done|].
  by apply taken_start.
Qed.
