(* ===== verification/InterleaveWait.v ===== *)
(** * InterleaveWait: waits and clients under every interleaving

    [wait] among other threads, the clients that call the library, and the
    theorems on all of their interleavings.  Creation is left out on purpose:
    it reuses a slot (Races.v shows what that can do). *)
From S2P Require Import Prelude Prog Config Region Kernel Lock Nodes Policy Sweep Init Slots Objects Words Wait Interleave InterleaveAll.

Section obeys.
Context `{!Config} (strict : bool) (K : Z -> option kind).
Context (P P' : Z -> Prop).
Abbreviation ok Q p := (obeys (table_ok strict K) mapped (step_ok strict P) (step_ok strict P') Q p) (only parsing).

#[local] Hint Constants Opaque : ok_db.
#[local] Hint Resolve ok_spin_budget ok_tail_budget ok_lock_guard ok_guard_drop ok_futex_wait
  ok_wake_object ok_wake_waiters ok_node_alloc ok_slot ok_auto_sweep : ok_db.

Lemma ok_fast_objects hs : forall i seqs, ok any (fast_objects i hs seqs).
Proof.
  induction hs as [|h hs IH]; intros i seqs; cbn [fast_objects]; [ok_end|].
  unfold ld_obj_type, ld_d. oks.
Qed.

Lemma ok_alert_valid a : ok any (alert_valid a).
Proof. unfold alert_valid, ld_obj_type. oks. Qed.
Lemma ok_alert_fired a : ok any (alert_fired a).
Proof. unfold alert_fired, ld_w0. oks. Qed.
#[local] Hint Resolve ok_fast_objects ok_alert_valid ok_alert_fired : ok_db.

Lemma ok_validate hs nodes : forall i seqs, ok any (validate i hs nodes seqs).
Proof.
  induction hs as [|h hs IH]; intros i seqs; cbn [validate]; [ok_end|].
  unfold ld_obj_type, ld_d. oks.
Qed.

Lemma ok_cleanup nodes : ok any (cleanup nodes).
Proof. unfold cleanup. oks. Qed.
#[local] Hint Resolve ok_validate ok_cleanup : ok_db.

Lemma ok_alloc_nodes n : forall nodes, ok any (alloc_nodes n nodes).
Proof. induction n as [|n IH]; intros nodes; cbn [alloc_nodes]; oks. Qed.

Lemma ok_register_if node obj head : ok any (register_if_needed node obj head).
Proof. unfold register_if_needed. oks. Qed.
#[local] Hint Resolve ok_alloc_nodes ok_register_if : ok_db.

Lemma ok_register_objects hs nodes head : forall i, ok any (register_objects i hs nodes head).
Proof. induction hs as [|h hs IH]; intros i; cbn [register_objects]; oks. Qed.
#[local] Hint Resolve ok_register_objects : ok_db.

Section wait.
Context (owner : Z) (Hown : 0 < owner < W32) (HP : P owner).
(** Only a thread that is alone in acting for its owner may wait for all. *)
Context (all : bool) (Hall : all = true -> strict = false /\ ~ P' owner).

Lemma ok_try_satisfy hs seqs : ok any (try_satisfy hs owner seqs all).
Proof.
  unfold try_satisfy. destruct all; cbn [negb]; [|by apply ok_satisfy_any].
  destruct (Hall eq_refl) as [-> Hex]. by apply ok_satisfy_all.
Qed.
#[local] Hint Resolve ok_try_satisfy : ok_db.

Lemma ok_fast_path hs tmo alert : ok any (fast_path hs owner tmo all alert).
Proof. unfold fast_path. oks. Qed.

Lemma ok_register_and_check hs dl alert nodes seqs :
  ok any (register_and_check hs owner dl all alert nodes seqs).
Proof. unfold register_and_check, check_registered. oks. Qed.
#[local] Hint Resolve ok_fast_path ok_register_and_check : ok_db.

Lemma ok_locked_section hs dl alert nodes seqs :
  ok any (locked_section hs owner dl all alert nodes seqs).
Proof. unfold locked_section, locked_body. oks; apply ok_if_lock; oks. Qed.
#[local] Hint Resolve ok_locked_section : ok_db.

Lemma ok_is_locked i o seq : ok any (is_locked i o seq).
Proof. unfold is_locked, ld_w0, ld_obj_type, ld_d. oks. Qed.
#[local] Hint Resolve ok_is_locked : ok_db.

Lemma ok_any_locked hs o seqs : forall i, ok any (any_locked i hs o seqs).
Proof. induction hs as [|h hs IH]; intros i; cbn [any_locked]; oks. Qed.
Lemma ok_all_locked hs o seqs : forall i, ok any (all_locked i hs o seqs).
Proof. induction hs as [|h hs IH]; intros i; cbn [all_locked]; oks. Qed.
#[local] Hint Resolve ok_any_locked ok_all_locked : ok_db.

Lemma ok_spin_loop hs alert nodes seqs n : ok any (spin_loop n hs owner all alert nodes seqs).
Proof.
  induction n as [|n IH]; cbn [spin_loop]; [ok_end|].
  unfold spin_credit_reward, spin_peek. oks; apply ok_if_lock; oks.
Qed.
#[local] Hint Resolve ok_spin_loop : ok_db.

Lemma ok_spin_phase hs alert nodes seqs : ok any (spin_phase hs owner all alert nodes seqs).
Proof.
  unfold spin_phase, spin_credit_penalize. oks.
Qed.
#[local] Hint Resolve ok_spin_phase : ok_db.

Lemma ok_park_slice head seq remaining : ok any (park_slice head seq remaining).
Proof.
  assert (forall n dl, ok any (tail_spin n head seq dl)) as Hspin.
  { induction n as [|n IH]; intros dl; cbn [tail_spin]; oks. }
  unfold park_slice, tail_budget_can, tail_budget_take. oks.
Qed.

Lemma ok_dump_objects hs : ok any (dump_objects hs owner).
Proof. induction hs as [|h hs IH]; cbn [dump_objects]; unfold ld_d, pid_alive; oks. Qed.

Lemma ok_after_futex ret hs alert dl last : ok any (after_futex ret hs owner alert dl last).
Proof. unfold after_futex. oks. unfold debug_dump_stuck_wait. apply ok_if_lock, ok_dump_objects. Qed.

Lemma ok_detach_nodes nodes : ok any (detach_nodes nodes).
Proof.
  assert (forall ns, ok any (any_registered ns)) as Hany.
  { induction ns as [|n ns IH]; cbn [any_registered]; oks. }
  unfold detach_nodes. oks. apply ok_if_lock. oks.
Qed.

Lemma ok_wake_latency head : ok any (wake_latency head).
Proof. unfold wake_latency, stat_max. oks. Qed.
#[local] Hint Resolve ok_park_slice ok_after_futex ok_detach_nodes ok_wake_latency : ok_db.

Lemma ok_wait_loop fuel hs dl alert : forall nodes seqs last,
  ok any (wait_loop fuel hs owner dl all alert nodes seqs last).
Proof. induction fuel as [|fuel IH]; intros nodes seqs last; cbn [wait_loop]; oks. Qed.
End wait.

Lemma ok_wait hs owner tmo all alert :
  u32 owner -> (owner <> 0 -> P owner) -> (all = true -> strict = false /\ ~ P' owner) ->
  ok any (wait hs owner tmo all alert).
Proof.
  unfold u32, wait. intros Ho HP Hall. destruct (bad_args hs owner) eqn:Eb; [ok_end|].
  assert (owner <> 0) as Hne.
  { intros ->. unfold bad_args in Eb. done. }
  eapply ok_bind; [apply ok_region|]. intros r ->.
  apply ok_seq; [apply ok_stat|]. intros _. apply ok_seq; [oks|]. intros dl.
  apply ok_seq; [oks|]. intros start. apply ok_seq; [apply ok_fast_path; [lia|by apply HP|done]|].
  intros [[out|] seqs]; [ok_end|]. apply ok_wait_loop; [lia|by apply HP|done].
Qed.
End obeys.

(** ** Clients *)

(** A call of the library. *)
Inductive request : Type :=
| RSemRelease (handle count : Z)
| REventSet (handle : Z)
| REventReset (handle : Z)
| REventPulse (handle : Z)
| RMutexUnlock (handle owner : Z)
| RMutexKill (handle owner : Z)
| RWaitAny (handles : list Z) (owner : Z) (timeout : option Z) (alert : Z)
| RWaitAll (handles : list Z) (owner : Z) (timeout : option Z) (alert : Z)
| RRetain (handle : Z)
| RRelease (handle : Z)
| RClose (handle : Z)
| RSweep.

(** Its arguments are in the range of their types and it acts for owners in
    [P]; it waits for all of several objects only in the regime that is not
    strict, and only if no other thread ([P']) acts for the same owner. *)
Definition request_ok (strict : bool) (P P' : Z -> Prop) (q : request) : Prop :=
  match q with
  | RSemRelease _ n => 0 <= n
  | RMutexUnlock _ o | RMutexKill _ o | RWaitAny _ o _ _ => u32 o /\ (o <> 0 -> P o)
  | RWaitAll _ o _ _ => u32 o /\ (o <> 0 -> P o) /\ strict = false /\ ~ P' o
  | _ => True
  end.

Section clients.
Context `{!Config}.

Definition perform (q : request) : action unit :=
  match q with
  | RSemRelease h n => sem_release h n ;;; Ret tt
  | REventSet h => event_set h ;;; Ret tt
  | REventReset h => event_reset h ;;; Ret tt
  | REventPulse h => event_pulse h ;;; Ret tt
  | RMutexUnlock h o => mutex_unlock h o ;;; Ret tt
  | RMutexKill h o => mutex_kill h o ;;; Ret tt
  | RWaitAny hs o tmo a => wait_any hs o tmo a ;;; Ret tt
  | RWaitAll hs o tmo a => wait_all hs o tmo a ;;; Ret tt
  | RRetain h => retain h ;;; Ret tt
  | RRelease h => release h ;;; Ret tt
  | RClose h => close h ;;; Ret tt
  | RSweep => sweep_dead ;;; Ret tt
  end.

(** A thread that makes these calls one after the other. *)
Fixpoint client (reqs : list request) : action unit :=
  match reqs with
  | [] => Ret tt
  | q :: rest => perform q ;;; client rest
  end.

Lemma perform_obeys strict K P P' q :
  request_ok strict P P' q ->
  obeys (table_ok strict K) mapped (step_ok strict P) (step_ok strict P') any (perform q).
Proof.
  destruct q; cbn [perform request_ok]; intros Hq; (apply ok_seq; [|intros ?; ok_end]).
  - by apply ok_sem_release.
  - apply ok_event_set.
  - apply ok_event_reset.
  - apply ok_event_pulse.
  - apply ok_mutex_unlock; apply Hq.
  - apply ok_mutex_kill; apply Hq.
  - apply ok_wait; [apply Hq|apply Hq|done].
  - apply ok_wait; [apply Hq|apply Hq|intros _; apply Hq].
  - apply ok_retain.
  - apply ok_release.
  - apply ok_close.
  - apply ok_sweep_dead.
Qed.

Lemma client_obeys strict K P P' reqs :
  Forall (request_ok strict P P') reqs ->
  obeys (table_ok strict K) mapped (step_ok strict P) (step_ok strict P') any (client reqs).
Proof.
  induction 1 as [|q reqs Hq _ IH]; cbn [client]; [ok_end|].
  apply ok_seq; [by apply perform_obeys|done].
Qed.

(** [acts t] are the owners thread [t] makes calls for. *)
Definition others (acts : nat -> Z -> Prop) (t : nat) (o : Z) : Prop := exists u, u <> t /\ acts u o.

(** A thread about to run requests that act for its own owners. *)
Definition client_thread (strict : bool) (acts : nat -> Z -> Prop) (t : nat)
  (th : thread Region Local unit) : Prop :=
  exists reqs, code th = client reqs /\ Forall (request_ok strict (acts t) (others acts t)) reqs /\
    mapped (tls th).

Definition client_threads (strict : bool) (acts : nat -> Z -> Prop)
  (ths : list (thread Region Local unit)) : Prop :=
  forall t th, ths !! t = Some th -> client_thread strict acts t th.

(** One atomic step of one of [n] threads. *)
Definition client_step (strict : bool) (acts : nat -> Z -> Prop) (n : nat) : Region -> Region -> Prop :=
  some_step (fun t => step_ok strict (acts t)) n.

(** What one thread does, every other one relies on. *)
Lemma others_rely strict acts t u m m' :
  t <> u -> step_ok strict (acts u) m m' -> step_ok strict (others acts t) m m'.
Proof.
  intros Htu. apply step_ok_mono. intros o Ho. exists u. split; [by apply not_eq_sym|done].
Qed.

Lemma clients_step strict K acts {G} `{!Kernel Region G} m (g : G) ths s' :
  table_ok strict K m -> client_threads strict acts ths -> steps (Pool m g ths) s' ->
  table_ok strict K (pmem s') /\ rtc (client_step strict acts (length ths)) m (pmem s').
Proof.
  intros HK Hths Hs.
  destruct (good_steps (table_ok strict K) mapped (fun t => step_ok strict (acts t))
    (fun t => step_ok strict (others acts t))
    (fun t => table_ok_step strict K (acts t)) (others_rely strict acts) (fun _ _ _ => True) _ _ Hs)
    as (H1&H2&_); [|done|done].
  intros t th Ht. destruct (Hths t th Ht) as (reqs & Hc & Hreqs & Hl). split; [|done].
  rewrite Hc. by apply client_obeys.
Qed.

(** C6: Under every interleaving of any number of threads that release,
    set, reset, pulse, unlock, kill, wait for any or for all of several
    objects, retain, release, close and sweep, every mutex is owned exactly
    when its recursion count is positive and the count stays below 2^31,
    every event keeps its kind and every semaphore its maximum; each atomic
    step moves each object by one legal transition, for an owner the stepping
    thread acts for.  If nobody waits for all ([strict]), no semaphore ever
    exceeds its maximum. *)
Theorem interleaving_safe strict K acts {G} `{!Kernel Region G} m (g : G) ths s' :
  table_ok strict K m -> client_threads strict acts ths -> steps (Pool m g ths) s' ->
  table_ok strict K (pmem s') /\ rtc (client_step strict acts (length ths)) m (pmem s').
Proof. apply clients_step. Qed.

(** C5: Mutual exclusion.  While a mutex is held by owner [o] and no thread
    makes a call on behalf of [o], no interleaving of the others' calls,
    waits for all of several objects and their rollbacks included, takes,
    releases or kills it: it stays held by [o], at the same depth. *)
Theorem mutual_exclusion K acts {G} `{!Kernel Region G} m (g : G) ths s' i o c d :
  table_ok false K m -> client_threads false acts ths -> steps (Pool m g ths) s' ->
  o <> 0 -> (forall t, ~ acts t o) ->
  repr (OMutex o c d) (slot_ptr m i) -> repr (OMutex o c d) (slot_ptr (pmem s') i).
Proof.
  intros HK Hths Hs Ho Hacts Hm. destruct (clients_step _ _ _ _ _ _ _ HK Hths Hs) as [_ Hrtc].
  clear Hs HK. induction Hrtc as [|m1 m2 m3 (t & _ & H12) _ IH]; [done|].
  apply IH. by apply (step_held false (acts t) _ _ _ _ m1 m2).
Qed.
End clients.
