(* ===== verification/Guard.v ===== *)
(** * Guard: the region lock guards the waiter lists

    What the lock is for: the waiter lists, the free list and the slot states
    are read and changed under it, and outside it only the words of the objects
    change.  [guarded] says this of a program, with ghost state: whether it
    holds the lock, and the nodes it owns.  [guarded_pool_steps] is the
    soundness theorem: when every thread is guarded, every reachable state of
    every interleaving has well-formed lists, and whoever changes them holds the
    lock. *)
From S2P Require Import Prelude Prog Config Region Kernel Lock Nodes WaitLists NodePool Interleave.

(** ** What is guarded *)
Definition list_slot (s : Slot) : Slot := set_w0 0 (set_d 0 s).
Definition list_node (n : WaitNode) : WaitNode := set_seq 0 (set_wake_ts 0 n).

(** Only words, pulse counts, futex words and time stamps differ. *)
Record same_lists (m m' : Region) : Prop := {
  sl_free : h_node_free_head (header m') = h_node_free_head (header m);
  sl_fresh : h_node_fresh (header m') = h_node_fresh (header m);
  sl_slot i : list_slot (slot_ptr m' i) = list_slot (slot_ptr m i);
  sl_node n : list_node (node_ptr m' n) = list_node (node_ptr m n);
}.

Lemma same_lists_refl m : same_lists m m.
Proof. by split. Qed.

Lemma same_lists_trans m1 m2 m3 : same_lists m1 m2 -> same_lists m2 m3 -> same_lists m1 m3.
Proof. intros [A B C D] [A' B' C' D']. split; intros *; congruence. Qed.

Lemma list_slot_fields s s' : list_slot s = list_slot s' ->
  s_state s = s_state s' /\ s_waiter_head s = s_waiter_head s' /\ s_generation s = s_generation s'.
Proof. destruct s, s'. intros [=]. by subst. Qed.

Lemma list_node_fields n n' : list_node n = list_node n' ->
  n_registered n = n_registered n' /\ n_obj n = n_obj n' /\ n_obj_prev n = n_obj_prev n' /\
  n_obj_next n = n_obj_next n' /\ n_waiter_next n = n_waiter_next n' /\ n_pid n = n_pid n'.
Proof. destruct n, n'. intros [=]. by subst. Qed.

Section same.
Context (m m' : Region) (Hs : same_lists m m').

Lemma same_slot i : s_state (slot_ptr m' i) = s_state (slot_ptr m i) /\
  s_waiter_head (slot_ptr m' i) = s_waiter_head (slot_ptr m i) /\
  s_generation (slot_ptr m' i) = s_generation (slot_ptr m i).
Proof. apply list_slot_fields, Hs. Qed.

Lemma same_node n : n_registered (node_ptr m' n) = n_registered (node_ptr m n) /\
  n_obj (node_ptr m' n) = n_obj (node_ptr m n) /\
  n_obj_prev (node_ptr m' n) = n_obj_prev (node_ptr m n) /\
  n_obj_next (node_ptr m' n) = n_obj_next (node_ptr m n) /\
  n_waiter_next (node_ptr m' n) = n_waiter_next (node_ptr m n) /\ n_pid (node_ptr m' n) = n_pid (node_ptr m n).
Proof. apply list_node_fields, Hs. Qed.

Lemma same_lists_ok L : lists_ok m L -> lists_ok m' L.
Proof.
  intros [H1 H2 H3 H4 H5 H6 H7]. split; intros *.
  - eapply dseg_ext; [|apply H1]. intros n _. destruct (same_node n) as (_&_&->&->&_). done.
  - destruct (same_slot i) as (->&->&_). apply H2.
  - destruct (same_node n) as (->&->&_). apply H3.
  - destruct (same_node n) as (->&->&_). apply H4.
  - apply H5.
  - rewrite (sl_fresh _ _ Hs). apply H6.
  - by rewrite (sl_fresh _ _ Hs).
Qed.

Lemma same_lists_pool L F : pool_ok m L F -> pool_ok m' L F.
Proof.
  intros [H1 H2 H3 H4]. split; [by apply same_lists_ok| |done|].
  - rewrite (sl_free _ _ Hs). eapply chain_ext; [|done]. intros n _.
    by destruct (same_node n) as (_&_&_&_&->&_).
  - intros n Hn. rewrite (sl_fresh _ _ Hs). destruct (same_node n) as (->&_). by apply H4.
Qed.

Lemma same_owned F n : owned m F n -> owned m' F n.
Proof. unfold owned. by rewrite (sl_fresh _ _ Hs). Qed.
End same.

(** The free list is a function of the region. *)
Lemma chain_unique m F : forall hd F', chain m hd F -> chain m hd F' ->
  (forall n, n ∈ F \/ n ∈ F' -> n <> NIL) -> F = F'.
Proof.
  induction F as [|n F IH]; intros hd [|n' F'] Hc Hc' Hnil; cbn [chain] in *; [done| | |].
  - destruct Hc' as [<- _]. exfalso. apply (Hnil hd); [set_solver|done].
  - destruct Hc as [<- _]. exfalso. apply (Hnil hd); [set_solver|done].
  - destruct Hc as [<- Hc], Hc' as [<- Hc']. f_equal. eapply IH; [done|done|]. set_solver.
Qed.

Lemma free_not_nil m L F n : pool_ok m L F -> n ∈ F -> n <> NIL.
Proof.
  intros H Hn. destruct (po_free _ _ _ H n Hn) as [_ Hr]. pose proof (lo_fresh _ _ (po_lists _ _ _ H)).
  unfold NODE_COUNT, NIL in *. lia.
Qed.

Lemma pool_free_unique m L F L' F' : pool_ok m L F -> pool_ok m L' F' -> F = F'.
Proof.
  intros H H'. eapply chain_unique; [apply (po_chain _ _ _ H)|apply (po_chain _ _ _ H')|].
  intros n [Hn|Hn]; [by apply (free_not_nil m L F)|by apply (free_not_nil m L' F')].
Qed.

(** ** Calls of the lock *)
Definition takes_lock (c : syscall) : bool :=
  match c with MutexLock | MutexTimedlock _ => true | _ => false end.
Definition drops_lock (c : syscall) : bool := match c with MutexUnlock => true | _ => false end.
Definition granted (z : Z) : bool := (z =? 0) || (z =? EOWNERDEAD).

(** A kernel whose mutex excludes: only a free one is granted, and only the
    holder's unlock frees it.  Its threads belong to live processes, of which
    kill(2) never says that they are gone; [lk_errs] tells whether a lock call may
    fail otherwise than by asking to be repeated. *)
Class LockKernel (G : Type) `{!Kernel Region G} := {
  lk_holder : G -> option nat;
  lk_pid : nat -> Z;
  lk_live : Z -> Prop;
  lk_errs : Prop;
  lk_lock t c m g z g' : takes_lock c = true -> kcall t c m g = Answer z g' ->
    if granted z then lk_holder g = None /\ lk_holder g' = Some t
    else lk_holder g' = lk_holder g /\ (z = EINTR \/ z = ETIMEDOUT \/ lk_errs);
  lk_unlock t m g z g' : lk_holder g = Some t -> kcall t MutexUnlock m g = Answer z g' -> lk_holder g' = None;
  lk_other t c m g z g' : takes_lock c = false -> drops_lock c = false ->
    kcall t c m g = Answer z g' -> lk_holder g' = lk_holder g;
  lk_sleep t c m g g' : kcall t c m g = Sleep g' -> lk_holder g' = lk_holder g;
  lk_getpid t m g z g' : kcall t GetPid m g = Answer z g' -> z = lk_pid t;
  lk_kill t p m g g' : kcall t (Kill0 p) m g = Answer ESRCH g' -> forall q, lk_live q -> as_i32 q <> p;
  lk_alive t : lk_live (lk_pid t);
  lk_zero : ~ lk_live 0;
}.

(** ** Guarded programs *)
Section guarded.
Context (live : Z -> Prop) (me : Z) (errs : Prop).

(** Nodes that a live process owns stay its own. *)
Definition kept (m m' : Region) (F F' : list Z) (n : Z) : Prop :=
  owned m F n -> live (n_pid (node_ptr m n)) ->
  owned m' F' n /\ n_pid (node_ptr m' n) = n_pid (node_ptr m n).

(** What others may do to a thread that owns the nodes [N] and does not hold
    the lock. *)
Definition rely (N : list Z) (m m' : Region) : Prop :=
  forall L F, pool_ok m L F -> exists L' F', pool_ok m' L' F' /\ forall n, n ∈ N -> kept m m' F F' n.

(** And to one that holds it. *)
Definition others_do (b : bool) (N : list Z) : Region -> Region -> Prop :=
  if b then same_lists else rely N.

(** What the holder may do: the lists stay well-formed, nodes of others are
    kept, and what is neither free nor an other's is its own. *)
Definition holder_step (N N' : list Z) (m m' : Region) : Prop :=
  exists L F L' F', pool_ok m L F /\ pool_ok m' L' F' /\
    (forall n, n ∉ N -> kept m m' F F' n) /\
    (forall n, n ∈ N' -> owned m' F' n /\ (n ∈ N \/ ~ owned m F n)) /\
    (forall n, owned m' F' n -> n ∈ N' \/ owned m F n /\ n ∉ N).

Definition own_step (b : bool) (N N' : list Z) (m m' : Region) : Prop :=
  if b then holder_step N N' m m' else N' = N /\ same_lists m m'.

(** What holds whenever nobody holds the lock. *)
Definition rest (m : Region) : Prop :=
  exists L F, pool_ok m L F /\ forall i, s_state (slot_ptr m i) = SLOT_FREE -> L i = [].

(** The nodes are the thread's own, and marked with its process. *)
Definition owns (N : list Z) (m : Region) : Prop :=
  exists L F, pool_ok m L F /\ NoDup N /\ forall n, n ∈ N -> owned m F n /\ n_pid (node_ptr m n) = me.

(** What the kernel answers. *)
Definition answers (c : syscall) (z : Z) : Prop :=
  match c with
  | GetPid => z = me
  | Kill0 p => z = ESRCH -> forall q, live q -> as_i32 q <> p
  | MutexLock | MutexTimedlock _ => granted z = false -> z = EINTR \/ z = ETIMEDOUT \/ errs
  | _ => True
  end.

(** [guarded Q p b N m]: run from [m] by a thread that holds the lock or not
    ([b]) and owns the nodes [N]. *)
Fixpoint guarded {A} (Q : bool -> list Z -> A -> Region -> Prop) (p : action A) (b : bool) (N : list Z)
  (m : Region) : Prop :=
  match p with
  | Ret a => forall m', others_do b N m m' -> Q b N a m'
  | Panic | OutOfFuel => True
  | Mem f k => forall m', others_do b N m m' -> exists N',
      own_step b N N' m' (snd (f m')) /\ guarded Q (k (fst (f m'))) b N' (snd (f m'))
  | Loc f k => forall l, mapped l -> mapped (snd (f l)) /\ guarded Q (k (fst (f l))) b N m
  | Sys c k =>
      if takes_lock c then
        b = false /\ forall m' z, rely N m m' -> answers c z ->
          (granted z = true -> rest m') -> guarded Q (k z) (granted z) N m'
      else if drops_lock c then
        b = true /\ forall m' z, same_lists m m' -> rest m' /\ owns N m' /\ guarded Q (k z) false N m'
      else forall z, answers c z -> guarded Q (k z) b N m
  end.
End guarded.

(** ** Soundness *)
Section rules.
Context (live : Z -> Prop) (me : Z) (errs : Prop).
Abbreviation gd Q p b N m := (guarded live me errs Q p b N m) (only parsing).

Lemma kept_refl m F n : kept live m m F F n.
Proof. by intros ? ?. Qed.

Lemma rely_refl N m : rely live N m m.
Proof. intros L F H. exists L, F. split; [done|]. intros n _. apply kept_refl. Qed.

Lemma rely_trans N m1 m2 m3 : rely live N m1 m2 -> rely live N m2 m3 -> rely live N m1 m3.
Proof.
  intros H12 H23 L F H. destruct (H12 L F H) as (L2 & F2 & H2 & Hk2).
  destruct (H23 L2 F2 H2) as (L3 & F3 & H3 & Hk3). exists L3, F3. split; [done|].
  intros n Hn Ho Hl. destruct (Hk2 n Hn Ho Hl) as [Ho2 Hp2]. rewrite <- Hp2 in Hl |- *.
  by apply Hk3.
Qed.

Lemma same_kept m m' F n : same_lists m m' -> kept live m m' F F n.
Proof.
  intros Hs Ho _. split; [by eapply same_owned|]. by destruct (same_node _ _ Hs n) as (_&_&_&_&_&->).
Qed.

Lemma same_rely N m m' : same_lists m m' -> rely live N m m'.
Proof.
  intros Hs L F H. exists L, F. split; [by eapply same_lists_pool|]. intros n _. by apply same_kept.
Qed.

Lemma others_refl b N m : others_do live b N m m.
Proof. destruct b; [apply same_lists_refl|apply rely_refl]. Qed.

Lemma others_trans b N m1 m2 m3 :
  others_do live b N m1 m2 -> others_do live b N m2 m3 -> others_do live b N m1 m3.
Proof. destruct b; [apply same_lists_trans|apply rely_trans]. Qed.

Lemma same_others b N m m' : same_lists m m' -> others_do live b N m m'.
Proof. destruct b; [done|apply same_rely]. Qed.

Lemma guarded_later {A} (Q : bool -> list Z -> A -> Region -> Prop) (p : action A) b N : forall m m',
  others_do live b N m m' -> gd Q p b N m -> gd Q p b N m'.
Proof.
  induction p as [a|B f k IH|B f k IH|c k IH| |]; cbn [guarded]; intros m m' Hm; auto.
  - intros HQ m2 H2. apply HQ. by eapply others_trans.
  - intros Hp m2 H2. apply Hp. by eapply others_trans.
  - intros Hp l Hl. destruct (Hp l Hl). split; [done|]. by eapply IH.
  - destruct (takes_lock c); [|destruct (drops_lock c)].
    + intros [-> Hp]. split; [done|]. intros m2 z H2. apply Hp. by eapply rely_trans.
    + intros [-> Hp]. split; [done|]. intros m2 z H2. apply Hp. by eapply same_lists_trans.
    + intros Hp z Hz. eapply IH; eauto.
Qed.

Lemma guarded_mono {A} (Q Q' : bool -> list Z -> A -> Region -> Prop) (p : action A) :
  (forall b N a m, Q b N a m -> Q' b N a m) -> forall b N m, gd Q p b N m -> gd Q' p b N m.
Proof.
  intros HQ. induction p as [a|B f k IH|B f k IH|c k IH| |]; cbn [guarded]; intros b N m; auto.
  - intros Hp m2 H2. destruct (Hp m2 H2) as (N' & H1 & H3). eauto.
  - intros Hp l Hl. destruct (Hp l Hl). auto.
  - destruct (takes_lock c); [|destruct (drops_lock c)].
    + intros [-> Hp]. auto 6.
    + intros [-> Hp]. split; [done|]. intros m2 z H2. destruct (Hp m2 z H2) as (H3 & H4 & H5). auto.
    + auto.
Qed.

Lemma guarded_bind {A B} (P : bool -> list Z -> A -> Region -> Prop) (Q : bool -> list Z -> B -> Region -> Prop)
  (p : action A) (q : A -> action B) :
  (forall b N a m, P b N a m -> gd Q (q a) b N m) ->
  forall b N m, gd P p b N m -> gd Q (bind p q) b N m.
Proof.
  intros Hq. induction p as [a|C f k IH|C f k IH|c k IH| |]; cbn [guarded bind]; intros b N m; auto.
  - intros Hp. apply Hq, Hp, others_refl.
  - intros Hp m2 H2. destruct (Hp m2 H2) as (N' & H1 & H3). eauto.
  - intros Hp l Hl. destruct (Hp l Hl). auto.
  - destruct (takes_lock c); [|destruct (drops_lock c)].
    + intros [-> Hp]. auto 6.
    + intros [-> Hp]. split; [done|]. intros m2 z H2. destruct (Hp m2 z H2) as (H3 & H4 & H5). auto.
    + auto.
Qed.
End rules.

Section soundness.
Context {G : Type} `{!Kernel Region G} `{!LockKernel G} {A : Type}.
Implicit Types (s : pool Region Local G A).
Context (Q : nat -> list Z -> A -> Region -> Prop).

Definition holds (g : G) (t : nat) : bool := bool_decide (lk_holder g = Some t).

(** The pool, when thread [t] owns [Ns t]; [O] are the nodes that belonged to
    nobody from the start. *)
Record guarded_pool (O : Z -> Prop) (Ns : nat -> list Z) (s : pool Region Local G A) : Prop := {
  gp_thread t th : threads s !! t = Some th -> mapped (tls th) /\
    guarded lk_live (lk_pid t) lk_errs (fun b N a m => b = false /\ Q t N a m)
      (code th) (holds (pker s) t) (Ns t) (pmem s);
  gp_lists : exists L F, pool_ok (pmem s) L F /\
    (forall t n, n ∈ Ns t -> owned (pmem s) F n) /\
    (forall n, owned (pmem s) F n -> O n \/ exists t, n ∈ Ns t);
  gp_disjoint t u n : n ∈ Ns t -> n ∈ Ns u -> t = u;
  gp_pid t n : holds (pker s) t = false -> n ∈ Ns t -> n_pid (node_ptr (pmem s) n) = lk_pid t;
  gp_rest : lk_holder (pker s) = None -> rest (pmem s);
  gp_only t : (length (threads s) <= t)%nat -> Ns t = [];
}.

Definition give (t : nat) (N : list Z) (Ns : nat -> list Z) (u : nat) : list Z :=
  if decide (u = t) then N else Ns u.

Lemma give_self t N Ns : give t N Ns t = N.
Proof. unfold give. by rewrite decide_True. Qed.
Lemma give_other t N Ns u : u <> t -> give t N Ns u = Ns u.
Proof. intros H. unfold give. by rewrite decide_False. Qed.

Lemma holds_true g t : holds g t = true <-> lk_holder g = Some t.
Proof. apply bool_decide_eq_true. Qed.
Lemma holds_false g t : holds g t = false <-> lk_holder g <> Some t.
Proof. apply bool_decide_eq_false. Qed.

(** A step that leaves the lists alone, of thread [t]. *)
Lemma guarded_quiet O Ns s t th m' g' :
  guarded_pool O Ns s -> is_Some (threads s !! t) -> same_lists (pmem s) m' ->
  (forall u, u <> t -> holds g' u = holds (pker s) u) ->
  (mapped (tls th) /\ guarded lk_live (lk_pid t) lk_errs (fun b N a m => b = false /\ Q t N a m)
      (code th) (holds g' t) (Ns t) m') ->
  (holds g' t = false -> holds (pker s) t = true -> owns (lk_pid t) (Ns t) (pmem s)) ->
  (lk_holder g' = None -> lk_holder (pker s) <> None -> rest (pmem s)) ->
  guarded_pool O Ns (Pool m' g' (<[t := th]> (threads s))).
Proof.
  intros Hs Ht Hsame Hu Hth Howns Hrest. split; cbn [threads pmem pker].
  - intros u th' Hlk. destruct (decide (u = t)) as [->|Hne].
    + rewrite list_lookup_insert_eq in Hlk by (by apply lookup_lt_is_Some). by simplify_eq.
    + rewrite list_lookup_insert_ne in Hlk by done. destruct (gp_thread _ _ _ Hs u th' Hlk) as [H1 H2].
      split; [done|]. rewrite Hu by done. eapply guarded_later; [|exact H2]. by apply same_others.
  - destruct (gp_lists _ _ _ Hs) as (L & F & H1 & H2 & H3). exists L, F.
    split; [by eapply same_lists_pool|]. split.
    + intros u n Hn. eapply same_owned; [exact Hsame|by eapply H2].
    + intros n Hn. apply H3. unfold owned in *. by rewrite <- (sl_fresh _ _ Hsame).
  - apply (gp_disjoint _ _ _ Hs).
  - intros u n Hf Hn. destruct (same_node _ _ Hsame n) as (_&_&_&_&_&->).
    destruct (holds (pker s) u) eqn:E; [|by apply (gp_pid _ _ _ Hs)].
    destruct (decide (u = t)) as [->|Hne]; [|by rewrite Hu, E in Hf].
    destruct (Howns Hf E) as (L & F & _ & _ & Hm). by apply Hm.
  - intros Hn. assert (rest (pmem s)) as (L & F & H1 & H2).
    { destruct (decide (lk_holder (pker s) = None)); [by apply (gp_rest _ _ _ Hs)|auto]. }
    exists L, F. split; [by eapply same_lists_pool|]. intros i.
    destruct (same_slot _ _ Hsame i) as (->&_). apply H2.
  - intros u. rewrite length_insert. apply (gp_only _ _ _ Hs).
Qed.

(** What a step of the holder means for the others. *)
Lemma holder_others O Ns s t N' m' :
  guarded_pool O Ns s -> lk_holder (pker s) = Some t -> holder_step lk_live (Ns t) N' (pmem s) m' ->
  forall u, u <> t -> rely lk_live (Ns u) (pmem s) m' /\
    forall n, n ∈ Ns u -> (n ∉ Ns t) /\ (n ∉ N') /\ lk_live (n_pid (node_ptr (pmem s) n)).
Proof.
  intros Hs Hold (L & F & L' & F' & HP & HP' & Hkept & Hnew & Hcons) u Hu.
  assert (holds (pker s) u = false) as Huf by (apply holds_false; rewrite Hold; congruence).
  assert (forall n, n ∈ Ns u -> n ∉ Ns t) as Hd by (intros n H1 H2; by apply Hu, (gp_disjoint _ _ _ Hs u t n)).
  split.
  - intros L0 F0 HP0. rewrite <- (pool_free_unique _ _ _ _ _ HP HP0). exists L', F'. split; [done|].
    intros n Hn. by apply Hkept, Hd.
  - intros n Hn. split; [by apply Hd|]. split.
    + intros Hn'. destruct (Hnew n Hn') as [_ [?|Hno]]; [by apply (Hd n)|].
      destruct (gp_lists _ _ _ Hs) as (L0 & F0 & H1 & H2 & _).
      rewrite (pool_free_unique _ _ _ _ _ HP H1) in Hno. by apply Hno, (H2 u).
    + rewrite (gp_pid _ _ _ Hs u n Huf Hn). apply lk_alive.
Qed.

(** A step of the holder. *)
Lemma guarded_holder O Ns s t th N' m' :
  guarded_pool O Ns s -> is_Some (threads s !! t) -> lk_holder (pker s) = Some t ->
  holder_step lk_live (Ns t) N' (pmem s) m' ->
  (mapped (tls th) /\ guarded lk_live (lk_pid t) lk_errs (fun b N a m => b = false /\ Q t N a m)
      (code th) true N' m') ->
  guarded_pool O (give t N' Ns) (Pool m' (pker s) (<[t := th]> (threads s))).
Proof.
  intros Hs Ht Hold Hstep Hth. pose proof (holder_others _ _ _ _ _ _ Hs Hold Hstep) as Hrely.
  destruct Hstep as (L & F & L' & F' & HP & HP' & Hkept & Hnew & Hcons).
  assert (holds (pker s) t = true) as Htt by (by apply holds_true).
  assert (forall u, u <> t -> holds (pker s) u = false) as Huf.
  { intros u Hu. apply holds_false. rewrite Hold. congruence. }
  assert (forall u n, u <> t -> n ∈ Ns u -> owned (pmem s) F n /\ owned m' F' n /\
    n_pid (node_ptr m' n) = lk_pid u) as Hoth.
  { intros u n Hu Hn. destruct (gp_lists _ _ _ Hs) as (L0 & F0 & H1 & H2 & _).
    rewrite (pool_free_unique _ _ _ _ _ HP H1) in *. pose proof (H2 _ _ Hn) as Ho.
    pose proof (gp_pid _ _ _ Hs u n (Huf u Hu) Hn) as Hpid.
    destruct (Hkept n) as [Ho' Hp']; [|done|rewrite Hpid; apply lk_alive|].
    - intros Hn'. by apply Hu, (gp_disjoint _ _ _ Hs u t n).
    - split_and!; [done..|]. by rewrite Hp'. }
  split; cbn [threads pmem pker].
  - intros u th' Hlk. destruct (decide (u = t)) as [->|Hne].
    + rewrite list_lookup_insert_eq in Hlk by (by apply lookup_lt_is_Some). simplify_eq.
      by rewrite give_self, Htt.
    + rewrite list_lookup_insert_ne in Hlk by done. destruct (gp_thread _ _ _ Hs u th' Hlk) as [H1 H2].
      split; [done|]. rewrite give_other, Huf in * by done. eapply guarded_later; [|exact H2]. by apply Hrely.
  - exists L', F'. split; [done|]. split.
    + intros u n Hn. destruct (decide (u = t)) as [->|Hne].
      * rewrite give_self in Hn. by apply Hnew.
      * rewrite give_other in Hn by done. by apply (Hoth u).
    + intros n Hn. destruct (Hcons n Hn) as [Hin|[Ho Hin]].
      * right. exists t. by rewrite give_self.
      * destruct (gp_lists _ _ _ Hs) as (L0 & F0 & H1 & _ & H3).
        rewrite (pool_free_unique _ _ _ _ _ HP H1) in *. destruct (H3 n Ho) as [?|[u Hu]]; [by left|].
        right. exists u. rewrite give_other; [done|]. by intros ->.
  - intros u v n Hu Hv.
    assert (forall x, x <> t -> n ∈ N' -> n ∈ Ns x -> False) as Hx.
    { intros x Hx H1 H2. by destruct (proj2 (Hrely x Hx) n H2) as (_&?&_). }
    unfold give in Hu, Hv. destruct (decide (u = t)) as [->|], (decide (v = t)) as [->|]; try done.
    + exfalso. by eapply Hx.
    + exfalso. by eapply Hx.
    + by apply (gp_disjoint _ _ _ Hs u v n).
  - intros u n Hf Hn. destruct (decide (u = t)) as [->|Hne]; [by rewrite Htt in Hf|].
    rewrite give_other in Hn by done. by apply Hoth.
  - by rewrite Hold.
  - intros u. rewrite length_insert. intros Hu. rewrite give_other; [by apply (gp_only _ _ _ Hs)|].
    intros ->. apply lookup_lt_is_Some in Ht. lia.
Qed.

Lemma call_answers t c m g z g' : kcall t c m g = Answer z g' -> answers lk_live (lk_pid t) lk_errs c z.
Proof.
  intros Ek. destruct c; try done; cbn [answers].
  - by eapply lk_getpid.
  - intros ->. by eapply lk_kill.
  - unshelve epose proof (lk_lock _ _ _ _ _ _ _ Ek) as H; [done|]. intros Hf. rewrite Hf in H. apply H.
  - unshelve epose proof (lk_lock _ _ _ _ _ _ _ Ek) as H; [done|]. intros Hf. rewrite Hf in H. apply H.
Qed.

(** The kernel answers a call. *)
Lemma guarded_answer O Ns s t th c k z g' :
  guarded_pool O Ns s -> threads s !! t = Some th -> code th = Sys c k ->
  kcall t c (pmem s) (pker s) = Answer z g' ->
  guarded_pool O Ns (Pool (pmem s) g' (<[t := Thread (k z) (tls th)]> (threads s))).
Proof.
  intros Hs Ht Ec Ek. destruct (gp_thread _ _ _ Hs t th Ht) as [Hl Hg]. rewrite Ec in Hg. cbn [guarded] in Hg.
  assert (is_Some (threads s !! t)) as Hin by (by eexists).
  pose proof (call_answers _ _ _ _ _ _ Ek) as Hz.
  destruct (takes_lock c) eqn:Et; [|destruct (drops_lock c) eqn:Ed].
  - destruct Hg as [Hh Hg]. pose proof (lk_lock _ _ _ _ _ _ Et Ek) as Hk. destruct (granted z) eqn:Egr.
    + destruct Hk as [Hfree Hk]. pose proof (gp_rest _ _ _ Hs Hfree) as Hrest.
      apply guarded_quiet; cbn; [done|done|apply same_lists_refl| | |congruence|by rewrite Hk].
      * intros u Hu. rewrite (proj2 (holds_false (pker s) u)) by congruence. apply holds_false. congruence.
      * split; [done|]. rewrite (proj2 (holds_true g' t)) by done. rewrite <- Egr.
        by apply Hg; [apply rely_refl|exact Hz|].
    + destruct Hk as [Hk _]. assert (forall u, holds g' u = holds (pker s) u) as Hhs.
      { intros u. unfold holds. by rewrite Hk. }
      apply guarded_quiet; cbn; [done|done|apply same_lists_refl|done| |rewrite Hhs; congruence|by rewrite Hk].
      split; [done|]. rewrite Hhs, Hh. specialize (Hg (pmem s) z (rely_refl _ _ _) Hz). rewrite Egr in Hg. by apply Hg.
  - destruct Hg as [Hh Hg]. destruct (Hg _ z (same_lists_refl _)) as (Hrest & Howns & Hk).
    assert (c = MutexUnlock) as -> by (by destruct c).
    pose proof (proj1 (holds_true _ _) Hh) as Hhold. pose proof (lk_unlock _ _ _ _ _ Hhold Ek) as Hfree.
    apply guarded_quiet; cbn; [done|done|apply same_lists_refl| | |done|done].
    + intros u Hu. rewrite (proj2 (holds_false (pker s) u)) by congruence. apply holds_false. congruence.
    + split; [done|]. by rewrite (proj2 (holds_false g' t)) by congruence.
  - pose proof (lk_other _ _ _ _ _ _ Et Ed Ek) as Hk. assert (forall u, holds g' u = holds (pker s) u) as Hhs.
    { intros u. unfold holds. by rewrite Hk. }
    apply guarded_quiet; cbn; [done|done|apply same_lists_refl|done| |rewrite Hhs; congruence|by rewrite Hk].
    rewrite Hhs. auto.
Qed.

Lemma guarded_pool_step O Ns s t s' :
  guarded_pool O Ns s -> pool_step t s = Some s' ->
  (exists Ns', guarded_pool O Ns' s') /\
  (same_lists (pmem s) (pmem s') \/ lk_holder (pker s) = Some t).
Proof.
  intros Hs. unfold pool_step. destruct (threads s !! t) as [th|] eqn:Ht; [|done].
  assert (is_Some (threads s !! t)) as Hin by (by eexists).
  destruct (gp_thread _ _ _ Hs t th Ht) as [Hl Hg]. unfold thread_step.
  destruct (code th) as [a|B f k|B f k|c k| |] eqn:Ec; try done; cbn [guarded] in Hg.
  - intros [= <-]. destruct (Hg _ (others_refl _ _ _ _)) as (N' & Hstep & Hk).
    destruct (holds (pker s) t) eqn:Eh; cbn [own_step] in Hstep.
    + apply holds_true in Eh. split; [|by right]. exists (give t N' Ns). by apply guarded_holder.
    + destruct Hstep as [-> Hsame]. split; [|by left]. exists Ns.
      apply guarded_quiet; cbn; [done..|by rewrite Eh|congruence|congruence].
  - intros [= <-]. destruct (Hg _ Hl) as [Hl' Hk]. split; [|left; apply same_lists_refl]. exists Ns.
    apply guarded_quiet; [done|done|apply same_lists_refl|done|done|congruence|done].
  - destruct (kcall t c (pmem s) (pker s)) as [z g'|g'|] eqn:Ek; [| |done]; intros [= <-];
      (split; [|left; apply same_lists_refl]); exists Ns.
    + by eapply guarded_answer.
    + pose proof (lk_sleep _ _ _ _ _ Ek) as Hh.
      assert (forall u, holds g' u = holds (pker s) u) as Hhs by (intros u; unfold holds; by rewrite Hh).
      apply guarded_quiet; [done|done|apply same_lists_refl|done| |congruence|congruence].
      rewrite Hhs. by apply (gp_thread _ _ _ Hs).
Qed.

Lemma guarded_pool_ext O Ns Ns' s :
  (forall u, Ns u = Ns' u) -> guarded_pool O Ns s -> guarded_pool O Ns' s.
Proof.
  intros E [H1 H2 H3 H4 H5 H6]. split; [intros t th; rewrite <- E; apply H1| | | |done|].
  - destruct H2 as (L & F & A1 & A2 & A3). exists L, F. split; [done|]. split.
    + intros t n. rewrite <- E. apply A2.
    + intros n Hn. destruct (A3 n Hn) as [?|[t Ht]]; [by left|]. right. exists t. by rewrite <- E.
  - intros t u n. rewrite <- !E. apply H3.
  - intros t n. rewrite <- E. apply H4.
  - intros t. rewrite <- E. apply H6.
Qed.

Lemma guarded_pool_steps O Ns s s' :
  guarded_pool O Ns s -> steps s s' -> exists Ns', guarded_pool O Ns' s'.
Proof.
  intros Hs Hsteps. revert Ns Hs. induction Hsteps as [s|t s s1 s2 Hstep _ IH]; intros Ns Hs; [by exists Ns|].
  destruct (guarded_pool_step O Ns s t s1 Hs Hstep) as [(Ns' & Hs') _]. by apply (IH Ns').
Qed.
End soundness.
