(* ===== verification/GuardRules.v ===== *)
(** * GuardRules: rules for guarded programs

    [tame]: a program that changes no list and does not touch the lock.
    [keeps]: one that begins and ends without the lock.  [held]: one that runs
    under it and restores what rests when it is free. *)
From S2P Require Import Prelude Prog Config Region Kernel Lock Nodes WaitLists NodePool Interleave Guard.

Section stable.
Context (live : Z -> Prop) (me : Z) (Hme : live me).

Lemma rest_same m m' : same_lists m m' -> rest m -> rest m'.
Proof.
  intros Hs (L & F & H1 & H2). exists L, F. split; [by eapply same_lists_pool|].
  intros i. destruct (same_slot _ _ Hs i) as (->&_). apply H2.
Qed.

Lemma owns_same N m m' : same_lists m m' -> owns me N m -> owns me N m'.
Proof.
  intros Hs (L & F & H1 & H2 & H3). exists L, F. split; [by eapply same_lists_pool|].
  split; [done|]. intros n Hn. destruct (H3 n Hn) as [Ho Hp]. split; [by eapply same_owned|].
  by destruct (same_node _ _ Hs n) as (_&_&_&_&_&->).
Qed.

Lemma owns_rely N m m' : rely live N m m' -> owns me N m -> owns me N m'.
Proof.
  intros Hr (L & F & H1 & H2 & H3). destruct (Hr L F H1) as (L' & F' & H1' & Hk).
  exists L', F'. split; [done|]. split; [done|]. intros n Hn. destruct (H3 n Hn) as [Ho Hp].
  destruct (Hk n Hn Ho) as [Ho' Hp']; [by rewrite Hp|]. by rewrite Hp', Hp.
Qed.

Lemma owns_others b N m m' : others_do live b N m m' -> owns me N m -> owns me N m'.
Proof. destruct b; [apply owns_same|apply owns_rely]. Qed.

Lemma same_holder_step N m m' : same_lists m m' -> owns me N m -> holder_step live N N m m'.
Proof.
  intros Hs (L & F & H1 & H2 & H3). exists L, F, L, F. split; [done|].
  split; [by eapply same_lists_pool|]. split_and!.
  - intros n _. by apply same_kept.
  - intros n Hn. split; [eapply same_owned; [done|]; by apply H3|by left].
  - intros n Hn. destruct (decide (n ∈ N)); [by left|]. right. split; [|done].
    unfold owned in *. by rewrite <- (sl_fresh _ _ Hs).
Qed.
End stable.

(** ** Passive programs *)
(** Calls that neither concern the lock nor a futex. *)
Definition plain_call (c : syscall) : bool :=
  match c with MutexLock | MutexTimedlock _ | MutexUnlock | FutexWait _ _ _ | FutexWake _ => false | _ => true end.

(** A program that writes nothing to the shared memory. *)
Section passive.
Context (live : Z -> Prop) (me : Z) (errs : Prop).

Fixpoint passive {A} (T : A -> Prop) (p : action A) : Prop :=
  match p with
  | Ret a => T a
  | Panic | OutOfFuel => True
  | Mem f k => forall m, snd (f m) = m /\ passive T (k (fst (f m)))
  | Loc f k => forall l, mapped l -> mapped (snd (f l)) /\ passive T (k (fst (f l)))
  | Sys c k => plain_call c = true /\ forall z, answers live me errs c z -> passive T (k z)
  end.

Lemma passive_mono {A} (T T' : A -> Prop) (p : action A) : (forall a, T a -> T' a) -> passive T p -> passive T' p.
Proof.
  intros HT. induction p as [a|B f k IH|B f k IH|c k IH| |]; cbn [passive]; auto.
  - intros Hp m. destruct (Hp m). auto.
  - intros Hp l Hl. destruct (Hp l Hl). auto.
  - intros [H1 Hp]. auto.
Qed.

Lemma passive_bind {A B} (S : A -> Prop) (T : B -> Prop) (p : action A) (q : A -> action B) :
  passive S p -> (forall a, S a -> passive T (q a)) -> passive T (bind p q).
Proof.
  intros Hp Hq. induction p as [a|C f k IH|C f k IH|c k IH| |]; cbn [passive bind] in *; auto.
  - intros m. destruct (Hp m). auto.
  - intros l Hl. destruct (Hp l Hl). auto.
  - destruct Hp as [H1 Hp]. auto.
Qed.

Lemma passive_seq {A B} (T : B -> Prop) (p : action A) (q : A -> action B) :
  passive any p -> (forall a, passive T (q a)) -> passive T (bind p q).
Proof. intros Hp Hq. eapply passive_bind; [exact Hp|]. auto. Qed.

Lemma passive_read {A} (T : A -> Prop) f : (forall m, T (f m)) -> passive T (mem_read f).
Proof. intros HT m. split; [done|apply HT]. Qed.

Lemma passive_loc {A} (f : Local -> A * Local) :
  (forall l, l_region (snd (f l)) = l_region l) -> passive any (loc_do f).
Proof. intros Hf l Hl. split; [|done]. unfold mapped. by rewrite Hf. Qed.

Lemma passive_sys c : plain_call c = true -> passive any (sys c).
Proof. by intros H1. Qed.

Lemma passive_stat i n : passive any (stat_add i n).
Proof. by apply passive_loc. Qed.
End passive.

(** ** Tame programs *)
Section tame.
Context (live : Z -> Prop) (me : Z) (errs : Prop) (Hme : live me).
Abbreviation gd Q p b N m := (guarded live me errs Q p b N m) (only parsing).

Fixpoint tame {A} (T : A -> Prop) (p : action A) : Prop :=
  match p with
  | Ret a => T a
  | Panic | OutOfFuel => True
  | Mem f k => forall m, same_lists m (snd (f m)) /\ tame T (k (fst (f m)))
  | Loc f k => forall l, mapped l -> mapped (snd (f l)) /\ tame T (k (fst (f l)))
  | Sys c k => takes_lock c = false /\ drops_lock c = false /\ forall z, answers live me errs c z -> tame T (k z)
  end.

Lemma tame_mono {A} (T T' : A -> Prop) (p : action A) : (forall a, T a -> T' a) -> tame T p -> tame T' p.
Proof.
  intros HT. induction p as [a|B f k IH|B f k IH|c k IH| |]; cbn [tame]; auto.
  - intros Hp m. destruct (Hp m). auto.
  - intros Hp l Hl. destruct (Hp l Hl). auto.
  - intros (H1 & H2 & Hp). auto.
Qed.

Lemma tame_bind {A B} (S : A -> Prop) (T : B -> Prop) (p : action A) (q : A -> action B) :
  tame S p -> (forall a, S a -> tame T (q a)) -> tame T (bind p q).
Proof.
  intros Hp Hq. induction p as [a|C f k IH|C f k IH|c k IH| |]; cbn [tame bind] in *; auto.
  - intros m. destruct (Hp m). auto.
  - intros l Hl. destruct (Hp l Hl). auto.
  - destruct Hp as (H1 & H2 & Hp). auto.
Qed.

Lemma passive_tame {A} (T : A -> Prop) (p : action A) : passive live me errs T p -> tame T p.
Proof.
  induction p as [a|B f k IH|B f k IH|c k IH| |]; cbn [passive tame]; auto.
  - intros Hp m. destruct (Hp m) as [-> Hk]. split; [apply same_lists_refl|auto].
  - intros Hp l Hl. destruct (Hp l Hl). auto.
  - intros [Hc Hp]. split; [by destruct c|]. split; [by destruct c|auto].
Qed.

Lemma tame_seq {A B} (T : B -> Prop) (p : action A) (q : A -> action B) :
  tame any p -> (forall a, tame T (q a)) -> tame T (bind p q).
Proof. intros Hp Hq. eapply tame_bind; [exact Hp|]. auto. Qed.

Lemma tame_read {A} (T : A -> Prop) f : (forall m, T (f m)) -> tame T (mem_read f).
Proof. intros HT m. split; [apply same_lists_refl|apply HT]. Qed.

Lemma tame_write f : (forall m, same_lists m (f m)) -> tame any (mem_write f).
Proof. intros Hf m. by split. Qed.

Lemma tame_do {A} (f : Region -> A * Region) : (forall m, same_lists m (snd (f m))) -> tame any (mem_do f).
Proof. intros Hf m. by split. Qed.

Lemma tame_loc {A} (f : Local -> A * Local) :
  (forall l, l_region (snd (f l)) = l_region l) -> tame any (loc_do f).
Proof. intros Hf l Hl. split; [|done]. unfold mapped. by rewrite Hf. Qed.

Lemma tame_sys c : takes_lock c = false -> drops_lock c = false -> tame any (sys c).
Proof. by intros H1 H2. Qed.

Lemma tame_guarded {A} (T : A -> Prop) (p : action A) b N : forall m, tame T p -> (b = true -> owns me N m) ->
  gd (fun b' N' a m' => b' = b /\ N' = N /\ T a /\ others_do live b N m m') p b N m.
Proof.
  assert (forall m1 m2 m3 (Q : A -> Prop) p, others_do live b N m1 m2 ->
    gd (fun b' N' a m' => b' = b /\ N' = N /\ Q a /\ others_do live b N m2 m') p b N m3 ->
    gd (fun b' N' a m' => b' = b /\ N' = N /\ Q a /\ others_do live b N m1 m') p b N m3) as Hfrom.
  { intros m1 m2 m3 Q q H12. apply guarded_mono. intros ? ? ? ? (->&->&?&?). split_and!; [done..|].
    by eapply others_trans. }
  induction p as [a|B f k IH|B f k IH|c k IH| |]; cbn [tame guarded]; intros m Hp Hb; auto.
  - intros m' Hm. exists N. destruct (Hp m') as [Hs Hk].
    assert (b = true -> owns me N m') as Hb' by (intros E; eapply owns_others; [done|exact Hm|auto]).
    split.
    + destruct b; cbn [own_step]; [|done]. eapply same_holder_step; [exact Hs|auto].
    + eapply Hfrom; [eapply others_trans; [exact Hm|by apply same_others]|]. apply IH; [done|].
      intros E. eapply owns_same; [exact Hs|auto].
  - intros l Hl. destruct (Hp l Hl). split; [done|]. by apply IH.
  - destruct Hp as (-> & -> & Hp). intros z Hz. by apply IH; [apply Hp|].
Qed.

(** ** Without the lock and under it *)
Definition keeps {A} (T : A -> Prop) (p : action A) : Prop := forall N m, owns me N m ->
  gd (fun b N' a m' => b = false /\ N' = N /\ owns me N m' /\ T a) p false N m.

Definition held {A} (T : A -> Prop) (p : action A) : Prop := forall N m, rest m -> owns me N m ->
  gd (fun b N' a m' => b = true /\ N' = N /\ rest m' /\ owns me N m' /\ T a) p true N m.

Lemma keeps_tame {A} (T : A -> Prop) (p : action A) : tame T p -> keeps T p.
Proof.
  intros Hp N m Hm. eapply guarded_mono; [|by apply tame_guarded].
  intros ? ? ? ? (->&->&?&Ho). split_and!; [done..| |done]. by eapply owns_others.
Qed.

Lemma held_tame {A} (T : A -> Prop) (p : action A) : tame T p -> held T p.
Proof.
  intros Hp N m Hr Hm. eapply guarded_mono; [|by apply tame_guarded].
  intros ? ? ? ? (->&->&?&Ho). split_and!; [done..| | |done]; [by eapply rest_same|by eapply owns_same].
Qed.

Lemma keeps_bind {A B} (S : A -> Prop) (T : B -> Prop) (p : action A) (q : A -> action B) :
  keeps S p -> (forall a, S a -> keeps T (q a)) -> keeps T (bind p q).
Proof.
  intros Hp Hq N m Hm. eapply guarded_bind; [|by apply Hp]. intros ? ? a ? (->&->&Hm'&Ha). by apply Hq.
Qed.

Lemma keeps_seq {A B} (T : B -> Prop) (p : action A) (q : A -> action B) :
  keeps any p -> (forall a, keeps T (q a)) -> keeps T (bind p q).
Proof. intros Hp Hq. eapply keeps_bind; [exact Hp|]. auto. Qed.

Lemma held_bind {A B} (S : A -> Prop) (T : B -> Prop) (p : action A) (q : A -> action B) :
  held S p -> (forall a, S a -> held T (q a)) -> held T (bind p q).
Proof.
  intros Hp Hq N m Hr Hm. eapply guarded_bind; [|by apply Hp].
  intros ? ? a ? (->&->&Hr'&Hm'&Ha). by apply Hq.
Qed.

Lemma held_seq {A B} (T : B -> Prop) (p : action A) (q : A -> action B) :
  held any p -> (forall a, held T (q a)) -> held T (bind p q).
Proof. intros Hp Hq. eapply held_bind; [exact Hp|]. auto. Qed.

Lemma keeps_mono {A} (T T' : A -> Prop) (p : action A) : (forall a, T a -> T' a) -> keeps T p -> keeps T' p.
Proof. intros HT Hp N m Hm. eapply guarded_mono; [|by apply Hp]. intros ? ? a ? (->&->&?&?). auto. Qed.

Lemma held_mono {A} (T T' : A -> Prop) (p : action A) : (forall a, T a -> T' a) -> held T p -> held T' p.
Proof. intros HT Hp N m Hr Hm. eapply guarded_mono; [|by apply Hp]. intros ? ? a ? (->&->&?&?&?). auto 6. Qed.
End tame.

Create HintDb tame.

(** ** The lock *)
Section lock.
Context `{!Config} (live : Z -> Prop) (me : Z) (errs : Prop) (Hme : live me).
Abbreviation gd Q p b N m := (guarded live me errs Q p b N m) (only parsing).
Abbreviation tm T p := (tame live me errs T p) (only parsing).

Lemma tame_stat i n : tm any (stat_add i n).
Proof. by apply tame_loc. Qed.

(** What a lock call leaves: the lock, or an error. *)
Definition locked_or {A} (N : list Z) (b : bool) (N' : list Z) (r : result A Z) (m' : Region) : Prop :=
  N' = N /\ owns me N m' /\ match r with Ok _ => b = true /\ rest m' | Err _ => b = false /\ errs end.

Lemma guarded_lock_call {A} (Q : bool -> list Z -> A -> Region -> Prop) (q : Z -> action A) N m :
  owns me N m ->
  (forall z m', owns me N m' -> (granted z = true -> rest m') ->
    (granted z = false -> z = EINTR \/ z = ETIMEDOUT \/ errs) -> gd Q (q z) (granted z) N m') ->
  gd Q (bind (if debug_enabled then now <- sys ClockRealtime ;; sys (MutexTimedlock (now + 5 * 1000000000))
              else sys MutexLock) q) false N m.
Proof.
  intros Hm Hq. destruct debug_enabled; cbn.
  - intros now _. split; [done|]. intros m' z Hr Hz Hrest. apply Hq; [by eapply owns_rely|done..].
  - split; [done|]. intros m' z Hr Hz Hrest. apply Hq; [by eapply owns_rely|done..].
Qed.

(** What follows a granted call. *)
Lemma tame_granted ret tries (mask : option Z) :
  tm (fun r => r = Ok mask) (
    stat_bump 4 ;;;
    (when (1 <? tries) do stat_bump 5) ;;;
    (when (ret =? EOWNERDEAD) do (sys MutexConsistent ;;; Ret tt)) ;;;
    (when debug_enabled do
       (pid <- sys GetPid ;;
        mem_write (upd_header (set_owner_pid pid)) ;;;
        tid <- sys GetTid ;;
        mem_write (upd_header (set_owner_tid tid)))) ;;;
    Ret (Ok (E := Z) mask)).
Proof.
  apply tame_seq; [apply tame_stat|]. intros _. apply tame_seq; [destruct (1 <? tries); [apply tame_stat|done]|].
  intros _. apply tame_seq; [by destruct (ret =? EOWNERDEAD)|]. intros _.
  apply tame_seq; [|done]. destruct debug_enabled; [|done].
  apply tame_seq; [by apply tame_sys|]. intros pid. apply tame_seq; [by apply tame_write|]. intros _.
  apply tame_seq; [by apply tame_sys|]. intros tid. by apply tame_write.
Qed.

Lemma guarded_lock_loop fuel mask N : forall tries m, owns me N m ->
  gd (locked_or N) (lock_loop fuel mask tries) false N m.
Proof.
  induction fuel as [|fuel IH]; intros tries m Hm; cbn [lock_loop]; [done|].
  apply guarded_lock_call; [done|]. intros z m1 Hm1 Hrest Hz. fold (granted z). destruct (granted z).
  - eapply guarded_mono; [|apply tame_guarded; [done|apply tame_granted|done]].
    intros ? ? ? m2 (->&->&->&Hs). specialize (Hrest eq_refl).
    split_and!; [done|by eapply owns_same|done|by eapply rest_same].
  - destruct (Z.eqb_spec z ETIMEDOUT) as [->|Hz1]; [by apply IH|].
    destruct (Z.eqb_spec z EINTR) as [->|Hz2]; cbn [negb]; [by apply IH|].
    assert errs by (by destruct (Hz eq_refl) as [?|[?|?]]).
    assert (forall m2, rely live N m1 m2 -> locked_or (A := option Z) N false N (Err (- z)) m2) as Hend.
    { intros m2 Hr. split_and!; [done|by eapply owns_rely|done..]. }
    destruct mask as [k|]; cbn; auto.
Qed.

Lemma guarded_lock_guard N m : owns me N m -> gd (locked_or N) lock_guard false N m.
Proof.
  intros Hm. unfold lock_guard. destruct sigusr1_block_enabled; cbn; [intros z _|]; by apply guarded_lock_loop.
Qed.

Lemma guarded_guard_drop mask N m : rest m -> owns me N m ->
  gd (fun b N' _ m' => b = false /\ N' = N /\ owns me N m') (guard_drop mask) true N m.
Proof.
  intros Hr Hm. cbn. intros m1 H1. exists N. assert (same_lists m (upd_header (set_lock_owner 0 0) m1)) as Hs.
  { eapply same_lists_trans; [exact H1|]. by destruct m1 as [[] ? ?]. }
  split; [eapply same_holder_step; [|by eapply owns_same]; by destruct m1 as [[] ? ?]|].
  split; [done|]. intros m2 z Hs2. pose proof (same_lists_trans _ _ _ Hs Hs2) as Hs3.
  pose proof (rest_same _ _ Hs3 Hr). pose proof (owns_same _ _ _ _ Hs3 Hm).
  split_and!; [done..|]. destruct mask as [k|]; cbn; intros; split_and!; try done; by eapply owns_rely.
Qed.

Lemma keeps_with_lock {A} (T : result A Error -> Prop) (body : action (result A Error)) :
  (forall e, T (Err (Init e))) -> held live me errs T body -> keeps live me errs T (with_lock body).
Proof.
  intros He Hb N m Hm. unfold with_lock. eapply guarded_bind; [|by apply guarded_lock_guard].
  intros b N' [mask|e] m1 (-> & Hm1 & H1).
  - destruct H1 as [-> Hr1]. eapply guarded_bind; [|by apply Hb].
    intros ? ? r m2 (-> & -> & Hr2 & Hm2 & Hr). eapply guarded_bind; [|by apply guarded_guard_drop].
    intros ? ? ? m3 (-> & -> & Hm3). cbn. intros m4 H4. split_and!; [done..| |done]. by eapply owns_rely.
  - destruct H1 as [-> _]. cbn. intros m2 H2. split_and!; [done..| |done]. by eapply owns_rely.
Qed.

Lemma keeps_if_lock (body : action unit) :
  held live me errs any body -> keeps live me errs any (if_lock body).
Proof.
  intros Hb N m Hm. unfold if_lock. eapply guarded_bind; [|by apply guarded_lock_guard].
  intros b N' [mask|e] m1 (-> & Hm1 & H1).
  - destruct H1 as [-> Hr1]. eapply guarded_bind; [|by apply Hb].
    intros ? ? r m2 (-> & -> & Hr2 & Hm2 & Hr). eapply guarded_mono; [|by apply guarded_guard_drop].
    intros ? ? ? m3 (-> & -> & Hm3). done.
  - destruct H1 as [-> _]. cbn. intros m2 H2. split_and!; [done..| |done]. by eapply owns_rely.
Qed.
End lock.

(** ** Automation *)
(** One step into a passive program. *)
Ltac passive1 :=
  lazymatch goal with
  | |- passive _ _ _ _ (bind _ _) => apply passive_seq; [|intros ?]
  | |- passive _ _ _ _ (Ret _) => try done
  | |- passive _ _ _ _ Panic => exact I
  | |- passive _ _ _ _ OutOfFuel => exact I
  | |- passive _ _ _ _ (sys _) => apply passive_sys; done
  | |- passive _ _ _ _ (mem_read _) => apply passive_read; done
  | |- passive _ _ _ _ (stat_add _ _) => apply passive_stat
  | |- passive _ _ _ _ (stat_bump _) => apply passive_stat
  | |- passive _ _ _ _ (loc_do _) => apply passive_loc; done
  | |- passive _ _ _ _ (let '(_, _) := ?x in _) => destruct x
  | |- passive _ _ _ _ (match ?x with _ => _ end) => destruct x
  | |- passive _ _ _ _ (if ?x then _ else _) => destruct x
  end.
Ltac passives := cbv zeta; repeat (passive1; cbn [fst snd]); auto with tame.

#[export] Hint Constants Opaque : tame.

(** One step into a tame program. *)
Ltac tame1 :=
  lazymatch goal with
  | |- tame _ _ _ _ (bind _ _) => apply tame_seq; [|intros ?]
  | |- tame _ _ _ _ (Ret _) => try done
  | |- tame _ _ _ _ Panic => exact I
  | |- tame _ _ _ _ OutOfFuel => exact I
  | |- tame _ _ _ _ (sys _) => apply tame_sys; done
  | |- tame _ _ _ _ (mem_read _) => apply tame_read; done
  | |- tame _ _ _ _ (mem_write _) => apply tame_write; intros ?; auto with tame; done
  | |- tame _ _ _ _ (mem_do _) => apply tame_do; intros ?; auto with tame; done
  | |- tame _ _ _ _ (stat_add _ _) => apply tame_stat
  | |- tame _ _ _ _ (stat_bump _) => apply tame_stat
  | |- tame _ _ _ _ (loc_do _) => apply tame_loc; done
  | |- tame _ _ _ _ (let '(_, _) := ?x in _) => destruct x
  | |- tame _ _ _ _ (match ?x with _ => _ end) => destruct x
  | |- tame _ _ _ _ (if ?x then _ else _) => destruct x
  end.
Ltac tames := cbv zeta; repeat (tame1; cbn [fst snd]); auto with tame.
