(* ===== verification/GuardOps.v ===== *)
(** * GuardOps: the operations that do without the lock

    What only reads the shared memory is passive; the lock-free operations on
    objects, and the futex calls, are tame. *)
From S2P Require Import Prelude Prog Config Region Kernel Lock Nodes WaitLists NodePool Policy Sweep Init Slots Objects Wait Interleave Guard GuardRules.

(** ** Passive operations *)
Section passive_ops.
Context `{!Config} (live : Z -> Prop) (me : Z) (errs : Prop).
Abbreviation pv T p := (passive live me errs T p) (only parsing).

Lemma passive_region : pv any region.
Proof. intros l Hl. split; [done|]. cbn. rewrite Hl. cbn. intros l' Hl'. split; [done|]. cbn. by rewrite Hl'. Qed.

Lemma passive_slot h : pv any (slot h).
Proof. unfold slot, ld_state, ld_generation. passives. Qed.
#[local] Hint Resolve passive_region passive_slot : tame.

Lemma passive_spin_budget : pv any spin_budget.
Proof.
  unfold spin_budget. destruct (_ =? 0); [done|]. apply passive_loc. intros l.
  unfold spin_budget_step. by destruct (0 <? _).
Qed.

Lemma passive_tail_budget want charge : pv any (tail_budget want charge).
Proof.
  unfold tail_budget. cbn zeta. destruct (_ =? 0); [done|].
  apply passive_seq; [by apply passive_sys|]. intros now. apply passive_loc. intros l.
  unfold tail_step. by destruct (l_tail_budget l).
Qed.
#[local] Hint Resolve passive_spin_budget passive_tail_budget : tame.

Lemma passive_is_locked i owner seq : pv any (is_locked i owner seq).
Proof. unfold is_locked, ld_w0, ld_obj_type, ld_d. passives. Qed.
#[local] Hint Resolve passive_is_locked : tame.

Lemma passive_spin_peek hs owner seqs all : pv any (spin_peek hs owner seqs all).
Proof.
  assert (forall i, pv any (any_locked i hs owner seqs)) as H1.
  { induction hs as [|h hs IH]; intros i; cbn [any_locked]; passives. }
  assert (forall i, pv any (all_locked i hs owner seqs)) as H2.
  { clear H1. induction hs as [|h hs IH]; intros i; cbn [all_locked]; passives. }
  unfold spin_peek. passives.
Qed.

Lemma passive_alert_fired alert : pv any (alert_fired alert).
Proof. unfold alert_fired, ld_w0. passives. Qed.
Lemma passive_alert_valid alert : pv any (alert_valid alert).
Proof. unfold alert_valid, ld_obj_type. passives. Qed.

Lemma passive_fast_objects hs : forall i seqs, pv any (fast_objects i hs seqs).
Proof. induction hs as [|h hs IH]; intros i seqs; cbn [fast_objects]; unfold ld_obj_type, ld_d; passives. Qed.

Lemma passive_validate hs nodes : forall i seqs, pv any (validate i hs nodes seqs).
Proof. induction hs as [|h hs IH]; intros i seqs; cbn [validate]; unfold ld_obj_type, ld_d; passives. Qed.

Lemma passive_park_slice head seq rem : pv any (park_slice head seq rem).
Proof.
  assert (forall n dl, pv any (tail_spin n head seq dl)) as H1.
  { induction n as [|n IH]; intros dl; cbn [tail_spin]; passives. }
  unfold park_slice, tail_budget_can, tail_budget_take. passives.
Qed.

Lemma passive_wake_latency head : pv any (wake_latency head).
Proof. unfold wake_latency, stat_max. passives. Qed.

Lemma passive_any_registered nodes : pv any (any_registered nodes).
Proof. induction nodes as [|n nodes IH]; cbn [any_registered]; passives. Qed.

Lemma passive_dump_objects hs owner : pv any (dump_objects hs owner).
Proof. induction hs as [|h hs IH]; cbn [dump_objects]; unfold ld_d, pid_alive; passives. Qed.
End passive_ops.

#[export] Hint Resolve passive_region passive_slot passive_spin_budget passive_tail_budget passive_is_locked passive_spin_peek
  passive_alert_fired passive_alert_valid passive_fast_objects passive_validate passive_park_slice passive_wake_latency
  passive_any_registered passive_dump_objects passive_tame : tame.

(** ** Tame operations *)
Section tame_ops.
Context `{!Config} (live : Z -> Prop) (me : Z) (errs : Prop).
Abbreviation tm T p := (tame live me errs T p) (only parsing).

Lemma same_cas i old new m : same_lists m (snd (cas_w0_step i old new m)).
Proof.
  unfold cas_w0_step. destruct (_ =? _); [|apply same_lists_refl]. cbn [snd].
  split; intros *; region_simpl; try done. by destruct (decide (i = i0)) as [<-|].
Qed.
#[local] Hint Resolve same_cas : tame.

Lemma tame_cas i old new : tm any (cas64 i old new).
Proof. unfold cas64. tames. Qed.
#[local] Hint Resolve tame_cas : tame.

Lemma tame_typed_slot ty h : tm any (typed_slot ty h).
Proof. unfold typed_slot, ld_obj_type. tames. Qed.

Lemma tame_acquire_sem fuel i : tm any (acquire_sem fuel i).
Proof. induction fuel as [|fuel IH]; cbn [acquire_sem]; unfold ld_w0; tames. Qed.
Lemma tame_acquire_mutex fuel i owner : tm any (acquire_mutex fuel i owner).
Proof. induction fuel as [|fuel IH]; cbn [acquire_mutex]; unfold ld_w0; tames. Qed.
Lemma tame_claim_event fuel i : tm any (claim_event fuel i).
Proof. induction fuel as [|fuel IH]; cbn [claim_event]; unfold ld_w0; tames. Qed.
#[local] Hint Resolve tame_typed_slot tame_acquire_sem tame_acquire_mutex tame_claim_event : tame.

Lemma tame_try_acquire i owner seq : tm any (try_acquire i owner seq).
Proof. unfold try_acquire, acquire_event, pulse_check, ld_obj_type, ld_w0, ld_d. tames. Qed.

Lemma tame_rollback_acquire i owner od : tm any (rollback_acquire i owner od).
Proof.
  assert (forall n, tm any (rollback_sem n i)) as H1 by (induction n as [|n IH]; cbn [rollback_sem]; unfold ld_w0; tames).
  assert (forall n, tm any (rollback_mutex n i owner od)) as H2 by (induction n as [|n IH]; cbn [rollback_mutex]; unfold ld_w0; tames).
  assert (forall n, tm any (rollback_event n i)) as H3 by (induction n as [|n IH]; cbn [rollback_event]; unfold ld_w0; tames).
  unfold rollback_acquire, ld_obj_type. tames.
Qed.
#[local] Hint Resolve tame_try_acquire tame_rollback_acquire : tame.

Lemma tame_rollback_all l owner : tm any (rollback_all l owner).
Proof. induction l as [|[i od] l IH]; cbn [rollback_all]; tames. Qed.
#[local] Hint Resolve tame_rollback_all : tame.

Lemma tame_try_satisfy hs owner seqs all : tm any (try_satisfy hs owner seqs all).
Proof.
  unfold try_satisfy. destruct all; cbn [negb].
  - generalize 0%nat, (@nil (Z * bool)), false. induction hs as [|h hs IH]; intros i l od; cbn [satisfy_all]; tames.
  - generalize 0%nat. induction hs as [|h hs IH]; intros i; cbn [satisfy_any]; tames.
Qed.
#[local] Hint Resolve tame_try_satisfy : tame.

Lemma tame_fast_path hs owner tmo all alert : tm any (fast_path hs owner tmo all alert).
Proof. unfold fast_path. tames. Qed.

Lemma tame_futex_wait n e tmo : tm any (futex_wait n e tmo).
Proof. unfold futex_wait. tames. Qed.

Lemma same_seq n f m : (forall x, list_node (f x) = list_node x) -> same_lists m (upd_node n f m).
Proof. intros Hf. split; intros *; region_simpl; try done. by destruct (decide (n = n0)) as [<-|]. Qed.

Lemma tame_wake_node word : tm any (wake_node word).
Proof.
  assert (forall v m, same_lists m (upd_node word (set_wake_ts v) m)) as H1 by (intros; by apply same_seq).
  assert (forall m, same_lists m (upd_node word (fun n => set_seq (wrap32 (n_seq n + 1)) n) m)) as H2
    by (intros; by apply same_seq).
  unfold wake_node, futex_wake. tames.
Qed.
End tame_ops.

#[export] Hint Resolve same_cas tame_cas tame_typed_slot tame_try_acquire tame_rollback_acquire tame_try_satisfy
  tame_fast_path tame_futex_wait tame_wake_node : tame.
