(* ===== verification/GuardLists.v ===== *)
(** * GuardLists: the lists under the lock *)
From S2P Require Import Prelude Prog Config Region Kernel Lock Nodes WaitLists NodePool Policy Sweep Init Slots Objects Wait SlotsOk Interleave Guard GuardRules GuardOps.

(** Like [rest] and [owns], except that the free slots in [X] may still have
    waiters. *)
Definition tidy (me : Z) (X : Z -> Prop) (N : list Z) (m : Region) : Prop :=
  exists L F, pool_ok m L F /\ (forall i, ~ X i -> s_state (slot_ptr m i) = SLOT_FREE -> L i = []) /\
    NoDup N /\ forall n, n ∈ N -> owned m F n /\ n_pid (node_ptr m n) = me.

Definition none (i : Z) : Prop := False.

Lemma tidy_rest me N m : tidy me none N m <-> rest m /\ owns me N m.
Proof.
  split.
  - intros (L & F & H1 & H2 & H3 & H4). split; [|by exists L, F]. exists L, F. split; [done|]. intros i. apply H2. tauto.
  - intros [(L & F & H1 & H2) (L' & F' & H1' & H3 & H4)]. exists L, F.
    rewrite (pool_free_unique _ _ _ _ _ H1 H1'). split_and!; [|by auto..].
    by rewrite <- (pool_free_unique _ _ _ _ _ H1 H1').
Qed.

Lemma tidy_same me X N m m' : same_lists m m' -> tidy me X N m -> tidy me X N m'.
Proof.
  intros Hs (L & F & H1 & H2 & H3 & H4). exists L, F. split; [by eapply same_lists_pool|].
  split; [|split; [done|]].
  - intros i. destruct (same_slot _ _ Hs i) as (->&_). apply H2.
  - intros n Hn. destruct (H4 n Hn) as [Ho Hp]. split; [by eapply same_owned|].
    by destruct (same_node _ _ Hs n) as (_&_&_&_&_&->).
Qed.

Lemma tidy_more me (X X' : Z -> Prop) N m : (forall i, X i -> X' i) -> tidy me X N m -> tidy me X' N m.
Proof. intros HX (L & F & H1 & H2 & H3). exists L, F. split; [done|]. split; [|done]. intros i Hi. apply H2. auto. Qed.

Lemma tidy_owns me X N m : tidy me X N m -> owns me N m.
Proof. intros (L & F & H1 & _ & H3 & H4). by exists L, F. Qed.

(** What list surgery never touches. *)
Definition surgery (m m' : Region) : Prop :=
  (forall i, s_state (slot_ptr m' i) = s_state (slot_ptr m i)) /\
  (forall n, n_pid (node_ptr m' n) = n_pid (node_ptr m n)) /\
  h_node_fresh (header m') = h_node_fresh (header m).

Lemma surgery_trans m1 m2 m3 : surgery m1 m2 -> surgery m2 m3 -> surgery m1 m3.
Proof. intros (A & B & C) (A' & B' & C'). split_and!; intros *; congruence. Qed.

Lemma surgery_node idx f m : (forall n, n_pid (f n) = n_pid n) -> surgery m (upd_node idx f m).
Proof. intros Hf. split_and!; [done| |done]. intros n. region_simpl. destruct (decide (idx = n)) as [<-|]; [apply Hf|done]. Qed.

Lemma surgery_slot i f m : (forall s, s_state (f s) = s_state s) -> surgery m (upd_slot i f m).
Proof. intros Hf. split_and!; [|done..]. intros j. region_simpl. destruct (decide (i = j)) as [<-|]; [apply Hf|done]. Qed.

Lemma surgery_header f m : h_node_fresh (f (header m)) = h_node_fresh (header m) -> surgery m (upd_header f m).
Proof. intros Hf. by split_and!. Qed.

Lemma surgery_detach idx m : surgery m (node_detach idx m).
Proof.
  unfold node_detach. destruct (_ =? 0); [by split_and!|]. cbv zeta. eapply surgery_trans; [|by apply surgery_node].
  destruct (negb _); [eapply surgery_trans; [|by apply surgery_node]|].
  all: destruct (_ =? NIL); [by apply surgery_slot|by apply surgery_node].
Qed.

Lemma surgery_register idx obj ww m : surgery m (node_register idx obj ww m).
Proof.
  unfold node_register. cbv zeta. eapply surgery_trans; [|by apply surgery_slot].
  destruct (negb _); [eapply surgery_trans; [|by apply surgery_node]|]; by apply surgery_node.
Qed.

Lemma surgery_free idx m : surgery m (node_free idx m).
Proof.
  unfold node_free. eapply surgery_trans; [|by apply surgery_header]. by apply surgery_node.
Qed.

Lemma surgery_foldl (f : Z -> Region -> Region) nodes : (forall n m, surgery m (f n m)) ->
  forall m, surgery m (foldl (fun r n => f n r) m nodes).
Proof.
  intros Hf. induction nodes as [|n nodes IH]; intros m; cbn [foldl]; [by split_and!|].
  eapply surgery_trans; [apply Hf|apply IH].
Qed.

Lemma surgery_cleanup nodes m : surgery m (waiter_cleanup nodes m).
Proof. eapply surgery_trans; [apply surgery_foldl, surgery_detach|apply surgery_foldl, surgery_free]. Qed.

Section steps.
Context (live : Z -> Prop) (me : Z) (errs : Prop) (Hme : live me).
Abbreviation gd Q p b N m := (guarded live me errs Q p b N m) (only parsing).

(** A step that leaves the free list and the processes of others' nodes alone. *)
Lemma holder_step_same N m m' L L' F :
  pool_ok m L F -> pool_ok m' L' F -> h_node_fresh (header m') = h_node_fresh (header m) ->
  (forall n, n ∉ N -> n_pid (node_ptr m' n) = n_pid (node_ptr m n)) -> (forall n, n ∈ N -> owned m F n) ->
  holder_step live N N m m'.
Proof.
  intros HP HP' Hf Hp Ho. assert (forall n, owned m' F n <-> owned m F n) as E.
  { intros n. unfold owned. by rewrite Hf. }
  exists L, F, L', F. split_and!; [done..| | |].
  - intros n Hn H _. rewrite E. split; [done|by apply Hp].
  - intros n Hn. rewrite E. split; [by apply Ho|by left].
  - intros n Hn%E. destruct (decide (n ∈ N)); [by left|by right].
Qed.

(** A write under the lock: [P] before, [P'] after, neither of which looks at
    words. *)
Lemma guarded_write (P P' : list Z -> Region -> Prop) f N m :
  (forall N m m', same_lists m m' -> P N m -> P N m') -> (forall N m m', same_lists m m' -> P' N m -> P' N m') ->
  (forall m1, P N m1 -> exists N', holder_step live N N' m1 (f m1) /\ P' N' (f m1)) -> P N m ->
  gd (fun b N' _ m' => b = true /\ P' N' m') (mem_write f) true N m.
Proof.
  intros HP HP' Hf Hm m1 H1. destruct (Hf m1 (HP _ _ _ H1 Hm)) as (N' & Hs & Hm').
  exists N'. split; [done|]. intros m2 H2. split; [done|]. by eapply HP'.
Qed.

(** ** Removing and registering *)
Lemma detach_step X N m idx : tidy me X N m ->
  holder_step live N N m (node_detach idx m) /\ tidy me X N (node_detach idx m).
Proof.
  intros (L & F & HP & Hfr & Hnd & Ho). pose proof (detach_pool_ok m L F idx HP) as HP'.
  destruct (surgery_detach idx m) as (Hst & Hpid & Hf). split.
  - eapply holder_step_same; [exact HP|exact HP'|done..|]. intros n Hn. by apply Ho.
  - exists (fun i => without idx (L i)), F. split; [done|]. split; [|split; [done|]].
    + intros i Hi. rewrite Hst. intros Hfree. by rewrite Hfr.
    + intros n Hn. rewrite Hpid. unfold owned. rewrite Hf. by apply Ho.
Qed.

Lemma register_step N m idx obj ww :
  tidy me none N m -> idx ∈ N -> n_registered (node_ptr m idx) = 0 -> s_state (slot_ptr m obj) = SLOT_USED ->
  holder_step live N N m (node_register idx obj ww m) /\ tidy me none N (node_register idx obj ww m).
Proof.
  intros (L & F & HP & Hfr & Hnd & Ho) Hin Hreg Hu.
  pose proof (register_pool_ok m L F idx obj ww HP Hreg (proj1 (Ho _ Hin)) Hu) as HP'.
  destruct (surgery_register idx obj ww m) as (Hst & Hpid & Hf). split.
  - eapply holder_step_same; [exact HP|exact HP'|done..|]. intros n Hn. by apply Ho.
  - exists (push obj idx L), F. split; [done|]. split; [|split; [done|]].
    + intros i Hi. rewrite Hst. unfold push. destruct (decide (i = obj)) as [->|]; [by rewrite Hu|by apply Hfr].
    + intros n Hn. rewrite Hpid. unfold owned. rewrite Hf. by apply Ho.
Qed.
End steps.

(** ** Allocation and clean-up *)

Section pool_steps.
Context (live : Z -> Prop) (me : Z).

Lemma cleanup_step nodes N m : tidy me none (nodes ++ N) m ->
  holder_step live (nodes ++ N) N m (waiter_cleanup nodes m) /\ tidy me none N (waiter_cleanup nodes m).
Proof.
  intros (L & F & HP & Hfr & (Hnd1 & Hd & Hnd2)%NoDup_app & Ho).
  destruct (surgery_cleanup nodes m) as (Hst & Hpid & Hfresh).
  assert (pool_ok (waiter_cleanup nodes m) (without_all nodes L) (rev nodes ++ F)) as HP'.
  { apply waiter_cleanup_ok; [done|done|]. intros n Hn. apply Ho. set_solver. }
  assert (forall n, owned (waiter_cleanup nodes m) (rev nodes ++ F) n <-> (n ∉ nodes) /\ owned m F n) as E.
  { intros n. unfold owned. rewrite Hfresh, elem_of_app, (list_elem_of_In (rev nodes)), <- in_rev, <- list_elem_of_In. tauto. }
  split.
  - exists L, F, (without_all nodes L), (rev nodes ++ F). split_and!; [done..| | |].
    + intros n Hn H _. rewrite E. set_solver.
    + intros n Hn. rewrite E. split; [|left; set_solver]. split; [intros ?; by apply (Hd n)|apply Ho; set_solver].
    + intros n [H1 H2]%E. destruct (decide (n ∈ N)); [by left|right; set_solver].
  - exists (without_all nodes L), (rev nodes ++ F). split; [done|]. split; [|split; [done|]].
    + intros i Hi. rewrite Hst. intros Hf. unfold without_all. rewrite Hfr by done.
      clear. induction nodes as [|n ns IH]; cbn; [done|exact IH].
    + intros n Hn. rewrite E, Hpid. split; [split; [intros ?; by apply (Hd n)|]|]; apply Ho; set_solver.
Qed.

Lemma pop_step N m n m' : tidy me none N m -> node_pop m = (Some n, m') ->
  holder_step live N (n :: N) m m' /\ (n ∉ N) /\ n_registered (node_ptr m' n) = 0 /\
  (forall i, slot_ptr m' i = slot_ptr m i) /\ (forall k, node_ptr m' k = node_ptr m k) /\
  exists L F, pool_ok m' L F /\ (forall i, s_state (slot_ptr m' i) = SLOT_FREE -> L i = []) /\
    owned m' F n /\ forall k, k ∈ N -> owned m' F k /\ n_pid (node_ptr m' k) = me.
Proof.
  intros (L & F & HP & Hfr & Hnd & Ho) E.
  destruct (pop_owned _ _ _ _ _ HP E) as (F' & HP' & Hreg & Hslots & Hnodes & Hno & Hn & Hoth & Hback & _).
  split_and!; [|intros Hin; by apply Hno, Ho|done..|].
  - exists L, F, L, F'. split_and!; [done..| | |].
    + intros k _ Hk _. rewrite Hnodes. split; [by apply Hoth|done].
    + intros k [->|Hk]%elem_of_cons; [by split; [|right]|]. split; [by apply Hoth, Ho|by left].
    + intros k Hk. destruct (Hback k Hk) as [->|Hk']; [left; set_solver|].
      destruct (decide (k ∈ N)); [left; set_solver|by right].
  - exists L, F'. split_and!; [done| |done|].
    + intros i. rewrite Hslots. apply Hfr. by intros [].
    + intros k Hk. rewrite Hnodes. split; [by apply Hoth, Ho|by apply Ho].
Qed.
End pool_steps.

(** ** [node_alloc] *)
Section alloc.
Context `{!Config} (live : Z -> Prop) (me : Z) (errs : Prop) (Hme : live me).
Abbreviation gd Q p b N m := (guarded live me errs Q p b N m) (only parsing).

(** The objects that these handles name are in use. *)
Definition used (hs : list Z) (m : Region) : Prop :=
  forall h, h ∈ hs -> s_state (slot_ptr m (handle_index h)) = SLOT_USED.

Lemma used_same hs m m' : same_lists m m' -> used hs m -> used hs m'.
Proof. intros Hs Hu h Hh. destruct (same_slot _ _ Hs (handle_index h)) as (->&_). by apply Hu. Qed.

Lemma used_surgery hs m m' : surgery m m' -> used hs m -> used hs m'.
Proof. intros (Hst & _) Hu h Hh. rewrite Hst. by apply Hu. Qed.

(** Between the pop and the return: [n] is the thread's, but not yet marked. *)
Definition popped (n : Z) (hs N N' : list Z) (m : Region) : Prop :=
  exists L F, pool_ok m L F /\ (forall i, s_state (slot_ptr m i) = SLOT_FREE -> L i = []) /\
    NoDup N' /\ N' ≡ₚ n :: N /\ owned m F n /\ n_registered (node_ptr m n) = 0 /\
    (forall k, k ∈ N -> owned m F k /\ n_pid (node_ptr m k) = me) /\ used hs m.

Lemma popped_same n hs N N' m m' : same_lists m m' -> popped n hs N N' m -> popped n hs N N' m'.
Proof.
  intros Hs (L & F & H1 & H2 & H3 & H4 & H5 & H6 & H7 & H8). exists L, F. split; [by eapply same_lists_pool|].
  split_and!; [|done|done|by eapply same_owned| | |by eapply used_same].
  - intros i. destruct (same_slot _ _ Hs i) as (->&_). apply H2.
  - by destruct (same_node _ _ Hs n) as (->&_).
  - intros k Hk. destruct (H7 k Hk) as [Ho Hp]. split; [by eapply same_owned|].
    by destruct (same_node _ _ Hs k) as (_&_&_&_&_&->).
Qed.

(** A write to the popped node. *)
Lemma popped_write n hs N N' f m :
  n ∉ N -> (forall x, n_registered x = 0 -> n_registered (f x) = 0) -> popped n hs N N' m ->
  holder_step live N' N' m (upd_node n f m) /\ popped n hs N N' (upd_node n f m) /\
  n_pid (node_ptr (upd_node n f m) n) = n_pid (f (node_ptr m n)).
Proof.
  intros HnN Hf (L & F & HP & Hfr & Hnd & Hperm & Ho & Hreg & HN & Hu).
  assert (pool_ok (upd_node n f m) L F) as HP' by (apply upd_mine_pool_ok; auto).
  split; [|split].
  - eapply holder_step_same; [exact HP|exact HP'|done| |].
    + intros k Hk. region_simpl. rewrite decide_False; [done|]. intros ->. apply Hk. rewrite Hperm. set_solver.
    + intros k. rewrite Hperm. intros [->|Hk]%elem_of_cons; [done|by apply HN].
  - exists L, F. split_and!; [done..| | |done].
    + region_simpl. rewrite decide_True by done. by apply Hf.
    + intros k Hk. region_simpl. rewrite decide_False by (by intros ->). by apply HN.
  - region_simpl. by rewrite decide_True.
Qed.

Lemma holder_step_perm N N' N'' m m' : N' ≡ₚ N'' -> holder_step live N N' m m' -> holder_step live N N'' m m'.
Proof.
  intros Hp (L & F & L' & F' & H1 & H2 & H3 & H4 & H5). exists L, F, L', F'.
  split_and!; [done..| |]; intros n; rewrite <- Hp; auto.
Qed.

Lemma guarded_node_alloc put hs N m : (forall n, put n ≡ₚ n :: N) -> tidy me none N m -> used hs m ->
  gd (fun b N' r m' => b = true /\ tidy me none N' m' /\ used hs m' /\
    match r with Some n => N' = put n | None => N' = N end) node_alloc true N m.
Proof.
  intros Hput Ht Hu. unfold node_alloc.
  eapply (guarded_bind live me errs (fun b N' r m' => b = true /\
    match r with Some n => N' = put n /\ (n ∉ N) /\ popped n hs N N' m'
    | None => N' = N /\ tidy me none N m' /\ used hs m' end)).
  2: { intros m1 H1. pose proof (tidy_same _ _ _ _ _ H1 Ht) as Ht1. pose proof (used_same _ _ _ H1 Hu) as Hu1.
    destruct (node_pop m1) as [[n|] r1] eqn:E; cbn [fst snd].
    - destruct (pop_step live me N m1 n r1 Ht1 E) as (Hs & Hn & Hreg & Hsl & Hnodes & L & F & HP & Hfr & Ho & HN).
      exists (put n). split; [eapply holder_step_perm; [symmetry; apply Hput|exact Hs]|]. intros m2 H2. split_and!; [done..|].
      eapply popped_same; [exact H2|]. exists L, F. split_and!; try done.
      + rewrite Hput. apply NoDup_cons. split; [done|]. by destruct Ht as (? & ? & _ & _ & ? & _).
      + intros h Hh. rewrite Hsl. by apply Hu1.
    - assert (r1 = m1) as ->.
      { destruct Ht1 as (L & F & HP & _). by destruct (node_pop_none _ _ _ _ HP E) as (-> & _). }
      exists N. split; [eapply same_holder_step; [apply same_lists_refl|by eapply tidy_owns]|].
      intros m2 H2. split_and!; [done..|by eapply tidy_same|by eapply used_same]. }
  intros ? N' [n|] m1 (-> & Hm1).
  2: { destruct Hm1 as (-> & Ht1 & Hu1). intros m2 H2. split_and!; [done|by eapply tidy_same|by eapply used_same|done]. }
  destruct Hm1 as (-> & HnN & Hp). intros m2 H2. pose proof (popped_same _ _ _ _ _ _ H2 Hp) as Hp2.
  destruct (popped_write n hs N (put n) node_reset m2 HnN) as (Hs3 & Hp3 & _); [done|done|].
  exists (put n). split; [exact Hs3|]. cbn [fst snd]. intros pid ->.
  intros m4 H4. pose proof (popped_same _ _ _ _ _ _ H4 Hp3) as Hp4.
  destruct (popped_write n hs N (put n) (set_npid me) m4 HnN) as (Hs5 & Hp5 & Hpid); [done|done|].
  exists (put n). split; [exact Hs5|]. cbn [fst snd].
  assert (tidy me none (put n) (upd_node n (set_npid me) m4) /\ used hs (upd_node n (set_npid me) m4)) as [Ht5 Hu5].
  { destruct Hp5 as (L & F & HP & Hfr & Hnd & Hperm & Ho & _ & HN & Hu5). split; [|done].
    exists L, F. split_and!; [done|by auto|done|]. intros k. rewrite Hperm.
    intros [->|Hk]%elem_of_cons; [by split|by apply HN]. }
  intros m6 H6. split_and!; [done|by eapply tidy_same|by eapply used_same|done].
Qed.
End alloc.

(** ** Programs under the lock *)
Section held_programs.
Context `{!Config} (live : Z -> Prop) (me : Z) (errs : Prop) (Hme : live me).
Abbreviation gd Q p b N m := (guarded live me errs Q p b N m) (only parsing).
Abbreviation hd_ T p := (held live me errs T p) (only parsing).

Lemma guarded_read {A B} (Q : bool -> list Z -> B -> Region -> Prop) (f : Region -> A) (k : A -> action B) b N m :
  (b = true -> owns me N m) -> (forall m1, others_do live b N m m1 -> gd Q (k (f m1)) b N m1) ->
  gd Q (bind (mem_read f) k) b N m.
Proof.
  intros Hb Hk m1 H1. exists N. cbn. split; [|by apply Hk]. destruct b; cbn [own_step]; [|split; [done|apply same_lists_refl]].
  eapply same_holder_step; [apply same_lists_refl|]. eapply owns_same; [exact H1|auto].
Qed.

Lemma held_write (f : Region -> Region) :
  (forall N m, tidy me none N m -> holder_step live N N m (f m) /\ tidy me none N (f m)) -> hd_ any (mem_write f).
Proof.
  intros Hf N m Hr Hm m1 H1. assert (tidy me none N m1) as Ht.
  { eapply tidy_same; [exact H1|]. by apply tidy_rest. }
  destruct (Hf N m1 Ht) as [Hs Ht']. exists N. split; [done|]. intros m2 H2.
  destruct (proj1 (tidy_rest _ _ _) (tidy_same _ _ _ _ _ H2 Ht')). by split_and!.
Qed.

Lemma held_detach idx : hd_ any (mem_write (node_detach idx)).
Proof. apply held_write. intros N m. apply detach_step. Qed.

Lemma held_wake_loop fuel : forall idx, hd_ any (wake_loop fuel idx).
Proof.
  induction fuel as [|fuel IH]; intros idx; cbn [wake_loop]; [done|].
  destruct (idx =? NIL); [by apply held_tame|].
  apply held_seq; [by apply held_tame, tame_read|]. intros nw. apply held_seq; [apply held_detach|].
  intros _. apply held_seq; [apply held_tame; tames|]. auto.
Qed.

Lemma held_wake_object i : hd_ any (wake_object i).
Proof. apply held_seq; [by apply held_tame, tame_read|]. intros. apply held_wake_loop. Qed.

Lemma keeps_wake_waiters i : keeps live me errs any (wake_waiters_if_any i).
Proof.
  unfold wake_waiters_if_any, ld_waiter_head. apply keeps_seq; [by apply keeps_tame, tame_read|]. intros hd.
  destruct (hd =? NIL); [by apply keeps_tame|]. apply keeps_seq; [apply keeps_tame; tames|]. intros _.
  apply keeps_if_lock; [done|]. apply held_wake_object.
Qed.

(** Waking an object that is being closed leaves it without waiters. *)
Definition emptying (N : list Z) (i : Z) (l : list Z) (m : Region) : Prop :=
  exists L F, pool_ok m L F /\ L i = l /\ (forall j, j <> i -> s_state (slot_ptr m j) = SLOT_FREE -> L j = []) /\
    NoDup N /\ forall n, n ∈ N -> owned m F n /\ n_pid (node_ptr m n) = me.

Lemma emptying_same N i l m m' : same_lists m m' -> emptying N i l m -> emptying N i l m'.
Proof.
  intros Hs (L & F & H1 & H2 & H3 & H4 & H5). exists L, F. split; [by eapply same_lists_pool|].
  split_and!; [done| |done|].
  - intros j. destruct (same_slot _ _ Hs j) as (->&_). apply H3.
  - intros n Hn. destruct (H5 n Hn) as [Ho Hp]. split; [by eapply same_owned|].
    by destruct (same_node _ _ Hs n) as (_&_&_&_&_&->).
Qed.

Lemma emptying_owns N i l m : emptying N i l m -> owns me N m.
Proof. intros (L & F & H1 & _ & _ & H4). by exists L, F. Qed.

Lemma emptying_done N i m : emptying N i [] m -> tidy me none N m.
Proof.
  intros (L & F & H1 & H2 & H3 & H4). exists L, F. split; [done|]. split; [|done]. intros j _.
  destruct (decide (j = i)) as [->|]; [done|by apply H3].
Qed.

Lemma emptying_detach N i n l m : emptying N i (n :: l) m ->
  holder_step live N N m (node_detach n m) /\ emptying N i l (node_detach n m).
Proof.
  intros (L & F & HP & HL & Hfr & Hnd & Ho). pose proof (detach_pool_ok m L F n HP) as HP'.
  destruct (surgery_detach n m) as (Hst & Hpid & Hf). split.
  - eapply holder_step_same; [exact HP|exact HP'|done..|]. intros k Hk. by apply Ho.
  - exists (fun i => without n (L i)), F. split; [done|]. split_and!; [| |done|].
    + rewrite HL. pose proof (lo_nodup _ _ (po_lists _ _ _ HP) i) as Hn. rewrite HL in Hn.
      apply NoDup_cons in Hn as [Hn _]. unfold without. rewrite filter_cons_False by tauto. by apply without_notin.
    + intros j Hj. rewrite Hst. intros Hfree. by rewrite Hfr.
    + intros k Hk. rewrite Hpid. unfold owned. rewrite Hf. by apply Ho.
Qed.

Lemma guarded_wake_empties fuel i N : forall l m, emptying N i l m ->
  gd (fun b N' _ m' => b = true /\ N' = N /\ tidy me none N m') (wake_loop fuel (hd NIL l)) true N m.
Proof.
  induction fuel as [|fuel IH]; intros [|n l] m Hm; cbn [wake_loop hd]; try done.
  - intros m1 H1. split_and!; [done..|]. eapply tidy_same; [exact H1|by eapply emptying_done].
  - destruct (Z.eqb_spec n NIL) as [->|_].
    { destruct Hm as (L & F & HP & HL & _). exfalso. apply (lists_ok_nil m L i NIL (po_lists _ _ _ HP)); [|done].
      rewrite HL. set_solver. }
    apply guarded_read; [intros _; by eapply emptying_owns|]. intros m1 H1.
    apply (emptying_same _ _ _ _ _ H1) in Hm. cbn [fst snd].
    assert (n_obj_next (node_ptr m1 n) = hd NIL l) as ->.
    { destruct Hm as (L & F & HP & HL & _). pose proof (lo_seg _ _ (po_lists _ _ _ HP) i) as Hseg.
      rewrite HL in Hseg. apply Hseg. }
    eapply guarded_bind; [|apply (guarded_write live me errs (fun N' m => N' = N /\ emptying N i (n :: l) m)
      (fun N' m => N' = N /\ emptying N i l m)); [| | |by split]].
    + intros ? ? ? m2 (-> & -> & Hm2). eapply guarded_bind; [|apply tame_guarded; [done|apply tame_wake_node|]].
      * intros ? ? ? m3 (-> & -> & _ & H3). apply IH. by eapply emptying_same.
      * intros _. by eapply emptying_owns.
    + intros N' m2 m3 H3 [-> ?]. split; [done|by eapply emptying_same].
    + intros N' m2 m3 H3 [-> ?]. split; [done|by eapply emptying_same].
    + intros m2 [_ Hm2]. exists N. destruct (emptying_detach N i n l m2 Hm2). by split_and!.
Qed.
End held_programs.
