(* ===== verification/GuardSlots.v ===== *)
(** * GuardSlots: the slot table and the sweep under the lock

    Reaping, the two sweeps, creation, closing, the holders and the pulse. *)
From S2P Require Import Prelude Prog Config Region Kernel Lock Nodes WaitLists NodePool Policy Sweep Init Slots Objects Wait SlotsOk Interleave Guard GuardRules GuardOps GuardLists.

Section slots.
Context `{!Config} (live : Z -> Prop) (me : Z) (errs : Prop) (Hme : live me) (Hzero : ~ live 0).
Abbreviation gd Q p b N m := (guarded live me errs Q p b N m) (only parsing).
Abbreviation hd_ T p := (held live me errs T p) (only parsing).
Abbreviation pv T p := (passive live me errs T p) (only parsing).

(** ** Verdicts: nobody alive is taken for dead *)
Definition cache_true (c : PidCache) : Prop :=
  forall n p, pc_pid c !! n = Some p -> pc_alive c !! n = Some false -> ~ live p.

Definition verdict_true (pid : Z) (r : bool * PidCache) : Prop :=
  (fst r = false -> ~ live pid) /\ cache_true (snd r).

Lemma cache_new_true : cache_true cache_new.
Proof.
  intros n p Hp%list_elem_of_lookup_2 _. unfold cache_new in Hp. cbn in Hp.
  repeat (apply elem_of_cons in Hp as [->|Hp]; [done|]). by apply elem_of_nil in Hp.
Qed.

Lemma cache_find_true pid pids : forall alives,
  (forall n p, pids !! n = Some p -> alives !! n = Some false -> ~ live p) ->
  cache_find pid pids alives = Some false -> ~ live pid.
Proof.
  induction pids as [|p pids IH]; intros [|x alives] Hr; simpl; try done.
  destruct (Z.eqb_spec p pid) as [->|Hne].
  - intros [= ->]. by apply (Hr 0%nat).
  - apply IH. intros n q. apply (Hr (S n)).
Qed.

Lemma cache_put_true pid a c : (a = false -> ~ live pid) -> cache_true c -> cache_true (cache_put pid a c).
Proof.
  intros Ha Hr n p. unfold cache_put. cbn [pc_pid pc_alive].
  destruct (decide (n = Z.to_nat (pc_next c))) as [->|Hne].
  - intros [[_ [<- _]]|[[] _]]%list_lookup_insert_Some; [|done].
    intros [[_ [-> _]]|[[] _]]%list_lookup_insert_Some; auto.
  - rewrite !list_lookup_insert_ne by done. apply Hr.
Qed.

Lemma passive_pid_alive pid : pv (fun a => a = false -> ~ live pid) (pid_alive pid).
Proof.
  unfold pid_alive. destruct (Z.eqb_spec pid 0) as [->|_]; [exact (fun _ => Hzero)|]. cbn. split; [done|].
  intros z Hz Hf. apply negb_false_iff, andb_true_iff in Hf as [_ ->%Z.eqb_eq]. intros Hl. by apply (Hz eq_refl pid).
Qed.

Lemma passive_cache_alive pid c : cache_true c -> pv (verdict_true pid) (cache_alive pid c).
Proof.
  intros Hc. unfold cache_alive. destruct (Z.eqb_spec pid 0) as [->|_]; [by split|].
  destruct (cache_find _ _ _) as [a|] eqn:E.
  - split; [|done]. cbn. intros ->. by eapply cache_find_true.
  - eapply passive_bind; [apply passive_pid_alive|]. intros a Ha. split; [done|by apply cache_put_true].
Qed.

Lemma passive_any_alive hs : forall c, cache_true c -> pv (fun r => cache_true (snd r)) (any_alive hs c).
Proof.
  induction hs as [|h hs IH]; intros c Hc; cbn [any_alive]; [done|]. destruct (h =? 0); [auto|].
  eapply passive_bind; [by apply passive_cache_alive|]. intros [[] c'] [_ Hc']; cbn [fst snd] in *; [done|by apply IH].
Qed.

(** The holders can only save a candidate. *)
Lemma passive_cand_alive c cache : cache_true cache -> pv (verdict_true (c_pid c)) (cand_alive c cache).
Proof.
  intros Hc. unfold cand_alive. eapply passive_bind; [by apply passive_cache_alive|].
  intros [[] c'] [Hv Hc']; cbn [fst snd] in *; [done|].
  eapply passive_mono; [|by apply passive_any_alive]. intros r Hr. split; [|done]. intros _. by apply Hv.
Qed.

Definition verdicts_true (cands : list DeadCand) (r : list bool * PidCache) : Prop :=
  (forall n c, cands !! n = Some c -> fst r !! n = Some false -> ~ live (c_pid c)) /\ cache_true (snd r).

Lemma passive_verdicts cands : forall cache, cache_true cache -> pv (verdicts_true cands) (verdicts cands cache).
Proof.
  induction cands as [|c cands IH]; intros cache Hc; cbn [verdicts]; [by split|].
  eapply passive_bind; [by apply passive_cand_alive|]. intros [a c1] [Ha Hc1]. cbn [fst snd] in *.
  eapply passive_bind; [by apply IH|]. intros [vs c2] [Hv Hc2]. cbn [fst snd] in *. split; [|done].
  intros [|n] d; cbn; [by intros [= <-] [= ->]; apply Ha|apply Hv].
Qed.

(** ** Reaping *)
(** A registered node that is unlinked and freed. *)
Lemma reaped_pool m L F i : pool_ok m L F -> n_registered (node_ptr m i) <> 0 ->
  pool_ok (node_free i (node_detach i m)) (fun j => without i (L j)) (i :: F) /\
  forall n, owned (node_free i (node_detach i m)) (i :: F) n <-> n <> i /\ owned m F n.
Proof.
  intros HP Hreg. pose proof (detach_pool_ok m L F i HP) as HP1. destruct (surgery_detach i m) as (_ & _ & Hf1).
  destruct (surgery_free i (node_detach i m)) as (_ & _ & Hf2). split.
  - apply node_free_pool_ok; [done| |].
    + unfold owned. rewrite Hf1. pose proof (lo_cov _ _ (po_lists _ _ _ HP) i Hreg) as Hin. split.
      * by apply (lo_range _ _ (po_lists _ _ _ HP) _ _ Hin).
      * intros HF. by destruct (po_free _ _ _ HP i HF).
    + destruct (detach_waiter_next m L i i (po_lists _ _ _ HP)) as (_&_&_&->). by rewrite decide_True.
  - intros n. unfold owned. rewrite Hf2, Hf1, not_elem_of_cons. tauto.
Qed.

Lemma reap_node_step N m c : tidy me none N m -> ~ live (c_pid c) ->
  holder_step live N N m (reap_node c m) /\ tidy me none N (reap_node c m).
Proof.
  intros Ht Hdead. unfold reap_node.
  destruct (Z.eqb_spec (n_registered (node_ptr m (c_index c))) 0) as [_|Hreg]; cbn [negb andb].
  { split; [|done]. eapply same_holder_step; [apply same_lists_refl|by eapply tidy_owns]. }
  destruct (Z.eqb_spec (n_pid (node_ptr m (c_index c))) (c_pid c)) as [Hpid|_].
  2: { split; [|done]. eapply same_holder_step; [apply same_lists_refl|by eapply tidy_owns]. }
  set (i := c_index c) in *. destruct Ht as (L & F & HP & Hfr & Hnd & Ho).
  destruct (reaped_pool m L F i HP Hreg) as [HP2 E]. destruct (surgery_detach i m) as (Hst & Hp1 & _).
  destruct (surgery_free i (node_detach i m)) as (Hst2 & Hp2 & _).
  assert (forall n, live (n_pid (node_ptr m n)) -> n <> i) as Hne by (intros n Hl ->; by rewrite Hpid in Hl).
  assert (forall n, n ∈ N -> n <> i) as HneN.
  { intros n Hn. apply Hne. destruct (Ho n Hn) as [_ ->]. done. }
  split.
  - exists L, F, (fun j => without i (L j)), (i :: F). split_and!; [done..| | |].
    + intros n _ Hn Hl. rewrite E, Hp2, Hp1. split; [split; [by apply Hne|done]|done].
    + intros n Hn. rewrite E. split; [split; [by apply HneN|by apply Ho]|by left].
    + intros n [_ Hn]%E. destruct (decide (n ∈ N)); [by left|by right].
  - exists (fun j => without i (L j)), (i :: F). split; [done|]. split; [|split; [done|]].
    + intros j Hj. rewrite Hst2, Hst. intros Hfree. by rewrite Hfr.
    + intros n Hn. rewrite E, Hp2, Hp1. split; [split; [by apply HneN|]|]; by apply Ho.
Qed.

(** Freeing a slot, whose waiters are then woken. *)
Lemma free_step N m i f : tidy me none N m -> s_state (slot_ptr m i) = SLOT_USED ->
  (forall s, s_waiter_head (f s) = s_waiter_head s /\ s_state (f s) = SLOT_FREE) ->
  holder_step live N N m (upd_slot i f m) /\
  exists l, s_waiter_head (slot_ptr (upd_slot i f m) i) = hd NIL l /\ emptying me N i l (upd_slot i f m).
Proof.
  intros (L & F & HP & Hfr & Hnd & Ho) Hu Hf.
  assert (pool_ok (upd_slot i f m) L F) as HP'.
  { eapply (table_pool_ok m); [|done..]. intros j. left. rewrite slot_ptr_upd_slot.
    destruct (decide (i = j)) as [<-|]; [|done]. destruct (Hf (slot_ptr m i)) as [-> ->]. done. }
  split.
  - eapply holder_step_same; [exact HP|exact HP'|done..|]. intros n Hn. by apply Ho.
  - exists (L i). split.
    + rewrite slot_ptr_upd_slot, decide_True by done. destruct (Hf (slot_ptr m i)) as [-> _].
      apply (lo_head _ _ (po_lists _ _ _ HP)). by right.
    + exists L, F. split_and!; [done..| |done|done]. intros j Hj. rewrite slot_ptr_upd_slot, decide_False by congruence.
      intros Hfree. apply Hfr; [tauto|done].
Qed.

(** [wake_object] at a slot that was freed under the lock. *)
Lemma guarded_wake_freed i l N m : s_waiter_head (slot_ptr m i) = hd NIL l -> emptying me N i l m ->
  gd (fun b N' _ m' => b = true /\ N' = N /\ tidy me none N m') (wake_object i) true N m.
Proof.
  intros Hh Hm. unfold wake_object, ld_waiter_head. apply guarded_read; [intros _; by eapply emptying_owns|].
  intros m1 H1. destruct (same_slot _ _ H1 i) as (_&->&_). rewrite Hh.
  eapply guarded_wake_empties; [done|]. by eapply emptying_same.
Qed.

Lemma held_reap cands : forall alive freed,
  (forall n c, cands !! n = Some c -> alive !! n = Some false -> ~ live (c_pid c)) ->
  hd_ any (reap_dead_locked cands alive freed).
Proof.
  induction cands as [|c cands IH]; intros [|a alive] freed Hv; cbn [reap_dead_locked]; try by apply held_tame.
  assert (forall freed, hd_ any (reap_dead_locked cands alive freed)) as IH'.
  { intros fr. apply IH. intros n d. apply (Hv (S n)). }
  destruct a; [done|]. pose proof (Hv 0%nat c eq_refl eq_refl) as Hdead.
  destruct (c_node c).
  - apply held_seq; [|done]. apply held_write. intros N m Ht. by apply reap_node_step.
  - intros N m Hr Hm m1 H1. exists N. assert (tidy me none N m1) as Ht.
    { eapply tidy_same; [exact H1|]. by apply tidy_rest. }
    unfold reap_slot. destruct (reapable c (slot_ptr m1 (c_index c))) eqn:E; cbn [fst snd bind].
    + assert (s_state (slot_ptr m1 (c_index c)) = SLOT_USED) as Hu.
      { unfold reapable in E. rewrite !andb_true_iff in E. destruct E as (((((E&_)&_)&_)&_)&_). by apply Z.eqb_eq. }
      destruct (free_step N m1 (c_index c) free_slot Ht Hu) as (Hs & l & Hh & Hem); [done|]. split; [exact Hs|].
      eapply guarded_bind; [|by eapply guarded_wake_freed].
      intros ? ? ? m2 (->&->&[??]%tidy_rest). by apply IH'.
    + split; [eapply same_holder_step; [apply same_lists_refl|by eapply tidy_owns]|].
      apply tidy_rest in Ht as [??]. by apply IH'.
Qed.

(** ** The sweeps *)
Lemma held_sweep_loop fuel : forall scan cache freed, cache_true cache ->
  hd_ any (sweep_loop fuel scan cache freed).
Proof.
  induction fuel as [|fuel IH]; intros scan cache freed Hc; cbn [sweep_loop]; [done|].
  apply held_seq; [by apply held_tame, tame_read|]. intros [[|c cands] scan']; [by apply held_tame|].
  eapply held_bind; [apply held_tame, passive_tame, passive_verdicts; [done|exact Hc]|]. intros vc [Hv Hc'].
  apply held_seq; [by apply held_reap|]. auto.
Qed.

Lemma held_sweep : hd_ any sweep_dead_locked.
Proof.
  unfold sweep_dead_locked. apply held_seq; [by apply held_tame, tame_read|]. intros scan.
  apply held_sweep_loop, cache_new_true.
Qed.

(** The automatic sweep drops the lock while it asks who is alive. *)
Lemma guarded_auto_sweep_loop fuel N : forall g scan cache freed m, cache_true cache -> rest m -> owns me N m ->
  gd (fun b N' _ m' => b = false /\ N' = N /\ owns me N m') (auto_sweep_loop fuel g scan cache freed) true N m.
Proof.
  induction fuel as [|fuel IH]; intros g scan cache freed m Hc Hr Hm; cbn [auto_sweep_loop]; [done|].
  apply guarded_read; [done|]. intros m1 H1. pose proof (rest_same _ _ H1 Hr) as Hr1.
  pose proof (owns_same _ _ _ _ H1 Hm) as Hm1. destruct (next_chunk scan m1) as [[|c cands] scan'].
  - eapply guarded_bind; [|by apply guarded_guard_drop]. intros ? ? ? m2 (->&->&Hm2). cbn. intros m3 H3.
    split_and!; [done..|]. by eapply owns_rely.
  - eapply guarded_bind; [|by apply guarded_guard_drop]. intros ? ? ? m2 (->&->&Hm2).
    eapply guarded_bind; [|apply (keeps_tame live me errs Hme _ _ (passive_tame _ _ _ _ _ (passive_verdicts (c :: cands) cache Hc))); exact Hm2].
    intros ? ? vc m3 (->&->&Hm3&Hv&Hc'). eapply guarded_bind; [|by apply guarded_lock_guard].
    intros b ? [mask|e] m4 (->&Hm4&Hb).
    + destruct Hb as [-> Hr4]. eapply guarded_bind; [|by apply held_reap].
      intros ? ? n m5 (->&->&Hr5&Hm5&_). by apply IH.
    + destruct Hb as [-> _]. cbn. intros m5 H5. split_and!; [done..|]. by eapply owns_rely.
Qed.

Lemma keeps_auto_sweep : keeps live me errs any auto_sweep_dead.
Proof.
  unfold auto_sweep_dead. apply keeps_seq; [by apply keeps_tame, tame_loc|]. intros n.
  destruct (negb _); [by apply keeps_tame|]. cbv zeta. destruct (_ =? 0); [by apply keeps_tame|].
  apply keeps_seq; [by apply keeps_tame, tame_sys|]. intros now.
  apply keeps_seq; [by apply keeps_tame, tame_read|]. intros last. destruct (_ <? _); [by apply keeps_tame|].
  intros N m Hm. eapply guarded_bind; [|by apply guarded_lock_guard].
  intros b ? [mask|e] m1 (->&Hm1&Hb).
  2: { destruct Hb as [-> _]. cbn. intros m2 H2. split_and!; [done..| |done]. by eapply owns_rely. }
  destruct Hb as [-> Hr1].
  eapply guarded_bind; [|by apply (held_tame live me errs Hme any _ (tame_sys live me errs ClockMonotonic eq_refl eq_refl))].
  intros ? ? now' m2 (->&->&Hr2&Hm2&_). apply guarded_read; [done|]. intros m3 H3.
  pose proof (rest_same _ _ H3 Hr2) as Hr3. pose proof (owns_same _ _ _ _ H3 Hm2) as Hm3.
  destruct (_ <? _).
  - eapply guarded_mono; [|by apply guarded_guard_drop]. intros ? ? ? ? (->&->&?). done.
  - assert (hd_ any (mem_write (upd_header (set_sweep_ns now')))) as Hw.
    { apply held_tame; [done|]. apply tame_write. intros m4. by destruct m4 as [[] ? ?]. }
    eapply guarded_bind; [|by apply Hw]. intros ? ? ? m4 (->&->&Hr4&Hm4&_). apply guarded_read; [done|].
    intros m5 H5. pose proof (rest_same _ _ H5 Hr4). pose proof (owns_same _ _ _ _ H5 Hm4).
    eapply guarded_bind; [|apply guarded_auto_sweep_loop; [exact cache_new_true|done..]].
    intros ? ? ? m6 (->&->&Hm6). cbn. intros m7 H7. split_and!; [done..| |done]. by eapply owns_rely.
Qed.

Lemma keeps_sweep_dead : keeps live me errs any sweep_dead.
Proof.
  unfold sweep_dead. apply keeps_seq; [apply keeps_tame; tames|]. intros [u|e]; [|by apply keeps_tame].
  apply keeps_with_lock; [done|done|]. apply held_seq; [apply held_sweep|]. intros n. by apply held_tame.
Qed.

(** ** Holders and pulses *)
Lemma slot_step N m i f : tidy me none N m ->
  (forall s, s_waiter_head (f s) = s_waiter_head s /\ s_state (f s) = s_state s) ->
  holder_step live N N m (upd_slot i f m) /\ tidy me none N (upd_slot i f m).
Proof.
  intros (L & F & HP & Hfr & Hnd & Ho) Hf.
  assert (forall j, s_waiter_head (slot_ptr (upd_slot i f m) j) = s_waiter_head (slot_ptr m j) /\
    s_state (slot_ptr (upd_slot i f m) j) = s_state (slot_ptr m j)) as Hs.
  { intros j. rewrite slot_ptr_upd_slot. destruct (decide (i = j)) as [<-|]; [apply Hf|done]. }
  assert (pool_ok (upd_slot i f m) L F) as HP'.
  { eapply (table_pool_ok m); [|done..]. intros j. left. destruct (Hs j) as [-> ->]. done. }
  split.
  - eapply holder_step_same; [exact HP|exact HP'|done..|]. intros n Hn. by apply Ho.
  - exists L, F. split; [done|]. split; [|done]. intros j. destruct (Hs j) as [_ ->]. apply Hfr.
Qed.

Lemma held_slot i f : (forall s, s_waiter_head (f s) = s_waiter_head s /\ s_state (f s) = s_state s) ->
  hd_ any (mem_write (upd_slot i f)).
Proof. intros Hf. apply held_write. intros N m Ht. by apply slot_step. Qed.

Lemma holder_add_keeps pid s :
  s_waiter_head (holder_add pid s) = s_waiter_head s /\ s_state (holder_add pid s) = s_state s.
Proof. unfold holder_add. by repeat case_match. Qed.

Lemma keeps_holder (f : Z -> Slot -> Slot) h :
  (forall pid s, s_waiter_head (f pid s) = s_waiter_head s /\ s_state (f pid s) = s_state s) ->
  keeps live me errs any
    (if handle_index h =? 0 then Ret (Err Invalid)
     else
       _ <-? region ;;
       with_lock
         (i <-? slot_or_invalid h ;;
          pid <- sys GetPid ;;
          mem_write (upd_slot i (f pid)) ;;;
          Ret (Ok tt))).
Proof.
  intros Hf. destruct (_ =? 0); [by apply keeps_tame|]. apply keeps_seq; [apply keeps_tame; tames|].
  intros [u|e]; [|by apply keeps_tame]. apply keeps_with_lock; [done|done|].
  apply held_seq; [apply held_tame; [done|]; unfold slot_or_invalid; tames|]. intros [i|e]; [|by apply held_tame].
  apply held_seq; [by apply held_tame, tame_sys|]. intros pid. apply held_seq; [|intros _; by apply held_tame].
  apply held_slot, Hf.
Qed.

Lemma keeps_retain h : keeps live me errs any (retain h).
Proof. apply (keeps_holder holder_add), holder_add_keeps. Qed.

Lemma keeps_release h : keeps live me errs any (release h).
Proof. apply (keeps_holder holder_remove). intros pid s. by destruct (holder_remove_keeps pid s) as (->&->&_). Qed.

Lemma keeps_pulse h : keeps live me errs any (event_pulse h).
Proof.
  unfold event_pulse. apply keeps_seq; [apply keeps_tame; tames|]. intros [u|e]; [|by apply keeps_tame].
  apply keeps_with_lock; [done|done|]. apply held_seq; [apply held_tame; [done|]; apply tame_typed_slot|].
  intros [i|e]; [|by apply held_tame].
  apply held_seq; [by apply held_tame, tame_read|]. intros w. apply held_seq; [by apply held_tame, tame_read|].
  intros d. apply held_seq; [by apply held_slot|]. intros _.
  apply held_seq; [by apply held_tame, tame_read|]. intros w2. apply held_seq; [by apply held_slot|]. intros _.
  apply held_seq; [by apply held_wake_object|]. intros _. by apply held_tame.
Qed.

(** ** Creation *)

(** A slot that was taken: free, and on no list. *)
Definition vacant (i : Z) (N : list Z) (m : Region) : Prop :=
  tidy me none N m /\ s_state (slot_ptr m i) = SLOT_FREE /\ s_waiter_head (slot_ptr m i) = NIL.

Lemma vacant_same i N m m' : same_lists m m' -> vacant i N m -> vacant i N m'.
Proof.
  intros Hs (H1 & H2 & H3). destruct (same_slot _ _ Hs i) as (E1&E2&_).
  split_and!; [by eapply tidy_same|by rewrite E1|by rewrite E2].
Qed.

Lemma take_step N m i : tidy me none N m -> s_state (slot_ptr m i) = SLOT_FREE ->
  holder_step live N N m (snd (take_slot i m)) /\ vacant i N (snd (take_slot i m)).
Proof.
  intros (L & F & HP & Hfr & Hnd & Ho) Hf.
  assert (pool_ok (snd (take_slot i m)) L F) as HP'.
  { eapply (table_pool_ok m); [|done..]. intros j. rewrite take_slot_slot.
    destruct (decide (i = j)) as [<-|]; [|by left]. right. split; [|done]. apply Hfr; [tauto|done]. }
  split; [eapply holder_step_same; [exact HP|exact HP'|done..|]; intros n Hn; by apply Ho|].
  split; [|by rewrite take_slot_slot, decide_True].
  exists L, F. split; [done|]. split; [|done]. intros j. rewrite take_slot_slot.
  destruct (decide (i = j)) as [<-|]; apply Hfr.
Qed.

Lemma guarded_alloc N m : tidy me none N m ->
  gd (fun b N' r m' => b = true /\ N' = N /\ tidy me none N m' /\
    match r with Some h => vacant (handle_index h) N m' | None => True end) (mem_do alloc_slot) true N m.
Proof.
  intros Ht m1 H1. exists N. apply (tidy_same _ _ _ _ _ H1) in Ht.
  destruct (alloc_slot_cases m1) as [(k&_&Hf&_&->)|[-> _]].
  - set (j := (scan_cursor m1 + k) mod SLOT_COUNT) in *. destruct (take_step N m1 j Ht Hf) as [Hs Hv].
    assert (handle_index (fst (take_slot j m1)) = j) as Hj.
    { apply make_handle_index, Z.mod_pos_bound. unfold SLOT_COUNT. lia. }
    destruct (take_slot j m1) as [h m']. cbn [fst snd] in *. split; [exact Hs|]. intros m2 H2.
    apply (vacant_same _ _ _ _ H2) in Hv. rewrite Hj. split_and!; [done..|by destruct Hv|done].
  - split; [eapply same_holder_step; [apply same_lists_refl|by eapply tidy_owns]|].
    intros m2 H2. cbn. split_and!; [done..|by eapply tidy_same|done].
Qed.

Lemma guarded_alloc_or_sweep N m : rest m -> owns me N m ->
  gd (fun b N' r m' => b = true /\ N' = N /\ tidy me none N m' /\
    match r with Some h => vacant (handle_index h) N m' | None => True end) alloc_slot_or_sweep true N m.
Proof.
  intros Hr Hm. unfold alloc_slot_or_sweep. eapply guarded_bind; [|apply guarded_alloc; by apply tidy_rest].
  intros ? ? [h|] m1 (->&->&Ht&Hv).
  - cbn. intros m2 H2. split_and!; [done..|by eapply tidy_same|by eapply vacant_same].
  - apply tidy_rest in Ht as [??]. eapply guarded_bind; [|by apply held_sweep].
    intros ? ? n m2 (->&->&Hr2&Hm2&_). destruct (0 <? n); [apply guarded_alloc; by apply tidy_rest|].
    cbn. intros m3 H3. split_and!; [done..| |done]. eapply tidy_same; [exact H3|by apply tidy_rest].
Qed.

Lemma guarded_fill i f N m :
  (forall s, s_waiter_head (f s) = s_waiter_head s /\ s_state (f s) = s_state s) -> vacant i N m ->
  gd (fun b N' _ m' => b = true /\ N' = N /\ vacant i N m') (mem_write (upd_slot i f)) true N m.
Proof.
  intros Hf Hv. eapply guarded_mono; [|apply (guarded_write live me errs (fun N' m => N' = N /\ vacant i N m)
    (fun N' m => N' = N /\ vacant i N m)); [| | |by split]].
  - done.
  - intros N' m1 m2 H12 [-> ?]. split; [done|by eapply vacant_same].
  - intros N' m1 m2 H12 [-> ?]. split; [done|by eapply vacant_same].
  - intros m1 [_ (Ht & Hst & Hh)]. exists N. destruct (slot_step N m1 i f Ht Hf) as [Hs Ht'].
    split; [done|]. split; [done|]. split; [done|]. rewrite slot_ptr_upd_slot, decide_True by done.
    destruct (Hf (slot_ptr m1 i)) as [-> ->]. done.
Qed.

(** Publication: the slot is in use, with no waiters. *)
Lemma publish_step N m i : vacant i N m ->
  holder_step live N N m (upd_slot i (set_state SLOT_USED) m) /\ tidy me none N (upd_slot i (set_state SLOT_USED) m).
Proof.
  intros ((L & F & HP & Hfr & Hnd & Ho) & Hf & Hh). assert (L i = []) as HL by (apply Hfr; [tauto|done]).
  assert (pool_ok (upd_slot i (set_state SLOT_USED) m) L F) as HP'.
  { eapply (table_pool_ok m); [|done..]. intros j. rewrite slot_ptr_upd_slot.
    destruct (decide (i = j)) as [<-|]; [by right|by left]. }
  split; [eapply holder_step_same; [exact HP|exact HP'|done..|]; intros n Hn; by apply Ho|].
  exists L, F. split; [done|]. split; [|done]. intros j. rewrite slot_ptr_upd_slot.
  destruct (decide (i = j)) as [<-|]; [done|apply Hfr].
Qed.

Lemma guarded_publish h ty w0 N m : vacant (handle_index h) N m ->
  gd (fun b N' _ m' => b = true /\ N' = N /\ rest m' /\ owns me N m') (slot_publish h ty w0) true N m.
Proof.
  intros Hv. unfold slot_publish, st_w0, st_d. cbv zeta. generalize dependent (handle_index h). intros i Hv.
  do 3 (eapply guarded_bind; [|by apply guarded_fill]; clear dependent m; intros ? ? ? m (->&->&Hv)).
  eapply guarded_bind; [|apply (tame_guarded live me errs Hme any _ true N m (tame_sys live me errs GetPid eq_refl eq_refl))].
  2: { intros _. eapply tidy_owns, Hv. }
  intros ? ? pid m' (->&->&_&H'). apply (vacant_same _ _ _ _ H') in Hv. clear dependent m. rename m' into m.
  do 2 (eapply guarded_bind; [|by apply guarded_fill]; clear dependent m; intros ? ? ? m (->&->&Hv)).
  intros m1 H1. apply (vacant_same _ _ _ _ H1) in Hv. exists N. destruct (publish_step N m1 i Hv) as [Hs Ht].
  split; [exact Hs|]. intros m2 H2. apply (tidy_same _ _ _ _ _ H2) in Ht. apply tidy_rest in Ht as [??]. by split_and!.
Qed.

Lemma keeps_create ty w0 : keeps live me errs any (create_object ty w0).
Proof.
  unfold create_object. apply keeps_seq; [apply keeps_tame; tames|]. intros [u|e]; [|by apply keeps_tame].
  apply keeps_with_lock; [done|done|]. intros N m Hr Hm.
  eapply guarded_bind; [|by apply guarded_alloc_or_sweep]. intros ? ? [h|] m1 (->&->&Ht&Hv).
  - eapply guarded_bind; [|by apply guarded_publish]. intros ? ? ? m2 (->&->&?&?). cbn. intros m3 H3.
    split_and!; [done..|by eapply rest_same|by eapply owns_same|done].
  - apply tidy_rest in Ht as [??]. cbn. intros m3 H3.
    split_and!; [done..|by eapply rest_same|by eapply owns_same|done].
Qed.

(** ** Closing *)
Lemma guarded_slot h N m : owns me N m ->
  gd (fun b N' r m' => b = true /\ N' = N /\ same_lists m m' /\
    match r with Some i => i = handle_index h /\ s_state (slot_ptr m' i) = SLOT_USED | None => True end)
    (slot h) true N m.
Proof.
  intros Hm. unfold slot, ld_state, ld_generation. cbv zeta. destruct (_ <=? _); [by intros m1 H1|].
  apply guarded_read; [done|]. intros m1 H1. destruct (Z.eqb_spec (s_state (slot_ptr m1 (handle_index h))) SLOT_USED) as [Hu|_].
  2: { intros m2 H2. split_and!; [done..|by eapply same_lists_trans|done]. }
  apply guarded_read; [intros _; by eapply owns_same|]. intros m2 H2. pose proof (same_lists_trans _ _ _ H1 H2) as H12.
  destruct (_ =? _); intros m3 H3; pose proof (same_lists_trans _ _ _ H12 H3); split_and!; try done.
  destruct (same_slot _ _ (same_lists_trans _ _ _ H2 H3) (handle_index h)) as (->&_). done.
Qed.

Lemma emptying_slot_step N i l m f : emptying me N i l m -> s_waiter_head (slot_ptr m i) = hd NIL l ->
  (forall s, s_waiter_head (f s) = s_waiter_head s /\ s_state (f s) = s_state s) ->
  holder_step live N N m (upd_slot i f m) /\ emptying me N i l (upd_slot i f m) /\
  s_waiter_head (slot_ptr (upd_slot i f m) i) = hd NIL l.
Proof.
  intros (L & F & HP & HL & Hfr & Hnd & Ho) Hh Hf.
  assert (pool_ok (upd_slot i f m) L F) as HP'.
  { eapply (table_pool_ok m); [|done..]. intros j. left. rewrite slot_ptr_upd_slot.
    destruct (decide (i = j)) as [<-|]; [|done]. destruct (Hf (slot_ptr m i)) as [-> ->]. done. }
  split; [eapply holder_step_same; [exact HP|exact HP'|done..|]; intros n Hn; by apply Ho|]. split.
  - exists L, F. split_and!; [done..| |done|done]. intros j Hj. rewrite slot_ptr_upd_slot, decide_False by congruence. by apply Hfr.
  - rewrite slot_ptr_upd_slot, decide_True by done. by destruct (Hf (slot_ptr m i)) as [-> _].
Qed.

(** The slot that is being closed: its state is free, its waiters remain. *)
Definition freed (i : Z) (N : list Z) (m : Region) : Prop :=
  exists l, s_waiter_head (slot_ptr m i) = hd NIL l /\ emptying me N i l m.

Lemma freed_same i N m m' : same_lists m m' -> freed i N m -> freed i N m'.
Proof.
  intros Hs (l & Hh & He). exists l. split; [|by eapply emptying_same].
  by destruct (same_slot _ _ Hs i) as (_&->&_).
Qed.

Definition in_use (i : Z) (N : list Z) (m : Region) : Prop :=
  tidy me none N m /\ s_state (slot_ptr m i) = SLOT_USED.

Lemma in_use_same i N m m' : same_lists m m' -> in_use i N m -> in_use i N m'.
Proof. intros Hs [? ?]. split; [by eapply tidy_same|]. by destruct (same_slot _ _ Hs i) as (->&_). Qed.

(** The three writes of [close]. *)
Lemma guarded_close_writes i pid N m : in_use i N m ->
  gd (fun b N' _ m' => b = true /\ N' = N /\ freed i N m')
    (mem_write (upd_slot i (holder_remove pid)) ;;;
     mem_write (upd_slot i (set_state SLOT_FREE)) ;;;
     mem_write (upd_slot i (fun s => set_generation (wrap32 (s_generation s + 1)) s))) true N m.
Proof.
  intros Hm m1 H1. destruct (in_use_same _ _ _ _ H1 Hm) as [Ht Hu]. exists N.
  destruct (holder_remove_keeps pid (slot_ptr m1 i)) as (E1&_&_).
  destruct (slot_step N m1 i (holder_remove pid) Ht) as [Hs Ht1].
  { intros s. by destruct (holder_remove_keeps pid s) as (->&->&_). }
  split; [exact Hs|]. cbn [fst snd]. intros m2 H2.
  assert (in_use i N m2) as [Ht2 Hu2].
  { eapply in_use_same; [exact H2|]. split; [done|]. by rewrite slot_ptr_upd_slot, decide_True, E1. }
  destruct (free_step N m2 i (set_state SLOT_FREE) Ht2 Hu2) as (Hs2 & l & Hh & He); [done|].
  exists N. split; [exact Hs2|]. cbn [fst snd]. intros m3 H3.
  assert (freed i N m3) as (l3 & Hh3 & He3) by (eapply freed_same; [exact H3|by exists l]).
  destruct (emptying_slot_step N i l3 m3 (fun s => set_generation (wrap32 (s_generation s + 1)) s) He3 Hh3) as (Hs3 & He4 & Hh4); [done|].
  exists N. split; [exact Hs3|]. cbn [fst snd]. intros m4 H4. split_and!; [done..|].
  eapply freed_same; [exact H4|by exists l3].
Qed.

Lemma held_close_body h : hd_ any (close_body h).
Proof.
  intros N m Hr Hm. unfold close_body. eapply guarded_bind; [|by apply guarded_slot].
  intros ? ? [i|] m1 (->&->&Hs&Hi).
  2: { intros m2 H2. pose proof (same_lists_trans _ _ _ Hs H2).
       split_and!; [done..|by eapply rest_same|by eapply owns_same|done]. }
  destruct Hi as [-> Hu]. set (i := handle_index h) in *.
  assert (in_use i N m1) as Huse.
  { split; [|done]. apply tidy_rest. split; [by eapply rest_same|by eapply owns_same]. }
  eapply guarded_bind; [|apply (tame_guarded live me errs Hme any _ true N m1 (tame_sys live me errs GetPid eq_refl eq_refl))].
  2: { intros _. eapply tidy_owns, Huse. }
  intros ? ? pid m2 (->&->&_&H2). apply (in_use_same _ _ _ _ H2) in Huse.
  apply (guarded_bind live me errs (fun b N' _ m' => b = true /\ N' = N /\ freed i N m') _
    (mem_write (upd_slot i (holder_remove pid)) ;;;
     mem_write (upd_slot i (set_state SLOT_FREE)) ;;;
     mem_write (upd_slot i (fun s => set_generation (wrap32 (s_generation s + 1)) s)))
    (fun _ => wake_object i ;;; Ret true)); [|by apply guarded_close_writes].
  intros ? ? ? m3 (->&->&(l & Hh & He)). eapply guarded_bind; [|by eapply guarded_wake_freed].
  intros ? ? ? m4 (->&->&Ht4). intros m5 H5. apply (tidy_same _ _ _ _ _ H5) in Ht4.
  destruct (proj1 (tidy_rest _ _ _) Ht4). by split_and!.
Qed.

Lemma keeps_close h : keeps live me errs any (close h).
Proof.
  unfold close. destruct (_ =? 0); [by apply keeps_tame|]. apply keeps_seq; [apply keeps_tame; tames|].
  intros [u|e]; [|by apply keeps_tame]. intros N m Hm. eapply guarded_bind; [|by apply guarded_lock_guard].
  intros b ? [mask|e] m1 (->&Hm1&Hb).
  - destruct Hb as [-> Hr1]. eapply guarded_bind; [|by apply held_close_body].
    intros ? ? r m2 (->&->&?&?&_). eapply guarded_bind; [|by apply guarded_guard_drop].
    intros ? ? ? m3 (->&->&?). intros m4 H4. split_and!; [done..| |done]. by eapply owns_rely.
  - destruct Hb as [-> _]. intros m2 H2. split_and!; [done..| |done]. by eapply owns_rely.
Qed.
End slots.
