(* ===== verification/GuardWait.v ===== *)
(** * GuardWait: whole waits under the lock's protection

    The nodes of a wait: taken from the pool under the lock, on the lists while
    the thread sleeps, and given back on every way out of the wait. *)
From S2P Require Import Prelude Prog Config Region Kernel Lock Nodes WaitLists NodePool Policy Sweep Init Slots Objects Wait SlotsOk Interleave Guard GuardRules GuardOps GuardLists GuardSlots.

Section wait.
Context `{!Config} (live : Z -> Prop) (me : Z) (errs : Prop) (Hme : live me) (Hzero : ~ live 0).
Abbreviation gd Q p b N m := (guarded live me errs Q p b N m) (only parsing).
Abbreviation tm T p := (tame live me errs T p) (only parsing).
Abbreviation kp p := (keeps live me errs any p) (only parsing).
(** What the thread owned before the wait. *)
Context (N : list Z).

(** ** Giving the nodes back *)
Lemma guarded_cleanup nodes m : rest m -> owns me (nodes ++ N) m ->
  gd (fun b N' _ m' => b = true /\ N' = N /\ rest m' /\ owns me N m') (cleanup nodes) true (nodes ++ N) m.
Proof.
  intros Hr Hm m1 H1. assert (tidy me none (nodes ++ N) m1) as Ht.
  { apply tidy_rest. split; [by eapply rest_same|by eapply owns_same]. }
  destruct (cleanup_step live me nodes N m1 Ht) as [Hs Ht']. exists N. split; [exact Hs|].
  intros m2 H2. destruct (proj1 (tidy_rest _ _ _) (tidy_same _ _ _ _ _ H2 Ht')). by split_and!.
Qed.

(** The thread is out: it holds no node it did not hold before, unless the
    lock failed. *)
Definition back (b : bool) (N' : list Z) (m : Region) : Prop :=
  b = false /\ owns me N' m /\ (N' = N \/ errs).

Lemma back_rely N' m m' : rely live N' m m' -> back false N' m -> back false N' m'.
Proof. intros Hr (_ & Ho & HN). split_and!; [done|by eapply owns_rely|done]. Qed.

Lemma guarded_if_cleanup nodes m : owns me (nodes ++ N) m ->
  gd (fun b N' _ m' => back b N' m') (if_lock (cleanup nodes)) false (nodes ++ N) m.
Proof.
  intros Hm. unfold if_lock. eapply guarded_bind; [|by apply guarded_lock_guard].
  intros b ? [mask|e] m1 (->&Hm1&Hb).
  - destruct Hb as [-> Hr1]. eapply guarded_bind; [|by apply guarded_cleanup].
    intros ? ? ? m2 (->&->&Hr2&Hm2). eapply guarded_mono; [|by apply guarded_guard_drop].
    intros ? ? ? m3 (->&->&Hm3). split_and!; [done..|by left].
  - destruct Hb as [-> He]. intros m2 H2. split_and!; [done|by eapply owns_rely|by right].
Qed.

(** ** Validation *)
Lemma guarded_validate handles nodes : forall i seqs N0 m, owns me N0 m ->
  gd (fun b N' r m' => b = true /\ N' = N0 /\ same_lists m m' /\ (fst r = true -> used handles m'))
    (validate i handles nodes seqs) true N0 m.
Proof.
  induction handles as [|h hs IH]; intros i seqs N0 m Hm; cbn [validate].
  { intros m1 H1. split_and!; [done..|]. by intros _ h Hh%elem_of_nil. }
  assert (forall m1, same_lists m m1 -> gd (fun b N' r m' => b = true /\ N' = N0 /\ same_lists m m' /\
    (fst r = true -> used (h :: hs) m')) (Ret (false, seqs)) true N0 m1) as Hno.
  { intros m1 H1 m2 H2. split_and!; [done..|by eapply same_lists_trans|done]. }
  eapply guarded_bind; [|by apply guarded_slot]. intros ? ? [idx|] m1 (->&->&H1&Hi); [|by apply Hno].
  destruct Hi as [-> Hu]. pose proof (owns_same _ _ _ _ H1 Hm) as Hm1.
  apply guarded_read; [done|]. intros m2 H2. pose proof (same_lists_trans _ _ _ H1 H2) as H12.
  destruct (negb _); [by apply Hno|].
  eapply guarded_bind; [|apply (tame_guarded live me errs Hme any); [|intros _; by eapply owns_same]].
  2: { destruct (_ && _); unfold ld_d; tames. }
  intros ? ? seqs' m3 (->&->&_&H3). cbn [others_do] in H3. pose proof (same_lists_trans _ _ _ H12 H3) as H13.
  eapply guarded_mono; [|apply IH; by eapply owns_same]. intros ? ? r m4 (->&->&H4&Hr).
  split_and!; [done..|by eapply same_lists_trans|]. intros E x [->|Hx]%elem_of_cons; [|by apply Hr].
  destruct (same_slot _ _ (same_lists_trans _ _ _ H2 (same_lists_trans _ _ _ H3 H4)) (handle_index h)) as (->&_). done.
Qed.

(** The handles that registration goes through. *)
Definition targets (handles : list Z) (alert : Z) : list Z :=
  handles ++ (if alert =? 0 then [] else [alert]).

Lemma guarded_alert_valid alert N0 m : owns me N0 m ->
  gd (fun b N' r m' => b = true /\ N' = N0 /\ same_lists m m' /\ (r = true -> alert <> 0 -> used [alert] m'))
    (alert_valid alert) true N0 m.
Proof.
  intros Hm. unfold alert_valid. destruct (Z.eqb_spec alert 0) as [->|Ha]; [by intros m1 H1|].
  eapply guarded_bind; [|by apply guarded_slot]. intros ? ? [idx|] m1 (->&->&H1&Hi).
  2: { intros m2 H2. split_and!; [done..|by eapply same_lists_trans|done]. }
  destruct Hi as [-> Hu]. apply guarded_read; [intros _; by eapply owns_same|]. intros m2 H2 m3 H3.
  pose proof (same_lists_trans _ _ _ H2 H3) as H23.
  split_and!; [done..|by eapply same_lists_trans|]. intros _ _ x ->%list_elem_of_singleton.
  by destruct (same_slot _ _ H23 (handle_index alert)) as (->&_).
Qed.

(** ** Registration *)
Definition enlist (handles : list Z) (alert : Z) (nodes N' : list Z) (m : Region) : Prop :=
  N' = nodes ++ N /\ tidy me none (nodes ++ N) m /\ used (targets handles alert) m.

Lemma enlist_same handles alert nodes N' m m' : same_lists m m' ->
  enlist handles alert nodes N' m -> enlist handles alert nodes N' m'.
Proof. intros Hs (-> & Ht & Hu). split_and!; [done|by eapply tidy_same|by eapply used_same]. Qed.

Lemma guarded_alloc_nodes handles alert n : forall nodes m,
  tidy me none (nodes ++ N) m -> used (targets handles alert) m ->
  gd (fun b N' r m' => b = true /\ match r with
      | Some ns => enlist handles alert ns N' m' /\ length ns = (length nodes + n)%nat
      | None => N' = N /\ rest m' /\ owns me N m' end)
    (alloc_nodes n nodes) true (nodes ++ N) m.
Proof.
  induction n as [|n IH]; intros nodes m Ht Hu; cbn [alloc_nodes].
  { intros m1 H1. split; [done|]. split; [|lia]. by eapply enlist_same. }
  eapply guarded_bind.
  2: { apply (guarded_node_alloc live me errs Hme (fun k => (nodes ++ [k]) ++ N) (targets handles alert)); [|done..].
       intros k. rewrite <- app_assoc. symmetry. apply Permutation_middle. }
  intros ? N' [k|] m1 (->&Ht1&Hu1&->).
  - eapply guarded_mono; [|by apply IH]. intros ? ? [ns|] ? (->&Hr); (split; [done|]); [|done].
    destruct Hr as [Hr Hl]. split; [done|]. rewrite length_app in Hl. cbn in Hl. lia.
  - apply tidy_rest in Ht1 as [Hr1 Hm1]. eapply guarded_bind; [|by apply guarded_cleanup].
    intros ? ? ? m2 (->&->&Hr2&Hm2). intros m3 H3. split_and!; [done..|by eapply rest_same|by eapply owns_same].
Qed.

Lemma guarded_register handles alert nodes node h head m :
  node ∈ nodes -> h ∈ targets handles alert -> enlist handles alert nodes (nodes ++ N) m ->
  gd (fun b N' _ m' => b = true /\ enlist handles alert nodes N' m') (register_if_needed node h head) true (nodes ++ N) m.
Proof.
  intros Hn Hh Hm. unfold register_if_needed. apply guarded_read; [intros _; eapply tidy_owns, Hm|].
  intros m1 H1. apply (enlist_same _ _ _ _ _ _ H1) in Hm.
  destruct (Z.eqb_spec (n_registered (node_ptr m1 node)) 0) as [Hreg|_].
  2: { intros m2 H2. split; [done|]. by eapply enlist_same. }
  intros m2 H2. exists (nodes ++ N). destruct (enlist_same _ _ _ _ _ _ H2 Hm) as (_ & Ht & Hu).
  destruct (register_step live me (nodes ++ N) m2 node (handle_index h) head Ht) as [Hs Ht'].
  { set_solver. }
  { by destruct (same_node _ _ H2 node) as (->&_). }
  { by apply Hu. }
  split; [exact Hs|]. cbn [fst snd]. intros m3 H3. split; [done|]. eapply enlist_same; [exact H3|].
  split_and!; [done..|]. eapply used_surgery; [apply surgery_register|done].
Qed.

Lemma guarded_register_objects handles alert nodes head hs : forall i m,
  (forall h, h ∈ hs -> h ∈ targets handles alert) -> (i + length hs <= length nodes)%nat ->
  enlist handles alert nodes (nodes ++ N) m ->
  gd (fun b N' _ m' => b = true /\ enlist handles alert nodes N' m') (register_objects i hs nodes head) true (nodes ++ N) m.
Proof.
  induction hs as [|h hs IH]; intros i m Hhs Hlen Hm; cbn [register_objects length] in *.
  { intros m1 H1. split; [done|]. by eapply enlist_same. }
  eapply guarded_bind; [|apply guarded_register; [|apply Hhs; set_solver|exact Hm]].
  2: { unfold arr. apply list_elem_of_In, nth_In. lia. }
  intros ? N' ? m1 (->&Hm1). pose proof Hm1 as (-> & _). apply IH; [set_solver|lia|done].
Qed.

(** ** The locked section *)
Lemma length_targets handles alert : length (targets handles alert) = n_nodes handles alert.
Proof. unfold targets, n_nodes. rewrite length_app. by destruct (alert =? 0). Qed.

(** What the section hands out: an outcome, or the nodes to sleep on. *)
Definition section_out (handles : list Z) (alert : Z) (b : bool) (N' : list Z) (r : locked_result) (m : Region) : Prop :=
  match r with
  | LockedDone _ => N' = N /\ owns me N m /\ (b = true -> rest m)
  | LockedSleep _ _ nodes _ => N' = nodes ++ N /\ owns me (nodes ++ N) m /\ length nodes = n_nodes handles alert /\
      (b = true -> rest m)
  end.

Lemma guarded_give_up handles alert nodes out m : rest m -> owns me (nodes ++ N) m ->
  gd (fun b N' r m' => b = true /\ section_out handles alert b N' r m')
    (cleanup nodes ;;; Ret (LockedDone out)) true (nodes ++ N) m.
Proof.
  intros Hr Hm. eapply guarded_bind; [|by apply guarded_cleanup]. intros ? ? ? m1 (->&->&Hr1&Hm1).
  intros m2 H2. split; [done|]. split; [done|]. split; [by eapply owns_same|]. intros _. by eapply rest_same.
Qed.

Lemma guarded_check_registered handles owner dl all alert nodes seqs m :
  length nodes = n_nodes handles alert -> rest m -> owns me (nodes ++ N) m ->
  gd (fun b N' r m' => b = true /\ section_out handles alert b N' r m')
    (check_registered handles owner dl all alert nodes seqs) true (nodes ++ N) m.
Proof.
  intros Hlen Hr Hm. unfold check_registered.
  eapply guarded_bind; [|apply (tame_guarded live me errs Hme any _ true (nodes ++ N) m (tame_try_satisfy live me errs handles owner seqs all)); done].
  intros ? ? [out|] m1 (->&->&_&H1); pose proof (rest_same _ _ H1 Hr) as Hr1; pose proof (owns_same _ _ _ _ H1 Hm) as Hm1;
    [by apply guarded_give_up|].
  eapply guarded_bind; [|apply (tame_guarded live me errs Hme any); [destruct dl; tames|done]].
  intros ? ? [rem|] m2 (->&->&_&H2); pose proof (rest_same _ _ H2 Hr1) as Hr2; pose proof (owns_same _ _ _ _ H2 Hm1) as Hm2;
    [|by apply guarded_give_up].
  eapply guarded_mono; [|apply (tame_guarded live me errs Hme (fun r => match r with LockedSleep _ _ ns _ => ns = nodes | _ => False end)); [|done]].
  - intros ? ? [|seq rem' ns sq] m3 (->&->&Hns&H3); [done|]. subst ns. split; [done|].
    split; [done|]. split; [by eapply owns_same|]. split; [done|]. intros _. by eapply rest_same.
  - apply tame_seq; [apply tame_stat|]. intros _. apply tame_seq; [apply tame_stat|]. intros _.
    apply tame_seq; [by apply tame_read|]. done.
Qed.

Lemma guarded_register_and_check handles owner dl all alert nodes seqs m :
  length nodes = n_nodes handles alert -> enlist handles alert nodes (nodes ++ N) m ->
  gd (fun b N' r m' => b = true /\ section_out handles alert b N' r m')
    (register_and_check handles owner dl all alert nodes seqs) true (nodes ++ N) m.
Proof.
  intros Hlen Hm. unfold register_and_check. cbv zeta. unfold n_nodes in Hlen.
  assert (forall m, enlist handles alert nodes (nodes ++ N) m ->
    gd (fun b N' r m' => b = true /\ section_out handles alert b N' r m')
      (check_registered handles owner dl all alert nodes seqs) true (nodes ++ N) m) as Hcheck.
  { intros m1 (_ & Ht & _). apply tidy_rest in Ht as [??]. by apply guarded_check_registered. }
  eapply guarded_bind; [|apply (guarded_register_objects handles alert nodes); [|lia|exact Hm]].
  2: { unfold targets. set_solver. }
  intros ? ? ? m1 (->&Hm1). pose proof Hm1 as (-> & _). destruct (Z.eqb_spec alert 0) as [->|Ha]; cbn [negb].
  - by apply Hcheck.
  - eapply guarded_bind; [|apply (guarded_register handles alert nodes); [| |exact Hm1]].
    + intros ? ? ? m2 (->&Hm2). pose proof Hm2 as (-> & _). by apply Hcheck.
    + unfold arr. apply list_elem_of_In, nth_In. lia.
    + unfold targets. rewrite (proj2 (Z.eqb_neq _ _) Ha). set_solver.
Qed.

Lemma guarded_locked_body handles owner dl all alert nodes seqs m :
  handles <> [] -> (nodes = [] \/ length nodes = n_nodes handles alert) -> rest m -> owns me (nodes ++ N) m ->
  gd (fun b N' r m' => b = true /\ section_out handles alert b N' r m')
    (locked_body handles owner dl all alert nodes seqs) true (nodes ++ N) m.
Proof.
  intros Hne Hlen Hr Hm. unfold locked_body.
  eapply guarded_bind; [|by apply guarded_validate]. intros ? ? [ok seqs'] m1 (->&->&H1&Hok). cbn [fst snd] in *.
  pose proof (rest_same _ _ H1 Hr) as Hr1. pose proof (owns_same _ _ _ _ H1 Hm) as Hm1.
  eapply (guarded_bind live me errs (fun b N' r m' => b = true /\ N' = nodes ++ N /\ rest m' /\ owns me (nodes ++ N) m' /\
    (r = true -> used (targets handles alert) m'))).
  2: { destruct ok.
    - eapply guarded_mono; [|by apply guarded_alert_valid]. intros ? ? r m2 (->&->&H2&Hr2).
      split_and!; [done..|by eapply rest_same|by eapply owns_same|]. intros Ev h Hh. unfold targets in Hh.
      apply elem_of_app in Hh as [Hh|Hh].
      + by apply (used_same _ _ _ H2 (Hok eq_refl)).
      + destruct (Z.eqb_spec alert 0) as [->|Ha]; [by apply elem_of_nil in Hh|]. by apply (Hr2 Ev Ha).
    - intros m2 H2. split_and!; [done..|by eapply rest_same|by eapply owns_same|done]. }
  intros ? ? valid m2 (->&->&Hr2&Hm2&Hu). destruct valid; cbn [negb]; [|by apply guarded_give_up].
  specialize (Hu eq_refl).
  eapply guarded_bind; [|apply (tame_guarded live me errs Hme any _ true (nodes ++ N) m2 (passive_tame _ _ _ _ _ (passive_alert_fired live me errs alert))); done].
  intros ? ? fired m3 (->&->&_&H3). cbn [others_do] in H3. pose proof (rest_same _ _ H3 Hr2) as Hr3.
  pose proof (owns_same _ _ _ _ H3 Hm2) as Hm3. apply (used_same _ _ _ H3) in Hu.
  destruct fired; [by apply guarded_give_up|]. destruct Hlen as [->|Hlen].
  - cbn [length Nat.eqb app] in *. eapply guarded_bind.
    2: { apply (guarded_alloc_nodes handles alert _ []); [by apply tidy_rest|done]. }
    intros ? N' [ns|] m4 (->&H4).
    + destruct H4 as [H4 Hl]. pose proof H4 as (-> & _). by apply guarded_register_and_check.
    + destruct H4 as (->&?&?). intros m5 H5. split; [done|]. split; [done|]. split; [by eapply owns_same|].
      intros _. by eapply rest_same.
  - assert ((length nodes =? 0)%nat = false) as ->.
    { apply Nat.eqb_neq. rewrite Hlen. unfold n_nodes. destruct handles; [done|cbn; lia]. }
    cbn [bind]. apply guarded_register_and_check; [done|]. split_and!; [done|by apply tidy_rest|done].
Qed.
End wait.
