(* ===== verification/GuardLoop.v ===== *)
(** * GuardLoop: waits and signals under the lock's protection

    The section, the spin, the sleep and the loop of a wait, put together: a
    wait comes back with no node it did not have, unless the lock failed; and
    the signals, which use the lock to wake. *)
From S2P Require Import Prelude Prog Config Region Kernel Lock Nodes WaitLists NodePool Policy Sweep Init Slots Objects Wait SlotsOk Interleave Guard GuardRules GuardOps GuardLists GuardSlots GuardWait.

Section wait.
Context `{!Config} (live : Z -> Prop) (me : Z) (errs : Prop) (Hme : live me) (Hzero : ~ live 0).
Abbreviation gd Q p b N m := (guarded live me errs Q p b N m) (only parsing).
Abbreviation tm T p := (tame live me errs T p) (only parsing).
Abbreviation kp p := (keeps live me errs any p) (only parsing).
Context (N : list Z).
Abbreviation back := (back me errs N).

Lemma guarded_back_tame {A} (p : action A) N' m : tm any p -> back false N' m ->
  gd (fun b N' _ m' => back b N' m') p false N' m.
Proof.
  intros Hp Hb. eapply guarded_mono; [|apply (tame_guarded live me errs Hme any _ false N' m Hp); done].
  intros ? ? ? m' (->&->&_&Hr). by eapply back_rely.
Qed.

Lemma guarded_out {A B} (p : action A) (a : B) nodes m (Q : bool -> list Z -> B -> Region -> Prop) :
  gd (fun b N' _ m' => back b N' m') p false (nodes ++ N) m ->
  (forall b N' m', back b N' m' -> Q b N' a m') -> gd Q (bind p (fun _ => Ret a)) false (nodes ++ N) m.
Proof.
  intros Hp HQ. eapply guarded_bind; [|exact Hp]. intros b N' ? m1 H1 m2 H2. apply HQ.
  pose proof H1 as (-> & _). by eapply back_rely.
Qed.

(** ** The locked section *)
(** Out with an outcome, or asleep on the nodes. *)
Definition section_end (handles : list Z) (alert : Z) (b : bool) (N' : list Z) (r : locked_result) (m : Region) : Prop :=
  match r with
  | LockedDone _ => back b N' m
  | LockedSleep _ _ nodes _ => b = false /\ N' = nodes ++ N /\ owns me (nodes ++ N) m /\ length nodes = n_nodes handles alert
  end.

Lemma guarded_locked_section handles owner dl all alert nodes seqs m :
  handles <> [] -> (nodes = [] \/ length nodes = n_nodes handles alert) -> owns me (nodes ++ N) m ->
  gd (section_end handles alert) (locked_section handles owner dl all alert nodes seqs) false (nodes ++ N) m.
Proof.
  intros Hne Hlen Hm. unfold locked_section. eapply guarded_bind; [|by apply guarded_lock_guard].
  intros b ? [mask|e] m1 (->&Hm1&Hb).
  - destruct Hb as [-> Hr1].
    eapply guarded_bind; [|by apply guarded_locked_body].
    intros ? N' r m2 (->&Hr2). assert (rest m2 /\ owns me N' m2) as [Hrest Hown].
    { destruct r; [destruct Hr2 as (->&?&?)|destruct Hr2 as (->&?&?&?)]; auto. }
    eapply guarded_bind; [|by apply guarded_guard_drop]. intros ? ? ? m3 (->&->&Hm3) m4 H4.
    assert (owns me N' m4) as Hm4 by (by eapply owns_rely).
    destruct r; cbn [section_end section_out] in *.
    + destruct Hr2 as (->&_). split_and!; [done..|by left].
    + by destruct Hr2 as (->&_&?&_).
  - destruct Hb as [-> He]. apply guarded_out; [|done]. by apply guarded_if_cleanup.
Qed.

(** ** The spin *)
Definition spin_end (nodes : list Z) {A} (won : A -> bool) (b : bool) (N' : list Z) (r : A) (m : Region) : Prop :=
  if won r then back b N' m else b = false /\ N' = nodes ++ N /\ owns me (nodes ++ N) m.

Definition spin_won (r : spin_result) : bool := match r with SpinWon _ => true | _ => false end.
Definition out_of_spin (r : option WaitOutcome) : bool := match r with Some _ => true | None => false end.

(** A tame step on the way. *)
Lemma guarded_tame_bind {A B} (Q : bool -> list Z -> B -> Region -> Prop) (p : action A) (q : A -> action B) N0 m :
  tm any p -> owns me N0 m -> (forall a m', owns me N0 m' -> gd Q (q a) false N0 m') -> gd Q (bind p q) false N0 m.
Proof.
  intros Hp Hm Hq. eapply guarded_bind; [|apply (keeps_tame live me errs Hme any p Hp N0 m Hm)].
  intros ? ? a m' (->&->&?&_). by apply Hq.
Qed.

Lemma guarded_keeps_bind {A B} (Q : bool -> list Z -> B -> Region -> Prop) (p : action A) (q : A -> action B) N0 m :
  kp p -> owns me N0 m -> (forall a m', owns me N0 m' -> gd Q (q a) false N0 m') -> gd Q (bind p q) false N0 m.
Proof.
  intros Hp Hm Hq. eapply guarded_bind; [|apply (Hp N0 m Hm)]. intros ? ? a m' (->&->&?&_). by apply Hq.
Qed.

Lemma guarded_spin_loop n handles owner all alert nodes seqs : forall m, owns me (nodes ++ N) m ->
  gd (spin_end nodes spin_won) (spin_loop n handles owner all alert nodes seqs) false (nodes ++ N) m.
Proof.
  assert (forall r m, spin_won r = false -> owns me (nodes ++ N) m ->
    gd (spin_end nodes spin_won) (Ret r) false (nodes ++ N) m) as Hret.
  { intros r m Hr Hm m' Hm'. unfold spin_end. rewrite Hr. split_and!; [done..|by eapply owns_rely]. }
  induction n as [|n IH]; intros m Hm; cbn [spin_loop]; [by apply Hret|].
  apply guarded_tame_bind; [apply passive_tame, passive_alert_fired|done|]. intros fired m1 H1. destruct fired.
  - apply guarded_tame_bind; [apply tame_stat|done|]. intros _ m2 H2.
    apply guarded_tame_bind; [by apply tame_loc|done|]. intros _ m3 H3.
    apply guarded_out; [by apply guarded_if_cleanup|done].
  - apply guarded_tame_bind; [apply passive_tame, passive_spin_peek|done|]. intros peek m2 H2.
    apply guarded_tame_bind; [destruct peek; tames|done|]. intros [out|] m3 H3.
    + apply guarded_tame_bind; [apply tame_stat|done|]. intros _ m4 H4.
      eapply guarded_bind; [|by apply guarded_if_cleanup]. intros b N' ? m5 H5. pose proof H5 as (-> & _).
      eapply guarded_bind; [|apply guarded_back_tame; [by apply tame_loc|exact H5]].
      intros ? ? ? m6 H6 m7 H7. pose proof H6 as (-> & _). unfold spin_end. cbn [spin_won]. by eapply back_rely.
    + apply guarded_tame_bind; [by apply tame_read|done|]. intros reg m4 H4.
      destruct (reg =? 0); [by apply Hret|by apply IH].
Qed.

Lemma guarded_spin_phase handles owner all alert nodes seqs m : owns me (nodes ++ N) m ->
  gd (spin_end nodes out_of_spin) (spin_phase handles owner all alert nodes seqs) false (nodes ++ N) m.
Proof.
  intros Hm. unfold spin_phase.
  assert (forall m, owns me (nodes ++ N) m -> gd (spin_end nodes out_of_spin) (Ret None) false (nodes ++ N) m) as Hret.
  { intros m1 H1 m2 H2. split_and!; [done..|by eapply owns_rely]. }
  apply guarded_tame_bind; [apply passive_tame, passive_spin_budget|done|]. intros spin m1 H1. destruct (0 <? spin); [|by apply Hret].
  eapply guarded_bind; [|by apply guarded_spin_loop]. intros b N' [out| |] m2 H2; unfold spin_end in H2; cbn [spin_won] in H2.
  - pose proof H2 as (-> & _). intros m3 H3. by eapply back_rely.
  - destruct H2 as (->&->&H2). by apply Hret.
  - destruct H2 as (->&->&H2). apply guarded_tame_bind; [apply tame_stat|done|]. intros _ m3 H3.
    apply guarded_tame_bind; [by apply tame_loc|done|]. intros _ m4 H4. by apply Hret.
Qed.

(** ** The sleep *)
Lemma keeps_after_futex ret handles owner alert dl last : kp (after_futex ret handles owner alert dl last).
Proof.
  unfold after_futex. destruct (_ || _); [by apply keeps_tame|]. destruct (_ =? _); [|by apply keeps_tame].
  apply keeps_seq; [by apply keeps_auto_sweep|]. intros _. destruct debug_enabled; [|by apply keeps_tame].
  apply keeps_seq; [apply keeps_tame; [done|]; destruct dl; tames|]. intros early.
  destruct (negb early); [by apply keeps_tame|]. apply keeps_seq; [apply keeps_tame; tames|]. intros now.
  destruct (_ <=? _); [|by apply keeps_tame]. apply keeps_seq; [|intros _; by apply keeps_tame, tame_sys].
  unfold debug_dump_stuck_wait. apply keeps_if_lock; [done|]. apply held_tame; [done|]. apply passive_tame, passive_dump_objects.
Qed.

Lemma held_detach_all nodes :
  held live me errs any (mem_write (fun r => foldl (fun r idx => node_detach idx r) r nodes)).
Proof.
  apply held_write. intros N0 m Ht. pose proof Ht as (L & F & HP & Hfr & Hnd & Ho).
  assert (surgery m (foldl (fun r n => node_detach n r) m nodes)) as (Hst & Hpid & Hfresh)
    by apply surgery_foldl, surgery_detach.
  assert (pool_ok (foldl (fun r n => node_detach n r) m nodes) (without_all nodes L) F) as HP'.
  { clear - HP. revert m L HP. induction nodes as [|n ns IH]; intros m L HP; cbn [foldl]; [done|].
    by apply IH, detach_pool_ok. }
  split; [eapply holder_step_same; [exact HP|exact HP'|done..|]; intros n Hn; by apply Ho|].
  exists (without_all nodes L), F. split; [done|]. split; [|split; [done|]].
  - intros i Hi. rewrite Hst. intros Hf. unfold without_all. rewrite Hfr by done.
    clear. induction nodes as [|n ns IH]; cbn; [done|exact IH].
  - intros n Hn. rewrite Hpid. unfold owned. rewrite Hfresh. by apply Ho.
Qed.

Lemma keeps_detach_nodes nodes : kp (detach_nodes nodes).
Proof.
  unfold detach_nodes. apply keeps_seq; [apply keeps_tame, passive_tame, passive_any_registered; done|]. intros b.
  destruct b; [|by apply keeps_tame]. apply keeps_if_lock, held_detach_all. done.
Qed.

(** ** The loop *)
Lemma guarded_wait_loop fuel handles owner dl all alert : handles <> [] -> forall nodes seqs last m,
  (nodes = [] \/ length nodes = n_nodes handles alert) -> owns me (nodes ++ N) m ->
  gd (fun b N' _ m' => back b N' m') (wait_loop fuel handles owner dl all alert nodes seqs last) false (nodes ++ N) m.
Proof.
  intros Hne. induction fuel as [|fuel IH]; intros nodes seqs last m Hlen Hm; cbn [wait_loop]; [done|].
  eapply guarded_bind; [|by apply guarded_locked_section].
  intros b N' [out|seq rem nodes' seqs'] m1 H1; cbn [section_end] in H1.
  { intros m2 H2. pose proof H1 as (-> & _). by eapply back_rely. }
  destruct H1 as (->&->&H1&Hlen'). cbv zeta. eapply guarded_bind; [|by apply guarded_spin_phase].
  intros b N' [out|] m2 H2; unfold spin_end in H2; cbn [out_of_spin] in H2.
  { intros m3 H3. pose proof H2 as (-> & _). by eapply back_rely. }
  destruct H2 as (->&->&H2). apply guarded_keeps_bind; [by apply keeps_auto_sweep|done|]. intros _ m3 H3.
  apply guarded_tame_bind; [apply passive_tame, passive_park_slice|done|]. intros [slice|] m4 H4; [|apply IH; auto].
  apply guarded_tame_bind; [apply tame_stat|done|]. intros _ m5 H5.
  apply guarded_tame_bind; [apply tame_futex_wait|done|]. intros ret m6 H6.
  apply guarded_tame_bind; [destruct (_ && _); [apply passive_tame, passive_wake_latency|done]|done|]. intros _ m7 H7.
  apply guarded_keeps_bind; [apply keeps_after_futex|done|]. intros last' m8 H8.
  apply guarded_keeps_bind; [apply keeps_detach_nodes|done|]. intros _ m9 H9. apply IH; auto.
Qed.

Lemma guarded_wait handles owner tmo all alert m : owns me N m ->
  gd (fun b N' _ m' => back b N' m') (wait handles owner tmo all alert) false N m.
Proof.
  intros Hm. unfold wait.
  assert (forall (a : WaitOutcome) m, owns me N m -> gd (fun b N' _ m' => back b N' m') (Ret a) false N m) as Hret.
  { intros a m1 H1 m2 H2. split_and!; [done|by eapply owns_rely|by left]. }
  destruct (bad_args handles owner) eqn:Eb; [by apply Hret|].
  assert (handles <> []) as Hne.
  { intros ->. unfold bad_args in Eb. cbn in Eb. by rewrite orb_true_r in Eb. }
  apply guarded_tame_bind; [apply passive_tame, passive_region|done|]. intros [u|e] m1 H1; [|by apply Hret].
  apply guarded_tame_bind; [apply tame_stat|done|]. intros _ m2 H2.
  apply guarded_tame_bind; [destruct tmo; tames|done|]. intros dl m3 H3.
  apply guarded_tame_bind; [by apply tame_sys|done|]. intros start m4 H4.
  apply guarded_tame_bind; [apply tame_fast_path|done|]. intros [[out|] seqs] m5 H5; cbn [fst snd]; [by apply Hret|].
  apply (guarded_wait_loop loop_fuel handles owner dl all alert Hne []); [by left|done].
Qed.
End wait.

(** ** Signals *)
Section signals.
Context `{!Config} (live : Z -> Prop) (me : Z) (errs : Prop) (Hme : live me).
Abbreviation tm T p := (tame live me errs T p) (only parsing).
Abbreviation kp p := (keeps live me errs any p) (only parsing).

(** Looks its object up, and goes on. *)
Lemma keeps_on_object {A} ty h (k : Z -> action (result A Error)) : (forall i, kp (k i)) ->
  kp (_ <-? region ;; i <-? typed_slot ty h ;; k i).
Proof.
  intros Hk. apply keeps_seq; [apply keeps_tame, passive_tame, passive_region; done|]. intros [u|e]; [|by apply keeps_tame].
  apply keeps_seq; [apply keeps_tame, tame_typed_slot; done|]. intros [i|e]; [apply Hk|by apply keeps_tame].
Qed.

Lemma keeps_stat_then {A} n (p : action A) : kp p -> kp (stat_bump n ;;; p).
Proof. intros Hp. apply keeps_seq; [apply keeps_tame, tame_stat; done|done]. Qed.

Lemma keeps_cas_then {A} i w new (p q : action A) : kp p -> kp q ->
  kp (ok <- cas64 i w new ;; if ok : bool then p else q).
Proof. intros Hp Hq. apply keeps_seq; [apply keeps_tame, tame_cas; done|]. by intros []. Qed.

Lemma keeps_read_then {A B} (f : Region -> B) (k : B -> action A) : (forall b, kp (k b)) -> kp (bind (mem_read f) k).
Proof. intros Hk. apply keeps_seq; [by apply keeps_tame, tame_read|done]. Qed.

Lemma keeps_wake_then {A} i (a : A) : kp (wake_waiters_if_any i ;;; Ret a).
Proof. apply keeps_seq; [by apply keeps_wake_waiters|]. intros _. by apply keeps_tame. Qed.

Lemma keeps_sem_release h n : kp (sem_release h n).
Proof.
  unfold sem_release. apply keeps_on_object. intros i. generalize loop_fuel as fuel.
  induction fuel as [|fuel IH]; cbn [sem_release_loop]; [by apply keeps_tame|].
  apply keeps_read_then. intros w. cbv zeta. apply keeps_stat_then. destruct (_ && _); [|by apply keeps_tame].
  apply keeps_cas_then; [apply keeps_wake_then|exact IH].
Qed.

Lemma keeps_event_set h : kp (event_set h).
Proof.
  unfold event_set. apply keeps_stat_then. apply keeps_on_object. intros i. generalize loop_fuel as fuel.
  induction fuel as [|fuel IH]; cbn [event_set_loop]; [by apply keeps_tame|].
  apply keeps_read_then. intros w. cbv zeta. destruct (negb _); [by apply keeps_tame|].
  apply keeps_cas_then; [apply keeps_wake_then|exact IH].
Qed.

Lemma keeps_event_reset h : kp (event_reset h).
Proof.
  unfold event_reset. apply keeps_stat_then. apply keeps_on_object. intros i. generalize loop_fuel as fuel.
  induction fuel as [|fuel IH]; cbn [event_reset_loop]; [by apply keeps_tame|].
  apply keeps_read_then. intros w. cbv zeta. destruct (_ =? _); [by apply keeps_tame|].
  apply keeps_cas_then; [by apply keeps_tame|exact IH].
Qed.

Lemma keeps_mutex_unlock h owner : kp (mutex_unlock h owner).
Proof.
  unfold mutex_unlock. apply keeps_stat_then. destruct (_ =? _); [by apply keeps_tame|]. apply keeps_on_object. intros i.
  generalize loop_fuel as fuel. induction fuel as [|fuel IH]; cbn [mutex_unlock_loop]; [by apply keeps_tame|].
  apply keeps_read_then. intros w. cbv zeta. destruct (negb _); [by apply keeps_tame|].
  apply keeps_cas_then; [|exact IH]. destruct (_ =? _); [apply keeps_wake_then|by apply keeps_tame].
Qed.

Lemma keeps_mutex_kill h owner : kp (mutex_kill h owner).
Proof.
  unfold mutex_kill. apply keeps_stat_then. destruct (_ =? _); [by apply keeps_tame|]. apply keeps_on_object. intros i.
  generalize loop_fuel as fuel. induction fuel as [|fuel IH]; cbn [mutex_kill_loop]; [by apply keeps_tame|].
  apply keeps_read_then. intros w. cbv zeta. destruct (negb _); [by apply keeps_tame|].
  apply keeps_cas_then; [apply keeps_wake_then|exact IH].
Qed.

Lemma keeps_reads h : kp (read_sem h) /\ kp (read_event h) /\ kp (read_mutex h).
Proof.
  unfold read_sem, read_event, read_mutex. split_and!; apply keeps_on_object; intros i; apply keeps_read_then; intros w; by apply keeps_tame.
Qed.
End signals.
