(* ===== verification/GuardOk.v ===== *)
(** * GuardOk: the waiter lists under every interleaving

    Threads that create, wait, signal, read, retain, release, close and sweep,
    in any order and any interleaving, against a kernel whose lock excludes
    ([LockKernel]): the lists stay well-formed, only the holder of the region
    lock changes them, and every wait gives its nodes back. *)
From S2P Require Import Prelude Prog Config Region Kernel Lock Nodes WaitLists NodePool Policy Sweep Init Slots Objects Wait SlotsOk Interleave InterleaveAll InterleaveWait Guard GuardRules GuardOps GuardLists GuardSlots GuardWait GuardLoop.

(** ** Users of the library *)
(** A call of the library, creation and inspection included. *)
Inductive service : Type :=
| SRequest (q : request)
| SCreateSemaphore (count max : Z)
| SCreateMutex (owner count : Z)
| SCreateEvent (manual signaled : bool)
| SReadSem (handle : Z)
| SReadMutex (handle : Z)
| SReadEvent (handle : Z).

Definition serve `{!Config} (c : service) : action unit :=
  match c with
  | SRequest q => perform q
  | SCreateSemaphore count max => create_semaphore count max ;;; Ret tt
  | SCreateMutex owner count => create_mutex owner count ;;; Ret tt
  | SCreateEvent manual signaled => create_event manual signaled ;;; Ret tt
  | SReadSem h => read_sem h ;;; Ret tt
  | SReadMutex h => read_mutex h ;;; Ret tt
  | SReadEvent h => read_event h ;;; Ret tt
  end.

(** A thread that makes these calls one after the other. *)
Fixpoint user `{!Config} (calls : list service) : action unit :=
  match calls with
  | [] => Ret tt
  | c :: rest => serve c ;;; user rest
  end.

Section user.
Context `{!Config} (live : Z -> Prop) (me : Z) (errs : Prop) (Hme : live me) (Hzero : ~ live 0).
Abbreviation gd Q p b N m := (guarded live me errs Q p b N m) (only parsing).

(** Comes back with the nodes it had. *)
Definition comes_back {A} (p : action A) : Prop :=
  forall N m, owns me N m -> gd (fun b N' _ m' => back me errs N b N' m') p false N m.

Lemma keeps_comes_back {A} (p : action A) : keeps live me errs any p -> comes_back p.
Proof.
  intros Hp N m Hm. eapply guarded_mono; [|by apply Hp]. intros ? ? ? ? (->&->&?&_). split_and!; [done..|by left].
Qed.

Lemma comes_back_seq {A B} (p : action A) (q : A -> action B) :
  comes_back p -> (forall a, comes_back (q a)) -> comes_back (bind p q).
Proof.
  intros Hp Hq N m Hm. eapply guarded_bind; [|by apply Hp]. intros ? N1 a m1 (->&H1&HN1).
  eapply guarded_mono; [|by apply Hq]. intros ? N2 ? m2 (->&H2&HN2). split_and!; [done..|].
  destruct HN1 as [->|?], HN2 as [->|?]; auto.
Qed.

Lemma comes_back_ret {A} (a : A) : comes_back (Ret a).
Proof. by apply keeps_comes_back, keeps_tame. Qed.

Lemma serve_comes_back c : comes_back (serve c).
Proof.
  destruct c as [q| | | | | |]; [destruct q|..]; cbn [serve perform];
    (apply comes_back_seq; [|intros _; apply comes_back_ret]).
  7,8: intros N m Hm; by apply guarded_wait.
  all: apply keeps_comes_back; auto using keeps_sem_release, keeps_event_set, keeps_event_reset, keeps_pulse,
    keeps_mutex_unlock, keeps_mutex_kill, keeps_retain, keeps_release, keeps_close, keeps_sweep_dead.
  - unfold create_semaphore. destruct (_ <? _); [by apply keeps_tame|by apply keeps_create].
  - unfold create_mutex. destruct (_ || _); [by apply keeps_tame|by apply keeps_create].
  - by apply keeps_create.
  - by apply keeps_reads.
  - by apply keeps_reads.
  - by apply keeps_reads.
Qed.

Lemma user_comes_back calls : comes_back (user calls).
Proof.
  induction calls as [|c calls IH]; cbn [user]; [apply comes_back_ret|].
  apply comes_back_seq; [apply serve_comes_back|done].
Qed.
End user.

(** ** Every interleaving *)
Section pools.
Context `{!Config} {G : Type} `{!Kernel Region G} `{!LockKernel G}.

(** About to make its calls. *)
Definition user_thread (th : thread Region Local unit) : Prop :=
  exists calls, code th = user calls /\ mapped (tls th).

Definition node_end (t : nat) (N : list Z) (_ : unit) (_ : Region) : Prop := N = [] \/ lk_errs.

Lemma users_guarded m (g : G) ths L F : pool_ok m L F -> rest m -> lk_holder g = None ->
  Forall user_thread ths -> guarded_pool node_end (owned m F) (fun _ => []) (Pool m g ths).
Proof.
  intros HP Hr Hg Hths. split; cbn [pmem pker threads]; try done.
  - intros t th Ht. destruct (proj1 (Forall_lookup _ _) Hths t th Ht) as (calls & -> & Hl). split; [done|].
    assert (holds g t = false) as -> by (apply holds_false; by rewrite Hg).
    eapply guarded_mono; [|apply (user_comes_back lk_live (lk_pid t) lk_errs (lk_alive t) lk_zero)].
    + by intros b N ? m1 (->&_&?).
    + exists L, F. split_and!; [done|by apply NoDup_nil_2|]. by intros n ?%elem_of_nil.
  - exists L, F. split; [done|]. split; [|by left]. by intros t n ?%elem_of_nil.
  - by intros t u n ?%elem_of_nil.
  - by intros t n _ ?%elem_of_nil.
Qed.

(** Nobody but a thread that steps comes to hold the lock. *)
Lemma holder_changes {A} (Q : nat -> list Z -> A -> Region -> Prop) O Ns s t s' u :
  guarded_pool Q O Ns s -> pool_step t s = Some s' -> lk_holder (pker s') = Some u ->
  lk_holder (pker s) = Some u \/ u = t.
Proof.
  intros Hs. unfold pool_step. destruct (threads s !! t) as [th|] eqn:Ht; [|done].
  destruct (gp_thread _ _ _ _ Hs t th Ht) as [_ Hg]. unfold thread_step.
  destruct (code th) as [a|B f k|B f k|c k| |] eqn:Ec; try done; [intros [= <-]; by left..|].
  destruct (kcall t c (pmem s) (pker s)) as [z g'|g'|] eqn:Ek; [| |done]; intros [= <-]; cbn [pker].
  - cbn [guarded] in Hg. destruct (takes_lock c) eqn:E1.
    + pose proof (lk_lock _ _ _ _ _ _ E1 Ek) as Hl. destruct (granted z).
      * destruct Hl as [_ ->]. intros [= ->]. by right.
      * destruct Hl as [-> _]. by left.
    + destruct (drops_lock c) eqn:E2.
      * destruct c; try done. destruct Hg as [Hh _]. apply holds_true in Hh.
        by rewrite (lk_unlock _ _ _ _ _ Hh Ek).
      * rewrite (lk_other _ _ _ _ _ _ E1 E2 Ek). by left.
  - rewrite (lk_sleep _ _ _ _ _ Ek). by left.
Qed.

(** The invariant of all reachable states: guarded, and the lock is free or a
    thread's. *)
Definition guarded_run (F : list Z) (m : Region) (n : nat) (s : pool Region Local G unit) : Prop :=
  (exists Ns, guarded_pool node_end (owned m F) Ns s) /\ length (threads s) = n /\
  (forall u, lk_holder (pker s) = Some u -> (u < n)%nat).

Lemma users_run m (g : G) ths L F s' : pool_ok m L F -> rest m -> lk_holder g = None ->
  Forall user_thread ths -> steps (Pool m g ths) s' -> guarded_run F m (length ths) s'.
Proof.
  intros HP Hr Hg Hths Hs.
  assert (guarded_run F m (length ths) (Pool m g ths)) as H0.
  { split; [eexists; by eapply users_guarded|]. split; [done|]. cbn [pker]. rewrite Hg. done. }
  clear HP Hr Hg Hths. induction Hs as [s|t s s1 s2 Hstep _ IH]; [done|]. apply IH. clear IH.
  destruct H0 as ((Ns & Hgp) & Hlen & Hh). destruct (guarded_pool_step _ _ _ _ _ _ Hgp Hstep) as [Hgp' _].
  assert (length (threads s1) = length (threads s) /\ (t < length (threads s))%nat) as [Hlen1 Ht].
  { revert Hstep. unfold pool_step. destruct (threads s !! t) as [th|] eqn:Et; [|done].
    destruct (thread_step _ _ _ _) as [[[m1 g1] th1]|]; [|done]. intros [= <-]. cbn [threads].
    rewrite length_insert. split; [done|]. by eapply lookup_lt_Some. }
  split; [done|]. split; [lia|]. intros u Hu.
  destruct (holder_changes _ _ _ _ _ _ _ Hgp Hstep Hu) as [?| ->]; [by apply Hh|lia].
Qed.

(** C2: The region lock guards the waiter lists.  Any number of threads
    create, wait for any or for all, signal, read, retain, release, close and
    sweep, under any interleaving of their memory accesses.  In every state
    that is reached the waiter lists and the free list are well-formed: doubly
    linked, without cycles, no node on two of them or on one and free; whenever
    nobody holds the lock no free slot has a waiter; and every step that
    changes more than words, pulse counts and futex words is a step of the
    thread that holds the lock. *)
Theorem lock_guards_lists m (g : G) ths s' :
  rest m -> lk_holder g = None -> Forall user_thread ths -> steps (Pool m g ths) s' ->
  (exists L F, pool_ok (pmem s') L F) /\ (lk_holder (pker s') = None -> rest (pmem s')) /\
  (forall t s'', pool_step t s' = Some s'' ->
     same_lists (pmem s') (pmem s'') \/ lk_holder (pker s') = Some t).
Proof.
  intros Hr Hg Hths Hs. pose proof Hr as (L & F & HP & _).
  destruct (users_run m g ths L F s' HP Hr Hg Hths Hs) as ((Ns & Hgp) & _).
  destruct (gp_lists _ _ _ _ Hgp) as (L' & F' & HP' & _). split; [by exists L', F'|].
  split; [apply (gp_rest _ _ _ _ Hgp)|]. intros t s'' Hstep. eapply guarded_pool_step; [exact Hgp|exact Hstep].
Qed.

(** C3: No node is lost.  If no lock call fails, then when all threads have
    returned from all their calls, whatever the interleaving was, the lock is
    free, the lists are as they are at rest, and every waiter node that is not
    in the free list was in nobody's hands from the start: each wait has
    unlinked its nodes and put them back. *)
Theorem nodes_come_back m (g : G) ths s' L F L' F' :
  rest m -> lk_holder g = None -> Forall user_thread ths -> steps (Pool m g ths) s' -> ~ lk_errs ->
  Forall (fun th => code th = Ret tt) (threads s') ->
  lk_holder (pker s') = None /\ rest (pmem s') /\
  (pool_ok m L F -> pool_ok (pmem s') L' F' -> forall n, owned (pmem s') F' n -> owned m F n).
Proof.
  intros Hr Hg Hths Hs Herr Hret. pose proof Hr as (L0 & F0 & HP0 & _).
  destruct (users_run m g ths L0 F0 s' HP0 Hr Hg Hths Hs) as ((Ns & Hgp) & Hlen & Hh).
  assert (forall t, (t < length (threads s'))%nat -> holds (pker s') t = false /\ Ns t = []) as Hend.
  { intros t Ht. destruct (lookup_lt_is_Some_2 _ _ Ht) as [th Hth].
    destruct (gp_thread _ _ _ _ Hgp t th Hth) as [_ Hend].
    rewrite (proj1 (Forall_lookup _ _) Hret t th Hth) in Hend. destruct (Hend _ (others_refl _ _ _ _)) as (?&[?|?]); done. }
  assert (lk_holder (pker s') = None) as Hfree.
  { destruct (lk_holder (pker s')) as [u|] eqn:Eu; [|done]. pose proof (Hh u eq_refl) as Hu.
    destruct (Hend u) as [Hno _]; [lia|]. apply holds_false in Hno. by rewrite Eu in Hno. }
  split; [done|]. split; [by apply (gp_rest _ _ _ _ Hgp)|]. intros HP HP' n Hn.
  destruct (gp_lists _ _ _ _ Hgp) as (L1 & F1 & HP1 & _ & Hall).
  rewrite (pool_free_unique _ _ _ _ _ HP' HP1) in Hn. rewrite (pool_free_unique _ _ _ _ _ HP HP0).
  destruct (Hall n Hn) as [?|(t & Ht)]; [done|].
  destruct (decide (t < length (threads s'))%nat) as [Hlt|Hge].
  - destruct (Hend t Hlt) as [_ E]. rewrite E in Ht. by apply elem_of_nil in Ht.
  - rewrite (gp_only _ _ _ _ Hgp) in Ht by lia. by apply elem_of_nil in Ht.
Qed.
End pools.

(** ** The executable kernel excludes *)
Section sim.
Context (pids : nat -> Z) (alive : Z -> bool).
Context (Hpids : forall t, alive (pids t) = true) (Hzero : alive 0 = false).
Context (Halive : forall p, alive (as_i32 p) = alive p).
#[local] Instance sim_is_kernel : Kernel Region Sim.sim := Sim.sim_call pids alive.

Program Definition sim_lock_kernel : LockKernel Sim.sim := {|
  lk_holder := Sim.sim_lock;
  lk_pid := pids;
  lk_live p := alive p = true;
  lk_errs := False;
|}.
Next Obligation.
  intros t c m g z g' Hc. unfold kcall, sim_is_kernel, Sim.sim_call, Sim.sim_acquire.
  destruct c; try discriminate Hc; (destruct (Sim.sim_lock g) eqn:E; [done|]); by intros [= <- <-].
Qed.
Next Obligation. by intros t m g z g' _ [= <- <-]. Qed.
Next Obligation.
  intros t c m g z g' H1 H2. unfold kcall, sim_is_kernel, Sim.sim_call, Sim.sim_futex_wait.
  destruct c; try done; try (by intros [= <- <-]). repeat case_match; by intros [= <- <-].
Qed.
Next Obligation.
  intros t c m g g'. unfold kcall, sim_is_kernel, Sim.sim_call, Sim.sim_futex_wait, Sim.sim_acquire.
  destruct c; try done; repeat case_match; try done; by intros [= <-].
Qed.
Next Obligation. by intros t m g z g' [= <- <-]. Qed.
Next Obligation.
  intros t p m g g' Hk q Hq <-. unfold kcall, sim_is_kernel, Sim.sim_call in Hk. rewrite Halive, Hq in Hk. done.
Qed.
Next Obligation. apply Hpids. Qed.
Next Obligation. congruence. Qed.
End sim.
