(* ===== verification/Watch.v ===== *)
(** * Watch: whoever may wake a sleeper is on its way

    The second discipline of programs, on top of [guarded].  Its ghost state is
    what a thread has in mind: the objects it has made available and whose
    waiters it has yet to wake, the waiter it has taken off a list and has yet
    to wake, and, if it is about to sleep, what it has seen.  [mindful] says of a
    program that it keeps all this in mind. *)
From S2P Require Import Prelude Prog Config Region Kernel Lock Nodes WaitLists NodePool Objects Wait Interleave Guard.

(** ** Availability *)
(** The word of an object that anybody could acquire. *)
Definition ready_word (ty w : Z) : bool :=
  if ty =? TYPE_SEM then 0 <? lo32 w
  else if ty =? TYPE_MUTEX then (lo32 w =? 0) && (m_count w <? 0x7fffffff)
  else if ty =? TYPE_EVENT then negb (lo32 w =? 0)
  else false.

Definition available (m : Region) (i : Z) : Prop :=
  ready_word (s_obj_type (slot_ptr m i)) (s_w0 (slot_ptr m i)) = true.

(** ** What a thread has in mind *)
(** The waiter in its hand: taken off a list, or bumped. *)
Inductive hand : Type :=
| HNone
| HBump (word : Z)
| HWake (word : Z).

(** What a thread that is about to sleep has seen: its futex word, and its
    nodes on objects that were not available. *)
Record watch : Type := mkWatch {
  w_head : Z;
  w_seq : Z;
  w_pairs : list (Z * Z);
}.

Record mind : Type := mkMind {
  md_duty : list Z;          (* objects whose waiters it has yet to wake *)
  md_hand : hand;
  md_watch : option watch;
}.

Definition blank : mind := mkMind [] HNone None.
Definition with_hand (h : hand) (x : mind) : mind := mkMind (md_duty x) h (md_watch x).
Definition with_watch (w : option watch) (x : mind) : mind := mkMind (md_duty x) (md_hand x) w.
Definition with_duty (d : list Z) (x : mind) : mind := mkMind d (md_hand x) (md_watch x).

Definition saw (n i : Z) (w : watch) : watch := mkWatch (w_head w) (w_seq w) ((n, i) :: w_pairs w).

(** ** Registrations *)
Definition registered (m : Region) (n : Z) : Prop := n_registered (node_ptr m n) <> 0.

#[export] Instance registered_dec m n : Decision (registered m n).
Proof. unfold registered. apply _. Defined.

(** A registration is for an object and a futex word. *)
Definition same_post (m m' : Region) (n : Z) : Prop :=
  n_obj (node_ptr m' n) = n_obj (node_ptr m n) /\ n_wait_word (node_ptr m' n) = n_wait_word (node_ptr m n).

Definition same_seqs (m m' : Region) : Prop := forall n, n_seq (node_ptr m' n) = n_seq (node_ptr m n).

(** Without waiters, the head says so. *)
Definition headed (m : Region) (i : Z) : Prop :=
  s_waiter_head (slot_ptr m i) = NIL \/ exists n, registered m n /\ n_obj (node_ptr m n) = i.

(** The nodes are taken, and marked with the thread's process. *)
Definition mine (me : Z) (N : list Z) (m : Region) : Prop :=
  exists L F, pool_ok m L F /\ forall n, n ∈ N -> owned m F n /\ n_pid (node_ptr m n) = me.

(** ** Mindful programs *)
Section mindful.
Context (live : Z -> Prop) (me : Z) (errs : Prop) (K : Z -> Z) (T : list Z -> Prop).

(** [K]: the type of the object in each slot; a slot with an object that can be
    waited for has a proper list of waiters, even after it was freed. *)
Definition typed (m : Region) : Prop :=
  (forall i, s_obj_type (slot_ptr m i) = K i) /\ forall i, is_waitable (K i) = true -> headed m i.

(** What a thread may begin or stop to watch. *)
Inductive looks (b : bool) (N' : list Z) (x x' : mind) (m' : Region) : Prop :=
| looks_same : md_watch x' = md_watch x -> looks b N' x x' m'
| looks_away : md_watch x' = None -> looks b N' x x' m'
| looks_up h : b = true -> md_hand x' = HNone -> h ∈ N' ->
    md_watch x' = Some (mkWatch h (n_seq (node_ptr m' h)) []) -> looks b N' x x' m'
| looks_on w n i : md_watch x = Some w -> md_watch x' = Some (saw n i w) -> n ∈ N' ->
    registered m' n -> n_obj (node_ptr m' n) = i -> n_wait_word (node_ptr m' n) = w_head w ->
    ~ available m' i -> looks b N' x x' m'.

(** A step either leaves the registrations of others alone, or takes a waiter
    off a list into the hand, or bumps the futex word of the waiter in it. *)
Inductive moves (b : bool) (N N' : list Z) (x x' : mind) (m m' : Region) : Prop :=
| moves_quiet : md_hand x' = md_hand x -> same_seqs m m' ->
    (forall n, registered m' n -> (registered m n /\ same_post m m' n) \/
       (n ∈ N' /\ n_wait_word (node_ptr m' n) ∈ N' /\ md_watch x' = None)) ->
    (forall n, registered m n -> live (n_pid (node_ptr m n)) \/ n ∈ N ->
       registered m' n \/ (n ∈ N /\ md_watch x' = None)) ->
    looks b N' x x' m' -> moves b N N' x x' m m'
| moves_detach n : b = true -> md_hand x = HNone -> md_hand x' = HBump (n_wait_word (node_ptr m n)) ->
    md_watch x' = md_watch x -> same_seqs m m' -> registered m n -> ~ registered m' n ->
    (forall k, k <> n -> (registered m' k <-> registered m k)) ->
    (forall k, registered m' k -> same_post m m' k) -> moves b N N' x x' m m'
| moves_bump w : b = true -> md_hand x = HBump w -> md_hand x' = HWake w -> md_watch x' = md_watch x ->
    n_seq (node_ptr m' w) = wrap32 (n_seq (node_ptr m w) + 1) ->
    (forall n, n <> w -> n_seq (node_ptr m' n) = n_seq (node_ptr m n)) ->
    (forall k, registered m' k <-> registered m k) -> (forall k, same_post m m' k) -> moves b N N' x x' m m'.

Record mind_step (b : bool) (N N' : list Z) (x x' : mind) (m m' : Region) : Prop := {
  ms_typed : typed m';
  (** who makes an object available has its waiters to wake *)
  ms_rise i : available m' i -> available m i \/ i ∈ md_duty x';
  ms_duty i : i ∈ md_duty x -> i ∈ md_duty x' \/ s_waiter_head (slot_ptr m' i) = NIL;
  (** a node that is watched is not given away *)
  ms_keep n : n ∈ N -> n ∈ N' \/ md_watch x' = None;
  ms_moves : moves b N N' x x' m m';
}.

(** What others do meanwhile. *)
Record meanwhile (b : bool) (N : list Z) (m m' : Region) : Prop := {
  mw_others : others_do live b N m m';
  mw_typed : typed m -> typed m';
  mw_post n : n ∈ N -> registered m' n -> registered m n /\ same_post m m' n;
  mw_seqs : b = true -> same_seqs m m';
}.

Fixpoint mindful {A} (Q : bool -> list Z -> mind -> A -> Region -> Prop) (p : action A)
  (b : bool) (N : list Z) (x : mind) (m : Region) : Prop :=
  match p with
  | Ret a => forall m', meanwhile b N m m' -> typed m' -> Q b N x a m'
  | Panic | OutOfFuel => True
  | Mem f k => forall m' N', meanwhile b N m m' -> typed m' -> own_step live b N N' m' (snd (f m')) ->
      exists x', mind_step b N N' x x' m' (snd (f m')) /\ mindful Q (k (fst (f m'))) b N' x' (snd (f m'))
  | Loc f k => forall l, mapped l -> mindful Q (k (fst (f l))) b N x m
  | Sys c k =>
      match c with
      | MutexLock | MutexTimedlock _ => b = false /\ forall m' z, meanwhile false N m m' -> typed m' ->
          answers live me errs c z -> (granted z = true -> rest m' /\ mine me N m') ->
          mindful Q (k z) (granted z) N x m'
      | MutexUnlock => md_hand x = HNone /\ forall m' z, meanwhile b N m m' -> mindful Q (k z) false N x m'
      | FutexWake w => md_hand x = HWake w /\ forall z, mindful Q (k z) b N (with_hand HNone x) m
      | FutexWait n e _ => b = false /\ (md_duty x = [] \/ errs) /\ md_hand x = HNone /\
          (exists w, md_watch x = Some w /\ w_head w = n /\ w_seq w = e /\ T (map snd (w_pairs w))) /\
          forall z, mindful Q (k z) b N x m
      | _ => forall z, answers live me errs c z -> mindful Q (k z) b N x m
      end
  end.
End mindful.

Section rules.
Context (live : Z -> Prop) (me : Z) (errs : Prop) (K : Z -> Z) (T : list Z -> Prop).
Abbreviation mf Q p b N x m := (mindful live me errs K T Q p b N x m) (only parsing).

Lemma meanwhile_refl b N m : meanwhile live K b N m m.
Proof. split; [apply others_refl|done..]. Qed.

Lemma meanwhile_trans b N m1 m2 m3 :
  meanwhile live K b N m1 m2 -> meanwhile live K b N m2 m3 -> meanwhile live K b N m1 m3.
Proof.
  intros [A1 A2 A3 A4] [B1 B2 B3 B4]. split.
  - by eapply others_trans.
  - auto.
  - intros n Hn Hr. destruct (B3 n Hn Hr) as [Hr2 [E1 E2]]. destruct (A3 n Hn Hr2) as [Hr1 [E3 E4]].
    split; [done|]. split; congruence.
  - intros Hb n. by rewrite B4, A4.
Qed.

Lemma meanwhile_typed b N m m' : meanwhile live K b N m m' -> typed K m -> typed K m'.
Proof. apply mw_typed. Qed.

Lemma mindful_later {A} (Q : bool -> list Z -> mind -> A -> Region -> Prop) (p : action A) b N : forall x m m',
  meanwhile live K b N m m' -> mf Q p b N x m -> mf Q p b N x m'.
Proof.
  induction p as [a|B f k IH|B f k IH|c k IH| |]; cbn [mindful]; intros x m m' Hm; auto.
  - intros HQ m2 H2. apply HQ. by eapply meanwhile_trans.
  - intros Hp m2 N2 H2. apply Hp. by eapply meanwhile_trans.
  - intros Hp l Hl. eapply IH; eauto.
  - destruct c; try (intros Hp z Hz; eapply IH; by eauto).
    + intros [-> Hp]. split; [done|]. intros m2 z H2. apply Hp. by eapply meanwhile_trans.
    + intros [-> Hp]. split; [done|]. intros m2 z H2. apply Hp. by eapply meanwhile_trans.
    + intros [Hh Hp]. split; [done|]. intros m2 z H2. apply Hp. by eapply meanwhile_trans.
    + intros (-> & Hd & Hh & Hw & Hp). split_and!; [done..|]. intros z. eapply IH; eauto.
    + intros [Hh Hp]. split; [done|]. intros z. eapply IH; eauto.
Qed.

Lemma mindful_mono {A} (Q Q' : bool -> list Z -> mind -> A -> Region -> Prop) (p : action A) :
  (forall b N x a m, Q b N x a m -> Q' b N x a m) -> forall b N x m, mf Q p b N x m -> mf Q' p b N x m.
Proof.
  intros HQ. induction p as [a|B f k IH|B f k IH|c k IH| |]; cbn [mindful]; intros b N x m; auto.
  - intros Hp m2 N2 H2 Ht Ho. destruct (Hp m2 N2 H2 Ht Ho) as (x' & H1 & H3). eauto.
  - destruct c; auto.
    + intros [-> Hp]. auto.
    + intros [-> Hp]. auto.
    + intros [Hh Hp]. auto.
    + intros (-> & Hd & Hh & Hw & Hp). split_and!; auto.
    + intros [Hh Hp]. auto.
Qed.

Lemma mindful_bind {A B} (P : bool -> list Z -> mind -> A -> Region -> Prop)
  (Q : bool -> list Z -> mind -> B -> Region -> Prop) (p : action A) (q : A -> action B) :
  (forall b N x a m, typed K m -> P b N x a m -> mf Q (q a) b N x m) ->
  forall b N x m, typed K m -> mf P p b N x m -> mf Q (bind p q) b N x m.
Proof.
  intros Hq. induction p as [a|C f k IH|C f k IH|c k IH| |]; cbn [mindful bind]; intros b N x m Ht; auto.
  - intros Hp. apply Hq; [done|]. apply Hp; [apply meanwhile_refl|done].
  - intros Hp m2 N2 H2 Ht2 Ho. destruct (Hp m2 N2 H2 Ht2 Ho) as (x' & H1 & H3).
    exists x'. split; [done|]. apply IH; [|done]. by eapply ms_typed.
  - destruct c; auto.
    + intros [-> Hp]. split; [done|]. intros m2 z H2 Ht2. auto.
    + intros [-> Hp]. split; [done|]. intros m2 z H2 Ht2. auto.
    + intros [Hh Hp]. split; [done|]. intros m2 z H2. apply IH; [|by apply Hp]. by eapply meanwhile_typed.
    + intros (-> & Hd & Hh & Hw & Hp). split_and!; auto.
    + intros [Hh Hp]. auto.
Qed.
End rules.

(** ** Registrations and the lists *)
(** A registered node is in the table, and on the list of its object. *)
Lemma registered_range m L n : lists_ok m L -> registered m n -> 0 <= n < NODE_COUNT.
Proof.
  intros HL Hr. pose proof (lo_range _ _ HL _ _ (lo_cov _ _ HL n Hr)).
  pose proof (lo_fresh _ _ HL). lia.
Qed.

Lemma registered_head m L n : lists_ok m L -> registered m n -> s_waiter_head (slot_ptr m (n_obj (node_ptr m n))) <> NIL.
Proof.
  intros HL Hr Hh. pose proof (lo_cov _ _ HL n Hr) as Hin. set (i := n_obj (node_ptr m n)) in *.
  rewrite (lo_head _ _ HL i) in Hh by (left; by intros E; rewrite E in Hin; apply elem_of_nil in Hin).
  pose proof (lo_range _ _ HL i) as Hb. pose proof (lo_fresh _ _ HL). destruct (L i) as [|k l]; [by apply elem_of_nil in Hin|].
  cbn [hd] in Hh. specialize (Hb k ltac:(left)). unfold NODE_COUNT, NIL in *. lia.
Qed.

Lemma same_registered m m' n : same_lists m m' -> (registered m' n <-> registered m n) /\ same_post m m' n.
Proof.
  intros Hs. destruct (same_node _ _ Hs n) as (E1&E2&_). unfold registered, same_post. rewrite E1.
  pose proof (sl_node _ _ Hs n) as E. destruct (node_ptr m n), (node_ptr m' n). cbn in *. by simplify_eq.
Qed.

Lemma headed_same m m' i : same_lists m m' -> headed m i -> headed m' i.
Proof.
  intros Hs. unfold headed. destruct (same_slot _ _ Hs i) as (_ & -> & _). intros [?|(n & Hr & <-)]; [by left|].
  right. exists n. destruct (same_registered _ _ n Hs) as [E [-> _]]. by rewrite E.
Qed.
