(* ===== verification/WatchPool.v ===== *)
(** * WatchPool: any number of mindful threads

    [mind_steps] is the soundness theorem of the discipline: every state of every
    interleaving of mindful threads keeps what they have in mind true.
    [sleepers_right] is what it is for: when everybody has returned or sleeps,
    nobody sleeps on an object that is available. *)
From S2P Require Import Prelude Prog Config Region Kernel Lock Nodes WaitLists NodePool Objects Wait Interleave Guard Watch.

(** ** Counting registrations *)
(** How many registered nodes carry a futex word. *)
Definition posts (m : Region) (h : Z) : nat :=
  length (filter (fun n => registered m n /\ n_wait_word (node_ptr m n) = h) (seqZ 0 NODE_COUNT)).

Lemma posts_bound m h : Z.of_nat (posts m h) <= NODE_COUNT.
Proof.
  unfold posts. etrans; [apply inj_le, length_filter|]. rewrite length_seqZ, Z2Nat.id; [done|].
  unfold NODE_COUNT. lia.
Qed.

Lemma filter_le {A} (P P' : A -> Prop) `{!forall x, Decision (P x), !forall x, Decision (P' x)} l :
  (forall x, P' x -> P x) -> (length (filter P' l) <= length (filter P l))%nat.
Proof.
  intros HP. induction l as [|x l IH]; [done|]. rewrite !filter_cons.
  destruct (decide (P' x)), (decide (P x)); cbn [length]; try lia. naive_solver.
Qed.

Lemma filter_lt {A} (P P' : A -> Prop) `{!forall x, Decision (P x), !forall x, Decision (P' x)} l y :
  (forall x, P' x -> P x) -> y ∈ l -> P y -> ~ P' y -> (length (filter P' l) < length (filter P l))%nat.
Proof.
  intros HP Hy Hp Hn. induction l as [|x l IH]; [by apply elem_of_nil in Hy|]. rewrite !filter_cons.
  apply elem_of_cons in Hy as [->|Hy].
  - rewrite (decide_True _ _ Hp), (decide_False _ _ Hn). cbn [length]. pose proof (filter_le P P' l HP). lia.
  - specialize (IH Hy). destruct (decide (P' x)), (decide (P x)); cbn [length]; try lia. naive_solver.
Qed.

Lemma posts_le m m' h :
  (forall n, registered m' n -> n_wait_word (node_ptr m' n) = h ->
     registered m n /\ n_wait_word (node_ptr m n) = h) -> (posts m' h <= posts m h)%nat.
Proof. intros Hn. apply filter_le. naive_solver. Qed.

Lemma posts_lt m m' h n :
  (forall n, registered m' n -> n_wait_word (node_ptr m' n) = h ->
     registered m n /\ n_wait_word (node_ptr m n) = h) ->
  0 <= n < NODE_COUNT -> registered m n -> n_wait_word (node_ptr m n) = h -> ~ registered m' n ->
  (posts m' h < posts m h)%nat.
Proof.
  intros Hn Hr H1 H2 H3. apply (filter_lt _ _ _ n); [naive_solver| |done|naive_solver].
  apply elem_of_seqZ. lia.
Qed.

(** ** Soundness *)
(** A kernel whose futex calls put to sleep and wake: only a thread that finds
    the expected word falls asleep, only calls of its own and of those who wake
    it wake it, and a wake-up of a word wakes one who sleeps on it. *)
Class FutexKernel (G : Type) `{!Kernel Region G} := {
  fk_wf : G -> Prop;
  fk_asleep : G -> nat -> Z -> Prop;
  fk_wf_answer t c m g z g' : fk_wf g -> kcall t c m g = Answer z g' -> fk_wf g';
  fk_wf_sleep t c m g g' : fk_wf g -> kcall t c m g = Sleep g' -> fk_wf g';
  fk_answer t c m g z g' u n : fk_wf g -> kcall t c m g = Answer z g' -> fk_asleep g' u n -> fk_asleep g u n;
  fk_back t n e tmo m g z g' k : fk_wf g -> kcall t (FutexWait n e tmo) m g = Answer z g' -> ~ fk_asleep g' t k;
  fk_wake t w m g z g' u : fk_wf g -> kcall t (FutexWake w) m g = Answer z g' -> fk_asleep g' u w ->
    exists v, v <> u /\ fk_asleep g v w;
  fk_sleep t c m g g' u n : fk_wf g -> kcall t c m g = Sleep g' -> fk_asleep g' u n -> fk_asleep g u n \/
    (u = t /\ exists e tmo, c = FutexWait n e tmo /\ n_seq (node_ptr m n) = e);
}.

Section soundness.
Context {G : Type} `{!Kernel Region G} `{!LockKernel G} `{!FutexKernel G} {A : Type}.
Implicit Types (s : pool Region Local G A).
Context (K : Z -> Z) (T : nat -> list Z -> Prop).
Context (QG : nat -> list Z -> A -> Region -> Prop) (QM : nat -> bool -> list Z -> mind -> A -> Region -> Prop).

Abbreviation mft t p b N x m :=
  (mindful lk_live (lk_pid t) lk_errs K (T t) (QM t) p b N x m) (only parsing).

(** Whether the waiter in the holder's hand is yet to be bumped. *)
Definition pending (g : G) (xs : nat -> mind) (h : Z) : Z :=
  match lk_holder g with
  | Some u => match md_hand (xs u) with HBump w => if w =? h then 1 else 0 | _ => 0 end
  | None => 0
  end.

(** The futex word has been bumped [k] times since it was looked at.  As long
    as it has not, and nobody is about to, all nodes are registered where they
    were seen to be, and who made an object available has its waiters to wake. *)
Record watch_ok (m : Region) (g : G) (xs : nat -> mind) (N : list Z) (w : watch) : Prop := {
  wo_head : w_head w ∈ N;
  wo_pairs n i : (n, i) ∈ w_pairs w -> n ∈ N;
  wo_count : exists k, 0 <= k /\
    n_seq (node_ptr m (w_head w)) = (if k =? 0 then w_seq w else wrap32 (w_seq w + k)) /\
    k + Z.of_nat (posts m (w_head w)) + pending g xs (w_head w) <= NODE_COUNT /\
    (k = 0 -> pending g xs (w_head w) = 0 -> forall n i, (n, i) ∈ w_pairs w ->
       registered m n /\ n_obj (node_ptr m n) = i /\ n_wait_word (node_ptr m n) = w_head w /\
       (available m i -> exists u, i ∈ md_duty (xs u)));
}.

Record mind_pool (Ns : nat -> list Z) (xs : nat -> mind) (s : pool Region Local G A) : Prop := {
  mp_typed : typed K (pmem s);
  mp_wf : fk_wf (pker s);
  mp_thread t th : threads s !! t = Some th -> mft t (code th) (holds (pker s) t) (Ns t) (xs t) (pmem s);
  mp_hand t : holds (pker s) t = false -> md_hand (xs t) = HNone;
  mp_watch t w : md_watch (xs t) = Some w -> watch_ok (pmem s) (pker s) xs (Ns t) w;
  mp_asleep t n : fk_asleep (pker s) t n -> exists th e tmo k, threads s !! t = Some th /\
    code th = Sys (FutexWait n e tmo) k /\
    (n_seq (node_ptr (pmem s) n) = e \/ exists u, md_hand (xs u) = HWake n);
  mp_only t : (length (threads s) <= t)%nat -> xs t = blank;
}.

Definition recall (t : nat) (x : mind) (xs : nat -> mind) (u : nat) : mind :=
  if decide (u = t) then x else xs u.

Lemma recall_self t x xs : recall t x xs t = x.
Proof. unfold recall. by rewrite decide_True. Qed.
Lemma recall_other t x xs u : u <> t -> recall t x xs u = xs u.
Proof. intros Hu. unfold recall. by rewrite decide_False. Qed.

(** *** A step in memory *)
Section step.
Context (m m' : Region) (g : G) (xs : nat -> mind) (Ns : nat -> list Z) (t : nat) (x' : mind) (N' : list Z).
Context (b : bool) (Hb : b = holds g t) (Hms : mind_step lk_live K b (Ns t) N' (xs t) x' m m').
Context (L' : Z -> list Z) (HL' : lists_ok m' L') (L : Z -> list Z) (HL : lists_ok m L).
Context (Hhand : forall u, holds g u = false -> md_hand (xs u) = HNone).
Context (Hdis : forall u n, u <> t -> n ∈ Ns u -> (n ∉ Ns t) /\ (n ∉ N')).
(** Others' registrations survive unless a waiter is taken into the hand. *)
Context (Hlive : forall u n, u <> t -> n ∈ Ns u -> b = true -> lk_live (n_pid (node_ptr m n))).
Context (Hsame : b = false -> same_lists m m').
Let xs' := recall t x' xs.

Lemma holds_one u : holds g t = true -> u <> t -> holds g u = false.
Proof. intros H%holds_true Hu. apply holds_false. rewrite H. congruence. Qed.

Lemma pending_step h : pending g xs' h =
  if holds g t then match md_hand x' with HBump w => if w =? h then 1 else 0 | _ => 0 end else pending g xs h.
Proof.
  unfold pending, holds. destruct (lk_holder g) as [u|]; [|done].
  destruct (decide (u = t)) as [->|Hne].
  - rewrite bool_decide_true by done. unfold xs'. by rewrite recall_self.
  - rewrite bool_decide_false by congruence. unfold xs'. by rewrite recall_other.
Qed.

Lemma pending_now h : holds g t = true ->
  pending g xs h = match md_hand (xs t) with HBump w => if w =? h then 1 else 0 | _ => 0 end.
Proof. intros H%holds_true. unfold pending. by rewrite H. Qed.

(** What becomes available is somebody's duty, and stays it. *)
Lemma duty_step n i : registered m' n -> n_obj (node_ptr m' n) = i ->
  (available m i -> exists u, i ∈ md_duty (xs u)) -> available m' i -> exists u, i ∈ md_duty (xs' u).
Proof.
  intros Hr Ho Hd Ha. destruct (ms_rise _ _ _ _ _ _ _ _ _ Hms i Ha) as [Ha0|Hin].
  2: { exists t. unfold xs'. by rewrite recall_self. }
  destruct (Hd Ha0) as [u Hu]. destruct (decide (u = t)) as [->|Hne].
  - exists t. unfold xs'. rewrite recall_self. destruct (ms_duty _ _ _ _ _ _ _ _ _ Hms i Hu) as [?|Hnil]; [done|].
    subst i. by destruct (registered_head m' L' n).
  - exists u. unfold xs'. by rewrite recall_other.
Qed.

Lemma holding : b = true -> holds g t = true.
Proof. by rewrite Hb. Qed.

Section quiet.
Context (Hquiet : md_hand x' = md_hand (xs t))
  (Hseq : same_seqs m m')
  (Hnew : forall n, registered m' n -> (registered m n /\ same_post m m' n) \/
       (n ∈ N' /\ n_wait_word (node_ptr m' n) ∈ N' /\ md_watch x' = None))
  (Hold : forall n, registered m n -> lk_live (n_pid (node_ptr m n)) \/ n ∈ Ns t ->
       registered m' n \/ (n ∈ Ns t /\ md_watch x' = None)).

(** A node of a thread that watches stays where it is. *)
Lemma untouched_node u n : (u = t -> md_watch x' <> None) -> n ∈ Ns u -> registered m n ->
  registered m' n /\ same_post m m' n.
Proof.
  intros Hu Hn Hr. assert (registered m' n) as Hr'.
  { destruct (decide (u = t)) as [->|Hne].
    - destruct (Hold n Hr (or_intror Hn)) as [?|[_ ?]]; [done|]. by destruct (Hu eq_refl).
    - destruct b eqn:Eb.
      + destruct (Hold n Hr (or_introl (Hlive u n Hne Hn eq_refl))) as [?|[Hin _]]; [done|]. by destruct (Hdis u n Hne Hn).
      + by apply (proj1 (same_registered m m' n (Hsame eq_refl))). }
  split; [done|]. destruct (Hnew n Hr') as [[_ ?]|(Hin & _ & Hw)]; [done|].
  destruct (decide (u = t)) as [->|Hne]; [by destruct (Hu eq_refl)|]. by destruct (Hdis u n Hne Hn).
Qed.

Lemma quiet_watch u w N0 : (u = t -> md_watch x' <> None) -> (forall n, n ∈ Ns u -> n ∈ N0) ->
  watch_ok m g xs (Ns u) w -> watch_ok m' g xs' N0 w.
Proof.
  intros Hu HN [Hhd Hpr (k & Hk & Hsq & Hcnt & Hprs)]. split; [by apply HN|intros n i Hin; by eapply HN, Hpr|].
  assert (pending g xs' (w_head w) = pending g xs (w_head w)) as Epend.
  { rewrite pending_step. destruct (holds g t) eqn:E; [|done]. by rewrite pending_now, Hquiet. }
  assert (posts m' (w_head w) <= posts m (w_head w))%nat.
  { apply posts_le. intros n Hr Hw. destruct (Hnew n Hr) as [[? [_ E]]|(Hin & Hin2 & Hn)]; [by rewrite <- E|].
    rewrite Hw in Hin2. destruct (decide (u = t)) as [->|Hne]; [by destruct (Hu eq_refl)|].
    by destruct (Hdis u _ Hne Hhd). }
  exists k. rewrite Hseq, Epend. split_and!; [done..|lia|]. intros Hk0 Hp n i Hin.
  destruct (Hprs Hk0 Hp n i Hin) as (Hr & Ho & Hw & Ha).
  destruct (untouched_node u n Hu (Hpr _ _ Hin) Hr) as [Hr' [E1 E2]]. rewrite E1, E2. split_and!; [done..|].
  apply (duty_step n); [done|congruence|done].
Qed.
End quiet.

Lemma detach_watch u w N0 n0 : b = true -> md_hand (xs t) = HNone -> md_hand x' = HBump (n_wait_word (node_ptr m n0)) ->
  same_seqs m m' -> registered m n0 -> ~ registered m' n0 ->
  (forall k, k <> n0 -> (registered m' k <-> registered m k)) -> (forall k, registered m' k -> same_post m m' k) ->
  (forall n, n ∈ Ns u -> n ∈ N0) -> watch_ok m g xs (Ns u) w -> watch_ok m' g xs' N0 w.
Proof.
  intros Eb Hh Hh' Hseq Hr0 Hr0' Hk Hpost HN [Hhd Hpr (k & Hk0 & Hsq & Hcnt & Hprs)].
  split; [by apply HN|intros n i Hin; by eapply HN, Hpr|].
  pose proof (holding Eb) as Ht. rewrite (pending_now _ Ht), Hh in Hcnt, Hprs.
  assert (forall n, registered m' n -> n_wait_word (node_ptr m' n) = w_head w ->
     registered m n /\ n_wait_word (node_ptr m n) = w_head w) as Hsub.
  { intros n Hr Hw. destruct (Hpost n Hr) as [_ E]. rewrite <- E. split; [|done]. apply Hk; [|done]. by intros ->. }
  exists k. rewrite Hseq, pending_step, Ht, Hh'. split_and!; [done..| |].
  - destruct (Z.eqb_spec (n_wait_word (node_ptr m n0)) (w_head w)) as [E|E].
    + pose proof (posts_lt m m' (w_head w) n0 Hsub (registered_range _ _ _ HL Hr0) Hr0 E Hr0'). lia.
    + pose proof (posts_le m m' (w_head w) Hsub). lia.
  - intros Hkk Hp n i Hin. destruct (Hprs Hkk eq_refl n i Hin) as (Hr & Ho & Hw & Ha).
    assert (n <> n0) as Hne. { intros ->. by rewrite Hw, Z.eqb_refl in Hp. }
    assert (registered m' n) as Hr' by (by apply Hk). destruct (Hpost n Hr') as [E1 E2]. rewrite E1, E2.
    split_and!; [done..|]. apply (duty_step n); [done|congruence|done].
Qed.

Lemma bump_watch u w N0 w0 : b = true -> md_hand (xs t) = HBump w0 -> md_hand x' = HWake w0 ->
  n_seq (node_ptr m' w0) = wrap32 (n_seq (node_ptr m w0) + 1) ->
  (forall n, n <> w0 -> n_seq (node_ptr m' n) = n_seq (node_ptr m n)) ->
  (forall k, registered m' k <-> registered m k) -> (forall k, same_post m m' k) ->
  (forall n, n ∈ Ns u -> n ∈ N0) -> watch_ok m g xs (Ns u) w -> watch_ok m' g xs' N0 w.
Proof.
  intros Eb Hh Hh' Hsq0 Hseq Hk Hpost HN [Hhd Hpr (k & Hk0 & Hsq & Hcnt & Hprs)].
  split; [by apply HN|intros n i Hin; by eapply HN, Hpr|].
  pose proof (holding Eb) as Ht. rewrite (pending_now _ Ht), Hh in Hcnt, Hprs.
  assert (posts m' (w_head w) <= posts m (w_head w))%nat as Hle.
  { apply posts_le. intros n Hr Hw. destruct (Hpost n) as [_ E]. rewrite <- E. split; [|done]. by apply Hk. }
  destruct (Z.eqb_spec w0 (w_head w)) as [E|E].
  - exists (k + 1). rewrite pending_step, Ht, Hh', <- E in *. rewrite Hsq0, Hsq.
    rewrite (proj2 (Z.eqb_neq (k + 1) 0)) by lia. split_and!; [lia| |lia|lia].
    destruct (Z.eqb_spec k 0) as [->|_]; [done|]. unfold wrap32. rewrite Z.add_mod_idemp_l by done.
    f_equal. lia.
  - exists k. rewrite Hseq, pending_step, Ht, Hh' by congruence. split_and!; [done..|lia|].
    intros Hkk _ n i Hin. destruct (Hprs Hkk eq_refl n i Hin) as (Hr & Ho & Hw & Ha).
    destruct (Hpost n) as [E1 E2]. rewrite E1, E2. assert (registered m' n) as Hr' by (by apply Hk).
    split_and!; [done..|]. apply (duty_step n); [done|congruence|done].
Qed.

(** The watches after the step. *)
Lemma watch_step u w : (forall v w, md_watch (xs v) = Some w -> watch_ok m g xs (Ns v) w) ->
  md_watch (xs' u) = Some w -> watch_ok m' g xs' (give t N' Ns u) w.
Proof.
  intros Hall Hw.
  assert (forall v w, md_watch (xs v) = Some w -> (v = t -> md_watch x' <> None) ->
    watch_ok m' g xs' (give t N' Ns v) w) as Hstay.
  { intros v w0 Hv Hn. assert (forall n, n ∈ Ns v -> n ∈ give t N' Ns v) as HN.
    { intros n Hin. destruct (decide (v = t)) as [->|Hne]; [|by rewrite give_other].
      rewrite give_self. destruct (ms_keep _ _ _ _ _ _ _ _ _ Hms n Hin) as [?|?]; [done|]. by destruct (Hn eq_refl). }
    destruct (ms_moves _ _ _ _ _ _ _ _ _ Hms).
    - eapply quiet_watch; eauto.
    - eapply detach_watch; eauto.
    - eapply bump_watch; eauto. }
  destruct (decide (u = t)) as [->|Hne].
  2: { unfold xs' in Hw. rewrite recall_other in Hw by done. by apply Hstay. }
  unfold xs' in Hw. rewrite recall_self in Hw.
  assert (md_watch x' = md_watch (xs t) -> watch_ok m' g xs' (give t N' Ns t) w) as Hsm.
  { intros E. rewrite E in Hw. apply Hstay; [done|]. intros _. congruence. }
  destruct (ms_moves _ _ _ _ _ _ _ _ _ Hms) as [_ _ _ _ Hlooks| |]; [|by auto..].
  destruct Hlooks as [|Hn|h Hbt Hh Hin Hs|w0 n i Hs Hs' Hin Hr Ho Hwd Ha]; [by auto|congruence| |].
  - pose proof (holding Hbt) as Hhold. rewrite Hs in Hw. injection Hw as <-. rewrite give_self. split; cbn [w_head w_pairs w_seq]; [done|by intros ? ? ?%elem_of_nil|].
    exists 0. rewrite pending_step, Hhold, Hh. pose proof (posts_bound m' h).
    split_and!; [done..|lia|by intros _ _ ? ? ?%elem_of_nil].
  - rewrite Hs' in Hw. injection Hw as <-. destruct (Hstay t w0 Hs) as [A1 A2 (k & B1 & B2 & B3 & B4)]; [congruence|].
    rewrite give_self in *. split; cbn [saw w_head w_pairs w_seq]; [done| |].
    + intros n' i' [[= -> ->]|?]%elem_of_cons; [done|by eapply A2].
    + exists k. split_and!; [done..|]. intros H0 H1 n' i' [[= -> ->]|?]%elem_of_cons; [|by apply B4].
      by split_and!.
Qed.
End step.

(** What a step of one thread is to the others. *)
Lemma others_meanwhile b g (Ns : nat -> list Z) xs t x' N' m m' u :
  b = holds g t -> u <> t -> mind_step lk_live K b (Ns t) N' (xs t) x' m m' ->
  others_do lk_live (holds g u) (Ns u) m m' -> (forall n, n ∈ Ns u -> n ∉ N') ->
  meanwhile lk_live K (holds g u) (Ns u) m m'.
Proof.
  intros Hb Hu [H1 _ _ _ Hmv] Ho Hd. split; [done|done| |].
  - intros n Hn Hr. destruct Hmv as [_ _ Hnew _ _|n0 _ _ _ _ _ _ Hr0 Hk Hp|w _ _ _ _ _ _ Hk Hp].
    + destruct (Hnew n Hr) as [?|(Hin&_)]; [done|]. by destruct (Hd n Hn).
    + split; [|by apply Hp]. apply Hk; [|done]. by intros ->.
    + split; [by apply Hk|by apply Hp].
  - intros Hh. assert (holds g t = false) as Hf.
    { apply holds_true in Hh. apply holds_false. rewrite Hh. congruence. }
    rewrite Hf in Hb. by destruct Hmv; subst b.
Qed.

Lemma mind_mem O Ns xs s t th (B : Type) (f : Region -> B * Region) k N' x' m' :
  guarded_pool QG O Ns s -> mind_pool Ns xs s -> threads s !! t = Some th -> code th = Mem f k ->
  own_step lk_live (holds (pker s) t) (Ns t) N' (pmem s) m' ->
  mind_step lk_live K (holds (pker s) t) (Ns t) N' (xs t) x' (pmem s) m' ->
  mft t (k (fst (f (pmem s)))) (holds (pker s) t) N' x' m' ->
  mind_pool (give t N' Ns) (recall t x' xs) (Pool m' (pker s) (<[t := Thread (k (fst (f (pmem s)))) (tls th)]> (threads s))).
Proof.
  intros Hg Hm Ht Ec Hown Hms Hth. destruct Hm as [M1 M2 M3 M4 M5 M6 M7].
  assert (is_Some (threads s !! t)) as Hin by (by eexists).
  destruct (gp_lists _ _ _ _ Hg) as (L & F & HP & _).
  assert (exists L' F', pool_ok m' L' F') as (L' & F' & HP').
  { destruct (holds (pker s) t); cbn [own_step] in Hown.
    - destruct Hown as (?&?&L'&F'&_&?&_). by exists L', F'.
    - destruct Hown as [_ Hs]. exists L, F. by eapply same_lists_pool. }
  assert (forall u, u <> t -> others_do lk_live (holds (pker s) u) (Ns u) (pmem s) m' /\
    forall n, n ∈ Ns u -> (n ∉ Ns t) /\ (n ∉ N')) as Hoth.
  { intros u Hu. destruct (holds (pker s) t) eqn:Eh; cbn [own_step] in Hown.
    - apply holds_true in Eh as Eh2. destruct (holder_others _ _ _ _ _ _ _ Hg Eh2 Hown u Hu) as [Hr Hd].
      rewrite (holds_one (pker s) t u Eh Hu). split; [done|]. intros n Hn. destruct (Hd n Hn) as (?&?&_). done.
    - destruct Hown as [-> Hs]. split; [by apply same_others|]. intros n Hn.
      assert (n ∉ Ns t) by (intros Hn'; by apply Hu, (gp_disjoint _ _ _ _ Hg u t n)). done. }
  split; cbn [pmem pker threads].
  - by eapply ms_typed.
  - done.
  - intros u th' Hlk. destruct (decide (u = t)) as [->|Hne].
    + rewrite list_lookup_insert_eq in Hlk by (by apply lookup_lt_is_Some). simplify_eq.
      by rewrite give_self, recall_self.
    + rewrite list_lookup_insert_ne in Hlk by done. rewrite give_other, recall_other by done.
      eapply mindful_later; [|by apply M3]. destruct (Hoth u Hne) as [H1 H2].
      eapply others_meanwhile; [reflexivity|exact Hne|exact Hms|exact H1|]. intros n Hn. by apply H2.
  - intros u Hf. destruct (decide (u = t)) as [->|Hne]; [|rewrite recall_other by done; by apply M4].
    rewrite recall_self. destruct (ms_moves _ _ _ _ _ _ _ _ _ Hms) as [->| |]; [by apply M4|congruence..].
  - intros u w. eapply (watch_step (pmem s) m' (pker s) xs Ns t x' N' (holds (pker s) t));
      [done|exact Hms|by apply HP'|by apply HP| | | |exact M5].
    + intros v n Hv Hn. by apply (Hoth v Hv).
    + intros v n Hv Hn Eh. rewrite Eh in Hown. apply holds_true in Eh.
      by destruct (proj2 (holder_others _ _ _ _ _ _ _ Hg Eh Hown v Hv) n Hn) as (_&_&?).
    + intros Eh. rewrite Eh in Hown. by destruct Hown.
  - intros u n Hsl. destruct (M6 u n Hsl) as (th' & e & tmo & k' & Hlk & Hcode & Hsq).
    assert (u <> t) as Hne by congruence. exists th', e, tmo, k'. rewrite list_lookup_insert_ne by done.
    split_and!; [done..|]. destruct (ms_moves _ _ _ _ _ _ _ _ _ Hms) as [Hh Hs _ _ _|n0 _ Hh _ _ Hs _ _ _ _|w _ Hh Hh' _ Hs1 Hs2 _ _].
    + rewrite Hs. destruct Hsq as [?|[v Hv]]; [by left|]. right. exists v.
      destruct (decide (v = t)) as [->|Hv']; [by rewrite recall_self, Hh|by rewrite recall_other].
    + rewrite Hs. destruct Hsq as [?|[v Hv]]; [by left|]. right. exists v. rewrite recall_other; [done|]. congruence.
    + destruct (decide (n = w)) as [->|Hnw].
      * right. exists t. by rewrite recall_self.
      * rewrite Hs2 by done. destruct Hsq as [?|[v Hv]]; [by left|]. right. exists v. rewrite recall_other; [done|]. congruence.
  - intros u. rewrite length_insert. intros Hu. rewrite recall_other; [by apply M7|].
    intros ->. apply lookup_lt_is_Some in Hin. lia.
Qed.

(** A step that leaves memory alone. *)
Lemma mind_call Ns xs s t th' x' g' :
  mind_pool Ns xs s -> is_Some (threads s !! t) ->
  md_duty x' = md_duty (xs t) -> md_watch x' = md_watch (xs t) ->
  (forall u, u <> t -> holds g' u = holds (pker s) u) ->
  (holds g' t = false -> md_hand x' = HNone) ->
  (forall h, pending g' (recall t x' xs) h = pending (pker s) xs h) ->
  mft t (code th') (holds g' t) (Ns t) x' (pmem s) -> fk_wf g' ->
  (forall u n, fk_asleep g' u n -> exists th e tmo k, <[t := th']> (threads s) !! u = Some th /\
    code th = Sys (FutexWait n e tmo) k /\
    (n_seq (node_ptr (pmem s) n) = e \/ exists v, md_hand (recall t x' xs v) = HWake n)) ->
  mind_pool Ns (recall t x' xs) (Pool (pmem s) g' (<[t := th']> (threads s))).
Proof.
  intros [M1 M2 M3 M4 M5 M6 M7] Hin Hd Hw Hu Hh Hp Hth Hwf Hsl. split; cbn [pmem pker threads]; [done|done| | | |exact Hsl|].
  - intros u th Hlk. destruct (decide (u = t)) as [->|Hne].
    + rewrite list_lookup_insert_eq in Hlk by (by apply lookup_lt_is_Some). simplify_eq. by rewrite recall_self.
    + rewrite list_lookup_insert_ne in Hlk by done. rewrite recall_other, Hu by done. by apply M3.
  - intros u. destruct (decide (u = t)) as [->|Hne]; [by rewrite recall_self|].
    rewrite recall_other, Hu by done. apply M4.
  - intros u w Hwu. assert (md_watch (xs u) = Some w) as Hwu'.
    { destruct (decide (u = t)) as [->|Hne]; [rewrite recall_self in Hwu; congruence|by rewrite recall_other in Hwu]. }
    destruct (M5 u w Hwu') as [A1 A2 (k & B1 & B2 & B3 & B4)]. split; [done|done|]. exists k. rewrite Hp.
    split_and!; [done..|]. intros H0 H1 n i Hni. destruct (B4 H0 H1 n i Hni) as (?&?&?&Ha). split_and!; [done..|].
    intros Hav. destruct (Ha Hav) as [v Hv]. exists v.
    destruct (decide (v = t)) as [->|Hne]; [by rewrite recall_self, Hd|by rewrite recall_other].
  - intros u. rewrite length_insert. intros Hlen. rewrite recall_other; [by apply M7|].
    intros ->. apply lookup_lt_is_Some in Hin. lia.
Qed.

Lemma pending_free g g' xs t x' h :
  (forall u, u <> t -> holds g' u = holds g u) -> md_hand (xs t) = HNone -> md_hand x' = HNone ->
  pending g' (recall t x' xs) h = pending g xs h.
Proof.
  intros Hu Hh Hh'. unfold pending.
  assert (forall v, md_hand (recall t x' xs v) = md_hand (xs v)) as Hr.
  { intros v. destruct (decide (v = t)) as [->|Hne]; [by rewrite recall_self, Hh|by rewrite recall_other]. }
  destruct (lk_holder g') as [v|] eqn:E'.
  - rewrite Hr. destruct (decide (v = t)) as [->|Hne].
    + rewrite Hh. destruct (lk_holder g) as [w|] eqn:E; [|done]. destruct (decide (w = t)) as [->|Hw]; [by rewrite Hh|].
      pose proof (Hu w Hw) as Hx.
      rewrite (proj2 (holds_true g w) E) in Hx. apply holds_true in Hx. congruence.
    + pose proof (Hu v Hne) as Hx. rewrite (proj2 (holds_true g' v) E') in Hx.
      symmetry in Hx. apply holds_true in Hx. by rewrite Hx.
  - destruct (lk_holder g) as [w|] eqn:E; [|done]. destruct (decide (w = t)) as [->|Hw]; [by rewrite Hh|].
    pose proof (Hu w Hw) as Hx.
    rewrite (proj2 (holds_true g w) E) in Hx. apply holds_true in Hx. congruence.
Qed.

Lemma pending_same g xs t x' h :
  (forall w, md_hand x' = HBump w <-> md_hand (xs t) = HBump w) -> pending g (recall t x' xs) h = pending g xs h.
Proof.
  intros Hh. unfold pending. destruct (lk_holder g) as [v|]; [|done].
  destruct (decide (v = t)) as [->|Hne]; [rewrite recall_self|by rewrite recall_other].
  destruct (md_hand x') as [|w|w] eqn:E.
  - destruct (md_hand (xs t)) as [|w|w] eqn:E2; [done| |done]. discriminate (proj2 (Hh w) eq_refl).
  - by rewrite (proj1 (Hh w) eq_refl).
  - destruct (md_hand (xs t)) as [|w2|w2] eqn:E2; [done| |done]. discriminate (proj2 (Hh w2) eq_refl).
Qed.

Lemma recall_hand t x' xs v : md_hand x' = md_hand (xs t) -> md_hand (recall t x' xs v) = md_hand (xs v).
Proof. intros E. destruct (decide (v = t)) as [->|Hne]; [by rewrite recall_self|by rewrite recall_other]. Qed.

(** What is known of a thread that sleeps. *)
Lemma asleep_watches Ns xs s t n : mind_pool Ns xs s -> fk_asleep (pker s) t n ->
  n ∈ Ns t /\ (md_duty (xs t) = [] \/ lk_errs) /\ md_hand (xs t) = HNone /\ exists w, md_watch (xs t) = Some w /\ w_head w = n /\
    T t (map snd (w_pairs w)) /\
    (n_seq (node_ptr (pmem s) n) = w_seq w \/ exists u, md_hand (xs u) = HWake n).
Proof.
  intros Hm Hs. destruct (mp_asleep _ _ _ Hm t n Hs) as (th & e & tmo & k & Hlk & Hc & Hsq).
  pose proof (mp_thread _ _ _ Hm t th Hlk) as Hth. rewrite Hc in Hth. cbn [mindful] in Hth.
  destruct Hth as (_ & Hd & Hh & (w & Hw & <- & <- & HT) & _). split_and!; [|done..|by exists w].
  apply (mp_watch _ _ _ Hm t w Hw).
Qed.

(** Who sleeps after a call slept before it, and the caller does not. *)
Lemma sleepers_stay Ns xs s t th c k z g' x' : mind_pool Ns xs s -> threads s !! t = Some th -> code th = Sys c k ->
  kcall t c (pmem s) (pker s) = Answer z g' ->
  (forall v n, md_hand (xs v) = HWake n -> (exists u, fk_asleep g' u n) -> md_hand (recall t x' xs v) = HWake n) ->
  forall u n, fk_asleep g' u n -> exists th0 e tmo k0, <[t := Thread (k z) (tls th)]> (threads s) !! u = Some th0 /\
    code th0 = Sys (FutexWait n e tmo) k0 /\
    (n_seq (node_ptr (pmem s) n) = e \/ exists v, md_hand (recall t x' xs v) = HWake n).
Proof.
  intros Hm Ht Ec Ek Hh u n Hs. pose proof (mp_wf _ _ _ Hm) as Hwf.
  pose proof (fk_answer _ _ _ _ _ _ u n Hwf Ek Hs) as Hs0.
  destruct (mp_asleep _ _ _ Hm u n Hs0) as (th0 & e & tmo & k0 & Hlk & Hc & Hsq).
  assert (u <> t) as Hne.
  { intros ->. simplify_eq. rewrite Ec in Hc. injection Hc as -> _. by apply (fk_back _ _ _ _ _ _ _ _ _ Hwf Ek Hs). }
  exists th0, e, tmo, k0. rewrite list_lookup_insert_ne by done. split_and!; [done..|].
  destruct Hsq as [?|[v Hv]]; [by left|]. right. exists v. apply Hh; eauto.
Qed.

(** *** An answered call *)
Section answer.
Context (O : Z -> Prop) (Ns : nat -> list Z) (xs : nat -> mind) (s : pool Region Local G A).
Context (t : nat) (th : thread Region Local A) (c : syscall) (k : Z -> action A) (z : Z) (g' : G).
Context (Hg : guarded_pool QG O Ns s) (Hm : mind_pool Ns xs s) (Ht : threads s !! t = Some th).
Context (Ec : code th = Sys c k) (Ek : kcall t c (pmem s) (pker s) = Answer z g').
Abbreviation answered xs' := (mind_pool Ns xs' (Pool (pmem s) g' (<[t := Thread (k z) (tls th)]> (threads s)))) (only parsing).

Lemma answer_in : is_Some (threads s !! t).
Proof. by eexists. Qed.

Lemma answer_wf : fk_wf g'.
Proof. eapply fk_wf_answer; [apply (mp_wf _ _ _ Hm)|exact Ek]. Qed.

(** The clauses of the two disciplines for this call. *)
Lemma answer_mindful : mft t (Sys c k) (holds (pker s) t) (Ns t) (xs t) (pmem s).
Proof. rewrite <- Ec. by apply (mp_thread _ _ _ Hm). Qed.

Lemma answer_kernel : answers lk_live (lk_pid t) lk_errs c z.
Proof. by eapply call_answers. Qed.

(** A thread that keeps what it has in its hand still wakes who it was about to. *)
Lemma answer_hands x' : md_hand x' = md_hand (xs t) -> forall v n, md_hand (xs v) = HWake n ->
  (exists u, fk_asleep g' u n) -> md_hand (recall t x' xs v) = HWake n.
Proof. intros E v n Hv _. by rewrite recall_hand. Qed.

(** A call that has nothing to do with the lock or a wake-up. *)
Lemma answer_plain : takes_lock c = false -> drops_lock c = false ->
  mft t (k z) (holds (pker s) t) (Ns t) (xs t) (pmem s) -> exists xs', answered xs'.
Proof.
  intros E1 E2 Hk. exists (recall t (xs t) xs).
  assert (forall u, holds g' u = holds (pker s) u) as Hquiet.
  { intros u. unfold holds. by rewrite (lk_other _ _ _ _ _ _ E1 E2 Ek). }
  apply mind_call; [done|apply answer_in|done|done|by intros u _| | |by rewrite Hquiet|apply answer_wf|].
  - rewrite Hquiet. apply (mp_hand _ _ _ Hm).
  - intros h. unfold pending. rewrite (lk_other _ _ _ _ _ _ E1 E2 Ek). by apply pending_same.
  - eapply sleepers_stay; eauto using answer_hands.
Qed.

Lemma answer_lock : takes_lock c = true -> exists xs', answered xs'.
Proof.
  intros E1. assert (holds (pker s) t = false /\ ((granted z = true -> rest (pmem s) /\ mine (lk_pid t) (Ns t) (pmem s)) ->
    mft t (k z) (granted z) (Ns t) (xs t) (pmem s))) as [Hf Hk].
  { pose proof answer_mindful as Hth. pose proof answer_kernel. pose proof (mp_typed _ _ _ Hm).
    destruct c; try done; destruct Hth as [Hf Hk]; (split; [done|]); intros Hgr;
      (apply Hk; [apply meanwhile_refl|done..]). }
  pose proof (mp_hand _ _ _ Hm t Hf) as Hh. pose proof (lk_lock _ _ _ _ _ _ E1 Ek) as Hl.
  assert (forall u, u <> t -> holds g' u = holds (pker s) u) as Hu.
  { intros u Hu. unfold holds. destruct (granted z); [|by destruct Hl as [-> _]]. destruct Hl as [-> ->].
    rewrite !bool_decide_false; congruence. }
  exists (recall t (xs t) xs). apply mind_call; [done|apply answer_in|done|done|done|by intros _| | |apply answer_wf|].
  - intros h. by apply pending_free.
  - assert (holds g' t = granted z) as ->.
    { destruct (granted z); [by destruct Hl as [_ ?]; apply holds_true|]. unfold holds. by destruct Hl as [-> _]. }
    apply Hk. intros E. rewrite E in Hl. destruct Hl as [Hn _]. split; [by apply (gp_rest _ _ _ _ Hg)|].
    destruct (gp_lists _ _ _ _ Hg) as (L & F & HP & Ho & _). exists L, F. split; [done|]. intros n Hn'.
    split; [by eapply Ho|by apply (gp_pid _ _ _ _ Hg)].
  - eapply sleepers_stay; eauto using answer_hands.
Qed.

Lemma answer_unlock : c = MutexUnlock -> exists xs', answered xs'.
Proof.
  intros E. pose proof answer_mindful as Hth. destruct (gp_thread _ _ _ _ Hg t th Ht) as [_ Hgd].
  rewrite Ec in Hgd. rewrite E in Hth, Hgd. destruct Hth as [Hh Hk], Hgd as [Hhold _].
  apply holds_true in Hhold as Hl. pose proof Ek as Ek'. rewrite E in Ek'. pose proof (lk_unlock _ _ _ _ _ Hl Ek') as Hfree.
  assert (forall u, u <> t -> holds g' u = holds (pker s) u) as Hu.
  { intros u Hu. unfold holds. rewrite Hfree, Hl, !bool_decide_false; congruence. }
  exists (recall t (xs t) xs). apply mind_call; [done|apply answer_in|done|done|done| | | |apply answer_wf|].
  - by rewrite (proj2 (holds_false g' t)) by congruence.
  - intros h. by apply pending_free.
  - rewrite (proj2 (holds_false g' t)) by congruence. apply Hk, meanwhile_refl.
  - eapply sleepers_stay; eauto using answer_hands.
Qed.

(** Who is woken is out of the hand; another one on its word is none of the
    waiter's business, since a word is one thread's. *)
Lemma answer_wake w : c = FutexWake w -> exists xs', answered xs'.
Proof.
  intros E. pose proof answer_mindful as Hth. pose proof Ek as Ek'. pose proof (mp_wf _ _ _ Hm) as Hwf.
  rewrite E in Hth, Ek'. destruct Hth as [Hh Hk]. assert (takes_lock c = false /\ drops_lock c = false) as [E1 E2] by (by rewrite E).
  assert (forall u, holds g' u = holds (pker s) u) as Hquiet.
  { intros u. unfold holds. by rewrite (lk_other _ _ _ _ _ _ E1 E2 Ek). }
  exists (recall t (with_hand HNone (xs t)) xs). apply mind_call; [done|apply answer_in|done|done|by intros u _|done| | |apply answer_wf|].
  - intros h. unfold pending at 1. rewrite (lk_other _ _ _ _ _ _ E1 E2 Ek). apply pending_same. cbn. by rewrite Hh.
  - rewrite Hquiet. apply Hk.
  - eapply sleepers_stay; [done..|]. intros v n Hv [u Hu]. rewrite recall_other; [done|]. intros ->.
    rewrite Hh in Hv. injection Hv as <-. destruct (fk_wake _ _ _ _ _ _ _ Hwf Ek' Hu) as (v & Hne & Hv).
    pose proof (fk_answer _ _ _ _ _ _ _ _ Hwf Ek Hu) as Hu0.
    destruct (asleep_watches _ _ _ _ _ Hm Hu0) as [H1 _], (asleep_watches _ _ _ _ _ Hm Hv) as [H2 _].
    by apply Hne, (gp_disjoint _ _ _ _ Hg v u _ H2 H1).
Qed.

Lemma mind_answer : exists xs', answered xs'.
Proof.
  destruct (takes_lock c) eqn:E1; [by apply answer_lock|]. destruct (drops_lock c) eqn:E2; [apply answer_unlock; by destruct c|].
  assert ((exists w, c = FutexWake w) \/ mft t (k z) (holds (pker s) t) (Ns t) (xs t) (pmem s)) as [[w E]|Hk].
  { pose proof answer_mindful as Hth. pose proof answer_kernel as Hz.
    destruct c; try done; try (right; by apply Hth). left. by eexists. }
  - by eapply answer_wake.
  - by apply answer_plain.
Qed.
End answer.

Lemma mind_pool_step O Ns xs s t s' :
  guarded_pool QG O Ns s -> mind_pool Ns xs s -> pool_step t s = Some s' ->
  exists Ns' xs', guarded_pool QG O Ns' s' /\ mind_pool Ns' xs' s'.
Proof.
  intros Hg Hm. unfold pool_step. destruct (threads s !! t) as [th|] eqn:Ht; [|done].
  assert (is_Some (threads s !! t)) as Hin by (by eexists).
  destruct (gp_thread _ _ _ _ Hg t th Ht) as [Hl Hgd]. pose proof (mp_thread _ _ _ Hm t th Ht) as Hth.
  unfold thread_step. destruct (code th) as [a|B f k|B f k|c k| |] eqn:Ec; try done; cbn [guarded mindful] in Hgd, Hth.
  - intros [= <-]. destruct (Hgd _ (others_refl _ _ _ _)) as (N' & Hstep & Hk).
    destruct (Hth (pmem s) N' (meanwhile_refl _ _ _ _ _) (mp_typed _ _ _ Hm) Hstep) as (x' & Hms & Hk').
    exists (give t N' Ns), (recall t x' xs). split; [|by eapply mind_mem].
    destruct (holds (pker s) t) eqn:Eh; cbn [own_step] in Hstep.
    + apply holds_true in Eh as Eh2. by apply guarded_holder.
    + destruct Hstep as [-> Hsame]. apply (guarded_pool_ext QG O Ns).
      { intros u. destruct (decide (u = t)) as [->|?]; [by rewrite give_self|by rewrite give_other]. }
      apply guarded_quiet; cbn; [done..|by rewrite Eh|congruence|congruence].
  - intros [= <-]. destruct (Hgd _ Hl) as [Hl' Hk]. exists Ns, (recall t (xs t) xs). split.
    + apply guarded_quiet; [done|done|apply same_lists_refl|done|done|congruence|done].
    + apply mind_call; [done..|apply (mp_hand _ _ _ Hm)| |by apply Hth|apply (mp_wf _ _ _ Hm)|].
      * intros h. by apply pending_same.
      * intros u n Hs. destruct (mp_asleep _ _ _ Hm u n Hs) as (th0 & e & tmo & k0 & Hlk & Hc & Hsq).
        exists th0, e, tmo, k0. rewrite list_lookup_insert_ne by congruence. split_and!; [done..|].
        destruct Hsq as [?|[v Hv]]; [by left|]. right. exists v. by rewrite recall_hand.
  - destruct (kcall t c (pmem s) (pker s)) as [z g'|g'|] eqn:Ek; [| |done]; intros [= <-].
    + destruct (mind_answer _ _ _ _ _ _ _ _ _ _ Hg Hm Ht Ec Ek) as [xs' Hm'].
      exists Ns, xs'. split; [by eapply guarded_answer|done].
    + pose proof (lk_sleep _ _ _ _ _ Ek) as Hh. pose proof (mp_wf _ _ _ Hm) as Hwf.
      assert (forall u, holds g' u = holds (pker s) u) as Hhs by (intros u; unfold holds; by rewrite Hh).
      exists Ns, (recall t (xs t) xs). split.
      * apply guarded_quiet; [done|done|apply same_lists_refl|done| |congruence|congruence].
        rewrite Hhs. by apply (gp_thread _ _ _ _ Hg).
      * apply mind_call; [done..|rewrite Hhs; apply (mp_hand _ _ _ Hm)| |rewrite Hhs; by apply (mp_thread _ _ _ Hm)
          |by eapply fk_wf_sleep|].
        { intros h. unfold pending at 1. rewrite Hh. by apply pending_same. }
        rewrite list_insert_id by done. intros u n Hs.
        destruct (fk_sleep _ _ _ _ _ _ _ Hwf Ek Hs) as [Hs0|(-> & e & tmo & -> & Hsq)].
        -- destruct (mp_asleep _ _ _ Hm u n Hs0) as (th0 & e & tmo & k0 & Hlk & Hc & Hsq).
           exists th0, e, tmo, k0. split_and!; [done..|]. destruct Hsq as [?|[v Hv]]; [by left|].
           right. exists v. by rewrite recall_hand.
        -- exists th, e, tmo, k. split_and!; [done..|by left].
Qed.

Lemma mind_steps O Ns xs s s' : guarded_pool QG O Ns s -> mind_pool Ns xs s -> steps s s' ->
  exists Ns' xs', guarded_pool QG O Ns' s' /\ mind_pool Ns' xs' s'.
Proof.
  intros Hg Hm Hs. revert Ns xs Hg Hm. induction Hs as [s|t s s1 s2 Hstep _ IH]; intros Ns xs Hg Hm; [by exists Ns, xs|].
  destruct (mind_pool_step _ _ _ _ _ _ Hg Hm Hstep) as (Ns' & xs' & Hg' & Hm'). by eapply IH.
Qed.

(** When every thread has returned with nothing left in mind, or sleeps, then
    whoever sleeps has seen objects that are not available. *)
Lemma sleepers_right Ns xs s : mind_pool Ns xs s -> ~ lk_errs ->
  (forall t th, threads s !! t = Some th -> (exists a, code th = Ret a) \/ exists n, fk_asleep (pker s) t n) ->
  (forall t b N x a m, QM t b N x a m -> (md_duty x = [] \/ lk_errs) /\ md_hand x = HNone) ->
  forall t n, fk_asleep (pker s) t n -> exists objs, T t objs /\ forall i, i ∈ objs -> ~ available (pmem s) i.
Proof.
  intros Hm Herr Hall HQ. assert (forall u, md_duty (xs u) = [] /\ md_hand (xs u) = HNone) as Hidle.
  { intros u. enough ((md_duty (xs u) = [] \/ lk_errs) /\ md_hand (xs u) = HNone) by tauto. destruct (threads s !! u) as [th|] eqn:Hu.
    - destruct (Hall u th Hu) as [[a Ha]|[n Hn]]; [|by destruct (asleep_watches _ _ _ _ _ Hm Hn) as (_&?&?&_)].
      pose proof (mp_thread _ _ _ Hm u th Hu) as Hth. rewrite Ha in Hth.
      eapply HQ, Hth; [apply meanwhile_refl|apply (mp_typed _ _ _ Hm)].
    - rewrite (mp_only _ _ _ Hm u); [by split; [left|]|]. by apply lookup_ge_None. }
  intros t n Hn. destruct (asleep_watches _ _ _ _ _ Hm Hn) as (_ & _ & _ & w & Hw & <- & HT & Hsq).
  exists (map snd (w_pairs w)). split; [done|]. destruct (mp_watch _ _ _ Hm t w Hw) as [_ _ (k & Hk & Hs & Hc & Hp)].
  assert (n_seq (node_ptr (pmem s) (w_head w)) = w_seq w) as Hsq'.
  { destruct Hsq as [?|[u Hu]]; [done|]. by rewrite (proj2 (Hidle u)) in Hu. }
  assert (pending (pker s) xs (w_head w) = 0) as Hpend.
  { unfold pending. destruct (lk_holder (pker s)); [|done]. by rewrite (proj2 (Hidle _)). }
  assert (k = 0) as ->.
  { destruct (Z.eqb_spec k 0) as [->|Hne]; [done|]. rewrite Hsq' in Hs. exfalso.
    unfold wrap32, NODE_COUNT in *. pose proof (Z_mod_lt (w_seq w + k) W32).
    pose proof (Z_div_mod_eq_full (w_seq w + k) W32). nia. }
  intros i Hi Ha. apply list_elem_of_fmap in Hi as ([n i'] & -> & Hin). cbn [snd] in Ha.
  destruct (Hp eq_refl Hpend n i' Hin) as (_ & _ & _ & Hd). destruct (Hd Ha) as [u Hu].
  rewrite (proj1 (Hidle u)) in Hu. by apply elem_of_nil in Hu.
Qed.
End soundness.
