(* ===== verification/WatchRules.v ===== *)
(** * WatchRules: rules for mindful programs

    [mild]: a program whose every step leaves registrations, futex words and
    availability alone, except that it may unregister and free the nodes of the
    dead.  [steady]: one that begins and ends without the lock and has in mind at
    the end what it had at the beginning.  [firm]: the same under the lock. *)
From S2P Require Import Prelude Prog Config Region Kernel Lock Nodes WaitLists NodePool Objects Wait Interleave Guard GuardRules GuardLists Watch.

(** ** Nodes of one's own *)
Section mine.
Context (live : Z -> Prop) (me : Z) (Hme : live me).

Lemma mine_same N m m' : same_lists m m' -> mine me N m -> mine me N m'.
Proof.
  intros Hs (L & F & HP & Ho). exists L, F. split; [by eapply same_lists_pool|]. intros n Hn.
  destruct (Ho n Hn) as [H1 H2]. split; [by eapply same_owned|]. by destruct (same_node _ _ Hs n) as (_&_&_&_&_&->).
Qed.

Lemma mine_set N N' m : (forall n, n ∈ N' -> n ∈ N) -> mine me N m -> mine me N' m.
Proof. intros HN (L & F & HP & Ho). exists L, F. split; [done|]. auto. Qed.

Lemma mine_rely N m m' : rely live N m m' -> mine me N m -> mine me N m'.
Proof.
  intros Hr (L & F & HP & Ho). destruct (Hr L F HP) as (L' & F' & HP' & Hk). exists L', F'. split; [done|].
  intros n Hn. destruct (Ho n Hn) as [H1 H2]. destruct (Hk n Hn H1) as [H3 H4]; [by rewrite H2|]. by rewrite H4, H2.
Qed.

Lemma mine_meanwhile K b N m m' : meanwhile live K b N m m' -> mine me N m -> mine me N m'.
Proof. intros [Ho _ _ _]. destruct b; [by apply mine_same|by apply mine_rely]. Qed.
End mine.

Definition same_set (N N' : list Z) : Prop := forall n, n ∈ N' <-> n ∈ N.

Lemma same_set_refl N : same_set N N.
Proof. done. Qed.
Lemma same_set_trans N1 N2 N3 : same_set N1 N2 -> same_set N2 N3 -> same_set N1 N3.
Proof. intros H1 H2 n. by rewrite (H2 n), (H1 n). Qed.

(** What remains registered of one's nodes is what was. *)
Definition posts_kept (N : list Z) (m m' : Region) : Prop :=
  forall n, n ∈ N -> registered m' n -> registered m n /\ same_post m m' n.

Lemma posts_kept_refl N m : posts_kept N m m.
Proof. done. Qed.

Lemma posts_kept_trans N N' m1 m2 m3 : same_set N N' ->
  posts_kept N m1 m2 -> posts_kept N' m2 m3 -> posts_kept N m1 m3.
Proof.
  intros Hs H1 H2 n Hn Hr. destruct (H2 n (proj2 (Hs n) Hn) Hr) as [Hr2 [E1 E2]].
  destruct (H1 n Hn Hr2) as [Hr1 [E3 E4]]. split; [done|]. split; congruence.
Qed.

Lemma posts_kept_meanwhile live K b N m m' : meanwhile live K b N m m' -> posts_kept N m m'.
Proof. by intros [_ _ Hp _]. Qed.

(** ** Gentle steps *)
Record nearly (live : Z -> Prop) (m m' : Region) : Prop := {
  gn_types i : s_obj_type (slot_ptr m' i) = s_obj_type (slot_ptr m i);
  gn_seqs : same_seqs m m';
  gn_reg n : registered m' n -> registered m n /\ same_post m m' n;
  gn_live n : registered m n -> live (n_pid (node_ptr m n)) -> registered m' n;
  gn_pool L F L' F' : pool_ok m L F -> pool_ok m' L' F' ->
    (forall n, kept live m m' F F' n) /\ (forall n, owned m' F' n -> owned m F n) /\
    (forall i, headed m i -> headed m' i);
}.

Record gentle (live : Z -> Prop) (m m' : Region) : Prop := {
  gn_near : nearly live m m';
  gn_rise i : available m' i -> available m i;
}.

Section gentle.
Context (live : Z -> Prop).

(** A step that touches no node and no head, and neither end of the pool. *)
Lemma nearly_slots m m' :
  (forall i, s_obj_type (slot_ptr m' i) = s_obj_type (slot_ptr m i)) ->
  (forall i, s_waiter_head (slot_ptr m' i) = s_waiter_head (slot_ptr m i)) ->
  nodes m' = nodes m -> h_node_free_head (header m') = h_node_free_head (header m) ->
  h_node_fresh (header m') = h_node_fresh (header m) -> nearly live m m'.
Proof.
  intros Ht Hh Hn Hf Hfr. assert (forall n, node_ptr m' n = node_ptr m n) as En by (intros n; unfold node_ptr; by rewrite Hn).
  split.
  - done.
  - intros n. by rewrite En.
  - intros n. unfold registered, same_post. by rewrite En.
  - intros n. unfold registered. by rewrite En.
  - intros L F L' F' HP HP'. assert (F = F') as <-.
    { eapply (chain_unique m'); [|apply (po_chain _ _ _ HP')|].
      - rewrite Hf. eapply chain_ext; [|apply (po_chain _ _ _ HP)]. intros n _. by rewrite En.
      - intros n [Hn'|Hn']; [by apply (free_not_nil m L F)|by apply (free_not_nil m' L' F')]. }
    split_and!.
    + intros n Ho _. unfold owned. by rewrite Hfr, En.
    + intros n. unfold owned. by rewrite Hfr.
    + intros i. unfold headed, registered. rewrite Hh. intros [?|(n & ?)]; [by left|]. right. exists n. by rewrite En.
Qed.

Lemma gentle_slots m m' :
  (forall i, s_obj_type (slot_ptr m' i) = s_obj_type (slot_ptr m i)) ->
  (forall i, s_waiter_head (slot_ptr m' i) = s_waiter_head (slot_ptr m i)) ->
  (forall i, available m' i -> available m i) ->
  nodes m' = nodes m -> h_node_free_head (header m') = h_node_free_head (header m) ->
  h_node_fresh (header m') = h_node_fresh (header m) -> gentle live m m'.
Proof. intros Ht Hh Ha Hn Hf Hfr. split; [by apply nearly_slots|done]. Qed.

Lemma gentle_refl m : gentle live m m.
Proof. by apply gentle_slots. Qed.

(** A write to a slot. *)
Lemma gentle_slot i f m :
  (forall s, s_obj_type (f s) = s_obj_type s /\ s_waiter_head (f s) = s_waiter_head s /\ s_w0 (f s) = s_w0 s) ->
  gentle live m (upd_slot i f m).
Proof.
  intros Hf. apply gentle_slots; try done; intros j; unfold available; rewrite slot_ptr_upd_slot;
    destruct (decide (i = j)) as [<-|]; try done; destruct (Hf (slot_ptr m i)) as (E1&E2&E3); by rewrite ?E1, ?E3.
Qed.

(** A store to the word of an object, or a successful swap. *)
Lemma nearly_word i w m : nearly live m (upd_slot i (set_w0 w) m).
Proof.
  apply nearly_slots; try done; intros j; rewrite slot_ptr_upd_slot;
    destruct (decide (i = j)) as [<-|]; try done; by destruct (slot_ptr m i).
Qed.

Lemma gentle_word i w m :
  (ready_word (s_obj_type (slot_ptr m i)) w = true -> available m i) -> gentle live m (upd_slot i (set_w0 w) m).
Proof.
  intros Hw. apply gentle_slots; try done; intros j; unfold available; rewrite slot_ptr_upd_slot;
    destruct (decide (i = j)) as [<-|]; try done; by destruct (slot_ptr m i).
Qed.

Lemma gentle_header f m : h_node_free_head (f (header m)) = h_node_free_head (header m) ->
  h_node_fresh (f (header m)) = h_node_fresh (header m) -> gentle live m (upd_header f m).
Proof. intros H1 H2. by apply gentle_slots. Qed.
End gentle.

(** ** Mild programs *)
Section mild.
Context (live : Z -> Prop) (me : Z) (errs : Prop) (Hme : live me) (K : Z -> Z) (T : list Z -> Prop).
Abbreviation mf Q p b N x m := (mindful live me errs K T Q p b N x m) (only parsing).

Fixpoint mild {A} (R : A -> Prop) (p : action A) : Prop :=
  match p with
  | Ret a => R a
  | Panic | OutOfFuel => True
  | Mem f k => forall m, typed K m -> gentle live m (snd (f m)) /\ mild R (k (fst (f m)))
  | Loc f k => forall l, mapped l -> mild R (k (fst (f l)))
  | Sys c k => plain_call c = true /\ forall z, answers live me errs c z -> mild R (k z)
  end.

Lemma mild_mono {A} (R R' : A -> Prop) (p : action A) : (forall a, R a -> R' a) -> mild R p -> mild R' p.
Proof.
  intros HR. induction p as [a|B f k IH|B f k IH|c k IH| |]; cbn [mild]; auto.
  - intros Hp m Hm. destruct (Hp m Hm). auto.
  - intros [H1 Hp]. auto.
Qed.

Lemma mild_bind {A B} (S : A -> Prop) (R : B -> Prop) (p : action A) (q : A -> action B) :
  mild S p -> (forall a, S a -> mild R (q a)) -> mild R (bind p q).
Proof.
  intros Hp Hq. induction p as [a|C f k IH|C f k IH|c k IH| |]; cbn [mild bind] in *; auto.
  - intros m Hm. destruct (Hp m Hm). auto.
  - destruct Hp as [H1 Hp]. auto.
Qed.

Lemma mild_seq {A B} (R : B -> Prop) (p : action A) (q : A -> action B) :
  mild any p -> (forall a, mild R (q a)) -> mild R (bind p q).
Proof. intros Hp Hq. eapply mild_bind; [exact Hp|]. auto. Qed.

Lemma passive_mild {A} (R : A -> Prop) (p : action A) : passive live me errs R p -> mild R p.
Proof.
  induction p as [a|B f k IH|B f k IH|c k IH| |]; cbn [passive mild]; auto.
  - intros Hp m _. destruct (Hp m) as [-> Hk]. split; [apply gentle_refl|auto].
  - intros Hp l Hl. destruct (Hp l Hl). auto.
  - intros [Hc Hp]. auto.
Qed.

Lemma mild_read {A} (R : A -> Prop) f : (forall m, typed K m -> R (f m)) -> mild R (mem_read f).
Proof. intros HR m Hm. split; [apply gentle_refl|by apply HR]. Qed.

Lemma mild_write f : (forall m, gentle live m (f m)) -> mild any (mem_write f).
Proof. intros Hf m _. by split. Qed.

Lemma mild_do {A} (f : Region -> A * Region) : (forall m, typed K m -> gentle live m (snd (f m))) -> mild any (mem_do f).
Proof. intros Hf m Hm. split; [by apply Hf|done]. Qed.

Lemma mild_loc {A} (f : Local -> A * Local) : mild any (loc_do f).
Proof. by intros l Hl. Qed.

Lemma mild_sys c : plain_call c = true -> mild any (sys c).
Proof. by intros H1. Qed.

(** What a mild program leaves. *)
Definition mild_end {A} (R : A -> Prop) (b : bool) (N : list Z) (x : mind) (b' : bool) (N' : list Z) (x' : mind)
  (a : A) (m' : Region) : Prop :=
  b' = b /\ x' = x /\ same_set N N' /\ R a /\ (b = true -> mine me N' m').

(** What becomes available becomes a duty. *)
Lemma nearly_step b N N' x x' m m' : typed K m -> (b = true -> mine me N m) -> own_step live b N N' m m' ->
  nearly live m m' -> (forall i, available m' i -> available m i \/ i ∈ md_duty x') ->
  (forall i, i ∈ md_duty x -> i ∈ md_duty x') -> md_hand x' = md_hand x -> md_watch x' = md_watch x ->
  mind_step live K b N N' x x' m m' /\ same_set N N' /\ (b = true -> mine me N' m').
Proof.
  intros [Ht Hhd] Hmine Hown Hg Hrise Hduty Hhand Hwatch. destruct b; cbn [own_step] in Hown.
  - destruct (Hmine eq_refl) as (L0 & F0 & HP0 & Ho). destruct Hown as (L & F & L' & F' & HP & HP' & Hk & Hn & Hc).
    rewrite (pool_free_unique _ _ _ _ _ HP0 HP) in *. destruct (gn_pool _ _ _ Hg _ _ _ _ HP HP') as (Hkept & Hback & Hheads).
    assert (same_set N N') as Hset.
    { intros n. split.
      - intros Hin. destruct (Hn n Hin) as [Ho' [?|Hno]]; [done|]. by destruct Hno; apply Hback.
      - intros Hin. destruct (Ho n Hin) as [H1 H2]. destruct (Hkept n H1) as [H3 _]; [by rewrite H2|].
        destruct (Hc n H3) as [?|[_ ?]]; done. }
    split; [split|split; [done|]].
    + split; [intros i; by rewrite (gn_types _ _ _ Hg)|]. intros i Hi. by apply Hheads, Hhd.
    + done.
    + intros i Hi. left. auto.
    + intros n Hin. left. by apply Hset.
    + apply moves_quiet; [done|apply (gn_seqs _ _ _ Hg)| | |by apply looks_same].
      * intros n Hr. left. by apply (gn_reg _ _ _ Hg).
      * intros n Hr Hl. left. apply (gn_live _ _ _ Hg _ Hr). destruct Hl as [?|Hin]; [done|].
        by rewrite (proj2 (Ho n Hin)).
    + intros _. exists L', F'. split; [done|]. intros n Hin%Hset. destruct (Ho n Hin) as [H1 H2].
      destruct (Hkept n H1) as [H3 H4]; [by rewrite H2|]. by rewrite H4.
  - destruct Hown as [-> Hs]. split; [split|split; [apply same_set_refl|done]].
    + split; [intros i; by rewrite (gn_types _ _ _ Hg)|]. intros i Hi. by eapply headed_same, Hhd.
    + done.
    + intros i Hi. left. auto.
    + intros n Hin. by left.
    + apply moves_quiet; [done|apply (gn_seqs _ _ _ Hg)| | |by apply looks_same].
      * intros n Hr. left. destruct (same_registered _ _ n Hs) as [E1 E2]. by rewrite <- E1.
      * intros n Hr _. left. by apply (proj1 (same_registered _ _ n Hs)).
Qed.

Lemma gentle_step b N N' x m m' : typed K m -> (b = true -> mine me N m) -> own_step live b N N' m m' ->
  gentle live m m' -> mind_step live K b N N' x x m m' /\ same_set N N' /\ (b = true -> mine me N' m').
Proof. intros Ht Hm Ho [Hg Hr]. apply nearly_step; try done. intros i Hi. left. by apply Hr. Qed.

(** A mild program also keeps what is posted. *)
Lemma mild_posts {A} (R : A -> Prop) (p : action A) b x : forall N m, mild R p -> (b = true -> mine me N m) ->
  mf (fun b' N' x' a m' => mild_end R b N x b' N' x' a m' /\ posts_kept N m m') p b N x m.
Proof.
  induction p as [a|B f k IH|B f k IH|c k IH| |]; cbn [mild mindful]; intros N m Hp Hm; auto.
  - intros m' Hmw Ht. split; [|by eapply posts_kept_meanwhile]. split_and!; [done..|]. intros E. by eapply mine_meanwhile, Hm.
  - intros m' N' Hmw Ht Hown. destruct (Hp m' Ht) as [Hg Hk]. exists x.
    destruct (gentle_step b N N' x m' (snd (f m')) Ht) as (Hs & Hset & Hm'); [|done|done|].
    { intros E. by eapply mine_meanwhile, Hm. }
    split; [done|]. eapply mindful_mono; [|by apply IH].
    intros b' N2 x' a m2 [(->&->&Hs2&Ha&Hm2) Hp2]. split; [split_and!; try done; by eapply same_set_trans|].
    eapply posts_kept_trans; [apply same_set_refl|by eapply posts_kept_meanwhile|].
    eapply posts_kept_trans; [exact Hset| |exact Hp2]. intros n _. apply (gn_reg _ _ _ (gn_near _ _ _ Hg)).
  - destruct Hp as [Hc Hp]. destruct c; try discriminate Hc; intros z Hz; by apply IH; [apply Hp|].
Qed.

Lemma mild_mindful {A} (R : A -> Prop) (p : action A) b x N m : mild R p -> (b = true -> mine me N m) ->
  mf (mild_end R b N x) p b N x m.
Proof. intros Hp Hm. eapply mindful_mono; [|by apply mild_posts]. by intros ? ? ? ? ? [??]. Qed.

(** ** Steady and firm programs *)
(** Nobody waits for the thread to act: it has no waiter in its hand and no
    duty, unless a lock call failed. *)
Definition calm (x : mind) : Prop := md_hand x = HNone /\ (md_duty x = [] \/ errs).

Definition calm_end {A} (R : A -> Prop) (b : bool) (N : list Z) (x : mind) (b' : bool) (N' : list Z) (x' : mind)
  (a : A) (m' : Region) : Prop :=
  b' = b /\ calm x' /\ md_watch x' = md_watch x /\ same_set N N' /\ R a /\ (b = true -> mine me N' m').

Definition steady {A} (R : A -> Prop) (p : action A) : Prop := forall N x m, typed K m -> calm x ->
  mf (calm_end R false N x) p false N x m.

Definition firm {A} (R : A -> Prop) (p : action A) : Prop := forall N x m, typed K m -> calm x ->
  mine me N m -> mf (calm_end R true N x) p true N x m.

Lemma calm_then {A} (R : A -> Prop) b N1 N2 x1 x2 b' N' x' a m' : same_set N1 N2 -> md_watch x2 = md_watch x1 ->
  calm_end R b N2 x2 b' N' x' a m' -> calm_end R b N1 x1 b' N' x' a m'.
Proof. intros Hs Hw (->&?&?&?&?&?). split_and!; try done; [congruence|by eapply same_set_trans]. Qed.

Lemma mild_calm {A} (R : A -> Prop) b N x b' N' x' (a : A) m' : calm x ->
  mild_end R b N x b' N' x' a m' -> calm_end R b N x b' N' x' a m'.
Proof. intros Hc (->&->&?&?&?). by split_and!. Qed.

Lemma steady_mild {A} (R : A -> Prop) (p : action A) : mild R p -> steady R p.
Proof. intros Hp N x m Ht Hc. eapply mindful_mono; [|by apply mild_mindful]. intros *. by apply mild_calm. Qed.

Lemma firm_mild {A} (R : A -> Prop) (p : action A) : mild R p -> firm R p.
Proof. intros Hp N x m Ht Hc Hm. eapply mindful_mono; [|by apply mild_mindful]. intros *. by apply mild_calm. Qed.

Lemma steady_chain {A B} (S : A -> Prop) (R : B -> Prop) (p : action A) (q : A -> action B) :
  steady S p -> (forall a, S a -> steady R (q a)) -> steady R (bind p q).
Proof.
  intros Hp Hq N x m Ht Hc. eapply mindful_bind; [|done|by apply Hp].
  intros ? N1 x1 a m1 Ht1 (->&Hc1&Hw1&Hs&Ha&_). eapply mindful_mono; [|by apply Hq].
  intros *. by apply calm_then.
Qed.

Lemma steady_seq {A B} (R : B -> Prop) (p : action A) (q : A -> action B) :
  steady any p -> (forall a, steady R (q a)) -> steady R (bind p q).
Proof. intros Hp Hq. eapply steady_chain; [exact Hp|]. auto. Qed.

Lemma firm_bind {A B} (S : A -> Prop) (R : B -> Prop) (p : action A) (q : A -> action B) :
  firm S p -> (forall a, S a -> firm R (q a)) -> firm R (bind p q).
Proof.
  intros Hp Hq N x m Ht Hc Hm. eapply mindful_bind; [|done|by apply Hp].
  intros ? N1 x1 a m1 Ht1 (->&Hc1&Hw1&Hs&Ha&Hm1). eapply mindful_mono; [|by apply Hq; auto].
  intros *. by apply calm_then.
Qed.

Lemma firm_seq {A B} (R : B -> Prop) (p : action A) (q : A -> action B) :
  firm any p -> (forall a, firm R (q a)) -> firm R (bind p q).
Proof. intros Hp Hq. eapply firm_bind; [exact Hp|]. auto. Qed.
End mild.

(** ** The lock *)
Section lock.
Context `{!Config} (live : Z -> Prop) (me : Z) (errs : Prop) (Hme : live me) (K : Z -> Z) (T : list Z -> Prop).
Abbreviation mf Q p b N x m := (mindful live me errs K T Q p b N x m) (only parsing).
Abbreviation md R p := (mild live me errs K R p) (only parsing).

Lemma mild_stat i n : md any (stat_add i n).
Proof. apply mild_loc. Qed.

Lemma gentle_owner pid m : gentle live m (upd_header (set_owner_pid pid) m) /\ gentle live m (upd_header (set_owner_tid pid) m).
Proof. split; by apply gentle_header. Qed.

(** What a lock call leaves: the lock, or an error. *)
Definition lock_end {A} (N : list Z) (x : mind) (b : bool) (N' : list Z) (x' : mind) (r : result A Z) (m' : Region) : Prop :=
  x' = x /\ same_set N N' /\ match r with Ok _ => b = true /\ mine me N' m' | Err _ => b = false /\ errs end.

Lemma mild_granted ret tries (mask : option Z) :
  md (fun r => r = Ok mask) (
    stat_bump 4 ;;;
    (when (1 <? tries) do stat_bump 5) ;;;
    (when (ret =? EOWNERDEAD) do (sys MutexConsistent ;;; Ret tt)) ;;;
    (when debug_enabled do
       (pid <- sys GetPid ;;
        mem_write (upd_header (set_owner_pid pid)) ;;;
        tid <- sys GetTid ;;
        mem_write (upd_header (set_owner_tid tid)))) ;;;
    Ret (Ok (E := Z) mask)).
Proof.
  apply mild_seq; [apply mild_stat|]. intros _. apply mild_seq; [destruct (1 <? tries); [apply mild_stat|done]|].
  intros _. apply mild_seq; [by destruct (ret =? EOWNERDEAD)|]. intros _.
  apply mild_seq; [|done]. destruct debug_enabled; [|done].
  apply mild_seq; [by apply mild_sys|]. intros pid. apply mild_seq; [apply mild_write; intros m; apply gentle_owner|]. intros _.
  apply mild_seq; [by apply mild_sys|]. intros tid. apply mild_write. intros m. apply gentle_owner.
Qed.

Lemma lock_posts_loop fuel mask x : forall tries N m, typed K m ->
  mf (fun b N' x' r m' => lock_end N x b N' x' r m' /\ posts_kept N m m') (lock_loop fuel mask tries) false N x m.
Proof.
  induction fuel as [|fuel IH]; intros tries N m Ht; cbn [lock_loop]; [done|].
  assert (forall z m1, meanwhile live K false N m m1 -> typed K m1 -> (granted z = true -> mine me N m1) ->
    (granted z = false -> z = EINTR \/ z = ETIMEDOUT \/ errs) ->
    mf (fun b N' x' r m' => lock_end N x b N' x' r m' /\ posts_kept N m m') (
      if (z =? 0) || (z =? EOWNERDEAD) then
        stat_bump 4 ;;;
        (when (1 <? wrap32 (tries + 1)) do stat_bump 5) ;;;
        (when (z =? EOWNERDEAD) do (sys MutexConsistent ;;; Ret tt)) ;;;
        (when debug_enabled do
           (pid <- sys GetPid ;;
            mem_write (upd_header (set_owner_pid pid)) ;;;
            tid <- sys GetTid ;;
            mem_write (upd_header (set_owner_tid tid)))) ;;;
        Ret (Ok mask)
      else if z =? ETIMEDOUT then lock_loop fuel mask (wrap32 (tries + 1))
      else if negb (z =? EINTR) then
        match mask with
        | Some m => sys (SigSetmask m) ;;; Ret (Err (- z))
        | None => Ret (Err (- z))
        end
      else lock_loop fuel mask (wrap32 (tries + 1))) (granted z) N x m1) as Hafter.
  { intros z m1 Hmw Ht1 Hm1 Hz. fold (granted z). pose proof (posts_kept_meanwhile _ _ _ _ _ _ Hmw) as Hp. destruct (granted z).
    - eapply mindful_mono; [|apply (mild_posts live me errs Hme); [apply mild_granted|auto]].
      intros ? ? ? ? m2 [(->&->&Hs&->&Hm2) Hp2]. split; [split_and!; auto|].
      eapply posts_kept_trans; [apply same_set_refl|exact Hp|done].
    - assert (forall tries, mf (fun b N' x' r m' => lock_end N x b N' x' r m' /\ posts_kept N m m')
        (lock_loop fuel mask tries) false N x m1) as IH'.
      { intros tr. eapply mindful_mono; [|by apply IH]. intros ? ? ? ? ? [Hl Hp2]. split; [done|].
        eapply posts_kept_trans; [apply same_set_refl|exact Hp|done]. }
      destruct (Z.eqb_spec z ETIMEDOUT) as [->|Hz1]; [by apply IH'|].
      destruct (Z.eqb_spec z EINTR) as [->|Hz2]; cbn [negb]; [by apply IH'|].
      assert errs by (by destruct (Hz eq_refl) as [?|[?|?]]).
      assert (forall m2, meanwhile live K false N m1 m2 ->
        lock_end (A := option Z) N x false N x (Err (- z)) m2 /\ posts_kept N m m2) as Hend.
      { intros m2 Hmw2. split; [by split_and!|]. eapply posts_kept_trans; [apply same_set_refl|exact Hp|].
        by eapply posts_kept_meanwhile. }
      destruct mask as [k|]; cbn; auto. }
  destruct debug_enabled; cbn.
  - intros now _. split; [done|]. intros m1 z Hmw Ht1 Hz Hgr. apply Hafter; [done|done| |exact Hz]. intros E. by apply Hgr.
  - split; [done|]. intros m1 z Hmw Ht1 Hz Hgr. apply Hafter; [done|done| |exact Hz]. intros E. by apply Hgr.
Qed.

Lemma lock_posts_guard x N m : typed K m ->
  mf (fun b N' x' r m' => lock_end N x b N' x' r m' /\ posts_kept N m m') lock_guard false N x m.
Proof.
  intros Ht. unfold lock_guard. destruct sigusr1_block_enabled; cbn; [intros z _|]; by apply lock_posts_loop.
Qed.

Lemma mindful_lock_guard x N m : typed K m -> mf (lock_end N x) lock_guard false N x m.
Proof. intros Ht. eapply mindful_mono; [|by apply lock_posts_guard]. by intros ? ? ? ? ? [??]. Qed.

Lemma drop_posts mask x N m : typed K m -> md_hand x = HNone -> mine me N m ->
  mf (fun b N' x' _ m' => b = false /\ x' = x /\ same_set N N' /\ posts_kept N m m') (guard_drop mask) true N x m.
Proof.
  intros Ht Hh Hm. unfold guard_drop. eapply mindful_bind; [|done|apply (mild_posts live me errs Hme K T any); [|done]].
  2: { apply mild_write. intros m1. by apply gentle_header. }
  intros ? N1 ? ? m1 Ht1 [(->&->&Hs&_&Hm1) Hp1]. cbn. split; [done|]. intros m2 z Hmw.
  assert (forall m3, meanwhile live K false N1 m2 m3 -> posts_kept N m m3) as Hp.
  { intros m3 Hmw3. eapply posts_kept_trans; [exact Hs|exact Hp1|]. eapply posts_kept_trans; [apply same_set_refl| |];
      by eapply posts_kept_meanwhile. }
  destruct mask as [k|]; cbn; intros; split_and!; auto.
Qed.

Lemma mindful_guard_drop mask x N m : typed K m -> md_hand x = HNone -> mine me N m ->
  mf (fun b N' x' _ _ => b = false /\ x' = x /\ same_set N N') (guard_drop mask) true N x m.
Proof. intros Ht Hh Hm. eapply mindful_mono; [|by apply drop_posts]. by intros ? ? ? ? ? (?&?&?&?). Qed.

Lemma steady_with_lock {A} (R : result A Error -> Prop) (body : action (result A Error)) :
  (forall e, R (Err (Init e))) -> firm live me errs K T R body -> steady live me errs K T R (with_lock body).
Proof.
  intros He Hb N x m Ht Hc. unfold with_lock. eapply mindful_bind; [|done|by apply mindful_lock_guard].
  intros b N1 ? [mask|e] m1 Ht1 (->&Hs1&Hr).
  - destruct Hr as [-> Hm1]. eapply mindful_bind; [|done|by apply Hb].
    intros ? N2 x2 r m2 Ht2 (->&Hc2&Hw2&Hs2&Ha&Hm2). eapply mindful_bind; [|done|apply mindful_guard_drop; [done|apply Hc2|auto]].
    intros ? N3 ? ? m3 Ht3 (->&->&Hs3). cbn. intros m4 _ _. split_and!; try done.
    eapply same_set_trans; [exact Hs1|]. by eapply same_set_trans.
  - destruct Hr as [-> _]. cbn. intros m2 _ _. by split_and!.
Qed.

(** A duty that is done under the lock, if there is one. *)
Lemma mindful_if_lock (body : action unit) N x m : typed K m -> md_hand x = HNone ->
  (forall N m, typed K m -> mine me N m ->
    mf (calm_end me errs any true N x) body true N x m) ->
  mf (calm_end me errs any false N x) (if_lock body) false N x m.
Proof.
  intros Ht Hh Hb. unfold if_lock. eapply mindful_bind; [|done|by apply mindful_lock_guard].
  intros b N1 ? [mask|e] m1 Ht1 (->&Hs1&Hr).
  - destruct Hr as [-> Hm1]. eapply mindful_bind; [|done|by apply Hb].
    intros ? N2 x2 r m2 Ht2 (->&Hc2&Hw2&Hs2&Ha&Hm2). eapply mindful_mono; [|apply mindful_guard_drop; [done|apply Hc2|auto]].
    intros ? N3 ? ? m3 (->&->&Hs3). split_and!; try done.
    eapply same_set_trans; [exact Hs1|]. by eapply same_set_trans.
  - destruct Hr as [-> He]. cbn. intros m2 _ _. split_and!; try done. split; [done|by right].
Qed.
End lock.
