(* ===== verification/WatchWake.v ===== *)
(** * WatchWake: waking with everything in mind

    The wake walk takes the waiters off a list one by one, and has each in the
    hand until its futex word is bumped and it is woken; at the end of the walk
    nobody is left on the list, and the duty is done. *)
From S2P Require Import Prelude Prog Config Region Kernel Lock Nodes WaitLists NodePool Sweep Objects Wait Interleave Guard GuardRules GuardOps GuardLists GuardSlots Watch WatchRules.

(** ** What list surgery does to registrations *)
(** What removal never touches. *)
Definition core (n : WaitNode) : Z * Z * Z := (n_seq n, n_wait_word n, n_pid n).
Definition post (n : WaitNode) : Z * Z := (n_registered n, n_obj n).

Lemma detach_core m idx k : core (node_ptr (node_detach idx m) k) = core (node_ptr m k).
Proof.
  assert (forall j f m, (forall x, core (f x) = core x) -> core (node_ptr (upd_node j f m) k) = core (node_ptr m k)) as Hupd.
  { intros j f m1 Hf. region_simpl. by destruct (decide (j = k)) as [<-|]. }
  unfold node_detach. destruct (_ =? 0); [done|]. cbv zeta. rewrite Hupd by done.
  destruct (negb _); [rewrite Hupd by done|]; destruct (_ =? NIL); try done; by rewrite Hupd.
Qed.

Lemma detach_post m idx k : k <> idx -> post (node_ptr (node_detach idx m) k) = post (node_ptr m k).
Proof.
  intros Hk. assert (forall j f m, (forall x, post (f x) = post x) -> post (node_ptr (upd_node j f m) k) = post (node_ptr m k)) as Hupd.
  { intros j f m1 Hf. region_simpl. by destruct (decide (j = k)) as [<-|]. }
  unfold node_detach. destruct (_ =? 0); [done|]. cbv zeta.
  rewrite node_ptr_upd_node, decide_False by congruence.
  destruct (negb _); [rewrite Hupd by done|]; destruct (_ =? NIL); try done; by rewrite Hupd.
Qed.

Lemma detach_self m idx : ~ registered (node_detach idx m) idx.
Proof.
  unfold registered, node_detach. destruct (Z.eqb_spec (n_registered (node_ptr m idx)) 0) as [E|E]; [tauto|].
  cbv zeta. rewrite node_ptr_upd_node, decide_True by done. cbn. tauto.
Qed.

Lemma detach_reg m idx k : k <> idx ->
  (registered (node_detach idx m) k <-> registered m k) /\ same_post m (node_detach idx m) k.
Proof.
  intros Hk. pose proof (detach_post m idx k Hk) as [= H1 H2]. pose proof (detach_core m idx k) as [= _ H3 _].
  unfold registered, same_post. by rewrite H1, H2, H3.
Qed.

Lemma detach_seqs m idx : same_seqs m (node_detach idx m).
Proof. intros k. by pose proof (detach_core m idx k) as [= ? _ _]. Qed.

(** Words, types and availability. *)
Lemma detach_objects m idx i :
  s_obj_type (slot_ptr (node_detach idx m) i) = s_obj_type (slot_ptr m i) /\
  s_w0 (slot_ptr (node_detach idx m) i) = s_w0 (slot_ptr m i).
Proof.
  destruct (quiet_detach idx m i) as (H1 & H2 & _). done.
Qed.

Lemma detach_available m idx i : available (node_detach idx m) i <-> available m i.
Proof. unfold available. by destruct (detach_objects m idx i) as [-> ->]. Qed.

Lemma detach_headed m L idx i : lists_ok m L -> headed m i -> headed (node_detach idx m) i.
Proof.
  intros HL Hh. pose proof (detach_ok m L idx HL) as HL'.
  destruct (decide (registered m idx)) as [Hr|Hr].
  2: { assert (node_detach idx m = m) as ->; [|done]. unfold node_detach, registered in *.
       destruct (Z.eqb_spec (n_registered (node_ptr m idx)) 0); [done|]. tauto. }
  destruct (decide (without idx (L i) = [])) as [E|E].
  - left. destruct (lists_ok_split _ _ _ HL Hr) as (l1 & l2 & Hs & Hn1 & Hn2 & Hp & Hx).
    destruct (detach_side m L idx HL Hr l1 l2 Hs Hn1 Hn2 Hp Hx) as (Hd1 & Hd2 & Hd3).
    rewrite node_detach_slot by done. destruct (decide (i = n_obj (node_ptr m idx))) as [->|Hi].
    + rewrite Hs in E. unfold without in E. rewrite filter_app, filter_cons_False in E by tauto.
      fold (without idx l1) (without idx l2) in E. rewrite !without_notin in E by done.
      apply app_eq_nil in E as [-> ->]. cbn in Hp, Hx. rewrite decide_True by done. cbn. exact Hx.
    + rewrite decide_False by (by intros [? _]). destruct Hh as [?|(n & Hn & Ho)]; [done|].
      exfalso. pose proof (lo_cov _ _ HL n Hn) as Hin. rewrite Ho in Hin.
      assert (n ∈ without idx (L i)) as Hin'.
      { apply elem_of_without. split; [|done]. intros ->. congruence. }
      rewrite E in Hin'. by apply elem_of_nil in Hin'.
  - right. destruct (without idx (L i)) as [|n l] eqn:El; [done|]. exists n.
    destruct (lo_reg _ _ HL' i n) as [H1 H2]; [rewrite El; left|]. done.
Qed.

(** ** The dead *)
Lemma gentle_reap_node live c m : ~ live (c_pid c) -> gentle live m (reap_node c m).
Proof.
  intros Hdead. unfold reap_node. destruct (Z.eqb_spec (n_registered (node_ptr m (c_index c))) 0) as [_|Hreg]; [apply gentle_refl|].
  destruct (Z.eqb_spec (n_pid (node_ptr m (c_index c))) (c_pid c)) as [Hpid|_]; [|apply gentle_refl]. cbn [negb andb].
  set (i := c_index c) in *. set (m' := node_free i (node_detach i m)).
  assert (forall n, registered m' n <-> registered (node_detach i m) n) as Er.
  { intros n. unfold registered, m', node_free. region_simpl. by destruct (decide (i = n)) as [<-|]. }
  assert (forall n, core (node_ptr m' n) = core (node_ptr m n) /\ n_obj (node_ptr m' n) = n_obj (node_ptr (node_detach i m) n)) as Ec.
  { intros n. rewrite <- (detach_core m i n). unfold m', node_free. region_simpl. by destruct (decide (i = n)) as [<-|]. }
  assert (forall n, live (n_pid (node_ptr m n)) -> n <> i) as Hne by (intros n Hl ->; by rewrite Hpid in Hl).
  split; [split|intros j; apply detach_available].
  - intros j. apply detach_objects.
  - intros n. by destruct (Ec n) as [[= ? _ _] _].
  - intros n Hr%Er. assert (n <> i) as Hn by (intros ->; by apply (detach_self m i)).
    destruct (detach_reg m i n Hn) as [H1 [H2 _]]. split; [by apply H1|]. destruct (Ec n) as [[= _ E _] E2].
    split; [by rewrite E2|done].
  - intros n Hr Hl. apply Er, detach_reg; auto.
  - intros L F L' F' HP HP'. destruct (reaped_pool m L F i HP Hreg) as [HP2 E].
    rewrite <- (pool_free_unique _ _ _ _ _ HP2 HP'). split_and!.
    + intros n Ho Hl. split; [apply E; auto|]. by destruct (Ec n) as [[= _ _ ?] _].
    + intros n Hn. by apply E.
    + intros j Hj. destruct (detach_headed m L i j (po_lists _ _ _ HP) Hj) as [H|(n & Hn & Ho)]; [by left|].
      right. exists n. rewrite Er. destruct (Ec n) as [_ ->]. done.
Qed.

(** ** The wake walk *)
Section wake.
Context `{!Config} (live : Z -> Prop) (me : Z) (errs : Prop) (Hme : live me) (K : Z -> Z) (T : list Z -> Prop).
Abbreviation mf Q p b N x m := (mindful live me errs K T Q p b N x m) (only parsing).
Abbreviation md R p := (mild live me errs K R p) (only parsing).

(** The waiters of an object, in order. *)
Definition listed (i : Z) (l : list Z) (m : Region) : Prop := exists L F, pool_ok m L F /\ L i = l.

Lemma listed_same i l m m' : same_lists m m' -> listed i l m -> listed i l m'.
Proof. intros Hs (L & F & HP & HL). exists L, F. split; [by eapply same_lists_pool|done]. Qed.

Lemma listed_head i l m : headed m i -> listed i l m -> s_waiter_head (slot_ptr m i) = hd NIL l.
Proof.
  intros Hh (L & F & HP & <-). destruct (decide (L i = [])) as [E|E].
  - rewrite E. destruct Hh as [?|(n & Hn & <-)]; [done|]. pose proof (lo_cov _ _ (po_lists _ _ _ HP) n Hn) as Hin.
    rewrite E in Hin. by apply elem_of_nil in Hin.
  - apply (lo_head _ _ (po_lists _ _ _ HP)). by left.
Qed.

(** The walk is in memory [m], with its own nodes in hand. *)
Definition walking (i : Z) (l : list Z) (N : list Z) (m : Region) : Prop := listed i l m /\ mine me N m.

Lemma walking_later i l N m m' : meanwhile live K true N m m' -> walking i l N m -> walking i l N m'.
Proof. intros [Hs _ _ _] [H1 H2]. split; [by eapply listed_same|by eapply mine_same]. Qed.

(** The ownership of a step that frees nothing and takes nothing. *)
Lemma own_set N N' m m' L F L' : own_step live true N N' m m' -> pool_ok m L F -> pool_ok m' L' F ->
  h_node_fresh (header m') = h_node_fresh (header m) -> (forall n, n ∈ N -> owned m F n) ->
  same_set N N' /\ forall n, owned m' F n <-> owned m F n.
Proof.
  intros (L0 & F0 & L1 & F1 & HP0 & HP1 & _ & Hn & Hc) HP HP' Hf Ho.
  rewrite (pool_free_unique _ _ _ _ _ HP0 HP) in *. rewrite (pool_free_unique _ _ _ _ _ HP1 HP') in *.
  assert (forall n, owned m' F n <-> owned m F n) as E by (intros n; unfold owned; by rewrite Hf).
  split; [|done]. intros n. split; intros Hin.
  - destruct (Hn n Hin) as [H1%E [?|?]]; done.
  - destruct (Hc n) as [?|[_ ?]]; [by apply E, Ho|done..].
Qed.

Lemma own_same N N' m m' L F L' : own_step live true N N' m m' -> pool_ok m L F -> pool_ok m' L' F ->
  h_node_fresh (header m') = h_node_fresh (header m) -> (forall n, n_pid (node_ptr m' n) = n_pid (node_ptr m n)) ->
  mine me N m -> same_set N N' /\ mine me N' m'.
Proof.
  intros Hown HP HP' Hf Hp (L2 & F2 & HP2 & Ho). rewrite (pool_free_unique _ _ _ _ _ HP2 HP) in *.
  destruct (own_set _ _ _ _ _ _ _ Hown HP HP' Hf) as [Hset E]; [intros n Hn; by apply Ho|].
  split; [done|]. exists L', F. split; [done|]. intros n Hin%Hset. rewrite E, Hp. by apply Ho.
Qed.

(** Taking the first waiter into the hand; after the last one the duty is done. *)
Lemma detach_mind N N' x m i n l : typed K m -> md_hand x = HNone -> walking i (n :: l) N m ->
  own_step live true N N' m (node_detach n m) ->
  let x' := with_duty (if decide (l = []) then filter (fun j => j <> i) (md_duty x) else md_duty x)
              (with_hand (HBump (n_wait_word (node_ptr m n))) x) in
  mind_step live K true N N' x x' m (node_detach n m) /\ same_set N N' /\ walking i l N' (node_detach n m).
Proof.
  intros [Ht Hhd] Hh [(L & F & HP & HL) Hm] Hown x'. pose proof (po_lists _ _ _ HP) as HLk.
  pose proof (detach_pool_ok m L F n HP) as HP'. destruct (surgery_detach n m) as (_ & Hpid & Hf).
  destruct (own_same _ _ _ _ _ _ _ Hown HP HP' Hf Hpid Hm) as [Hset Hm'].
  assert (without n (n :: l) = l) as Hl.
  { pose proof (lo_nodup _ _ HLk i) as Hn. rewrite HL in Hn. apply NoDup_cons in Hn as [Hn _].
    unfold without. rewrite filter_cons_False by tauto. by apply without_notin. }
  assert (typed K (node_detach n m)) as Ht'.
  { split; [intros j; by rewrite (proj1 (detach_objects m n j))|]. intros j Hj. by eapply detach_headed, Hhd. }
  assert (registered m n) as Hr. { apply (lo_reg _ _ HLk i n). rewrite HL. left. }
  split; [split; [done| | | |]|].
  - intros j Hj%detach_available. by left.
  - intros j Hj. unfold x'. cbn [md_duty with_duty]. destruct (decide (l = [])) as [->|]; [|by left].
    destruct (decide (j = i)) as [->|Hne]; [|left; by apply list_elem_of_filter]. right.
    rewrite (detach_first_slot m L i n [] i HLk HL), decide_True by done. done.
  - intros k Hk. left. by apply Hset.
  - eapply (moves_detach _ _ _ _ _ _ _ _ n); [done|done|done|done|apply detach_seqs|done|apply detach_self| |].
    + intros k Hk. by apply detach_reg.
    + intros k Hk. destruct (decide (k = n)) as [->|Hne]; [by destruct (detach_self m n)|by apply detach_reg].
  - split; [done|]. split; [|done]. exists (fun j => without n (L j)), F. split; [done|]. by rewrite HL.
Qed.

(** A step of the walk that leaves the lists alone. *)
Lemma walking_step i l N N' m m' : own_step live true N N' m m' -> same_lists m m' -> walking i l N m ->
  same_set N N' /\ walking i l N' m'.
Proof.
  intros Hown Hs [Hl Hm]. pose proof Hm as (L & F & HP & _).
  destruct (own_same _ _ _ _ _ _ _ Hown HP (same_lists_pool _ _ Hs _ _ HP) (sl_fresh _ _ Hs)) as [Hset Hm']; [|done|].
  { intros n. by destruct (same_node _ _ Hs n) as (_&_&_&_&_&->). }
  split; [done|]. split; [by eapply listed_same|done].
Qed.

Lemma same_typed m m' : same_lists m m' -> typed K m -> typed K m'.
Proof.
  intros Hs [Ht Hhd]. split.
  - intros i. rewrite <- Ht. pose proof (sl_slot _ _ Hs i) as E. destruct (slot_ptr m i), (slot_ptr m' i). cbn in *. by simplify_eq.
  - intros i Hi. by eapply headed_same, Hhd.
Qed.

Lemma bump_mind N N' x m i l w : typed K m -> md_hand x = HBump w -> walking i l N m ->
  own_step live true N N' m (upd_node w (fun n => set_seq (wrap32 (n_seq n + 1)) n) m) ->
  mind_step live K true N N' x (with_hand (HWake w) x) m (upd_node w (fun n => set_seq (wrap32 (n_seq n + 1)) n) m) /\
  same_set N N' /\ walking i l N' (upd_node w (fun n => set_seq (wrap32 (n_seq n + 1)) n) m).
Proof.
  intros Ht Hh Hw Hown. set (f := fun n => set_seq (wrap32 (n_seq n + 1)) n) in *.
  assert (same_lists m (upd_node w f m)) as Hs by (by apply same_seq).
  destruct (walking_step _ _ _ _ _ _ Hown Hs Hw) as [Hset Hw']. split; [|done]. split.
  - by eapply same_typed.
  - intros j Hj. by left.
  - intros j Hj. by left.
  - intros n Hn. left. by apply Hset.
  - apply (moves_bump _ _ _ _ _ _ _ _ w); try done.
    + region_simpl. by rewrite decide_True.
    + intros n Hn. region_simpl. by rewrite decide_False by congruence.
    + intros k. by apply (same_registered _ _ k Hs).
    + intros k. by apply (same_registered _ _ k Hs).
Qed.

Lemma stamp_mind N N' x m i l w ts : typed K m -> walking i l N m ->
  own_step live true N N' m (upd_node w (set_wake_ts ts) m) ->
  mind_step live K true N N' x x m (upd_node w (set_wake_ts ts) m) /\
  same_set N N' /\ walking i l N' (upd_node w (set_wake_ts ts) m).
Proof.
  intros Ht Hw Hown. assert (same_lists m (upd_node w (set_wake_ts ts) m)) as Hs by (by apply same_seq).
  destruct (walking_step _ _ _ _ _ _ Hown Hs Hw) as [Hset Hw']. split; [|done]. split.
  - by eapply same_typed.
  - intros j Hj. by left.
  - intros j Hj. by left.
  - intros n Hn. left. by apply Hset.
  - apply moves_quiet; [done| | | |by apply looks_same].
    + intros n. region_simpl. by destruct (decide (w = n)) as [<-|].
    + intros n Hr. left. destruct (same_registered _ _ n Hs) as [E1 E2]. by rewrite <- E1.
    + intros n Hr _. left. by apply (proj1 (same_registered _ _ n Hs)).
Qed.

(** What the walk leaves. *)
Definition walk_end (i : Z) (l : list Z) (N : list Z) (x : mind) {A} (b : bool) (N' : list Z) (x' : mind) (a : A) (m' : Region) : Prop :=
  b = true /\ x' = x /\ same_set N N' /\ walking i l N' m'.

Lemma mindful_wake_node i l w x N m : typed K m -> md_hand x = HBump w -> walking i l N m ->
  mf (walk_end i l N (with_hand HNone x)) (wake_node w) true N x m.
Proof.
  intros Ht Hh Hw. unfold wake_node.
  eapply (mindful_bind live me errs K T (walk_end i l N x)); [|done|].
  2: { destruct debug_enabled; cbn.
    - intros now _ m1 N1 Hmw Ht1 Hown. exists x.
      destruct (stamp_mind N N1 x m1 i l w now Ht1 (walking_later _ _ _ _ _ Hmw Hw) Hown) as (H1 & H2 & H3).
      split; [done|]. intros m2 Hmw2 Ht2. split_and!; try done. by eapply walking_later.
    - intros m1 Hmw Ht1. split_and!; try done. by eapply walking_later. }
  intros ? N1 ? ? m1 Ht1 (->&->&Hs1&Hw1). cbn. intros m2 N2 Hmw Ht2 Hown. exists (with_hand (HWake w) x).
  destruct (bump_mind N1 N2 x m2 i l w Ht2 Hh (walking_later _ _ _ _ _ Hmw Hw1) Hown) as (H1 & H2 & H3).
  split; [exact H1|]. split; [done|]. intros z m3 Hmw3 Ht3. split_and!; try done; [by eapply same_set_trans|by eapply walking_later].
Qed.

Lemma filter_duty i (d : list Z) : i ∉ d -> filter (fun j => j <> i) d = d.
Proof.
  induction d as [|j d IH]; [done|]. intros [Hj Hd]%not_elem_of_cons. rewrite filter_cons_True by congruence.
  by rewrite IH.
Qed.

(** The duty towards [i] is done when nobody is left. *)
Definition relieved (i : Z) (x : mind) : mind := with_duty (filter (fun j => j <> i) (md_duty x)) x.

Lemma relieved_twice i x : i ∉ md_duty x -> relieved i x = x.
Proof. intros Hi. unfold relieved. rewrite filter_duty by done. by destruct x. Qed.

Lemma mindful_wake_loop fuel i : forall l x N m, typed K m -> md_hand x = HNone -> walking i l N m ->
  (l = [] -> i ∉ md_duty x) ->
  mf (walk_end i [] N (relieved i x)) (wake_loop fuel (hd NIL l)) true N x m.
Proof.
  induction fuel as [|fuel IH]; intros [|n l] x N m Ht Hh Hw Hd; cbn [wake_loop hd]; try done.
  - rewrite relieved_twice by auto. intros m1 Hmw Ht1. split_and!; try done. by eapply walking_later.
  - destruct (Z.eqb_spec n NIL) as [->|_].
    { destruct Hw as [(L & F & HP & HL) _]. exfalso. apply (lists_ok_nil m L i NIL (po_lists _ _ _ HP)); [|done].
      rewrite HL. set_solver. }
    eapply (mindful_bind live me errs K T (fun b N' x' nw m' => walk_end i (n :: l) N x b N' x' nw m' /\
      nw = (hd NIL l, n_wait_word (node_ptr m' n)))); [|done|].
    2: { intros m1 N1 Hmw Ht1 Hown. exists x.
      assert (walking i (n :: l) N m1) as Hw1 by (by eapply walking_later).
      destruct (walking_step _ _ _ _ _ _ Hown (same_lists_refl m1) Hw1) as [Hset Hw2]. split.
      - destruct (gentle_step live me Hme K true N N1 x m1 m1 Ht1) as [? _]; [by destruct Hw1|done|apply gentle_refl|done].
      - cbn. intros m2 Hmw2 Ht2. split; [split_and!; try done; by eapply walking_later|].
        destruct (same_registered _ _ n (mw_others _ _ _ _ _ _ Hmw2)) as [_ [_ ->]]. f_equal.
        destruct Hw1 as [(L & F & HP & HL) _]. pose proof (lo_seg _ _ (po_lists _ _ _ HP) i) as Hseg.
        rewrite HL in Hseg. apply Hseg. }
    intros ? N1 ? ? m1 Ht1 [(->&->&Hs1&Hw1) ->]. cbn [fst snd].
    eapply (mindful_bind live me errs K T (fun b N' x' (_ : unit) m' => walk_end i l N
      (with_duty (if decide (l = []) then filter (fun j => j <> i) (md_duty x) else md_duty x)
         (with_hand (HBump (n_wait_word (node_ptr m1 n))) x)) b N' x' () m')); [|done|].
    2: { intros m2 N2 Hmw2 Ht2 Hown.
      destruct (detach_mind N1 N2 x m2 i n l Ht2 Hh (walking_later _ _ _ _ _ Hmw2 Hw1) Hown) as (H1 & H2 & H3).
      destruct (same_registered _ _ n (mw_others _ _ _ _ _ _ Hmw2)) as [_ [_ E]].
      rewrite E in H1. eexists. split; [exact H1|]. cbn. intros m3 Hmw3 Ht3.
      split_and!; try done; [by eapply same_set_trans|by eapply walking_later]. }
    intros ? N2 ? ? m2 Ht2 (->&->&Hs2&Hw2).
    eapply mindful_bind; [|done|by apply mindful_wake_node].
    intros ? N3 ? ? m3 Ht3 (->&->&Hs3&Hw3). cbn [with_duty with_hand md_duty md_hand md_watch].
    eapply mindful_mono; [|apply IH; [done|done|exact Hw3|]].
    + intros b N4 x' [] m4 (->&->&Hs4&Hw4). split_and!; try done.
      * unfold relieved. destruct x as [d h w]. cbn [with_duty with_hand md_duty md_hand md_watch] in *. subst h.
        destruct (decide (l = [])); [|done]. rewrite filter_duty; [done|]. rewrite list_elem_of_filter. tauto.
      * eapply same_set_trans; [exact Hs2|]. by eapply same_set_trans.
    + intros ->. rewrite decide_True by done. cbn [with_hand with_duty md_duty]. rewrite list_elem_of_filter. tauto.
Qed.

(** Waking an object whose list is proper. *)
Lemma mindful_wake_object i x N m : typed K m -> headed m i -> md_hand x = HNone -> mine me N m ->
  mf (mild_end me any true N (relieved i x)) (wake_object i) true N x m.
Proof.
  intros Ht Hhd Hh Hm. unfold wake_object.
  eapply (mindful_bind live me errs K T (fun b N' x' idx m' => exists l, walk_end i l N
    (if decide (l = []) then relieved i x else x) b N' x' idx m' /\ idx = hd NIL l)); [|done|].
  - intros b N1 x1 ? m1 Ht1 (l & (->&->&Hs&Hw) & ->).
    eapply mindful_mono; [|apply (mindful_wake_loop loop_fuel i l); [done| |exact Hw|]].
    + intros ? N2 ? ? m2 (->&->&Hs2&[_ Hm2]). split_and!; try done.
      * destruct (decide (l = [])) as [->|]; [|done]. apply relieved_twice. cbn. rewrite list_elem_of_filter. tauto.
      * by eapply same_set_trans.
    + by destruct (decide (l = [])).
    + intros ->. rewrite decide_True by done. cbn. rewrite list_elem_of_filter. tauto.
  - intros m1 N1 Hmw Ht1 Hown. pose proof (mine_same me N m m1 (mw_others _ _ _ _ _ _ Hmw) Hm) as Hm1.
    pose proof Hm1 as (L & F & HP & _). assert (walking i (L i) N m1) as Hw1 by (split; [by exists L, F|done]).
    assert (headed m1 i) as Hhd1 by (eapply headed_same; [apply (mw_others _ _ _ _ _ _ Hmw)|done]).
    destruct (walking_step _ _ _ _ _ _ Hown (same_lists_refl m1) Hw1) as [Hset Hw2].
    pose proof (listed_head i (L i) m1 Hhd1 (proj1 Hw1)) as Ehd.
    destruct (gentle_step live me Hme K true N N1 x m1 m1 Ht1) as [Hms _]; [done|done|apply gentle_refl|].
    exists (if decide (L i = []) then relieved i x else x). split.
    + destruct (decide (L i = [])) as [E|E]; [|done]. destruct Hms as [A1 A2 A3 A4 A5]. split; [done| | |done|].
      * intros j Hj. by left.
      * intros j Hj. destruct (decide (j = i)) as [->|Hne]; [right; cbn [snd]; by rewrite Ehd, E|left].
        by apply list_elem_of_filter.
      * destruct A5 as [B1 B2 B3 B4 B5| |]; [|congruence|congruence].
        apply moves_quiet; [done|done|done|done|]. by apply looks_same.
    + cbn. intros m2 Hmw2 Ht2. exists (L i). split; [|done]. split_and!; try done. by eapply walking_later.
Qed.
End wake.
