(* ===== verification/WatchOps.v ===== *)
(** * WatchOps: the operations, mindful

    The lock-free acquisitions never make an object available; the signals
    that do go on to wake its waiters; the sweep, the closing and the pulse wake
    under the lock. *)
From S2P Require Import Prelude Prog Config Region Kernel Lock Nodes WaitLists NodePool Policy Sweep Init Slots Objects Words Wait SlotsOk Interleave Guard GuardRules GuardOps GuardLists GuardSlots Watch WatchRules WatchWake.

Section ops.
Context `{!Config} (live : Z -> Prop) (me : Z) (errs : Prop) (Hme : live me) (Hzero : ~ live 0) (K : Z -> Z) (T : list Z -> Prop).
Abbreviation mf Q p b N x m := (mindful live me errs K T Q p b N x m) (only parsing).
Abbreviation md R p := (mild live me errs K R p) (only parsing).
Abbreviation st R p := (steady live me errs K T R p) (only parsing).
Abbreviation fm R p := (firm live me errs K T R p) (only parsing).

(** ** Acquiring *)
(** A swap of words that does not make the object available. *)
Lemma mild_cas i old new : (ready_word (K i) new = true -> ready_word (K i) old = true) -> md any (cas64 i old new).
Proof.
  intros Hw. unfold cas64. apply mild_seq; [|intros []; apply passive_mild; passives].
  apply mild_do. intros m [Ht _]. unfold cas_w0_step.
  destruct (Z.eqb_spec (s_w0 (slot_ptr m i)) old) as [<-|_]; [|apply gentle_refl].
  apply gentle_word. rewrite Ht. unfold available. by rewrite Ht.
Qed.

(** A swap in a loop that is repeated when it fails. *)
Lemma mild_retry {A} (R : A -> Prop) i old new (p q : action A) :
  (ready_word (K i) new = true -> ready_word (K i) old = true) -> md R p -> md R q ->
  md R (ok <- cas64 i old new ;; if ok : bool then p else q).
Proof. intros Hw Hp Hq. apply mild_seq; [by apply mild_cas|]. by intros []. Qed.

Lemma mild_load {A B} (R : A -> Prop) (f : Region -> B) (k : B -> action A) : (forall b, md R (k b)) -> md R (bind (mem_read f) k).
Proof. intros Hk. apply mild_seq; [by apply mild_read|done]. Qed.

Lemma ready_sem w : ready_word TYPE_SEM w = (0 <? lo32 w).
Proof. done. Qed.
Lemma ready_mutex w : ready_word TYPE_MUTEX w = (lo32 w =? 0) && (m_count w <? 0x7fffffff).
Proof. done. Qed.
Lemma ready_event w : ready_word TYPE_EVENT w = negb (lo32 w =? 0).
Proof. done. Qed.

Lemma mild_acquire_sem fuel i : K i = TYPE_SEM -> md any (acquire_sem fuel i).
Proof.
  intros Hk. induction fuel as [|fuel IH]; cbn [acquire_sem]; [done|]. unfold ld_w0. apply mild_load. intros w. cbv zeta.
  destruct (Z.eqb_spec (lo32 w) 0) as [|Hne]; [done|]. apply mild_retry; [|done|exact IH]. intros _.
  rewrite Hk, ready_sem. pose proof (lo32_range w). apply Z.ltb_lt. lia.
Qed.

Lemma mild_acquire_mutex fuel i owner : K i = TYPE_MUTEX -> 0 < owner < W32 -> md any (acquire_mutex fuel i owner).
Proof.
  intros Hk Ho. induction fuel as [|fuel IH]; cbn [acquire_mutex]; [done|]. unfold ld_w0. apply mild_load. intros w. cbv zeta.
  destruct (_ <=? _) eqn:Ec; [done|]. apply Z.leb_gt in Ec. destruct (Z.eqb_spec (lo32 w) 0) as [E|Hne].
  - apply mild_retry; [|done|exact IH]. intros _. rewrite Hk, ready_mutex, E. by apply Z.ltb_lt.
  - destruct (_ =? owner); [|done]. apply mild_retry; [|done|exact IH]. rewrite Hk, ready_mutex, lo32_mutex by lia.
    rewrite (proj2 (Z.eqb_neq owner 0)) by lia. done.
Qed.

Lemma mild_claim_event fuel i : K i = TYPE_EVENT -> md any (claim_event fuel i).
Proof.
  intros Hk. induction fuel as [|fuel IH]; cbn [claim_event]; [done|]. unfold ld_w0. apply mild_load. intros w.
  destruct (lo32 w =? 0) eqn:E; [done|]. apply mild_retry; [|done|exact IH]. intros _. by rewrite Hk, ready_event, E.
Qed.

Lemma mild_type {A} (R : A -> Prop) i (k : Z -> action A) : md R (k (K i)) -> md R (ty <- ld_obj_type i ;; k ty).
Proof.
  intros Hk. unfold ld_obj_type. apply mild_bind with (S := fun ty => ty = K i).
  - apply mild_read. intros m [Ht _]. apply Ht.
  - by intros ? ->.
Qed.

Lemma mild_try_acquire i owner seq : 0 < owner < W32 -> md any (try_acquire i owner seq).
Proof.
  intros Ho. unfold try_acquire. apply mild_type. destruct (Z.eqb_spec (K i) TYPE_SEM) as [E|_]; [by apply mild_acquire_sem|].
  destruct (Z.eqb_spec (K i) TYPE_MUTEX) as [E|_]; [by apply mild_acquire_mutex|].
  destruct (Z.eqb_spec (K i) TYPE_EVENT) as [E|_]; [|done]. unfold acquire_event, ld_w0. apply mild_load. intros w.
  assert (md any (pulse_check i seq)) as Hp by (apply passive_mild; unfold pulse_check, ld_d; passives).
  destruct (negb _); [|done]. destruct (_ =? 0); [|done]. apply mild_seq; [by apply mild_claim_event|]. by intros [].
Qed.

Lemma mild_satisfy_any hs owner seqs : 0 < owner < W32 -> md any (try_satisfy hs owner seqs false).
Proof.
  intros Ho. unfold try_satisfy. cbn [negb]. generalize 0%nat. induction hs as [|h hs IH]; intros i; cbn [satisfy_any]; [done|].
  apply mild_seq; [by apply mild_try_acquire|]. intros [od|]; [done|apply IH].
Qed.

Lemma mild_fast_path hs owner tmo alert : 0 < owner < W32 -> md any (fast_path hs owner tmo false alert).
Proof.
  intros Ho. unfold fast_path. apply mild_seq; [apply passive_mild; auto with tame|]. intros [v seqs]. cbv zeta. cbn [fst snd].
  apply mild_seq; [apply passive_mild; destruct v; [apply passive_alert_valid|done]|]. intros valid. destruct (negb valid); [done|].
  apply mild_seq; [apply passive_mild, passive_alert_fired|]. intros fired. destruct fired; [done|].
  apply mild_seq; [by apply mild_satisfy_any|]. intros [out|]; [|by destruct (bool_decide _)].
  apply mild_seq; [apply mild_stat|done].
Qed.

(** The lookup tells the type. *)
Definition found (ty h : Z) (r : result Z Error) : Prop :=
  match r with Ok i => i = handle_index h /\ K i = ty | Err _ => True end.

Lemma passive_lookup h : passive live me errs (fun r => match r with Some i => i = handle_index h | None => True end) (slot h).
Proof. unfold slot, ld_state, ld_generation. passives. Qed.

Lemma mild_typed_slot ty h : md (found ty h) (typed_slot ty h).
Proof.
  unfold typed_slot. eapply mild_bind; [apply passive_mild, passive_lookup|]. intros [i|]; [|done]. intros Hi.
  apply mild_type. by destruct (Z.eqb_spec (K i) ty).
Qed.

(** ** Waking *)
(** At most one object has waiters to wake. *)
Definition only (i : Z) (x : mind) : Prop := md_hand x = HNone /\ ((forall j, j ∈ md_duty x -> j = i) \/ errs).

Lemma calm_only i x : calm errs x -> only i x.
Proof. intros [Hh [E|He]]; (split; [done|]); [|by right]. left. intros j. rewrite E. by intros ?%elem_of_nil. Qed.

Lemma calm_relieved i x : only i x -> calm errs (relieved i x).
Proof.
  intros [Hh [Hd|He]]; (split; [done|]); [left|by right]. cbn. destruct (filter _ _) as [|j d] eqn:E; [done|].
  assert (j ∈ filter (fun j => j <> i) (md_duty x)) as Hj by (rewrite E; left).
  apply list_elem_of_filter in Hj as [Hne Hj]. by destruct Hne; apply Hd.
Qed.

Lemma calm_wake_object i x N m : typed K m -> headed m i -> only i x -> mine me N m ->
  mf (calm_end me errs any true N x) (wake_object i) true N x m.
Proof.
  intros Ht Hhd Ho Hm. eapply mindful_mono; [|apply mindful_wake_object; [done..|apply Ho|done]].
  intros ? ? ? ? ? (->&->&?&?&?). split_and!; try done. by apply calm_relieved.
Qed.

Lemma typed_headed i m : is_waitable (K i) = true -> typed K m -> headed m i.
Proof. intros Hi [_ Hh]. by apply Hh. Qed.

Lemma firm_wake_object i : is_waitable (K i) = true -> fm any (wake_object i).
Proof. intros Hi N x m Ht Hc Hm. apply calm_wake_object; auto using typed_headed, calm_only. Qed.

Lemma mindful_wake_waiters i x N m : is_waitable (K i) = true -> typed K m -> only i x ->
  mf (calm_end me errs any false N x) (wake_waiters_if_any i) false N x m.
Proof.
  intros Hi Ht Ho. unfold wake_waiters_if_any, ld_waiter_head. intros m1 N1 Hmw Ht1 Hown.
  destruct (gentle_step live me Hme K false N N1 x m1 m1 Ht1) as (Hms & Hset & _); [done|done|apply gentle_refl|].
  cbn [fst snd bind]. destruct (Z.eqb_spec (s_waiter_head (slot_ptr m1 i)) NIL) as [E|E].
  - exists (relieved i x). split.
    + destruct Hms as [A1 A2 A3 A4 A5]. split; [done| | |done|].
      * intros j Hj. by left.
      * intros j Hj. destruct (decide (j = i)) as [->|Hne]; [by right|left]. by apply list_elem_of_filter.
      * destruct A5 as [B1 B2 B3 B4 B5|? ?|? ?]; [|done..]. apply moves_quiet; [done..|]. by apply looks_same.
    + intros m2 _ _. split_and!; try done. by apply calm_relieved.
  - exists x. split; [done|]. cbn. intros l Hl. eapply mindful_mono; [|apply mindful_if_lock; [done|done|apply Ho|]].
    + intros b' N2 x' a m2. by apply calm_then.
    + intros N2 m2 Ht2 Hm2. apply calm_wake_object; auto using typed_headed.
Qed.

(** ** Signals *)
(** A swap after which the object may be available: its waiters are a duty. *)
Lemma mindful_signal_cas i old new x N m : typed K m ->
  mf (fun b N' x' (ok : bool) _ => b = false /\ same_set N N' /\
      x' = (if ok then with_duty (i :: md_duty x) x else x)) (cas64 i old new) false N x m.
Proof.
  intros Ht. unfold cas64. eapply (mindful_bind live me errs K T (fun b N' x' (ok : bool) _ => b = false /\ same_set N N' /\
    x' = (if ok then with_duty (i :: md_duty x) x else x))); [|done|].
  - intros ? N1 ? [] m1 Ht1 (->&Hs&->).
    + intros m2 _ _. done.
    + eapply mindful_mono; [|apply (mild_mindful live me errs Hme K T (fun ok => ok = false)); [apply passive_mild; passives|done]].
      intros ? N2 ? ? m2 (->&->&Hs2&->&_). split_and!; try done. by eapply same_set_trans.
  - intros m1 N1 Hmw Ht1 Hown. unfold cas_w0_step in *. destruct (_ =? old); cbn [fst snd] in *.
    + exists (with_duty (i :: md_duty x) x). destruct (nearly_step live me Hme K false N N1 x (with_duty (i :: md_duty x) x) m1
        (upd_slot i (set_w0 new) m1) Ht1) as (Hms & Hset & _); [done|done|apply nearly_word| | |done|done|].
      * intros j. cbn. destruct (decide (j = i)) as [->|Hne]; [right; left|]. unfold available.
        rewrite slot_ptr_upd_slot, decide_False by congruence. by left.
      * intros j Hj. by right.
      * split; [done|]. by intros m2 _ _.
    + exists x. destruct (gentle_step live me Hme K false N N1 x m1 m1 Ht1) as (Hms & Hset & _); [done|done|apply gentle_refl|].
      split; [done|]. by intros m2 _ _.
Qed.

(** A swap of a retry loop, and the waking after it. *)
Lemma steady_signal {A} (R : A -> Prop) i old new (a : A) (q : action A) : is_waitable (K i) = true -> R a -> st R q ->
  st R (ok <- cas64 i old new ;; if ok : bool then wake_waiters_if_any i ;;; Ret a else q).
Proof.
  intros Hi Ha Hq N x m Ht Hc. eapply mindful_bind; [|done|by apply mindful_signal_cas].
  intros ? N1 ? [] m1 Ht1 (->&Hs&->).
  - eapply mindful_bind; [|done|apply mindful_wake_waiters; [done..|]].
    + intros ? N2 x2 ? m2 Ht2 (->&Hc2&Hw2&Hs2&_). intros m3 _ _. split_and!; try done. by eapply same_set_trans.
    + destruct Hc as [Hh [E|He]]; (split; [done|]); [|by right]. left. intros j. cbn. rewrite E. by intros ->%list_elem_of_singleton.
  - eapply mindful_mono; [|by apply Hq]. intros *. by apply calm_then.
Qed.
Lemma mild_region : md any region.
Proof. apply passive_mild, passive_region. Qed.

Lemma steady_ret {A} (R : A -> Prop) a : R a -> st R (Ret a).
Proof. intros Ha. by apply steady_mild. Qed.

(** What every operation on a typed object begins with. *)
Lemma steady_typed {A} (R : result A Error -> Prop) ty h (k : Z -> action (result A Error)) :
  (forall e, R (Err e)) -> (forall i, i = handle_index h -> K i = ty -> st R (k i)) ->
  st R (_ <-? region ;; i <-? typed_slot ty h ;; k i).
Proof.
  intros He Hk. apply steady_seq; [by apply steady_mild, mild_region|]. intros [u|e]; [|apply steady_ret, He].
  eapply steady_chain; [by apply steady_mild, mild_typed_slot|]. intros [i|e] Hi; [|apply steady_ret, He]. apply Hk; apply Hi.
Qed.

Lemma steady_stat {A} (R : A -> Prop) n (k : action A) : st R k -> st R (stat_bump n ;;; k).
Proof. intros Hk. apply steady_seq; [by apply steady_mild, mild_stat|done]. Qed.

Lemma steady_load {A B} (R : A -> Prop) (f : Region -> B) (k : B -> action A) : (forall b, st R (k b)) -> st R (bind (mem_read f) k).
Proof. intros Hk. apply steady_seq; [by apply steady_mild, mild_read|done]. Qed.

Lemma waitable_of i ty : K i = ty -> is_waitable ty = true -> is_waitable (K i) = true.
Proof. by intros ->. Qed.

Lemma steady_sem_release h n : st any (sem_release h n).
Proof.
  apply steady_typed; [done|]. intros i Hi Hk. generalize loop_fuel. intros fuel.
  induction fuel as [|fuel IH]; cbn [sem_release_loop]; [by apply steady_mild|]. apply steady_load. intros w. cbv zeta.
  apply steady_stat. destruct (_ && _); [|by apply steady_ret]. rewrite <- Hi.
  apply steady_signal; [by eapply waitable_of|done|exact IH].
Qed.

Lemma steady_event_set h : st any (event_set h).
Proof.
  apply steady_stat, steady_typed; [done|]. intros i Hi Hk. generalize loop_fuel. intros fuel.
  induction fuel as [|fuel IH]; cbn [event_set_loop]; [by apply steady_mild|]. apply steady_load. intros w. cbv zeta.
  destruct (negb _); [by apply steady_ret|]. rewrite <- Hi.
  apply steady_signal; [by eapply waitable_of|done|exact IH].
Qed.

Lemma steady_event_reset h : st any (event_reset h).
Proof.
  apply steady_stat, steady_typed; [done|]. intros i Hi Hk. generalize loop_fuel. intros fuel.
  apply steady_mild; [done|]. induction fuel as [|fuel IH]; cbn [event_reset_loop]; [done|].
  apply mild_load. intros w. cbv zeta. destruct (_ =? 0) eqn:E; [done|].
  apply mild_retry; [|done|exact IH]. intros _. by rewrite Hk, ready_event, E.
Qed.

Lemma steady_mutex_unlock h owner : 0 <= owner < W32 -> st any (mutex_unlock h owner).
Proof.
  intros Ho. apply steady_stat. destruct (Z.eqb_spec owner 0) as [|Hne]; [by apply steady_ret|].
  apply steady_typed; [done|]. intros i Hi Hk. generalize loop_fuel. intros fuel.
  induction fuel as [|fuel IH]; cbn [mutex_unlock_loop]; [by apply steady_mild|]. apply steady_load. intros w. cbv zeta.
  destruct (negb _); [by apply steady_ret|]. destruct (m_count w =? 1).
  - rewrite <- Hi. apply steady_signal; [by eapply waitable_of|done|exact IH].
  - apply steady_seq; [|intros []; [by apply steady_ret|exact IH]]. apply steady_mild, mild_cas; [done|].
    rewrite Hk, ready_mutex, lo32_mutex by lia. by rewrite (proj2 (Z.eqb_neq owner 0)).
Qed.

Lemma steady_mutex_kill h owner : st any (mutex_kill h owner).
Proof.
  apply steady_stat. destruct (owner =? 0); [by apply steady_ret|].
  apply steady_typed; [done|]. intros i Hi Hk. generalize loop_fuel. intros fuel.
  induction fuel as [|fuel IH]; cbn [mutex_kill_loop]; [by apply steady_mild|]. apply steady_load. intros w. cbv zeta.
  destruct (negb _); [by apply steady_ret|]. rewrite <- Hi.
  apply steady_signal; [by eapply waitable_of|done|exact IH].
Qed.

Lemma steady_reads h : st any (read_sem h) /\ st any (read_mutex h) /\ st any (read_event h).
Proof.
  unfold read_sem, read_mutex, read_event. split_and!; apply steady_typed; try done; intros i _ _;
    apply steady_load; intros w; by apply steady_ret.
Qed.

Lemma firm_ret {A} (R : A -> Prop) a : R a -> fm R (Ret a).
Proof. intros Ha. by apply firm_mild. Qed.

(** ** Pulses *)
Lemma firm_pulse_store i w : is_waitable (K i) = true -> fm any (st_w0 i w ;;; wake_object i).
Proof.
  intros Hi N x m Ht Hc Hm. set (x1 := with_duty (i :: md_duty x) x).
  eapply (mindful_bind live me errs K T (fun b N' x' _ m' => b = true /\ x' = x1 /\ same_set N N' /\ mine me N' m')); [|done|].
  - intros ? N1 ? ? m1 Ht1 (->&->&Hs&Hm1). eapply mindful_mono; [|apply calm_wake_object; [done|by apply typed_headed| |done]].
    + intros *. by apply calm_then.
    + destruct Hc as [Hh [E|He]]; (split; [done|]); [|by right]. left. intros j. cbn. rewrite E. by intros ->%list_elem_of_singleton.
  - intros m1 N1 Hmw Ht1 Hown. exists x1. pose proof (mine_same me N m m1 (mw_others _ _ _ _ _ _ Hmw) Hm) as Hm1.
    destruct (nearly_step live me Hme K true N N1 x x1 m1 (upd_slot i (set_w0 w) m1) Ht1) as (Hms & Hset & Hm'); try done.
    + apply nearly_word.
    + intros j Hj. destruct (decide (j = i)) as [->|Hne]; [right; left|]. left. revert Hj. unfold available.
      by rewrite slot_ptr_upd_slot, decide_False by congruence.
    + intros j Hj. by right.
    + split; [done|]. intros m2 Hmw2 _. split_and!; try done. eapply mine_same; [apply (mw_others _ _ _ _ _ _ Hmw2)|auto].
Qed.

Lemma steady_event_pulse h : st any (event_pulse h).
Proof.
  unfold event_pulse. apply steady_seq; [by apply steady_mild, mild_region|]. intros [u|e]; [|by apply steady_ret].
  apply steady_with_lock; [done|done|]. eapply firm_bind; [by apply firm_mild, mild_typed_slot|].
  intros [i|e] Hi; [|by apply firm_ret]. destruct Hi as [-> Hk].
  apply firm_seq; [by apply firm_mild, mild_read|]. intros w. apply firm_seq; [by apply firm_mild, mild_read|]. intros d.
  apply firm_seq; [apply firm_mild; [done|]; apply mild_write; intros m; by apply gentle_slot|]. intros _.
  apply firm_seq; [by apply firm_mild, mild_read|]. intros w2.
  apply (firm_seq live me errs K T any (st_w0 (handle_index h) (Z.ldiff w2 1) ;;; wake_object (handle_index h))
    (fun _ => Ret (Ok (lo32 w)))); [|intros _; by apply firm_ret].
  apply firm_pulse_store. by eapply waitable_of.
Qed.

(** ** The sweep *)
(** A slot in use has a proper list. *)
Lemma used_headed i N m : mine me N m -> s_state (slot_ptr m i) = SLOT_USED -> headed m i.
Proof.
  intros (L & F & HP & _) Hu. destruct (decide (L i = [])) as [E|E].
  - left. by rewrite (lo_head _ _ (po_lists _ _ _ HP) i), E by (by right).
  - right. destruct (L i) as [|n l] eqn:El; [done|]. exists n. apply (lo_reg _ _ (po_lists _ _ _ HP) i n). rewrite El. left.
Qed.

Lemma firm_reap cands : forall alive freed,
  (forall n c, cands !! n = Some c -> alive !! n = Some false -> ~ live (c_pid c)) ->
  fm any (reap_dead_locked cands alive freed).
Proof.
  induction cands as [|c cands IH]; intros [|a alive] freed Hv; cbn [reap_dead_locked]; try by apply firm_ret.
  assert (forall freed, fm any (reap_dead_locked cands alive freed)) as IH' by (intros fr; apply IH; intros n d; apply (Hv (S n))).
  destruct a; [done|]. pose proof (Hv 0%nat c eq_refl eq_refl) as Hdead. destruct (c_node c).
  { apply firm_seq; [|done]. apply firm_mild; [done|]. apply mild_write. intros m. by apply gentle_reap_node. }
  intros N x m Ht Hc Hm m1 N1 Hmw Ht1 Hown. exists x. pose proof (mine_same me N m m1 (mw_others _ _ _ _ _ _ Hmw) Hm) as Hm1.
  unfold reap_slot in *. destruct (reapable c (slot_ptr m1 (c_index c))) eqn:E; cbn [fst snd bind] in *.
  - assert (s_state (slot_ptr m1 (c_index c)) = SLOT_USED) as Hu.
    { unfold reapable in E. rewrite !andb_true_iff in E. destruct E as (((((E&_)&_)&_)&_)&_). by apply Z.eqb_eq. }
    assert (gentle live m1 (upd_slot (c_index c) free_slot m1)) as Hg by (by apply gentle_slot).
    destruct (gentle_step live me Hme K true N N1 x m1 _ Ht1 (fun _ => Hm1) Hown Hg) as (Hms & Hset & Hm').
    split; [done|]. pose proof (used_headed _ _ _ Hm1 Hu) as Hhd.
    assert (headed (upd_slot (c_index c) free_slot m1) (c_index c)) as Hhd'.
    { destruct Hm1 as (L & F & HP & _), (Hm' eq_refl) as (L' & F' & HP' & _). by apply (gn_pool _ _ _ (gn_near _ _ _ Hg) _ _ _ _ HP HP'). }
    eapply mindful_bind; [|by eapply ms_typed|apply calm_wake_object; [by eapply ms_typed|done|by apply calm_only|by apply Hm']].
    intros ? N2 x2 ? m2 Ht2 (->&Hc2&Hw2&Hs2&_&Hm2). eapply mindful_mono; [|apply IH'; auto].
    intros *. apply calm_then; [by eapply same_set_trans|done].
  - destruct (gentle_step live me Hme K true N N1 x m1 m1 Ht1 (fun _ => Hm1) Hown (gentle_refl live m1)) as (Hms & Hset & Hm').
    split; [done|]. eapply mindful_mono; [|apply IH'; auto]. intros *. by apply calm_then.
Qed.

Lemma firm_sweep_loop fuel : forall scan cache freed, cache_true live cache -> fm any (sweep_loop fuel scan cache freed).
Proof.
  induction fuel as [|fuel IH]; intros scan cache freed Hc; cbn [sweep_loop]; [by apply firm_mild|].
  apply firm_seq; [by apply firm_mild, mild_read|]. intros [[|c cands] scan']; [by apply firm_ret|].
  eapply firm_bind; [by apply firm_mild, passive_mild, passive_verdicts|]. intros vc [Hv Hc'].
  apply firm_seq; [by apply firm_reap|]. auto.
Qed.

Lemma firm_sweep : fm any sweep_dead_locked.
Proof.
  unfold sweep_dead_locked. apply firm_seq; [by apply firm_mild, mild_read|]. intros scan.
  apply firm_sweep_loop, cache_new_true, Hzero.
Qed.

Lemma steady_sweep_dead : st any sweep_dead.
Proof.
  unfold sweep_dead. apply steady_seq; [by apply steady_mild, mild_region|]. intros [u|e]; [|by apply steady_ret].
  apply steady_with_lock; [done|done|]. apply firm_seq; [apply firm_sweep|]. intros n. by apply firm_ret.
Qed.

Lemma calm_drop mask x N m : typed K m -> calm errs x -> mine me N m ->
  mf (calm_end me errs any false N x) (guard_drop mask) true N x m.
Proof.
  intros Ht Hc Hm. eapply mindful_mono; [|apply mindful_guard_drop; [done..|apply Hc|done]].
  intros ? ? ? ? ? (->&->&?). by split_and!.
Qed.

(** The automatic sweep drops the lock while it asks who is alive. *)
Lemma mindful_auto_sweep_loop fuel : forall g scan cache freed x N m, cache_true live cache -> typed K m -> calm errs x ->
  mine me N m -> mf (calm_end me errs any false N x) (auto_sweep_loop fuel g scan cache freed) true N x m.
Proof.
  induction fuel as [|fuel IH]; intros g scan cache freed x N m Hc Ht Hx Hm; cbn [auto_sweep_loop]; [done|].
  eapply mindful_bind; [|done|apply (mild_mindful live me errs Hme K T any); [by apply mild_read|done]].
  intros ? N1 ? [cands scan'] m1 Ht1 (->&->&Hs1&_&Hm1). specialize (Hm1 eq_refl).
  destruct cands as [|c cands].
  - eapply mindful_bind; [|done|by apply calm_drop]. intros ? N2 x2 ? m2 Ht2 (->&Hc2&Hw2&Hs2&_). intros m3 _ _.
    split_and!; try done. by eapply same_set_trans.
  - eapply mindful_bind; [|done|by apply calm_drop]. intros ? N2 x2 ? m2 Ht2 (->&Hc2&Hw2&Hs2&_).
    eapply mindful_bind; [|done|apply (mild_mindful live me errs Hme K T (verdicts_true live (c :: cands))); [by apply passive_mild, passive_verdicts|done]].
    intros ? N3 ? vc m3 Ht3 (->&->&Hs3&[Hv Hc3]&_). eapply mindful_bind; [|done|by apply mindful_lock_guard].
    intros b N4 ? [mask|e] m4 Ht4 (->&Hs4&Hb).
    + destruct Hb as [-> Hm4]. eapply mindful_bind; [|done|by apply firm_reap].
      intros ? N5 x5 n m5 Ht5 (->&Hc5&Hw5&Hs5&_&Hm5). eapply mindful_mono; [|apply IH; auto].
      intros *. apply calm_then; [|congruence]. eauto 8 using same_set_trans.
    + destruct Hb as [-> _]. intros m5 _ _. split_and!; try done. eauto 8 using same_set_trans.
Qed.

Lemma steady_auto_sweep : st any auto_sweep_dead.
Proof.
  unfold auto_sweep_dead. apply steady_seq; [by apply steady_mild, mild_loc|]. intros n.
  destruct (negb _); [by apply steady_ret|]. cbv zeta. destruct (_ =? 0); [by apply steady_ret|].
  apply steady_seq; [by apply steady_mild, mild_sys|]. intros now.
  apply steady_load. intros last. destruct (_ <? _); [by apply steady_ret|].
  intros N x m Ht Hc. eapply mindful_bind; [|done|by apply mindful_lock_guard].
  intros b N1 ? [mask|e] m1 Ht1 (->&Hs1&Hb).
  2: { destruct Hb as [-> _]. intros m2 _ _. by split_and!. }
  destruct Hb as [-> Hm1].
  eapply mindful_bind; [|done|apply (mild_mindful live me errs Hme K T any); [by apply mild_sys|done]].
  intros ? N2 ? now' m2 Ht2 (->&->&Hs2&_&Hm2).
  eapply mindful_bind; [|done|apply (mild_mindful live me errs Hme K T any); [by apply mild_read|done]].
  intros ? N3 ? last' m3 Ht3 (->&->&Hs3&_&Hm3). specialize (Hm3 eq_refl).
  assert (same_set N N3) as Hs by eauto using same_set_trans. destruct (_ <? _).
  - eapply mindful_mono; [|by apply calm_drop]. intros *. by apply calm_then.
  - eapply mindful_bind; [|done|apply (mild_mindful live me errs Hme K T any); [|done]].
    2: { apply mild_write. intros m4. by apply gentle_header. }
    intros ? N4 ? ? m4 Ht4 (->&->&Hs4&_&Hm4).
    eapply mindful_bind; [|done|apply (mild_mindful live me errs Hme K T any); [by apply mild_read|done]].
    intros ? N5 ? scan m5 Ht5 (->&->&Hs5&_&Hm5). specialize (Hm5 eq_refl).
    eapply mindful_bind; [|done|apply mindful_auto_sweep_loop; [by apply cache_new_true|done..]].
    intros ? N6 x6 ? m6 Ht6 (->&Hc6&Hw6&Hs6&_). intros m7 _ _. split_and!; try done. eauto 8 using same_set_trans.
Qed.

(** ** Holders and closing *)
Lemma firm_slot i f : (forall s, s_obj_type (f s) = s_obj_type s /\ s_waiter_head (f s) = s_waiter_head s /\ s_w0 (f s) = s_w0 s) ->
  fm any (mem_write (upd_slot i f)).
Proof. intros Hf. apply firm_mild; [done|]. apply mild_write. intros m. by apply gentle_slot. Qed.

Lemma holder_remove_word pid s : s_obj_type (holder_remove pid s) = s_obj_type s /\
  s_waiter_head (holder_remove pid s) = s_waiter_head s /\ s_w0 (holder_remove pid s) = s_w0 s.
Proof. unfold holder_remove. by repeat case_match. Qed.

Lemma holder_add_word pid s : s_obj_type (holder_add pid s) = s_obj_type s /\
  s_waiter_head (holder_add pid s) = s_waiter_head s /\ s_w0 (holder_add pid s) = s_w0 s.
Proof. unfold holder_add. by repeat case_match. Qed.

Lemma steady_holder (f : Z -> Slot -> Slot) h :
  (forall pid s, s_obj_type (f pid s) = s_obj_type s /\ s_waiter_head (f pid s) = s_waiter_head s /\ s_w0 (f pid s) = s_w0 s) ->
  st any
    (if handle_index h =? 0 then Ret (Err Invalid)
     else
       _ <-? region ;;
       with_lock
         (i <-? slot_or_invalid h ;;
          pid <- sys GetPid ;;
          mem_write (upd_slot i (f pid)) ;;;
          Ret (Ok tt))).
Proof.
  intros Hf. destruct (_ =? 0); [by apply steady_ret|]. apply steady_seq; [by apply steady_mild, mild_region|].
  intros [u|e]; [|by apply steady_ret]. apply steady_with_lock; [done|done|].
  apply firm_seq; [apply firm_mild, passive_mild; [done|]; unfold slot_or_invalid; passives|]. intros [i|e]; [|by apply firm_ret].
  apply firm_seq; [by apply firm_mild, mild_sys|]. intros pid. apply firm_seq; [|intros _; by apply firm_ret].
  apply firm_slot, Hf.
Qed.

Lemma steady_retain h : st any (retain h).
Proof. apply (steady_holder holder_add), holder_add_word. Qed.

Lemma steady_release h : st any (release h).
Proof. apply (steady_holder holder_remove), holder_remove_word. Qed.

(** Under the lock a mild program keeps lists proper. *)
Lemma mild_headed {A} (R : A -> Prop) (p : action A) x i : forall N m, md R p -> mine me N m -> headed m i ->
  mf (fun b' N' x' a m' => mild_end me R true N x b' N' x' a m' /\ headed m' i) p true N x m.
Proof.
  induction p as [a|B f k IH|B f k IH|c k IH| |]; cbn [mild mindful]; intros N m Hp Hm Hi; auto.
  - intros m' Hmw Ht. pose proof (mw_others _ _ _ _ _ _ Hmw) as Hs. split; [|by eapply headed_same]. split_and!; try done.
    intros _. by eapply mine_same.
  - intros m' N' Hmw Ht Hown. destruct (Hp m' Ht) as [Hg Hk]. exists x. pose proof (mw_others _ _ _ _ _ _ Hmw) as Hs.
    pose proof (mine_same me N m m' Hs Hm) as Hm1. pose proof (headed_same _ _ _ Hs Hi) as Hi1.
    destruct (gentle_step live me Hme K true N N' x m' (snd (f m')) Ht (fun _ => Hm1) Hown Hg) as (Hms & Hset & Hm2).
    split; [done|]. specialize (Hm2 eq_refl). eapply mindful_mono; [|apply IH; [done..|]].
    + intros ? ? ? ? ? [(->&->&Hs2&Ha&Hm3) ?]. split; [|done]. split_and!; try done. by eapply same_set_trans.
    + destruct Hm1 as (L & F & HP & _), Hm2 as (L' & F' & HP' & _). by apply (gn_pool _ _ _ (gn_near _ _ _ Hg) _ _ _ _ HP HP').
  - destruct Hp as [Hc Hp]. destruct c; try discriminate Hc; intros z Hz; by apply IH; [apply Hp|..].
Qed.

(** The slot of a valid handle has a proper list. *)
Lemma mindful_slot h x N m : typed K m -> mine me N m ->
  mf (fun b' N' x' r m' => mild_end me any true N x b' N' x' r m' /\
      match r with Some i => i = handle_index h /\ headed m' i | None => True end) (slot h) true N x m.
Proof.
  intros Ht Hm. unfold slot, ld_state, ld_generation. cbv zeta. destruct (_ <=? _).
  { intros m1 Hmw _. split; [|done]. split_and!; try done. intros _. by eapply mine_same, Hm; apply (mw_others _ _ _ _ _ _ Hmw). }
  intros m1 N1 Hmw Ht1 Hown. exists x. pose proof (mine_same me N m m1 (mw_others _ _ _ _ _ _ Hmw) Hm) as Hm1.
  destruct (gentle_step live me Hme K true N N1 x m1 m1 Ht1 (fun _ => Hm1) Hown (gentle_refl live m1)) as (Hms & Hset & Hm2).
  split; [done|]. specialize (Hm2 eq_refl). cbn [fst snd bind].
  destruct (Z.eqb_spec (s_state (slot_ptr m1 (handle_index h))) SLOT_USED) as [Hu|_].
  - eapply mindful_mono; [|apply (mild_headed (fun r => match r with Some i => i = handle_index h | None => True end) _ x (handle_index h));
      [|done|by eapply used_headed]].
    + intros ? ? ? [i|] ? [(->&->&Hs2&Ha&Hm3) ?]; subst; (split; [|done]); split_and!; try done; by eapply same_set_trans.
    + apply passive_mild. passives.
  - intros m2 Hmw2 _. split; [|done]. split_and!; try done. intros _. eapply mine_same, Hm2. apply (mw_others _ _ _ _ _ _ Hmw2).
Qed.

Lemma firm_close_body h : fm any (close_body h).
Proof.
  intros N x m Ht Hc Hm. unfold close_body. eapply mindful_bind; [|done|by apply mindful_slot].
  intros ? N1 ? [i|] m1 Ht1 [(->&->&Hs1&_&Hm1) Hi].
  2: { eapply mindful_mono; [|by apply (firm_ret any false); auto]. intros *. by apply calm_then. }
  destruct Hi as [-> Hi]. set (i := handle_index h) in *.
  apply (mindful_bind live me errs K T (fun b' N' x' a m' => mild_end me any true N1 x b' N' x' a m' /\ headed m' i) _
    (pid <- sys GetPid ;; mem_write (upd_slot i (holder_remove pid)) ;;;
     mem_write (upd_slot i (set_state SLOT_FREE)) ;;;
     mem_write (upd_slot i (fun s => set_generation (wrap32 (s_generation s + 1)) s)))
    (fun _ => wake_object i ;;; Ret true)); [|done|].
  2: { apply mild_headed; auto. apply mild_seq; [by apply mild_sys|]. intros pid.
       apply mild_seq; [apply mild_write; intros m2; apply gentle_slot, holder_remove_word|]. intros _.
       apply mild_seq; apply mild_write || intros _; try apply mild_write; intros m2; by apply gentle_slot. }
  intros ? N2 ? ? m2 Ht2 [(->&->&Hs2&_&Hm2) Hi2].
  eapply mindful_bind; [|done|apply calm_wake_object; [done|done|by apply calm_only|auto]].
  intros ? N3 x3 ? m3 Ht3 (->&Hc3&Hw3&Hs3&_&Hm3). eapply mindful_mono; [|by apply (firm_ret any true); auto].
  intros *. apply calm_then; [|done]. eauto using same_set_trans.
Qed.

Lemma steady_close h : st any (close h).
Proof.
  unfold close. destruct (_ =? 0); [by apply steady_ret|]. apply steady_seq; [by apply steady_mild, mild_region|].
  intros [u|e]; [|by apply steady_ret]. intros N x m Ht Hc. eapply mindful_bind; [|done|by apply mindful_lock_guard].
  intros b N1 ? [mask|e] m1 Ht1 (->&Hs1&Hb).
  - destruct Hb as [-> Hm1]. eapply mindful_bind; [|done|by apply firm_close_body].
    intros ? N2 x2 r m2 Ht2 (->&Hc2&Hw2&Hs2&_&Hm2). eapply mindful_bind; [|done|apply calm_drop; auto].
    intros ? N3 x3 ? m3 Ht3 (->&Hc3&Hw3&Hs3&_). intros m4 _ _. split_and!; try done; [congruence|]. eauto using same_set_trans.
  - destruct Hb as [-> _]. intros m2 _ _. by split_and!.
Qed.
End ops.
