(* ===== verification/WatchNodes.v ===== *)
(** * WatchNodes: a waiter's own nodes

    Taking nodes from the pool, putting them on lists, and giving them back,
    with everything in mind; and what a thread may go on believing of what it
    has seen ([watch_true]). *)
From S2P Require Import Prelude Prog Config Region Kernel Lock Nodes WaitLists NodePool Policy Sweep Init Slots Objects Wait Interleave Guard GuardRules GuardOps GuardLists Watch WatchRules WatchWake.

(** ** What was seen stays true *)
(** The nodes of a watch are one's own, and as long as they are registered, for
    the objects that were looked at. *)
Definition watch_true (x : mind) (N : list Z) (m : Region) : Prop :=
  forall w, md_watch x = Some w -> forall n i, (n, i) ∈ w_pairs w -> n ∈ N /\
    (registered m n -> n_obj (node_ptr m n) = i /\ n_wait_word (node_ptr m n) = w_head w).

Section frame.
Context (live : Z -> Prop) (me : Z) (errs : Prop) (K : Z -> Z) (T : list Z -> Prop).
Abbreviation mf Q p b N x m := (mindful live me errs K T Q p b N x m) (only parsing).

Lemma watch_true_kept x N m m' : posts_kept N m m' -> watch_true x N m -> watch_true x N m'.
Proof.
  intros Hp Hw w Ew n i Hn. destruct (Hw w Ew n i Hn) as [Hin Hr]. split; [done|]. intros Hr'.
  destruct (Hp n Hin Hr') as [Hr0 [-> ->]]. auto.
Qed.

Lemma watch_true_set x N N' m : same_set N N' -> watch_true x N m -> watch_true x N' m.
Proof. intros Hs Hw w Ew n i Hn. destruct (Hw w Ew n i Hn) as [Hin Hr]. split; [by apply Hs|done]. Qed.

Lemma watch_true_step b N N' x x' m m' : watch_true x N m -> mind_step live K b N N' x x' m m' -> watch_true x' N' m'.
Proof.
  intros Hw [_ _ _ Hkeep Hmv] w' Ew'.
  assert (forall w, md_watch x = Some w -> w_head w' = w_head w ->
    (forall n, registered m' n -> registered m n /\ same_post m m' n) -> forall n i, (n, i) ∈ w_pairs w ->
    n ∈ N' /\ (registered m' n -> n_obj (node_ptr m' n) = i /\ n_wait_word (node_ptr m' n) = w_head w')) as Hold.
  { intros w Ew Eh Hreg n i Hn. destruct (Hw w Ew n i Hn) as [Hin Hr]. split.
    - destruct (Hkeep n Hin) as [?|?]; [done|congruence].
    - intros Hr'. destruct (Hreg n Hr') as [Hr0 [-> ->]]. rewrite Eh. auto. }
  destruct Hmv as [_ _ Hreg _ Hl|n0 _ _ _ Eq _ _ Hoff Hon Hpost|w0 _ _ _ Eq _ _ Hreg Hpost].
  - assert (forall n, registered m' n -> registered m n /\ same_post m m' n) as Hreg'.
    { intros n Hr. destruct (Hreg n Hr) as [?|(_&_&?)]; [done|congruence]. }
    destruct Hl as [Eq|Eq|h _ _ _ Eq|w n1 i1 Ew Eq Hn1 Hr1 Ho1 Hw1 _].
    + rewrite Eq in Ew'. intros n i. by apply (Hold w').
    + congruence.
    + rewrite Eq in Ew'. injection Ew' as <-. intros n i ?%elem_of_nil. done.
    + rewrite Eq in Ew'. injection Ew' as <-. intros n i. cbn [saw w_pairs w_head] in *.
      intros [[= -> ->]|Hin]%elem_of_cons; [done|]. by apply (Hold w).
  - rewrite Eq in Ew'. intros n i. apply (Hold w'); [done..|]. intros k Hr. split; [|by apply Hpost].
    apply Hon; [|done]. by intros ->.
  - rewrite Eq in Ew'. intros n i. apply (Hold w'); [done..|]. intros k Hr. split; [by apply Hreg|by apply Hpost].
Qed.

Lemma mindful_true {A} (Q : bool -> list Z -> mind -> A -> Region -> Prop) (p : action A) : forall b N x m,
  watch_true x N m -> mf Q p b N x m -> mf (fun b' N' x' a m' => Q b' N' x' a m' /\ watch_true x' N' m') p b N x m.
Proof.
  assert (forall b N x m m', meanwhile live K b N m m' -> watch_true x N m -> watch_true x N m') as Hmw.
  { intros b N x m m' H1. apply watch_true_kept. by eapply posts_kept_meanwhile. }
  induction p as [a|B f k IH|B f k IH|c k IH| |]; cbn [mindful]; intros b N x m Hw; auto.
  - intros HQ m' H1 Ht. split; [auto|by eapply Hmw].
  - intros Hp m' N' H1 Ht Hown. destruct (Hp m' N' H1 Ht Hown) as (x' & Hms & Hk). exists x'. split; [done|].
    apply IH; [|done]. eapply watch_true_step; [|exact Hms]. by eapply Hmw.
  - destruct c; try (intros Hp z Hz; apply IH; by auto).
    + intros [-> Hp]. split; [done|]. intros m' z H1 Ht Hz Hr. apply IH; [by eapply Hmw|auto].
    + intros [-> Hp]. split; [done|]. intros m' z H1 Ht Hz Hr. apply IH; [by eapply Hmw|auto].
    + intros [Hh Hp]. split; [done|]. intros m' z H1. apply IH; [by eapply Hmw|auto].
    + intros (-> & Hd & Hh & Hx & Hp). split_and!; auto.
    + intros [Hh Hp]. split; [done|]. intros z. apply IH; [|done]. exact Hw.
Qed.
End frame.

(** ** Under the lock, if it can be had *)
Section sections.
Context `{!Config} (live : Z -> Prop) (me : Z) (errs : Prop) (Hme : live me) (K : Z -> Z) (T : list Z -> Prop).
Abbreviation mf Q p b N x m := (mindful live me errs K T Q p b N x m) (only parsing).

(** [Q] holds after the body, and survives what others do; or there was no
    lock. *)
Lemma mindful_if_lock_post (Q : list Z -> mind -> Region -> Prop) (body : action unit) N x m :
  (forall N1 N2 x' m1 m2, same_set N1 N2 -> posts_kept N1 m1 m2 -> Q N1 x' m1 -> Q N2 x' m2) ->
  typed K m -> calm errs x ->
  (forall N1 m1, typed K m1 -> same_set N N1 -> posts_kept N m m1 -> mine me N1 m1 ->
    mf (fun b N' x' _ m' => b = true /\ calm errs x' /\ mine me N' m' /\ Q N' x' m') body true N1 x m1) ->
  mf (fun b N' x' _ m' => b = false /\ calm errs x' /\ (Q N' x' m' \/ (errs /\ x' = x /\ same_set N N' /\ posts_kept N m m')))
    (if_lock body) false N x m.
Proof.
  intros HQ Ht Hc Hb. unfold if_lock. eapply mindful_bind; [|done|by apply lock_posts_guard].
  intros b N1 ? [mask|e] m1 Ht1 [(->&Hs1&Hr) Hp1].
  - destruct Hr as [-> Hm1]. eapply mindful_bind; [|done|by apply Hb].
    intros ? N2 x2 ? m2 Ht2 (->&Hc2&Hm2&HQ2). eapply mindful_mono; [|apply drop_posts; [done..|apply Hc2|done]].
    intros ? N3 ? ? m3 (->&->&Hs3&Hp3). split_and!; try done. left. by eapply HQ.
  - destruct Hr as [-> He]. intros m2 Hmw _. split_and!; try done. right. split_and!; try done.
    eapply posts_kept_trans; [exact Hs1|exact Hp1|]. by eapply posts_kept_meanwhile.
Qed.
End sections.

(** ** Shedding *)
(** A step that only takes these nodes off their lists. *)
Record shed (ns : list Z) (m m' : Region) : Prop := {
  sh_types i : s_obj_type (slot_ptr m' i) = s_obj_type (slot_ptr m i);
  sh_avail i : available m' i <-> available m i;
  sh_seqs : same_seqs m m';
  sh_reg n : registered m' n -> registered m n /\ same_post m m' n;
  sh_left n : registered m n -> registered m' n \/ n ∈ ns;
  sh_lists L : lists_ok m L -> exists L', lists_ok m' L' /\ forall i, headed m i -> headed m' i;
}.

Lemma shed_refl ns m : shed ns m m.
Proof. split; try done; [by left|]. intros L HL. by exists L. Qed.

Lemma shed_trans ns m1 m2 m3 : shed ns m1 m2 -> shed ns m2 m3 -> shed ns m1 m3.
Proof.
  intros [A1 A2 A3 A5 A6 A7] [B1 B2 B3 B5 B6 B7]. split.
  - intros i. by rewrite B1.
  - intros i. by rewrite B2.
  - intros n. by rewrite B3.
  - intros n Hr. destruct (B5 n Hr) as [Hr2 [E1 E2]]. destruct (A5 n Hr2) as [Hr1 [E3 E4]]. split; [done|]. split; congruence.
  - intros n Hr. destruct (A6 n Hr) as [Hr2|]; [|by right]. by apply B6.
  - intros L HL. destruct (A7 L HL) as (L2 & HL2 & H2). destruct (B7 L2 HL2) as (L3 & HL3 & H3). exists L3. auto.
Qed.

Lemma shed_detach ns idx m : idx ∈ ns -> shed ns m (node_detach idx m).
Proof.
  intros Hin. split.
  - intros i. apply detach_objects.
  - intros i. apply detach_available.
  - apply detach_seqs.
  - intros n Hr. assert (n <> idx) as Hn by (intros ->; by apply (detach_self m idx)).
    destruct (detach_reg m idx n Hn) as [H1 H2]. split; [by apply H1|done].
  - intros n Hr. destruct (decide (n = idx)) as [->|Hn]; [by right|]. left. by apply detach_reg.
  - intros L HL. exists (fun i => without idx (L i)). split; [by apply detach_ok|]. intros i. by eapply detach_headed.
Qed.

(** A step that leaves links, futex words and slots alone. *)
Lemma shed_still m m' :
  (forall n, n_registered (node_ptr m' n) = n_registered (node_ptr m n) /\ n_obj (node_ptr m' n) = n_obj (node_ptr m n) /\
     n_obj_prev (node_ptr m' n) = n_obj_prev (node_ptr m n) /\ n_obj_next (node_ptr m' n) = n_obj_next (node_ptr m n)) ->
  same_seqs m m' -> (forall n, registered m n -> n_wait_word (node_ptr m' n) = n_wait_word (node_ptr m n)) ->
  (forall i, slot_ptr m' i = slot_ptr m i) -> h_node_fresh (header m') = h_node_fresh (header m) -> shed [] m m'.
Proof.
  intros Hn Hq Hw Hs Hf. assert (forall n, registered m' n <-> registered m n) as Er.
  { intros n. unfold registered. by destruct (Hn n) as (->&_). }
  split; try done.
  - intros i. by rewrite Hs.
  - intros i. unfold available. by rewrite Hs.
  - intros n Hr%Er. split; [done|]. split; [by destruct (Hn n) as (_&->&_)|auto].
  - intros n Hr. left. by apply Er.
  - intros L HL. exists L. split; [by eapply lists_ok_node_frame|]. intros i. unfold headed. rewrite Hs.
    intros [?|(n & Hr & <-)]; [by left|]. right. exists n. rewrite Er. by destruct (Hn n) as (_&->&_).
Qed.

Lemma shed_more ns ns' m m' : (forall n, n ∈ ns -> n ∈ ns') -> shed ns m m' -> shed ns' m m'.
Proof. intros Hn [A1 A2 A3 A4 A5 A6]. split; try done. intros n Hr. destruct (A5 n Hr); auto. Qed.

(** A write to a node that is on no list. *)
Lemma shed_upd n f m L F : (forall x, n_registered x = 0 -> n_registered (f x) = 0 /\ n_seq (f x) = n_seq x) ->
  pool_ok m L F -> owned m F n -> ~ registered m n -> shed [] m (upd_node n f m).
Proof.
  intros Hf HP Ho Hr. assert (n_registered (node_ptr m n) = 0) as Hz by (unfold registered in Hr; lia).
  destruct (Hf _ Hz) as [Hz' Hq]. assert (forall k, registered (upd_node n f m) k <-> k <> n /\ registered m k) as Er.
  { intros k. unfold registered. region_simpl. destruct (decide (n = k)) as [<-|Hne]; [|naive_solver]. rewrite Hz'. tauto. }
  split; try done.
  - intros k. region_simpl. by destruct (decide (n = k)) as [<-|].
  - intros k [Hne Hk]%Er. split; [done|]. unfold same_post. region_simpl. by rewrite decide_False by congruence.
  - intros k Hk. left. apply Er. split; [by intros ->|done].
  - intros L' HL'. exists L. split; [apply (po_lists _ _ F); by apply upd_mine_pool_ok|]. intros i. unfold headed.
    intros [?|(k & Hk & <-)]; [by left|]. right. exists k. rewrite Er. assert (k <> n) as Hne by (by intros ->).
    split; [done|]. region_simpl. by rewrite decide_False by congruence.
Qed.

Lemma shed_free idx m : shed [] m (node_free idx m).
Proof.
  apply shed_still; try done; intros n; unfold node_free; region_simpl; by destruct (decide (idx = n)) as [<-|].
Qed.

Lemma shed_detach_all ns : forall m, shed ns m (foldl (fun r idx => node_detach idx r) m ns).
Proof.
  assert (forall l m, (forall n, n ∈ l -> n ∈ ns) -> shed ns m (foldl (fun r idx => node_detach idx r) m l)) as H1.
  { induction l as [|k l IH]; intros m Hl; cbn [foldl]; [apply shed_refl|].
    eapply shed_trans; [apply shed_detach, Hl; left|]. apply IH. intros n Hn. apply Hl. by right. }
  intros m. by apply H1.
Qed.

Lemma shed_cleanup ns m : shed ns m (waiter_cleanup ns m).
Proof.
  unfold waiter_cleanup. eapply shed_trans; [apply shed_detach_all|].
  generalize (foldl (fun r idx => node_detach idx r) m ns). clear m.
  assert (forall l m, shed ns m (foldl (fun r idx => node_free idx r) m l)) as H1; [|intros m; apply H1].
  induction l as [|k l IH]; intros m; cbn [foldl]; [apply shed_refl|].
  eapply shed_trans; [|apply IH]. eapply shed_more; [|apply shed_free]. by intros n ?%elem_of_nil.
Qed.

(** ** The steps of a waiter *)
Section steps.
Context (live : Z -> Prop) (me : Z) (errs : Prop) (Hme : live me) (K : Z -> Z).

(** The thread may stop watching at any time. *)
Definition unseen (x : mind) : mind := with_watch None x.

Lemma calm_unseen x : calm errs x -> calm errs (unseen x).
Proof. done. Qed.

Lemma shed_mind b N N' ns x m m' L : typed K m -> lists_ok m L -> (forall n, n ∈ ns -> n ∈ N) -> shed ns m m' ->
  mind_step live K b N N' x (unseen x) m m'.
Proof.
  intros [Ht Hhd] HL Hn Hs. destruct (sh_lists _ _ _ Hs L HL) as (L' & HL' & Hh). split.
  - split; [intros i; by rewrite (sh_types _ _ _ Hs)|]. intros i Hi. by apply Hh, Hhd.
  - intros i Hi. left. by apply (sh_avail _ _ _ Hs).
  - intros i Hi. by left.
  - intros n Hin. by right.
  - apply moves_quiet; [done|apply (sh_seqs _ _ _ Hs)| | |by apply looks_away].
    + intros n Hr. left. by apply (sh_reg _ _ _ Hs).
    + intros n Hr _. destruct (sh_left _ _ _ Hs n Hr) as [?|Hin]; [by left|]. right. auto.
Qed.

(** What one owns is one's own when nothing was taken. *)
Lemma mine_step N N' m m' L F L' F' : own_step live true N N' m m' -> mine me N m -> pool_ok m L F -> pool_ok m' L' F' ->
  (forall n, owned m' F' n -> owned m F n) -> (forall n, n_pid (node_ptr m' n) = n_pid (node_ptr m n)) -> mine me N' m'.
Proof.
  intros (L1 & F1 & L2 & F2 & H1 & H2 & _ & Hn & _) (L0 & F0 & H0 & Ho) HP HP' Hback Hpid.
  rewrite (pool_free_unique _ _ _ _ _ H1 HP), (pool_free_unique _ _ _ _ _ H2 HP') in *.
  rewrite (pool_free_unique _ _ _ _ _ H0 HP) in *. exists L', F'. split; [done|]. intros n Hin.
  destruct (Hn n Hin) as [Ho' [HinN|Hno]]; [|by destruct Hno; apply Hback]. rewrite Hpid. split; [done|by apply Ho].
Qed.

Lemma cleanup_mind ns N N' x m : typed K m -> mine me N m -> NoDup ns -> (forall n, n ∈ ns -> n ∈ N) ->
  own_step live true N N' m (waiter_cleanup ns m) ->
  mind_step live K true N N' x (unseen x) m (waiter_cleanup ns m) /\ mine me N' (waiter_cleanup ns m).
Proof.
  intros Ht Hm Hnd Hn Hown. pose proof Hm as (L & F & HP & Ho). destruct (surgery_cleanup ns m) as (_ & Hpid & Hf). split.
  - eapply shed_mind; [done|apply (po_lists _ _ _ HP)|exact Hn|apply shed_cleanup].
  - eapply mine_step; [exact Hown|done|exact HP| |intros n|exact Hpid].
    + apply waiter_cleanup_ok; [exact HP|done|]. intros n Hin. by apply Ho, Hn.
    + unfold owned. rewrite Hf. intros [H1 H2]. split; [done|]. intros H3. apply H2, elem_of_app. by right.
Qed.

Lemma detach_all_mind ns N N' x m : typed K m -> mine me N m -> (forall n, n ∈ ns -> n ∈ N) ->
  own_step live true N N' m (foldl (fun r idx => node_detach idx r) m ns) ->
  mind_step live K true N N' x (unseen x) m (foldl (fun r idx => node_detach idx r) m ns) /\
  same_set N N' /\ mine me N' (foldl (fun r idx => node_detach idx r) m ns) /\
  posts_kept N m (foldl (fun r idx => node_detach idx r) m ns).
Proof.
  intros Ht Hm Hn Hown. pose proof Hm as (L & F & HP & Ho). destruct (detach_all_pool_ok ns m L F HP) as (HP' & Hf & _).
  assert (surgery m (foldl (fun r n => node_detach n r) m ns)) as (_ & Hpid & _) by apply surgery_foldl, surgery_detach.
  destruct (own_same live me _ _ _ _ _ _ _ Hown HP HP' Hf Hpid Hm) as [Hset Hm']. split_and!; [|done..|].
  - eapply shed_mind; [done|apply (po_lists _ _ _ HP)|exact Hn|apply shed_detach_all].
  - intros n _. apply (sh_reg _ _ _ (shed_detach_all ns m)).
Qed.

(** ** Allocation *)
(** A node that was taken from the pool, and is not marked yet. *)
Definition taken (n : Z) (N : list Z) (m : Region) : Prop := n ∈ N /\ exists L F, pool_ok m L F /\ owned m F n /\ ~ registered m n /\
  forall k, k ∈ N -> k <> n -> owned m F k /\ n_pid (node_ptr m k) = me.

Lemma taken_same n N m m' : same_lists m m' -> taken n N m -> taken n N m'.
Proof.
  intros Hs (Hn & L & F & HP & Ho & Hr & HN). split; [done|]. exists L, F. split; [by eapply same_lists_pool|].
  split; [by eapply same_owned|]. split; [by destruct (same_registered _ _ n Hs) as [-> _]|].
  intros k Hk Hne. destruct (HN k Hk Hne) as [H1 H2]. split; [by eapply same_owned|].
  by destruct (same_node _ _ Hs k) as (_&_&_&_&_&->).
Qed.

(** The thread's nodes that are on no list. *)
Definition idle (ns : list Z) (m : Region) : Prop := forall n, n ∈ ns -> ~ registered m n.

Lemma idle_kept ns N m m' : (forall n, n ∈ ns -> n ∈ N) -> posts_kept N m m' -> idle ns m -> idle ns m'.
Proof. intros Hn Hp Hi n Hin Hr. destruct (Hp n (Hn n Hin) Hr) as [? _]. by apply (Hi n). Qed.

Lemma idle_same ns m m' : same_lists m m' -> idle ns m -> idle ns m'.
Proof. intros Hs Hi n Hn. destruct (same_registered _ _ n Hs) as [-> _]. by apply Hi. Qed.

Lemma pop_mind N N' x m n m' : typed K m -> mine me N m -> node_pop m = (Some n, m') -> own_step live true N N' m m' ->
  mind_step live K true N N' x (unseen x) m m' /\ taken n N' m' /\ (n ∉ N) /\ (forall k, k ∈ N' <-> k = n \/ k ∈ N) /\
  (forall k, registered m' k <-> registered m k).
Proof.
  intros Ht (L0 & F0 & HP0 & HN) E (L & F & L' & F' & HP & HP' & _ & Hn & Hc).
  rewrite (pool_free_unique _ _ _ _ _ HP0 HP) in *.
  destruct (pop_owned _ _ _ _ _ HP E) as (F1 & HP1 & Hreg & Hsl & Hnd & Hno & Ho & Hoth & Hback & _).
  rewrite (pool_free_unique _ _ _ _ _ HP' HP1) in *.
  assert (forall k, registered m' k <-> registered m k) as Er by (intros k; unfold registered; by rewrite Hnd).
  assert (forall k, k ∈ N' <-> k = n \/ k ∈ N) as Hset.
  { intros k. split.
    - intros Hk. destruct (Hn k Hk) as [Hk' [?|Hk'']]; [by right|]. left. by destruct (Hback k Hk').
    - intros [->|Hk].
      + by destruct (Hc n Ho) as [?|[? _]].
      + destruct (Hc k) as [?|[_ ?]]; [by apply Hoth, HN|done..]. }
  assert (n ∉ N) as HnN by (intros Hin; by apply Hno, HN). split_and!; try done.
  - destruct Ht as [Ht Hhd]. split.
    + split; [intros i; by rewrite Hsl|]. intros i Hi. unfold headed. rewrite Hsl.
      destruct (Hhd i Hi) as [?|(k & Hk & <-)]; [by left|]. right. exists k. by rewrite Er, Hnd.
    + intros i. unfold available. rewrite Hsl. by left.
    + intros i Hi. by left.
    + intros k Hk. by right.
    + apply moves_quiet; [done|intros k; by rewrite Hnd| | |by apply looks_away].
      * intros k Hk%Er. left. split; [done|]. unfold same_post. by rewrite Hnd.
      * intros k Hk _. left. by apply Er.
  - split; [apply Hset; by left|]. exists L, F1. split_and!; [done..| |].
    + rewrite Er. unfold registered. rewrite <- Hnd, Hreg. tauto.
    + intros k Hk Hne. apply Hset in Hk as [?|Hk]; [done|]. rewrite Hnd. split; [by apply Hoth, HN|by apply HN].
Qed.

(** A write to it. *)
Lemma taken_mind n f N N' x m : (forall y, n_registered y = 0 -> n_registered (f y) = 0 /\ n_seq (f y) = n_seq y) ->
  typed K m -> taken n N m -> own_step live true N N' m (upd_node n f m) ->
  mind_step live K true N N' x (unseen x) m (upd_node n f m) /\ same_set N N' /\ taken n N' (upd_node n f m) /\
  n_pid (node_ptr (upd_node n f m) n) = n_pid (f (node_ptr m n)) /\
  (forall k, registered (upd_node n f m) k <-> registered m k).
Proof.
  intros Hf Ht (Hn & L & F & HP & Ho & Hr & HN) Hown.
  assert (n_registered (node_ptr m n) = 0) as Hz by (unfold registered in Hr; lia).
  assert (pool_ok (upd_node n f m) L F) as HP' by (apply upd_mine_pool_ok; try done; by apply Hf).
  destruct (own_set live _ _ _ _ _ _ _ Hown HP HP' eq_refl) as [Hset E].
  { intros k Hk. destruct (decide (k = n)) as [->|]; [done|]. by apply HN. }
  assert (forall k, registered (upd_node n f m) k <-> registered m k) as Er.
  { intros k. unfold registered. region_simpl. destruct (decide (n = k)) as [<-|]; [|done]. destruct (Hf _ Hz) as [-> _]. by rewrite Hz. }
  split_and!; try done.
  - eapply shed_mind; [done|apply (po_lists _ _ _ HP)| |by eapply shed_upd]. by intros k ?%elem_of_nil.
  - split; [by apply Hset|]. exists L, F. split_and!; [done|by apply E|by rewrite Er|].
    intros k Hk%Hset Hne. destruct (HN k Hk Hne) as [H1 H2]. split; [by apply E|]. region_simpl. by rewrite decide_False by congruence.
  - region_simpl. by rewrite decide_True.
Qed.

Lemma taken_is_mine n N m : taken n N m -> n_pid (node_ptr m n) = me -> mine me N m.
Proof.
  intros (Hn & L & F & HP & Ho & Hr & HN) Hp. exists L, F. split; [done|]. intros k Hk.
  destruct (decide (k = n)) as [->|Hne]; [done|]. by apply HN.
Qed.

(** ** Registration *)
Lemma register_fields idx obj ww m k :
  let m' := node_register idx obj ww m in
  (n_registered (node_ptr m' k) = if decide (k = idx) then 1 else n_registered (node_ptr m k)) /\
  (n_obj (node_ptr m' k) = if decide (k = idx) then obj else n_obj (node_ptr m k)) /\
  (n_wait_word (node_ptr m' k) = if decide (k = idx) then ww else n_wait_word (node_ptr m k)) /\
  n_seq (node_ptr m' k) = n_seq (node_ptr m k) /\ n_waiter_next (node_ptr m' k) = n_waiter_next (node_ptr m k).
Proof.
  cbv zeta. unfold node_register. cbv zeta. destruct (negb _); region_simpl; repeat case_decide; simplify_eq; done.
Qed.

Lemma register_slots idx obj ww m i :
  s_obj_type (slot_ptr (node_register idx obj ww m) i) = s_obj_type (slot_ptr m i) /\
  s_w0 (slot_ptr (node_register idx obj ww m) i) = s_w0 (slot_ptr m i) /\
  (i <> obj -> s_waiter_head (slot_ptr (node_register idx obj ww m) i) = s_waiter_head (slot_ptr m i)).
Proof.
  rewrite node_register_slot. by destruct (decide (i = obj)) as [->|].
Qed.

Lemma register_mind N N' x m idx obj head : typed K m -> mine me N m -> idx ∈ N -> head ∈ N -> ~ registered m idx ->
  own_step live true N N' m (node_register idx obj head m) ->
  mind_step live K true N N' x (unseen x) m (node_register idx obj head m) /\
  same_set N N' /\ mine me N' (node_register idx obj head m).
Proof.
  intros [Ht Hhd] Hm Hin Hhead Hr Hown. pose proof (register_fields idx obj head m) as Hfl. pose proof (register_slots idx obj head m) as Hsl.
  cbv zeta in Hfl. set (m' := node_register idx obj head m) in *.
  assert (forall k, registered m' k <-> k = idx \/ registered m k) as Er.
  { intros k. unfold registered. destruct (Hfl k) as (-> & _).
    destruct (decide (k = idx)) as [->|]; [|tauto]. split; [by left|done]. }
  assert (forall k, k <> idx -> same_post m m' k) as Ep.
  { intros k Hk. unfold same_post. destruct (Hfl k) as (_ & E1 & E2 & _).
    rewrite !decide_False in E1, E2 by done. done. }
  assert (same_set N N' /\ mine me N' m') as [Hset Hm'].
  { pose proof Hm as (L & F & HP & _). pose proof Hown as (_ & _ & L' & F' & _ & HP' & _).
    assert (F = F') as <-.
    { eapply (chain_unique m'); [|apply (po_chain _ _ _ HP')|].
      - unfold m' at 2. rewrite node_register_header. eapply chain_ext; [|apply (po_chain _ _ _ HP)].
        intros n _. by destruct (Hfl n) as (_&_&_&_&->).
      - intros n [Hn|Hn]; [by apply (free_not_nil m L F)|by apply (free_not_nil m' L' F')]. }
    eapply own_same; [exact Hown|exact HP|exact HP'| | |done]; destruct (surgery_register idx obj head m) as (_&Hp&Hf); auto. }
  split; [|done]. split.
  - split; [intros i; by destruct (Hsl i) as (->&_)|]. intros i Hi.
    destruct (decide (i = obj)) as [->|Hne].
    + right. exists idx. split; [apply Er; by left|]. destruct (Hfl idx) as (_&->&_). by rewrite decide_True.
    + destruct (Hhd i Hi) as [Hnil|(k & Hk & Ho)].
      * left. destruct (Hsl i) as (_&_&->); done.
      * right. exists k. split; [apply Er; by right|]. destruct (Ep k) as [-> _]; [by intros ->|done].
  - intros i Hi. left. revert Hi. unfold available. by destruct (Hsl i) as (->&->&_).
  - intros i Hi. by left.
  - intros k Hk. by right.
  - apply moves_quiet; [done| | | |by apply looks_away].
    + intros k. by destruct (Hfl k) as (_&_&_&->&_).
    + intros k [->|Hk]%Er; [right|left].
      * destruct (Hfl idx) as (_&_&->&_). rewrite decide_True by done. split_and!; [by apply Hset..|done].
      * split; [done|]. apply Ep. by intros ->.
    + intros k Hk _. left. apply Er. by right.
Qed.
End steps.
