(* ===== verification/WatchWait.v ===== *)
(** * WatchWait: the section of a wait, with everything in mind

    Under the lock a wait takes its nodes, puts them on the lists, and looks at
    the objects once more.  What it has seen then, and has not acquired, it may
    sleep on. *)
From S2P Require Import Prelude Prog Config Region Kernel Lock Nodes WaitLists NodePool Policy Sweep Init Slots Objects Words Wait Interleave Guard GuardRules GuardOps GuardLists GuardSlots Watch WatchRules WatchWake WatchOps WatchNodes.

Section wait.
Context `{!Config} (live : Z -> Prop) (me : Z) (errs : Prop) (Hme : live me) (K : Z -> Z) (T : list Z -> Prop).
Abbreviation mf Q p b N x m := (mindful live me errs K T Q p b N x m) (only parsing).
Abbreviation md R p := (mild live me errs K R p) (only parsing).

(** ** Reading under the lock *)
Lemma under_read {A B} (Q : bool -> list Z -> mind -> A -> Region -> Prop) (f : Region -> B) (k : B -> action A) N x m :
  mine me N m ->
  (forall m1 N1, meanwhile live K true N m m1 -> typed K m1 -> same_set N N1 -> mine me N1 m1 ->
    exists x', md_hand x' = md_hand x /\ md_duty x' = md_duty x /\ looks true N1 x x' m1 /\ mf Q (k (f m1)) true N1 x' m1) ->
  mf Q (bind (mem_read f) k) true N x m.
Proof.
  intros Hm Hk m1 N1 Hmw Ht1 Hown. pose proof (mine_same me N m m1 (mw_others _ _ _ _ _ _ Hmw) Hm) as Hm1. cbn [fst snd] in *.
  destruct (gentle_step live me Hme K true N N1 x m1 m1 Ht1 (fun _ => Hm1) Hown (gentle_refl live m1)) as (Hms & Hset & Hm2).
  destruct (Hk m1 N1 Hmw Ht1 Hset (Hm2 eq_refl)) as (x' & Hh & Hd & Hl & Hrest). exists x'. split; [|exact Hrest].
  destruct Hms as [A1 A2 A3 A4 A5]. split; [done| | | |].
  - intros i Hi. by left.
  - intros i Hi. left. by rewrite Hd.
  - intros n Hn. left. by apply Hset.
  - destruct A5 as [B1 B2 B3 B4 B5|? ? ? ? ? ? ? H1 H2|w ? ? Hx ? Hy]; [|done|congruence]. apply moves_quiet; [done|done| | |done].
    + intros n Hn. by left.
    + intros n Hn _. by left.
Qed.

(** What others, and steps that only change words, leave. *)
Definition lasting (I : Region -> Prop) : Prop := forall m m', same_lists m m' -> same_seqs m m' -> I m -> I m'.

Lemma lasting_meanwhile (I : Region -> Prop) N m m' : lasting I -> meanwhile live K true N m m' -> I m -> I m'.
Proof. intros HI [Hs _ _ Hq]. apply HI; [done|by apply Hq]. Qed.

Lemma mindful_quiet {A} (R : A -> Prop) (p : action A) (I : Region -> Prop) x : lasting I -> forall N m,
  md R p -> tame live me errs any p -> mine me N m -> I m ->
  mf (fun b' N' x' a m' => mild_end me R true N x b' N' x' a m' /\ I m') p true N x m.
Proof.
  intros HI. induction p as [a|B f k IH|B f k IH|c k IH| |]; cbn [mild tame mindful]; intros N m Hp Hq Hm Hi; auto.
  - intros m' Hmw Ht. split; [|by eapply lasting_meanwhile]. split_and!; try done. intros _. by eapply mine_meanwhile.
  - intros m' N' Hmw Ht Hown. destruct (Hp m' Ht) as [Hg Hk], (Hq m') as [Hs Hk']. exists x.
    pose proof (mine_same me N m m' (mw_others _ _ _ _ _ _ Hmw) Hm) as Hm1.
    destruct (gentle_step live me Hme K true N N' x m' (snd (f m')) Ht (fun _ => Hm1) Hown Hg) as (Hms & Hset & Hm2).
    split; [done|]. eapply mindful_mono; [|apply IH; auto].
    + intros ? ? ? ? ? [(->&->&Hs2&Ha&Hm3) ?]. split; [|done]. split_and!; try done. by eapply same_set_trans.
    + apply (HI m'); [done|apply (gn_seqs _ _ _ (gn_near _ _ _ Hg))|by eapply lasting_meanwhile].
  - intros l Hl. destruct (Hq l Hl) as [_ Hk]. by apply IH; [apply Hp|..].
  - destruct Hp as [Hc Hp], Hq as (_ & _ & Hq). destruct c; try discriminate Hc; intros z Hz; by apply IH; [apply Hp|apply Hq|..].
Qed.

(** ** Giving up *)
Lemma calm_cleanup ns x N m : typed K m -> calm errs x -> mine me N m -> NoDup ns -> (forall n, n ∈ ns -> n ∈ N) ->
  mf (fun b N' x' _ m' => b = true /\ calm errs x' /\ mine me N' m') (cleanup ns) true N x m.
Proof.
  intros Ht Hc Hm Hnd Hn m1 N1 Hmw Ht1 Hown. exists (unseen x).
  destruct (cleanup_mind live me K ns N N1 x m1 Ht1 (mine_same me N m m1 (mw_others _ _ _ _ _ _ Hmw) Hm) Hnd Hn Hown) as [Hms Hm1].
  split; [exact Hms|]. intros m2 Hmw2 _. split_and!; [done..|]. eapply mine_same; [apply (mw_others _ _ _ _ _ _ Hmw2)|done].
Qed.

(** ** Allocation *)
(** The nodes of a wait: its own, all different, and on no list. *)
Definition spare (ns N : list Z) (m : Region) : Prop := NoDup ns /\ (forall n, n ∈ ns -> n ∈ N) /\ idle ns m.

Lemma spare_same ns N m m' : same_lists m m' -> spare ns N m -> spare ns N m'.
Proof. intros Hs (H1 & H2 & H3). split_and!; [done..|by eapply idle_same]. Qed.

Lemma mindful_node_alloc ns x N m : typed K m -> calm errs x -> mine me N m -> spare ns N m ->
  mf (fun b N' x' r m' => b = true /\ calm errs x' /\ mine me N' m' /\
      match r with Some k => spare (ns ++ [k]) N' m' | None => spare ns N' m' end) node_alloc true N x m.
Proof.
  intros Ht Hc Hm Hsp m1 N1 Hmw Ht1 Hown. pose proof (mw_others _ _ _ _ _ _ Hmw) as Hs1.
  pose proof (mine_same me N m m1 Hs1 Hm) as Hm1. pose proof (spare_same _ _ _ _ Hs1 Hsp) as (Hnd & HnN & Hi).
  destruct (node_pop m1) as [[n|] r1] eqn:E; cbn [fst snd bind] in *.
  - destruct (pop_mind live me K N N1 x m1 n r1 Ht1 Hm1 E Hown) as (Hms & Htk & Hno & Hset & Hr). exists (unseen x). split; [exact Hms|].
    intros m2 N2 Hmw2 Ht2 Hown2. pose proof (taken_same me n N1 _ _ (mw_others _ _ _ _ _ _ Hmw2) Htk) as Htk2.
    destruct (taken_mind live me K n node_reset N1 N2 (unseen x) m2) as (Hms2 & Hset2 & Htk2' & _ & Hr2); [done..|].
    exists (unseen x). split; [exact Hms2|]. cbn [fst snd]. intros pid ->. intros m3 N3 Hmw3 Ht3 Hown3.
    pose proof (taken_same me n N2 _ _ (mw_others _ _ _ _ _ _ Hmw3) Htk2') as Htk3.
    destruct (taken_mind live me K n (set_npid me) N2 N3 (unseen x) m3) as (Hms3 & Hset3 & Htk3' & Hpid & Hr3); [done..|].
    exists (unseen x). split; [exact Hms3|]. cbn [fst snd]. intros m4 Hmw4 _. pose proof (mw_others _ _ _ _ _ _ Hmw4) as Hs4.
    split_and!; [done..|eapply mine_same; [exact Hs4|by eapply taken_is_mine]|]. eapply spare_same; [exact Hs4|]. split_and!.
    + apply NoDup_app. split_and!; [done| |apply NoDup_singleton]. intros k Hk ->%list_elem_of_singleton. by apply Hno, HnN.
    + intros k [Hk| ->%list_elem_of_singleton]%elem_of_app; [|by apply Htk3']. apply Hset3, Hset2, Hset. right. by apply HnN.
    + assert (forall k, registered (upd_node n (set_npid me) m3) k -> registered m1 k) as Hback.
      { intros k Hk. apply Hr. apply (same_registered _ _ k (mw_others _ _ _ _ _ _ Hmw2)), Hr2.
        by apply (same_registered _ _ k (mw_others _ _ _ _ _ _ Hmw3)), Hr3. }
      intros k [Hk| ->%list_elem_of_singleton]%elem_of_app Hk'; [by apply (Hi k Hk), Hback|].
      by destruct Htk3' as (_ & _ & _ & _ & _ & ? & _).
  - assert (r1 = m1) as ->.
    { destruct Hm1 as (L & F & HP & _). by destruct (node_pop_none _ _ _ _ HP E) as (-> & _). }
    destruct (gentle_step live me Hme K true N N1 x m1 m1 Ht1 (fun _ => Hm1) Hown (gentle_refl live m1)) as (Hms & Hset & Hm2).
    exists x. split; [done|]. intros m2 Hmw2 _. pose proof (mw_others _ _ _ _ _ _ Hmw2) as Hs2.
    split_and!; [done..|eapply mine_same; [exact Hs2|auto]|]. eapply spare_same; [exact Hs2|]. split_and!; [done| |done].
    intros k Hk. by apply Hset, HnN.
Qed.

Lemma mindful_alloc_nodes n : forall ns x N m, typed K m -> calm errs x -> mine me N m -> spare ns N m ->
  mf (fun b N' x' r m' => b = true /\ calm errs x' /\ mine me N' m' /\
      match r with Some ns' => spare ns' N' m' /\ length ns' = (length ns + n)%nat | None => True end)
    (alloc_nodes n ns) true N x m.
Proof.
  induction n as [|n IH]; intros ns x N m Ht Hc Hm Hsp; cbn [alloc_nodes].
  { intros m1 Hmw _. pose proof (mw_others _ _ _ _ _ _ Hmw) as Hs. split_and!; [done..|by eapply mine_same|by eapply spare_same|lia]. }
  eapply mindful_bind; [|done|by apply mindful_node_alloc]. intros ? N1 x1 [k|] m1 Ht1 (->&Hc1&Hm1&Hsp1).
  - eapply mindful_mono; [|by apply IH]. intros ? ? ? [ns'|] ? (->&?&?&Hr); [|done]. rewrite length_app in Hr. cbn [length] in Hr.
    destruct Hr. split_and!; [done..|lia].
  - destruct Hsp1 as (Hnd & HnN & _). eapply mindful_bind; [|done|by apply calm_cleanup].
    intros ? N2 x2 ? m2 Ht2 (->&Hc2&Hm2). intros m3 Hmw3 _. split_and!; [done..| |done].
    eapply mine_same; [apply (mw_others _ _ _ _ _ _ Hmw3)|done].
Qed.

(** ** Registration *)
Context (handles : list Z) (owner alert : Z).

(** The nodes of this wait; what is registered of them is registered for it. *)
Record fits (ns N : list Z) (m : Region) : Prop := {
  ft_own n : n ∈ ns -> n ∈ N;
  ft_nodup : NoDup ns;
  ft_len : length ns = n_nodes handles alert;
  ft_post j h : handles !! j = Some h -> registered m (arr ns j) ->
    n_obj (node_ptr m (arr ns j)) = handle_index h /\ n_wait_word (node_ptr m (arr ns j)) = arr ns 0;
}.

Lemma arr_in ns j : (j < length ns)%nat -> arr ns j ∈ ns.
Proof. intros Hj. unfold arr. by apply list_elem_of_In, nth_In. Qed.

Lemma arr_inj ns j k : NoDup ns -> (j < length ns)%nat -> (k < length ns)%nat -> arr ns j = arr ns k -> j = k.
Proof.
  intros Hnd Hj Hk E. apply (NoDup_nth ns 0); [by apply NoDup_ListNoDup|done..].
Qed.

Lemma handle_lt j h : handles !! j = Some h -> (j < n_nodes handles alert)%nat.
Proof. intros Hj%lookup_lt_Some. unfold n_nodes. lia. Qed.

Lemma fits_kept ns N N' m m' : same_set N N' -> posts_kept N m m' -> fits ns N m -> fits ns N' m'.
Proof.
  intros Hs Hp [H1 H2 H3 H4]. split; try done.
  - intros n Hn. by apply Hs, H1.
  - intros j h Hj Hr. destruct (Hp (arr ns j)) as [Hr0 [-> ->]]; [|done|eauto]. apply H1, arr_in. rewrite H3. by eapply handle_lt.
Qed.

Lemma same_posts N m m' : same_lists m m' -> posts_kept N m m'.
Proof. intros Hs n _ Hr. destruct (same_registered _ _ n Hs) as [E1 E2]. by rewrite <- E1. Qed.

Lemma fits_same ns N m m' : same_lists m m' -> fits ns N m -> fits ns N m'.
Proof. intros Hs. apply fits_kept; [done|by apply same_posts]. Qed.

Lemma fits_spare ns N m : spare ns N m -> length ns = n_nodes handles alert -> fits ns N m.
Proof.
  intros (Hnd & HnN & Hi) Hl. split; try done. intros j h Hj Hr. exfalso. apply (Hi (arr ns j)); [|done].
  apply arr_in. rewrite Hl. by eapply handle_lt.
Qed.

(** Registering the [k]th node. *)
Lemma fits_register ns N m k obj : (k < length ns)%nat -> (forall h, handles !! k = Some h -> handle_index h = obj) ->
  fits ns N m -> fits ns N (node_register (arr ns k) obj (arr ns 0) m).
Proof.
  intros Hk Hobj [H1 H2 H3 H4]. split; try done. intros j h Hj Hr.
  destruct (register_fields (arr ns k) obj (arr ns 0) m (arr ns j)) as (E1 & E2 & E3 & _). cbv zeta in E1, E2, E3.
  rewrite E2, E3. destruct (decide (arr ns j = arr ns k)) as [E|E].
  - apply arr_inj in E as ->; [|done| |done]; [by rewrite (Hobj h Hj)|]. rewrite H3. by eapply handle_lt.
  - apply H4; [done|]. unfold registered in *. by rewrite E1 in Hr.
Qed.

Lemma mindful_register ns k h x N m : (k < length ns)%nat -> (forall h', handles !! k = Some h' -> h' = h) ->
  typed K m -> calm errs x -> mine me N m -> fits ns N m ->
  mf (fun b N' x' _ m' => b = true /\ calm errs x' /\ mine me N' m' /\ fits ns N' m' /\ registered m' (arr ns k) /\
      forall n, registered m n -> registered m' n) (register_if_needed (arr ns k) h (arr ns 0)) true N x m.
Proof.
  intros Hk Hh Ht Hc Hm Hf. unfold register_if_needed. apply under_read; [done|]. intros m1 N1 Hmw Ht1 Hset Hm1. exists x.
  split_and!; [done..|by apply looks_same|]. pose proof (mw_others _ _ _ _ _ _ Hmw) as Hs1.
  assert (fits ns N1 m1) as Hf1 by (eapply fits_kept; [exact Hset|by apply same_posts|done]).
  assert (forall m2, same_lists m1 m2 -> forall n, registered m n -> registered m2 n) as Hreg.
  { intros m2 Hs2 n Hn. by apply (same_registered _ _ n Hs2), (same_registered _ _ n Hs1). }
  destruct (Z.eqb_spec (n_registered (node_ptr m1 (arr ns k))) 0) as [E|E].
  - intros m2 N2 Hmw2 Ht2 Hown. pose proof (mw_others _ _ _ _ _ _ Hmw2) as Hs2. pose proof (fits_same _ _ _ _ Hs2 Hf1) as Hf2.
    assert (~ registered m2 (arr ns k)) as Hno.
    { intros Hr. apply (same_registered _ _ _ Hs2) in Hr. done. }
    exists (unseen x). cbn [fst snd] in *.
    destruct (register_mind live me K N1 N2 x m2 (arr ns k) (handle_index h) (arr ns 0) Ht2) as (Hms & Hset2 & Hm2); try done.
    { by eapply mine_same. }
    { by apply (ft_own _ _ _ Hf2), arr_in. }
    { apply (ft_own _ _ _ Hf2), arr_in. lia. }
    split; [exact Hms|]. intros m3 Hmw3 _. pose proof (mw_others _ _ _ _ _ _ Hmw3) as Hs3.
    split_and!; [done..|by eapply mine_same| | |].
    + eapply fits_same; [exact Hs3|]. eapply fits_kept; [exact Hset2|apply posts_kept_refl|].
      apply fits_register; [done| |done]. by intros h' ->%Hh.
    + apply (same_registered _ _ _ Hs3). unfold registered.
      destruct (register_fields (arr ns k) (handle_index h) (arr ns 0) m2 (arr ns k)) as (-> & _). by rewrite decide_True.
    + intros n Hn. apply (same_registered _ _ _ Hs3). unfold registered.
      destruct (register_fields (arr ns k) (handle_index h) (arr ns 0) m2 n) as (-> & _).
      destruct (decide (n = arr ns k)); [done|]. by apply (Hreg m2).
  - intros m2 Hmw2 _. pose proof (mw_others _ _ _ _ _ _ Hmw2) as Hs2.
    split_and!; [done..|by eapply mine_same|by eapply fits_same| |by apply Hreg].
    by apply (same_registered _ _ _ Hs2).
Qed.

(** The first [k] nodes of the handles are on their lists. *)
Definition posted (k : nat) (ns : list Z) (m : Region) : Prop :=
  forall j, (j < k)%nat -> (j < length handles)%nat -> registered m (arr ns j).

Lemma mindful_register_objects ns hs : forall i x N m, drop i handles = hs ->
  typed K m -> calm errs x -> mine me N m -> fits ns N m -> posted i ns m ->
  mf (fun b N' x' _ m' => b = true /\ calm errs x' /\ mine me N' m' /\ fits ns N' m' /\ posted (length handles) ns m')
    (register_objects i hs ns (arr ns 0)) true N x m.
Proof.
  induction hs as [|h hs IH]; intros i x N m Hd Ht Hc Hm Hf Hp; cbn [register_objects].
  - intros m1 Hmw _. pose proof (mw_others _ _ _ _ _ _ Hmw) as Hs.
    split_and!; [done..|by eapply mine_same|by eapply fits_same|]. intros j _ Hj. apply (same_registered _ _ _ Hs), Hp; [|done].
    assert (length (drop i handles) = 0%nat) as Hl by (by rewrite Hd). rewrite length_drop in Hl. lia.
  - assert (handles !! i = Some h) as Hi.
    { rewrite <- (Nat.add_0_r i), <- lookup_drop, Hd. done. }
    eapply mindful_bind; [|done|apply mindful_register; try done].
    + intros ? N1 x1 ? m1 Ht1 (->&Hc1&Hm1&Hf1&Hr1&Hall). apply IH; try done.
      * rewrite (drop_S _ _ _ Hi) in Hd. by injection Hd.
      * intros j Hj Hjl. destruct (decide (j = i)) as [->|Hne]; [done|]. apply Hall, Hp; [lia|done].
    + rewrite (ft_len _ _ _ Hf). by eapply handle_lt.
    + intros h' Hh'. by simplify_eq.
Qed.
End wait.
