(* ===== verification/WatchLook.v ===== *)
(** * WatchLook: the last look at the objects

    [try_satisfy] under the lock, after registration: an object that was not
    acquired was seen not to be available, with the waiter on its list. *)
From S2P Require Import Prelude Prog Config Region Kernel Lock Nodes WaitLists NodePool Policy Sweep Init Slots Objects Words Wait Interleave Guard GuardRules GuardOps GuardLists GuardSlots Watch WatchRules WatchWake WatchOps WatchNodes WatchWait.

Section look.
Context `{!Config} (live : Z -> Prop) (me : Z) (errs : Prop) (Hme : live me) (K : Z -> Z) (T : list Z -> Prop).
Abbreviation mf Q p b N x m := (mindful live me errs K T Q p b N x m) (only parsing).
Abbreviation md R p := (mild live me errs K R p) (only parsing).

(** ** One object *)
Section object.
(** The node [n], one of the waiter's, is on the list of [i]. *)
Context (ns : list Z) (n i : Z) (Hn : n ∈ ns) (w : watch) (I : Region -> Prop) (HI : lasting I).
Context (Hsee : forall m, I m -> registered m n /\ n_obj (node_ptr m n) = i /\ n_wait_word (node_ptr m n) = w_head w).

(** Under the lock, with what was seen before. *)
Definition looking (wx : option watch) (N : list Z) (x : mind) (m : Region) : Prop :=
  calm errs x /\ md_watch x = wx /\ mine me N m /\ I m /\ forall k, k ∈ ns -> k ∈ N.

Definition looked {A} (missed : A -> Prop) (b' : bool) (N' : list Z) (x' : mind) (r : A) (m' : Region) : Prop :=
  b' = true /\ exists wx, looking wx N' x' m' /\ (missed r -> wx = Some (saw n i w)).

Lemma looking_set wx N N' x m m' : same_set N N' -> mine me N' m' -> I m' -> looking wx N x m -> looking wx N' x m'.
Proof. intros Hs Hm Hi (Hc & Hw & _ & _ & Hns). split_and!; try done. intros k Hk. by apply Hs, Hns. Qed.

(** A read after which the object is seen, or not. *)
Lemma look_read {A B} (Q : bool -> list Z -> mind -> A -> Region -> Prop) (f : Region -> B) (k : B -> action A) N x m :
  looking (Some w) N x m ->
  (forall m1 N1, typed K m1 -> looking (Some w) N1 x m1 ->
    (mf Q (k (f m1)) true N1 x m1 \/
     (~ available m1 i /\ forall x', looking (Some (saw n i w)) N1 x' m1 -> mf Q (k (f m1)) true N1 x' m1))) ->
  mf Q (bind (mem_read f) k) true N x m.
Proof.
  intros Hl Hk. pose proof Hl as (Hc & Hw & Hm & Hi & Hns). apply under_read; [done|done|].
  intros m1 N1 Hmw Ht1 Hset Hm1. pose proof (lasting_meanwhile live K I N m m1 HI Hmw Hi) as Hi1.
  pose proof (looking_set _ _ _ _ _ _ Hset Hm1 Hi1 Hl) as Hl1.
  destruct (Hk m1 N1 Ht1 Hl1) as [H1|[Ha H1]].
  - exists x. split_and!; [done..|by apply looks_same|done].
  - exists (with_watch (Some (saw n i w)) x). destruct (Hsee m1 Hi1) as (Hr & Ho & Hww). split_and!; [done..| |].
    + eapply looks_on; [exact Hw|done|by apply Hset, Hns|done..].
    + apply H1. split_and!; try done; [apply Hc..|]. intros j Hj. by apply Hset, Hns.
Qed.

Lemma look_ret {A} (missed : A -> Prop) wx (r : A) N x m : looking wx N x m -> (missed r -> wx = Some (saw n i w)) ->
  mf (looked missed) (Ret r) true N x m.
Proof.
  intros Hl Hr m1 Hmw _. split; [done|]. exists wx. split; [|done]. eapply looking_set; [apply same_set_refl| | |exact Hl].
  - eapply mine_same; [apply (mw_others _ _ _ _ _ _ Hmw)|apply Hl].
  - eapply lasting_meanwhile; [done|exact Hmw|apply Hl].
Qed.

(** A program that only changes words, and what comes after it. *)
Lemma look_quiet {A B} (Q : bool -> list Z -> mind -> B -> Region -> Prop) (R : A -> Prop) (p : action A) (q : A -> action B) wx N x m :
  typed K m -> md R p -> tame live me errs any p -> looking wx N x m ->
  (forall a N1 m1, R a -> typed K m1 -> looking wx N1 x m1 -> mf Q (q a) true N1 x m1) ->
  mf Q (bind p q) true N x m.
Proof.
  intros Ht Hp Hq Hl Hk. eapply mindful_bind; [|done|apply (mindful_quiet live me errs Hme K T R p I x HI N m Hp Hq); apply Hl].
  intros ? N1 ? a m1 Ht1 [(->&->&Hs&Ha&Hm1) Hi1]. apply Hk; [done..|]. eapply looking_set; [exact Hs|auto|done|exact Hl].
Qed.

(** A swap, repeated when it fails. *)
Lemma look_retry {A} (missed : A -> Prop) old new (a : A) (q : action A) wx N x m :
  (ready_word (K i) new = true -> ready_word (K i) old = true) -> ~ missed a -> typed K m -> looking wx N x m ->
  (forall N1 m1, typed K m1 -> looking wx N1 x m1 -> mf (looked missed) q true N1 x m1) ->
  mf (looked missed) (ok <- cas64 i old new ;; if ok : bool then Ret a else q) true N x m.
Proof.
  intros Hw Ha Ht Hl Hq. eapply look_quiet; [done|by apply mild_cas|apply tame_cas|exact Hl|]. intros [] N1 m1 _ Ht1 Hl1; [|auto].
  by eapply look_ret.
Qed.

Lemma not_available m : typed K m -> ready_word (K i) (s_w0 (slot_ptr m i)) = false -> ~ available m i.
Proof. intros [Ht _] Hr. unfold available. rewrite Ht, Hr. done. Qed.

Definition missed_it (r : option bool) : Prop := r = None.

Lemma look_acquire_sem fuel : K i = TYPE_SEM -> forall N x m, typed K m -> looking (Some w) N x m ->
  mf (looked missed_it) (acquire_sem fuel i) true N x m.
Proof.
  intros Hk. induction fuel as [|fuel IH]; intros N x m Ht Hl; cbn [acquire_sem]; [done|]. apply look_read; [done|].
  intros m1 N1 Ht1 Hl1. cbv zeta. destruct (lo32 (s_w0 (slot_ptr m1 i)) =? 0) eqn:E.
  - right. split; [|intros x' Hx'; by eapply look_ret].
    apply not_available; [done|]. apply Z.eqb_eq in E. by rewrite Hk, ready_sem, E.
  - left. eapply look_retry; [|done|done|exact Hl1|by auto]. intros _. rewrite Hk, ready_sem.
    pose proof (lo32_range (s_w0 (slot_ptr m1 i))). apply Z.eqb_neq in E. apply Z.ltb_lt. lia.
Qed.

Lemma look_acquire_mutex fuel owner : K i = TYPE_MUTEX -> 0 < owner < W32 -> forall N x m, typed K m -> looking (Some w) N x m ->
  mf (looked missed_it) (acquire_mutex fuel i owner) true N x m.
Proof.
  intros Hk Ho. induction fuel as [|fuel IH]; intros N x m Ht Hl; cbn [acquire_mutex]; [done|]. apply look_read; [done|].
  intros m1 N1 Ht1 Hl1. cbv zeta. set (v := s_w0 (slot_ptr m1 i)).
  destruct (0x7fffffff <=? m_count v) eqn:Ec; [right|destruct (lo32 v =? 0) eqn:E0; [left|destruct (lo32 v =? owner) eqn:E1; [left|right]]].
  - split; [|intros x' Hx'; by eapply look_ret]. apply not_available; [done|]. fold v. apply Z.leb_le in Ec.
    rewrite Hk, ready_mutex, (proj2 (Z.ltb_ge _ _)) by done. apply andb_false_r.
  - eapply look_retry; [|done|done|exact Hl1|by auto]. intros _. rewrite Hk, ready_mutex, E0. apply Z.leb_gt in Ec. by apply Z.ltb_lt.
  - eapply look_retry; [|done|done|exact Hl1|by auto]. rewrite Hk, ready_mutex, lo32_mutex by lia.
    rewrite (proj2 (Z.eqb_neq owner 0)) by lia. done.
  - split; [|intros x' Hx'; by eapply look_ret]. apply not_available; [done|]. fold v. by rewrite Hk, ready_mutex, E0.
Qed.

Lemma look_claim fuel : K i = TYPE_EVENT -> forall N x m, typed K m -> looking (Some w) N x m ->
  mf (looked (fun won => won = false)) (claim_event fuel i) true N x m.
Proof.
  intros Hk. induction fuel as [|fuel IH]; intros N x m Ht Hl; cbn [claim_event]; [done|]. apply look_read; [done|].
  intros m1 N1 Ht1 Hl1. destruct (lo32 (s_w0 (slot_ptr m1 i)) =? 0) eqn:E.
  - right. split; [|intros x' Hx'; by eapply look_ret]. apply not_available; [done|]. by rewrite Hk, ready_event, E.
  - left. eapply look_retry; [|done|done|exact Hl1|by auto]. intros _. by rewrite Hk, ready_event, E.
Qed.

Lemma look_pulse seq N x m : typed K m -> looking (Some (saw n i w)) N x m ->
  mf (looked missed_it) (pulse_check i seq) true N x m.
Proof.
  intros Ht Hl. unfold pulse_check, ld_d.
  eapply (look_quiet _ any); [done|by apply mild_read|by apply tame_read|exact Hl|]. intros d N1 m1 _ Ht1 Hl1.
  destruct (negb _); by eapply look_ret.
Qed.

Lemma look_acquire_event seq N x m : K i = TYPE_EVENT -> typed K m -> looking (Some w) N x m ->
  mf (looked missed_it) (acquire_event i seq) true N x m.
Proof.
  intros Hk Ht Hl. unfold acquire_event. apply look_read; [done|]. intros m1 N1 Ht1 Hl1.
  destruct (lo32 (s_w0 (slot_ptr m1 i)) =? 0) eqn:E; cbn [negb].
  - right. split; [|intros x' Hx'; by apply look_pulse]. apply not_available; [done|]. by rewrite Hk, ready_event, E.
  - left. destruct (Z.shiftr _ 32 =? 0); [|by eapply look_ret].
    eapply mindful_bind; [|done|by apply look_claim]. intros ? N2 x2 [] m2 Ht2 [-> (wx & Hl2 & Hwx)].
    + by eapply look_ret.
    + rewrite (Hwx eq_refl) in Hl2. by apply look_pulse.
Qed.

(** The first read may begin the watch. *)
Lemma look_try_acquire owner seq N x m wx : is_waitable (K i) = true -> 0 < owner < W32 -> typed K m -> looking wx N x m ->
  (wx = Some w \/ exists h, h ∈ ns /\ forall m, I m -> w = mkWatch h (n_seq (node_ptr m h)) []) ->
  mf (looked missed_it) (try_acquire i owner seq) true N x m.
Proof.
  intros Hi Ho Ht Hl Hw. pose proof Hl as (Hc & Hwx & Hm & HIm & Hns). unfold try_acquire. apply under_read; [done|done|].
  intros m1 N1 Hmw Ht1 Hset Hm1. pose proof (lasting_meanwhile live K I N m m1 HI Hmw HIm) as HI1.
  assert (forall x', looking (Some w) N1 x' m1 -> mf (looked missed_it)
    (if s_obj_type (slot_ptr m1 i) =? TYPE_SEM then acquire_sem loop_fuel i
     else if s_obj_type (slot_ptr m1 i) =? TYPE_MUTEX then acquire_mutex loop_fuel i owner
     else if s_obj_type (slot_ptr m1 i) =? TYPE_EVENT then acquire_event i seq else Ret None) true N1 x' m1) as Hgo.
  { intros x' Hl'. rewrite (proj1 Ht1). unfold is_waitable in Hi.
    destruct (Z.eqb_spec (K i) TYPE_SEM) as [E|_]; [by apply look_acquire_sem|].
    destruct (Z.eqb_spec (K i) TYPE_MUTEX) as [E|_]; [by apply look_acquire_mutex|].
    destruct (Z.eqb_spec (K i) TYPE_EVENT) as [E|_]; [by apply look_acquire_event|done]. }
  destruct Hw as [->|(h & Hh & Hw)].
  - exists x. split_and!; [done..|by apply looks_same|]. apply Hgo. by eapply looking_set.
  - exists (with_watch (Some w) x). split_and!; [done..| |].
    + apply (looks_up _ _ _ _ _ h); [done|apply Hc|by apply Hset, Hns|]. cbn. by rewrite (Hw m1 HI1).
    + apply Hgo. split_and!; try done; [apply Hc..|]. intros j Hj. by apply Hset, Hns.
Qed.
End object.

(** ** All objects *)
Context (handles : list Z) (owner alert : Z) (Howner : 0 < owner < W32) (Hnonempty : handles <> []).

(** What is seen of the handles from the [j]th on. *)
Fixpoint seen (ns : list Z) (j : nat) (hs : list Z) (w : watch) : watch :=
  match hs with [] => w | h :: hs' => seen ns (S j) hs' (saw (arr ns j) (handle_index h) w) end.

Lemma seen_head ns hs : forall j w, w_head (seen ns j hs w) = w_head w /\ w_seq (seen ns j hs w) = w_seq w.
Proof. induction hs as [|h hs IH]; intros j w; cbn [seen]; [done|]. by destruct (IH (S j) (saw (arr ns j) (handle_index h) w)) as [-> ->]. Qed.

Lemma seen_objects ns hs : forall j w, map snd (w_pairs (seen ns j hs w)) = rev (map handle_index hs) ++ map snd (w_pairs w).
Proof.
  induction hs as [|h hs IH]; intros j w; cbn [seen map rev]; [done|]. rewrite IH. cbn [saw w_pairs map snd].
  by rewrite <- app_assoc.
Qed.

Lemma seen_pairs ns hs n i : forall j w, (n, i) ∈ w_pairs (seen ns j hs w) <->
  (exists k h, hs !! k = Some h /\ n = arr ns (j + k) /\ i = handle_index h) \/ (n, i) ∈ w_pairs w.
Proof.
  induction hs as [|h hs IH]; intros j w; cbn [seen].
  - split; [by right|]. by intros [(k & h & ? & _)|?].
  - rewrite IH. cbn [saw w_pairs]. rewrite elem_of_cons. split.
    + intros [(k & h' & Hk & -> & ->)|[[= -> ->]|Hin]]; [left|left|by right].
      * exists (S k), h'. split; [done|]. by rewrite Nat.add_succ_r.
      * exists 0%nat, h. by rewrite Nat.add_0_r.
    + intros [([|k] & h' & Hk & -> & ->)|Hin]; [|left|by right; right].
      * right; left. cbn in Hk. injection Hk as <-. by rewrite Nat.add_0_r.
      * exists k, h'. split; [done|]. by rewrite Nat.add_succ_r.
Qed.

(** Every node of a handle is registered for it, and the first one's word is [e]. *)
Definition sight (ns : list Z) (e : Z) (m : Region) : Prop :=
  (forall j h, handles !! j = Some h -> registered m (arr ns j) /\ n_obj (node_ptr m (arr ns j)) = handle_index h /\
     n_wait_word (node_ptr m (arr ns j)) = arr ns 0) /\ n_seq (node_ptr m (arr ns 0)) = e.

Lemma sight_lasting ns e : lasting (sight ns e).
Proof.
  intros m m' Hs Hq [H1 H2]. split; [|by rewrite Hq]. intros j h Hj. destruct (H1 j h Hj) as (A & B & C).
  destruct (same_registered _ _ (arr ns j) Hs) as [-> [-> ->]]. done.
Qed.

Definition beginning (ns : list Z) (e : Z) : watch := mkWatch (arr ns 0) e [].

Lemma look_satisfy_any ns e hs seqs : (forall h, h ∈ handles -> is_waitable (K (handle_index h)) = true) ->
  length ns = n_nodes handles alert -> forall j w wx N x m, drop j handles = hs -> typed K m ->
  looking ns (sight ns e) wx N x m -> w_head w = arr ns 0 -> (wx = Some w \/ hs <> [] /\ w = beginning ns e) ->
  mf (fun b' N' x' r m' => b' = true /\ exists wx', looking ns (sight ns e) wx' N' x' m' /\
      (r = None -> wx' = Some (seen ns j hs w))) (satisfy_any j hs owner seqs) true N x m.
Proof.
  intros Hwt Hlen. induction hs as [|h hs IH]; intros j w wx N x m Hd Ht Hl Hwh Hw; cbn [satisfy_any seen].
  - destruct Hw as [->|[? _]]; [|done]. intros m1 Hmw _. split; [done|]. exists (Some w). split; [|done].
    eapply looking_set; [apply same_set_refl| | |exact Hl].
    + eapply mine_same; [apply (mw_others _ _ _ _ _ _ Hmw)|apply Hl].
    + eapply lasting_meanwhile; [apply sight_lasting|exact Hmw|apply Hl].
  - assert (handles !! j = Some h) as Hj.
    { rewrite <- (Nat.add_0_r j), <- lookup_drop, Hd. done. }
    assert (arr ns j ∈ ns) as Hin by (apply arr_in; rewrite Hlen; by eapply handle_lt).
    eapply mindful_bind; [|done|apply (look_try_acquire ns (arr ns j) (handle_index h) Hin w (sight ns e) (sight_lasting ns e)) with (wx := wx)].
    + intros ? N1 x1 [od|] m1 Ht1 [-> (wx1 & Hl1 & Hwx1)].
      * intros m2 Hmw _. split; [done|]. exists wx1. split; [|done]. eapply looking_set; [apply same_set_refl| | |exact Hl1].
        -- eapply mine_same; [apply (mw_others _ _ _ _ _ _ Hmw)|apply Hl1].
        -- eapply lasting_meanwhile; [apply sight_lasting|exact Hmw|apply Hl1].
      * eapply IH; [|done|exact Hl1|exact Hwh|left; by apply Hwx1]. rewrite (drop_S _ _ _ Hj) in Hd. by injection Hd.
    + intros m1 [Hs _]. rewrite Hwh. by apply Hs.
    + apply Hwt. by eapply list_elem_of_lookup_2.
    + done.
    + done.
    + exact Hl.
    + destruct Hw as [->|[_ ->]]; [by left|right]. exists (arr ns 0). split.
      * apply arr_in. rewrite Hlen. pose proof (handle_lt _ alert _ _ Hj). lia.
      * intros m1 [_ <-]. done.
Qed.
End look.
