(* ===== verification/WatchLoop.v ===== *)
(** * WatchLoop: a whole wait, with everything in mind

    From the section under the lock to the sleep and back: when the thread calls
    the futex it has seen all its objects unavailable, with its nodes on their
    lists. *)
From S2P Require Import Prelude Prog Config Region Kernel Lock Nodes WaitLists NodePool Policy Sweep Init Slots Objects Words Wait Interleave Guard GuardRules GuardOps GuardLists GuardSlots Watch WatchRules WatchWake WatchOps WatchNodes WatchWait WatchLook.

Section wait.
Context `{!Config} (live : Z -> Prop) (me : Z) (errs : Prop) (Hme : live me) (Hzero : ~ live 0) (K : Z -> Z) (T : list Z -> Prop).
Abbreviation mf Q p b N x m := (mindful live me errs K T Q p b N x m) (only parsing).
Abbreviation md R p := (mild live me errs K R p) (only parsing).
Abbreviation st R p := (steady live me errs K T R p) (only parsing).
Context (handles : list Z) (owner alert : Z) (Howner : 0 < owner < W32) (Hnonempty : handles <> []).
Abbreviation fit ns N m := (fits handles alert ns N m) (only parsing).

(** ** The section *)
(** What the thread goes to sleep with. *)
Definition vision (ns : list Z) (seq : Z) : watch := seen ns 0 handles (beginning ns seq).

Definition locked_end (b' : bool) (N' : list Z) (x' : mind) (r : locked_result) (m' : Region) : Prop :=
  b' = true /\ calm errs x' /\ mine me N' m' /\
  match r with
  | LockedDone _ => True
  | LockedSleep seq _ ns _ => fit ns N' m' /\ md_watch x' = Some (vision ns seq)
  end.

Lemma mindful_give_up ns out x N m : typed K m -> calm errs x -> mine me N m -> NoDup ns -> (forall n, n ∈ ns -> n ∈ N) ->
  mf locked_end (cleanup ns ;;; Ret (LockedDone out)) true N x m.
Proof.
  intros Ht Hc Hm Hnd Hn. eapply mindful_bind; [|done|by apply calm_cleanup].
  intros ? N1 x1 ? m1 Ht1 (->&Hc1&Hm1). intros m2 Hmw _. split_and!; [done..| |done].
  eapply mine_same; [apply (mw_others _ _ _ _ _ _ Hmw)|done].
Qed.

Lemma sight_fits ns e wx N x m : NoDup ns -> length ns = n_nodes handles alert ->
  looking me errs ns (sight handles ns e) wx N x m -> fit ns N m.
Proof. intros Hnd Hl (_ & _ & _ & [Hs _] & Hns). split; try done. intros j h Hj _. by apply Hs. Qed.

Lemma mindful_check ns dl seqs x N m : (forall h, h ∈ handles -> is_waitable (K (handle_index h)) = true) ->
  typed K m -> calm errs x -> mine me N m -> fit ns N m -> posted handles (length handles) ns m ->
  mf locked_end (check_registered handles owner dl false alert ns seqs) true N x m.
Proof.
  intros Hwt Ht Hc Hm Hf Hp. set (e := n_seq (node_ptr m (arr ns 0))). unfold check_registered, try_satisfy. cbn [negb].
  pose proof (ft_nodup _ _ _ _ _ Hf) as Hnd. pose proof (ft_len _ _ _ _ _ Hf) as Hlen.
  assert (looking me errs ns (sight handles ns e) (md_watch x) N x m) as Hl.
  { split_and!; try done; [apply Hc..|split; [|done]|apply (ft_own _ _ _ _ _ Hf)]. intros j h Hj.
    assert (registered m (arr ns j)) as Hr by (pose proof (lookup_lt_Some _ _ _ Hj); by apply Hp).
    split; [done|]. by apply (ft_post _ _ _ _ _ Hf). }
  eapply mindful_bind; [|done|eapply look_satisfy_any with (w := beginning ns e); try done; by right].
  intros ? N1 x1 [out|] m1 Ht1 [-> (wx & Hl1 & Hwx)].
  { apply mindful_give_up; [done|apply Hl1..|done|apply Hl1]. }
  rewrite (Hwx eq_refl) in Hl1. pose proof (sight_lasting handles ns e) as HI.
  eapply (look_quiet live me errs Hme K T ns _ HI _ any); [done| | |exact Hl1|].
  { destruct dl; [apply passive_mild; passives|done]. }
  { destruct dl; tames. }
  intros [rem|] N2 m2 _ Ht2 Hl2; [|apply mindful_give_up; [done|apply Hl2..|done|apply Hl2]].
  eapply (look_quiet live me errs Hme K T ns _ HI _ any); [done|apply mild_stat|apply tame_stat|exact Hl2|]. intros _ N3 m3 _ Ht3 Hl3.
  eapply (look_quiet live me errs Hme K T ns _ HI _ any); [done|apply mild_stat|apply tame_stat|exact Hl3|]. intros _ N4 m4 _ Ht4 Hl4.
  apply under_read; [done|apply Hl4|]. intros m5 N5 Hmw Ht5 Hset Hm5. exists x1. split_and!; [done..|by apply looks_same|].
  assert (sight handles ns e m5) as Hs5 by (eapply lasting_meanwhile; [exact HI|exact Hmw|apply Hl4]).
  pose proof (looking_set me errs ns _ _ _ _ _ _ _ Hset Hm5 Hs5 Hl4) as Hl5. intros m6 Hmw6 _.
  assert (looking me errs ns (sight handles ns e) (Some (seen ns 0 handles (beginning ns e))) N5 x1 m6) as Hl6.
  { eapply looking_set; [apply same_set_refl| | |exact Hl5].
    - eapply mine_same; [apply (mw_others _ _ _ _ _ _ Hmw6)|apply Hl5].
    - eapply lasting_meanwhile; [exact HI|exact Hmw6|apply Hl5]. }
  split_and!; [done|apply Hl6|apply Hl6|by eapply sight_fits|]. destruct Hs5 as [_ ->]. apply Hl6.
Qed.

Lemma mindful_register_and_check ns dl seqs x N m : (forall h, h ∈ handles -> is_waitable (K (handle_index h)) = true) ->
  typed K m -> calm errs x -> mine me N m -> fit ns N m ->
  mf locked_end (register_and_check handles owner dl false alert ns seqs) true N x m.
Proof.
  intros Hwt Ht Hc Hm Hf. unfold register_and_check. cbv zeta.
  eapply mindful_bind; [|done|apply (mindful_register_objects live me errs Hme K T handles alert ns handles 0); try done].
  2: { intros j Hj. lia. }
  intros ? N1 x1 ? m1 Ht1 (->&Hc1&Hm1&Hf1&Hp1). destruct (Z.eqb_spec alert 0) as [Ha|Ha]; cbn [negb].
  - by apply mindful_check.
  - eapply mindful_bind; [|done|apply mindful_register; try done].
    + intros ? N2 x2 ? m2 Ht2 (->&Hc2&Hm2&Hf2&_&Hall). apply mindful_check; try done.
      intros j Hj Hjl. by apply Hall, Hp1.
    + rewrite (ft_len _ _ _ _ _ Hf1). unfold n_nodes. rewrite (proj2 (Z.eqb_neq _ _) Ha). lia.
    + intros h' Hh'%lookup_lt_Some. lia.
Qed.

Lemma mild_validate hs nodes : forall i seqs,
  md (fun r => fst r = true -> forall h, h ∈ hs -> is_waitable (K (handle_index h)) = true) (validate i hs nodes seqs).
Proof.
  induction hs as [|h hs IH]; intros i seqs; cbn [validate]; [by intros _ h ?%elem_of_nil|].
  eapply mild_bind; [apply passive_mild, passive_lookup|]. intros [idx|] Hidx; [subst idx|done].
  apply mild_type. destruct (is_waitable (K (handle_index h))) eqn:E; cbn [negb]; [|done].
  apply mild_seq; [apply passive_mild; destruct (_ && _); unfold ld_d; passives|]. intros seqs'.
  eapply mild_mono; [|apply IH]. intros r Hr Ef k [->|Hk]%elem_of_cons; [done|by apply Hr].
Qed.

(** The nodes from the iteration before, if any. *)
Definition carried (ns N : list Z) (m : Region) : Prop := ns = [] \/ fit ns N m.

Lemma carried_kept ns N N' m m' : same_set N N' -> posts_kept N m m' -> carried ns N m -> carried ns N' m'.
Proof. intros Hs Hp [->|Hf]; [by left|right]. by eapply fits_kept. Qed.

Lemma carried_own ns N m : carried ns N m -> NoDup ns /\ forall n, n ∈ ns -> n ∈ N.
Proof.
  intros [->|Hf]; [split; [apply NoDup_nil_2|by intros n ?%elem_of_nil]|].
  split; [apply (ft_nodup _ _ _ _ _ Hf)|apply (ft_own _ _ _ _ _ Hf)].
Qed.

Lemma mild_carried {A} (R : A -> Prop) (p : action A) ns x N m : md R p -> mine me N m -> carried ns N m ->
  mf (fun b' N' x' a m' => b' = true /\ x' = x /\ R a /\ mine me N' m' /\ carried ns N' m') p true N x m.
Proof.
  intros Hp Hm Hf. eapply mindful_mono; [|by apply mild_posts].
  intros ? ? ? ? ? [(->&->&Hs&Ha&Hm') Hk]. split_and!; auto. by eapply carried_kept.
Qed.

Lemma mindful_locked_body ns dl seqs x N m : typed K m -> calm errs x -> mine me N m -> carried ns N m ->
  mf locked_end (locked_body handles owner dl false alert ns seqs) true N x m.
Proof.
  intros Ht Hc Hm Hf. unfold locked_body.
  assert (forall out N1 m1, typed K m1 -> mine me N1 m1 -> carried ns N1 m1 ->
    mf locked_end (cleanup ns ;;; Ret (LockedDone out)) true N1 x m1) as Hno.
  { intros out N1 m1 Ht1 Hm1 [Hnd Hn]%carried_own. by apply mindful_give_up. }
  eapply mindful_bind; [|done|apply mild_carried; [apply mild_validate|done..]].
  intros ? N1 ? [ok seqs'] m1 Ht1 (->&->&Hok&Hm1&Hf1). cbn [fst snd] in *.
  eapply mindful_bind; [|done|apply (mild_carried (fun v => v = true -> ok = true)); [|done..]].
  2: { apply passive_mild. destruct ok; [|done]. eapply passive_mono; [|apply passive_alert_valid]. done. }
  intros ? N2 ? valid m2 Ht2 (->&->&Hv&Hm2&Hf2). destruct valid; cbn [negb]; [|by apply Hno].
  eapply mindful_bind; [|done|apply mild_carried; [apply passive_mild, passive_alert_fired|done..]].
  intros ? N3 ? fired m3 Ht3 (->&->&_&Hm3&Hf3). destruct fired; [by apply Hno|]. specialize (Hok (Hv eq_refl)).
  destruct Hf3 as [->|Hf3].
  - cbn [length Nat.eqb]. eapply mindful_bind; [|done|apply mindful_alloc_nodes; [done..|]].
    + intros ? N4 x4 [ns'|] m4 Ht4 (->&Hc4&Hm4&H4).
      * destruct H4 as [Hsp Hl]. apply mindful_register_and_check; try done. by apply fits_spare.
      * intros m5 Hmw _. split_and!; [done..| |done]. eapply mine_same; [apply (mw_others _ _ _ _ _ _ Hmw)|done].
    + split_and!; [apply NoDup_nil_2|by intros n ?%elem_of_nil|by intros n ?%elem_of_nil].
  - assert ((length ns =? 0)%nat = false) as ->.
    { apply Nat.eqb_neq. rewrite (ft_len _ _ _ _ _ Hf3). unfold n_nodes. destruct handles; [done|cbn; lia]. }
    cbn [bind]. by apply mindful_register_and_check.
Qed.

(** What the section leaves. *)
Definition section_left (b' : bool) (N' : list Z) (x' : mind) (r : locked_result) (m' : Region) : Prop :=
  b' = false /\ calm errs x' /\
  match r with
  | LockedDone _ => True
  | LockedSleep seq _ ns _ => fit ns N' m' /\ md_watch x' = Some (vision ns seq)
  end.

(** Giving nodes back without the lock in hand. *)
Lemma mindful_if_cleanup ns x N m : typed K m -> calm errs x -> NoDup ns -> (forall n, n ∈ ns -> n ∈ N) ->
  mf (fun b' N' x' _ m' => b' = false /\ calm errs x') (if_lock (cleanup ns)) false N x m.
Proof.
  intros Ht Hc Hnd Hn. eapply mindful_mono; [|apply (mindful_if_lock_post live me errs Hme K T (fun _ _ _ => True)); [done..|]].
  - by intros ? ? ? ? ? (->&?&_).
  - intros N1 m1 Ht1 Hs1 _ Hm1. eapply mindful_mono; [|apply calm_cleanup; try done].
    + by intros ? ? ? ? ? (->&?&?).
    + intros n Hin. by apply Hs1, Hn.
Qed.

Lemma mindful_locked_section ns dl seqs x N m : typed K m -> calm errs x -> carried ns N m ->
  mf section_left (locked_section handles owner dl false alert ns seqs) false N x m.
Proof.
  intros Ht Hc Hf. unfold locked_section. eapply mindful_bind; [|done|by apply lock_posts_guard].
  intros b N1 ? [mask|e] m1 Ht1 [(->&Hs1&Hb) Hp1]; pose proof (carried_kept _ _ _ _ _ Hs1 Hp1 Hf) as Hf1.
  - destruct Hb as [-> Hm1]. eapply mindful_bind; [|done|by apply mindful_locked_body].
    intros ? N2 x2 r m2 Ht2 (->&Hc2&Hm2&Hr). eapply mindful_bind; [|done|apply drop_posts; [done..|apply Hc2|done]].
    intros ? N3 ? ? m3 Ht3 (->&->&Hs3&Hp3). intros m4 Hmw _. split_and!; [done..|]. destruct r as [|seq rem ns' seqs']; [done|].
    destruct Hr as [Hfr Hw]. split; [|done]. eapply fits_kept; [apply same_set_refl|by eapply posts_kept_meanwhile|].
    by eapply fits_kept.
  - destruct Hb as [-> He]. destruct (carried_own _ _ _ Hf1) as [Hnd Hn].
    eapply mindful_bind; [|done|by apply mindful_if_cleanup]. intros ? N2 x2 ? m2 Ht2 [-> Hc2]. intros m3 _ _. by split_and!.
Qed.

(** ** The spin *)
Lemma mindful_spin_loop ns seqs x n : forall N m, typed K m -> calm errs x -> NoDup ns -> (forall n, n ∈ ns -> n ∈ N) ->
  mf (fun b' N' x' r m' => b' = false /\ calm errs x' /\
      match r with SpinWon _ => True | _ => x' = x /\ same_set N N' end)
    (spin_loop n handles owner false alert ns seqs) false N x m.
Proof.
  assert (forall A (R : A -> Prop) (p : action A) N m, md R p ->
    mf (fun b' N' x' a m' => b' = false /\ x' = x /\ same_set N N' /\ R a) p false N x m) as Hmild.
  { intros A R p N m Hp. eapply mindful_mono; [|by apply mild_mindful]. by intros ? ? ? ? ? (->&->&?&?&_). }
  assert (forall (p q : action unit) out N m, md any p -> md any q -> typed K m -> calm errs x -> NoDup ns -> (forall n, n ∈ ns -> n ∈ N) ->
    mf (fun b' N' x' r m' => b' = false /\ calm errs x' /\ match r with SpinWon _ => True | _ => x' = x /\ same_set N N' end)
      (p ;;; if_lock (cleanup ns) ;;; q ;;; Ret (SpinWon out)) false N x m) as Hwon.
  { intros p q out N m Hp Hq Ht Hc Hnd Hn. eapply mindful_bind; [|done|by apply Hmild].
    intros ? N1 ? ? m1 Ht1 (->&->&Hs1&_). eapply mindful_bind; [|done|apply mindful_if_cleanup; try done].
    - intros ? N2 x2 ? m2 Ht2 [-> Hc2]. eapply mindful_bind; [|done|apply (mild_mindful live me errs Hme K T any); done].
      intros ? N3 ? ? m3 Ht3 (->&->&_). by intros m4 _ _.
    - intros k Hk. by apply Hs1, Hn. }
  induction n as [|n IH]; intros N m Ht Hc Hnd Hn; cbn [spin_loop]; [by intros m1 _ _|].
  eapply mindful_bind; [|done|apply Hmild, passive_mild, passive_alert_fired].
  intros ? N1 ? fired m1 Ht1 (->&->&Hs1&_). assert (forall k, k ∈ ns -> k ∈ N1) as Hn1 by (intros k Hk; by apply Hs1, Hn).
  destruct fired.
  { eapply mindful_mono; [|apply (Hwon (stat_bump 13 ;;; spin_credit_reward) (Ret tt)); try done].
    intros ? ? ? [out| |] ? (?&?&Hr); [done|..]; destruct Hr as [-> Hr]; split_and!; try done; by eapply same_set_trans. }
  eapply mindful_bind; [|done|apply Hmild, passive_mild, passive_spin_peek].
  intros ? N2 ? peek m2 Ht2 (->&->&Hs2&_). assert (forall k, k ∈ ns -> k ∈ N2) as Hn2 by (intros k Hk; by apply Hs2, Hn1).
  eapply mindful_bind; [|done|apply (Hmild _ any); destruct peek; [by apply mild_satisfy_any|done]].
  intros ? N3 ? [out|] m3 Ht3 (->&->&Hs3&_); assert (forall k, k ∈ ns -> k ∈ N3) as Hn3 by (intros k Hk; by apply Hs3, Hn2);
    assert (same_set N N3) as Hs by eauto using same_set_trans.
  { eapply mindful_mono; [|apply (Hwon (stat_bump 13) spin_credit_reward); try done].
    intros ? ? ? [o| |] ? (?&?&Hr); [done|..]; destruct Hr as [-> Hr]; split_and!; try done; by eapply same_set_trans. }
  eapply mindful_bind; [|done|apply (Hmild _ any); by apply mild_read].
  intros ? N4 ? reg m4 Ht4 (->&->&Hs4&_). assert (same_set N N4) as HsN by eauto using same_set_trans. destruct (reg =? 0).
  - intros m5 _ _. split_and!; try done.
  - eapply mindful_mono; [|apply IH; try done; intros k Hk; by apply Hs4, Hn3].
    intros ? ? ? [o| |] ? (?&?&Hr); [done|..]; destruct Hr as [-> Hr]; split_and!; try done; by eapply same_set_trans.
Qed.

Lemma mindful_spin_phase ns seqs x N m : typed K m -> calm errs x -> NoDup ns -> (forall n, n ∈ ns -> n ∈ N) ->
  mf (fun b' N' x' r m' => b' = false /\ calm errs x' /\ (r = None -> x' = x /\ same_set N N'))
    (spin_phase handles owner false alert ns seqs) false N x m.
Proof.
  intros Ht Hc Hnd Hn. unfold spin_phase.
  eapply mindful_bind; [|done|apply (mild_mindful live me errs Hme K T any); [apply passive_mild, passive_spin_budget|done]].
  intros ? N1 ? spin m1 Ht1 (->&->&Hs1&_). destruct (0 <? spin); [|by intros m2 _ _].
  eapply mindful_bind; [|done|apply mindful_spin_loop; try done; intros k Hk; by apply Hs1, Hn].
  intros ? N2 x2 [out| |] m2 Ht2 (->&Hc2&Hr); [by intros m3 _ _|..]; destruct Hr as [-> Hs2].
  - intros m3 _ _. split_and!; try done. intros _. split; [done|by eapply same_set_trans].
  - eapply mindful_bind; [|done|apply (mild_mindful live me errs Hme K T any); [apply mild_stat|done]].
    intros ? N3 ? ? m3 Ht3 (->&->&Hs3&_).
    eapply mindful_bind; [|done|apply (mild_mindful live me errs Hme K T any); [apply mild_loc|done]].
    intros ? N4 ? ? m4 Ht4 (->&->&Hs4&_). intros m5 _ _. split_and!; try done. intros _. split; [done|]. eauto 6 using same_set_trans.
Qed.

(** ** The sleep *)
(** Between the section and the next one: the nodes are the thread's, and what
    it has seen is true. *)
Definition dozing (ns : list Z) (seq : Z) (N : list Z) (x : mind) (m : Region) : Prop :=
  calm errs x /\ md_watch x = Some (vision ns seq) /\ (forall n, n ∈ ns -> n ∈ N) /\ NoDup ns /\
  length ns = n_nodes handles alert /\ watch_true x N m.

Lemma dozing_fits ns seq N x m : dozing ns seq N x m -> fit ns N m.
Proof.
  intros (_ & Hw & Hn & Hnd & Hl & Htr). split; try done. intros j h Hj Hr.
  destruct (Htr _ Hw (arr ns j) (handle_index h)) as [_ Hpost].
  - unfold vision. apply seen_pairs. left. by exists j, h.
  - destruct (Hpost Hr) as [-> ->]. split; [done|]. unfold vision. by destruct (seen_head ns handles 0 (beginning ns seq)) as [-> _].
Qed.

Lemma fits_dozing ns seq N x m : calm errs x -> md_watch x = Some (vision ns seq) -> fit ns N m -> dozing ns seq N x m.
Proof.
  intros Hc Hw Hf. split_and!; [done|done|apply (ft_own _ _ _ _ _ Hf)|apply (ft_nodup _ _ _ _ _ Hf)|apply (ft_len _ _ _ _ _ Hf)|].
  intros w Ew n i Hni. rewrite Hw in Ew. injection Ew as <-. unfold vision in Hni.
  apply seen_pairs in Hni as [(j & h & Hj & -> & ->)|Hni]; [|by apply elem_of_nil in Hni]. split.
  - apply (ft_own _ _ _ _ _ Hf), arr_in. rewrite (ft_len _ _ _ _ _ Hf). by eapply handle_lt.
  - intros Hr. destruct (seen_head ns handles 0 (beginning ns seq)) as [E _]. unfold vision. rewrite E.
    by apply (ft_post _ _ _ _ _ Hf).
Qed.

Lemma steady_dozing {A B} (Q : bool -> list Z -> mind -> B -> Region -> Prop) (p : action A) (q : A -> action B) ns seq N x m :
  typed K m -> st any p -> dozing ns seq N x m ->
  (forall a N1 x1 m1, typed K m1 -> dozing ns seq N1 x1 m1 -> mf Q (q a) false N1 x1 m1) -> mf Q (bind p q) false N x m.
Proof.
  intros Ht Hp Hd Hq. pose proof Hd as (Hc & Hw & Hn & Hnd & Hl & Htr).
  eapply mindful_bind; [|done|apply mindful_true; [exact Htr|by apply Hp]].
  intros ? N1 x1 a m1 Ht1 [(->&Hc1&Hw1&Hs1&_) Htr1]. apply Hq; [done|]. split_and!; try done; [congruence|].
  intros k Hk. by apply Hs1, Hn.
Qed.

Lemma steady_debug_dump : st any (debug_dump_stuck_wait handles owner alert).
Proof.
  intros N x m Ht Hc. unfold debug_dump_stuck_wait. apply mindful_if_lock; [done|done|apply Hc|]. intros N1 m1 Ht1 Hm1.
  apply (firm_mild live me errs Hme K T any); [apply passive_mild, passive_dump_objects|done..].
Qed.

Lemma steady_after_futex ret dl last : st any (after_futex ret handles owner alert dl last).
Proof.
  unfold after_futex. destruct (_ || _); [by apply steady_ret|]. destruct (_ =? _); [|by apply steady_ret].
  apply steady_seq; [by apply steady_auto_sweep|]. intros _. destruct debug_enabled; [|by apply steady_ret].
  apply steady_seq; [apply steady_mild, passive_mild; [done|]; destruct dl; passives|]. intros early.
  destruct (negb early); [by apply steady_ret|]. apply steady_seq; [by apply steady_mild, mild_sys|]. intros now.
  destruct (_ <=? _); [|by apply steady_ret]. apply steady_seq; [apply steady_debug_dump|].
  intros _. by apply steady_mild, mild_sys.
Qed.

Lemma mindful_detach_nodes ns seq N x m : typed K m -> dozing ns seq N x m ->
  mf (fun b' N' x' _ m' => b' = false /\ calm errs x' /\ fit ns N' m') (detach_nodes ns) false N x m.
Proof.
  intros Ht Hd. unfold detach_nodes. eapply steady_dozing; [done|apply steady_mild, passive_mild, passive_any_registered; done|exact Hd|].
  intros [] N1 x1 m1 Ht1 Hd1; pose proof (dozing_fits _ _ _ _ _ Hd1) as Hf1; pose proof Hd1 as (Hc1 & _).
  - eapply mindful_mono; [|apply (mindful_if_lock_post live me errs Hme K T (fun N' _ m' => fit ns N' m')); [|done|done|]].
    + intros ? N2 x2 ? m2 (->&Hc2&[Hf2|(_&->&Hs&Hp)]); (split_and!; [done..|]); [done|]. by eapply fits_kept.
    + intros N2 N3 _ m2 m3 Hs Hp. by apply fits_kept.
    + intros N2 m2 Ht2 Hs2 Hp2 Hm2 m3 N3 Hmw Ht3 Hown. exists (unseen x1).
      pose proof (fits_kept _ _ _ _ _ _ _ Hs2 Hp2 Hf1) as Hf2. pose proof (mw_others _ _ _ _ _ _ Hmw) as Hs3.
      destruct (detach_all_mind live me K ns N2 N3 x1 m3 Ht3 (mine_same me N2 m2 m3 Hs3 Hm2)) as (Hms & Hset & Hm3 & Hp3); [|exact Hown|].
      { apply (ft_own _ _ _ _ _ Hf2). }
      split; [exact Hms|]. intros m4 Hmw4 _. pose proof (mw_others _ _ _ _ _ _ Hmw4) as Hs4. split_and!; try done; [by eapply mine_same|].
      eapply fits_same; [exact Hs4|]. eapply fits_kept; [exact Hset|exact Hp3|]. by eapply fits_same.
  - intros m2 Hmw _. split_and!; [done..|]. eapply fits_kept; [apply same_set_refl|by eapply posts_kept_meanwhile|done].
Qed.

(** ** The loop *)
Context (HT : T (rev (map handle_index handles))).

Lemma mindful_futex_wait {A} (Q : bool -> list Z -> mind -> A -> Region -> Prop) ns seq slice (q : Z -> action A) N x m :
  dozing ns seq N x m -> (forall ret, mf Q (q ret) false N x m) ->
  mf Q (bind (futex_wait (arr ns 0) seq slice) q) false N x m.
Proof.
  intros ([Hh Hd] & Hw & _) Hq. destruct (seen_head ns handles 0 (beginning ns seq)) as [E1 E2]. split_and!; [done..| |].
  - exists (vision ns seq). split_and!; [done..|]. unfold vision. by rewrite seen_objects, app_nil_r.
  - intros z. cbn [bind]. destruct (z =? 0); apply Hq.
Qed.

Lemma mindful_wait_loop fuel dl : forall ns seqs last x N m, typed K m -> calm errs x -> carried ns N m ->
  mf (fun b' _ x' _ _ => b' = false /\ calm errs x')
    (wait_loop fuel handles owner dl false alert ns seqs last) false N x m.
Proof.
  induction fuel as [|fuel IH]; intros ns seqs last x N m Ht Hc Hf; cbn [wait_loop]; [done|].
  eapply mindful_bind; [|done|by apply mindful_locked_section].
  intros b N1 x1 [out|seq rem ns1 seqs1] m1 Ht1 (->&Hc1&H1); [by intros m2 _ _|]. destruct H1 as [Hf1 Hw1].
  pose proof (fits_dozing _ _ _ _ _ Hc1 Hw1 Hf1) as Hd1. cbv zeta. pose proof Hd1 as (_ & _ & Hn1 & Hnd1 & Hl1 & Htr1).
  eapply mindful_bind; [|done|apply mindful_true; [exact Htr1|by apply mindful_spin_phase]].
  intros b N2 x2 [out|] m2 Ht2 [(->&Hc2&H2) Htr2]; [by intros m3 _ _|]. destruct (H2 eq_refl) as [-> Hs2].
  assert (dozing ns1 seq N2 x1 m2) as Hd2 by (split_and!; try done; intros k Hk; by apply Hs2, Hn1).
  eapply steady_dozing; [done|by apply steady_auto_sweep|exact Hd2|]. intros _ N3 x3 m3 Ht3 Hd3.
  eapply steady_dozing; [done|apply steady_mild, passive_mild, passive_park_slice; done|exact Hd3|]. intros [slice|] N4 x4 m4 Ht4 Hd4.
  2: { apply IH; [done|apply Hd4|]. right. by eapply dozing_fits. }
  eapply steady_dozing; [done|apply steady_mild, mild_stat; done|exact Hd4|]. intros _ N5 x5 m5 Ht5 Hd5.
  apply mindful_futex_wait; [done|]. intros ret.
  eapply steady_dozing; [done| |exact Hd5|].
  { apply steady_mild; [done|]. destruct (_ && _); [apply passive_mild, passive_wake_latency|done]. }
  intros _ N6 x6 m6 Ht6 Hd6.
  eapply steady_dozing; [done|apply steady_after_futex|exact Hd6|]. intros last' N7 x7 m7 Ht7 Hd7.
  eapply mindful_bind; [|done|by eapply mindful_detach_nodes].
  intros ? N8 x8 ? m8 Ht8 (->&Hc8&Hf8). apply IH; [done..|]. by right.
Qed.
End wait.

(** Any wait for one of several objects. *)
Section wait_any.
Context `{!Config} (live : Z -> Prop) (me : Z) (errs : Prop) (Hme : live me) (Hzero : ~ live 0) (K : Z -> Z) (T : list Z -> Prop).

Lemma mindful_wait_any handles owner tmo alert : 0 <= owner < W32 -> T (rev (map handle_index handles)) ->
  forall N x m, typed K m -> calm errs x ->
  mindful live me errs K T (fun b' _ x' _ _ => b' = false /\ calm errs x') (wait_any handles owner tmo alert) false N x m.
Proof.
  intros Ho HT N x m Ht Hc. unfold wait_any, wait. destruct (bad_args handles owner) eqn:Eb; [by intros m1 _ _|].
  assert (0 < owner < W32 /\ handles <> []) as [Ho' Hne].
  { unfold bad_args in Eb. rewrite !orb_false_iff in Eb. destruct Eb as (((E1 & E2) & _) & _). apply Z.eqb_neq in E1.
    split; [lia|]. by intros ->. }
  assert (forall A B (p : action A) (q : A -> action B) Q N m, typed K m -> mild live me errs K any p ->
    (forall a N1 m1, typed K m1 -> mindful live me errs K T Q (q a) false N1 x m1) -> mindful live me errs K T Q (bind p q) false N x m) as Hseq.
  { intros A B p q Q N0 m0 Ht0 Hp Hq. eapply mindful_bind; [|done|by apply (mild_mindful live me errs Hme K T any)].
    intros ? N1 ? a m1 Ht1 (->&->&_). by apply Hq. }
  apply Hseq; [done|apply passive_mild, passive_region|]. intros [u|e] N1 m1 Ht1; [|by intros m2 _ _].
  apply Hseq; [done|apply mild_stat|]. intros _ N2 m2 Ht2.
  apply Hseq; [done|apply passive_mild; destruct tmo; passives|]. intros dl N3 m3 Ht3.
  apply Hseq; [done|by apply mild_sys|]. intros start N4 m4 Ht4.
  apply Hseq; [done|by apply mild_fast_path|]. intros [[out|] seqs] N5 m5 Ht5; [by intros m6 _ _|].
  apply mindful_wait_loop; try done. by left.
Qed.
End wait_any.
