(* ===== verification/WatchOk.v ===== *)
(** * WatchOk: no wake-up is lost

    Threads that wait for any of several objects, signal, reset, pulse, unlock,
    kill, read, retain, release, close and sweep, in any order and any
    interleaving: when nothing more happens, nobody sleeps on an object that is
    available. *)
From S2P Require Import Prelude Prog Config Region Kernel Lock Nodes WaitLists NodePool Policy Sweep Init Slots Objects Wait SlotsOk Interleave InterleaveAll InterleaveWait Guard GuardRules GuardOps GuardLists GuardSlots GuardWait GuardLoop GuardOk Watch WatchPool WatchRules WatchWake WatchOps WatchNodes WatchWait WatchLook WatchLoop.

(** ** Users whose wake-ups count *)
(** No call that waits for all of its objects (it may undo an acquisition
    without waking anybody) and none that creates an object (it may reuse a
    slot that somebody still looks at); owners are 32-bit words. *)
Definition heedful (c : service) : Prop :=
  match c with
  | SRequest (RWaitAny _ owner _ _) => u32 owner
  | SRequest (RMutexUnlock _ owner) => u32 owner
  | SRequest (RWaitAll _ _ _ _) | SCreateSemaphore _ _ | SCreateMutex _ _ | SCreateEvent _ _ => False
  | _ => True
  end.

(** The objects of a wait among these calls, last first. *)
Definition awaited (calls : list service) (objs : list Z) : Prop :=
  exists handles owner tmo alert, SRequest (RWaitAny handles owner tmo alert) ∈ calls /\
    objs = rev (map handle_index handles).

Section user.
Context `{!Config} (live : Z -> Prop) (me : Z) (errs : Prop) (Hme : live me) (Hzero : ~ live 0) (K : Z -> Z) (T : list Z -> Prop).

(** Nobody waits for the thread to act when the call returns. *)
Definition dutiful {A} (p : action A) : Prop := forall N x m, typed K m -> calm errs x ->
  mindful live me errs K T (fun b' _ x' _ _ => b' = false /\ calm errs x') p false N x m.

Lemma steady_dutiful {A} (R : A -> Prop) (p : action A) : steady live me errs K T R p -> dutiful p.
Proof. intros Hp N x m Ht Hc. eapply mindful_mono; [|by apply Hp]. by intros ? ? ? ? ? (->&?&_). Qed.

Lemma dutiful_seq {A B} (p : action A) (q : A -> action B) : dutiful p -> (forall a, dutiful (q a)) -> dutiful (bind p q).
Proof. intros Hp Hq N x m Ht Hc. eapply mindful_bind; [|done|by apply Hp]. intros ? N1 x1 a m1 Ht1 [-> Hc1]. by apply Hq. Qed.

Lemma dutiful_ret {A} (a : A) : dutiful (Ret a).
Proof. by intros N x m Ht Hc m1 _ _. Qed.

Lemma serve_dutiful c : heedful c -> (forall objs, awaited [c] objs -> T objs) -> dutiful (serve c).
Proof.
  intros Hc HT. destruct c as [q| | | | | |]; [destruct q|..]; try done; cbn [serve perform heedful] in *;
    (apply dutiful_seq; [|intros _; apply dutiful_ret]).
  7: { intros N x m. apply mindful_wait_any; try done. apply HT. exists handles, owner, timeout, alert.
       split; [left|done]. }
  all: apply (steady_dutiful any).
  - by apply steady_sem_release.
  - by apply steady_event_set.
  - by apply steady_event_reset.
  - by apply steady_event_pulse.
  - by apply steady_mutex_unlock.
  - by apply steady_mutex_kill.
  - by apply steady_retain.
  - by apply steady_release.
  - by apply steady_close.
  - by apply steady_sweep_dead.
  - by apply steady_reads.
  - by apply steady_reads.
  - by apply steady_reads.
Qed.

Lemma user_dutiful calls : Forall heedful calls -> (forall objs, awaited calls objs -> T objs) -> dutiful (user calls).
Proof.
  induction calls as [|c calls IH]; cbn [user]; intros Hh HT; [apply dutiful_ret|]. apply Forall_cons in Hh as [Hc Hh].
  apply dutiful_seq.
  - apply serve_dutiful; [done|]. intros objs (hs & o & tmo & al & Hin & ->). apply HT. exists hs, o, tmo, al.
    split; [|done]. apply list_elem_of_singleton in Hin. rewrite Hin. left.
  - intros _. apply IH; [done|]. intros objs (hs & o & tmo & al & Hin & ->). apply HT. exists hs, o, tmo, al. split; [by right|done].
Qed.
End user.

(** ** Every interleaving *)
Section pools.
Context `{!Config} {G : Type} `{!Kernel Region G} `{!LockKernel G} `{!FutexKernel G}.

(** A thread about to make these calls. *)
Definition about (calls : list service) (th : thread Region Local unit) : Prop :=
  code th = user calls /\ mapped (tls th) /\ Forall heedful calls.

Definition types (m : Region) (i : Z) : Z := s_obj_type (slot_ptr m i).

(** Nobody sleeps, and every list is proper. *)
Definition awake (m : Region) (g : G) : Prop :=
  (forall i, is_waitable (types m i) = true -> headed m i) /\ fk_wf g /\ forall t n, ~ fk_asleep g t n.

Definition calls_of (css : list (list service)) (t : nat) : list service := default [] (css !! t).

Definition mind_end (t : nat) (b : bool) (N : list Z) (x : mind) (_ : unit) (_ : Region) : Prop :=
  b = false /\ calm lk_errs x.

Lemma users_mind m (g : G) css ths : lk_holder g = None -> awake m g -> Forall2 about css ths ->
  mind_pool (types m) (fun t => awaited (calls_of css t)) mind_end (fun _ => []) (fun _ => blank) (Pool m g ths).
Proof.
  intros Hg (Hhd & Hwf & Hslp) Hths. split; cbn [pmem pker threads]; try done.
  - intros t th Ht. destruct (Forall2_lookup_r _ _ _ _ _ Hths Ht) as (calls & Hcs & -> & _ & Hh).
    assert (holds g t = false) as -> by (apply holds_false; by rewrite Hg). unfold calls_of. rewrite Hcs. cbn [default].
    apply (user_dutiful lk_live (lk_pid t) lk_errs (lk_alive t) lk_zero); [done..|]. split; [done|by left].
  - by intros t n ?%Hslp.
Qed.

(** C4: No wake-up is lost.  Any number of threads wait for any of several
    objects, signal, reset, pulse, unlock, kill, read, retain, release, close
    and sweep, under any interleaving of their memory accesses.  If no lock call
    fails, then in every state that is reached in which each thread has returned
    or sleeps in a futex call, whoever sleeps does so in a wait of its own none
    of whose objects could be acquired: no semaphore of it has a count, no
    mutex of it is free, and no event of it is set. *)
Theorem no_wakeup_lost m (g : G) css ths s' :
  rest m -> lk_holder g = None -> awake m g -> Forall2 about css ths -> steps (Pool m g ths) s' -> ~ lk_errs ->
  (forall t th, threads s' !! t = Some th -> (exists a, code th = Ret a) \/ exists n, fk_asleep (pker s') t n) ->
  forall t n, fk_asleep (pker s') t n -> exists handles owner tmo alert,
    SRequest (RWaitAny handles owner tmo alert) ∈ calls_of css t /\
    forall h, h ∈ handles -> ~ available (pmem s') (handle_index h).
Proof.
  intros Hr Hg Haw Hths Hs Herr Hall t n Hn. pose proof Hr as (L & F & HP & _).
  assert (Forall user_thread ths) as Hus.
  { apply Forall_lookup. intros u th Hu. destruct (Forall2_lookup_r _ _ _ _ _ Hths Hu) as (calls & _ & ? & ? & _). by exists calls. }
  pose proof (users_guarded m g ths L F HP Hr Hg Hus) as Hgp.
  destruct (mind_steps _ _ _ _ _ _ _ _ _ Hgp (users_mind m g css ths Hg Haw Hths) Hs) as (Ns & xs & _ & Hm).
  destruct (sleepers_right _ _ node_end _ _ _ _ Hm Herr Hall) with (t := t) (n := n) as (objs & (hs & o & tmo & al & Hin & ->) & Hob).
  - intros u b N x a m1 [_ [Hh Hd]]. done.
  - done.
  - exists hs, o, tmo, al. split; [done|]. intros h Hh. apply Hob. apply list_elem_of_In, in_rev. rewrite rev_involutive.
    apply in_map. by apply list_elem_of_In.
Qed.
End pools.

(** ** The executable kernel wakes *)
Section sim.
Context (pids : nat -> Z) (alive : Z -> bool).
#[local] Instance sim_is_futex_kernel : Kernel Region Sim.sim := Sim.sim_call pids alive.

Definition sleeper_of (e : nat * Z * bool) : nat := fst (fst e).
Definition sim_asleep (g : Sim.sim) (t : nat) (n : Z) : Prop := (t, n, false) ∈ Sim.sim_sleepers g.
Definition sim_wf (g : Sim.sim) : Prop := NoDup (map sleeper_of (Sim.sim_sleepers g)).

Lemma wake_one_sleepers w l : map sleeper_of (Sim.wake_one w l) = map sleeper_of l.
Proof. induction l as [|[[t n] woken] l IH]; cbn; [done|]. destruct (_ && _); cbn; [done|by rewrite IH]. Qed.

Lemma wake_one_asleep w l t n : (t, n, false) ∈ Sim.wake_one w l -> (t, n, false) ∈ l.
Proof.
  induction l as [|[[u k] woken] l IH]; cbn; [done|]. destruct (_ && _).
  - intros [?|?]%elem_of_cons; [done|by right].
  - intros [->|?]%elem_of_cons; [left|right; auto].
Qed.

(** A wake-up finds another one that sleeps on the word, if one is left. *)
Lemma wake_one_other w l t : NoDup (map sleeper_of l) -> (t, w, false) ∈ Sim.wake_one w l ->
  exists u, u <> t /\ (u, w, false) ∈ l.
Proof.
  induction l as [|[[u k] woken] l IH]; cbn; [by intros _ ?%elem_of_nil|]. intros [Hu Hnd]%NoDup_cons.
  destruct (Z.eqb_spec k w) as [->|Hk]; cbn [andb].
  - destruct woken; cbn [negb].
    + intros [?|Hin]%elem_of_cons; [done|]. destruct (IH Hnd Hin) as (v & ? & ?). exists v. split; [done|by right].
    + intros [?|Hin]%elem_of_cons; [done|]. exists u. split; [|left]. intros ->. apply Hu.
      apply list_elem_of_fmap. by exists (t, w, false).
  - intros [[= -> -> _]|Hin]%elem_of_cons; [done|]. destruct (IH Hnd Hin) as (v & ? & ?). exists v. split; [done|by right].
Qed.

Lemma find_none t l n b : Sim.find_sleeper t l = None -> (t, n, b) ∉ l.
Proof.
  induction l as [|[[u k] woken] l IH]; cbn; [by intros _ ?%elem_of_nil|]. destruct (Nat.eqb_spec t u) as [->|Hne]; [done|].
  intros E [[= -> _ _]|Hin]%elem_of_cons; [done|by apply IH].
Qed.

Lemma drop_sleepers t l : NoDup (map sleeper_of l) -> NoDup (map sleeper_of (Sim.drop_sleeper t l)).
Proof.
  intros Hnd. unfold Sim.drop_sleeper. induction l as [|e l IH]; [done|]. apply NoDup_cons in Hnd as [He Hnd].
  rewrite filter_cons. destruct (decide _); [|by apply IH]. cbn [map]. apply NoDup_cons. split; [|by apply IH].
  intros (e' & E & Hin)%list_elem_of_fmap. apply He. apply list_elem_of_filter in Hin as [_ Hin]. rewrite E.
  by apply list_elem_of_fmap_2.
Qed.

Program Definition sim_futex_kernel : FutexKernel Sim.sim := {|
  fk_wf := sim_wf;
  fk_asleep := sim_asleep;
|}.
Next Obligation.
  unfold sim_wf. intros t c m g z g' Hw. unfold kcall, sim_is_futex_kernel, Sim.sim_call, Sim.sim_futex_wait, Sim.sim_acquire.
  destruct c; try (by intros [= <- <-]); try (by destruct (Sim.sim_lock g); [|intros [= <- <-]]).
  - destruct (Sim.find_sleeper _ _) as [[]|]; [|done|].
    + intros [= <- <-]. by apply drop_sleepers.
    + destruct (negb _); [by intros [= <- <-]|]. by destruct timeout; intros [= <- <-].
  - intros [= <- <-]. cbn. by rewrite wake_one_sleepers.
Qed.
Next Obligation.
  unfold sim_wf. intros t c m g g' Hw. unfold kcall, sim_is_futex_kernel, Sim.sim_call, Sim.sim_futex_wait, Sim.sim_acquire.
  destruct c; try done; try (by destruct (Sim.sim_lock g)).
  destruct (Sim.find_sleeper _ _) as [[]|] eqn:E; [done|done|]. destruct (negb _); [done|]. destruct timeout; [done|].
  intros [= <-]. cbn. rewrite map_app. apply NoDup_app. split_and!; [done| |apply NoDup_singleton].
  intros u Hu ->%list_elem_of_singleton. apply list_elem_of_fmap in Hu as ([[v k] b] & Ev & Hin).
  cbn in Ev. subst v. by eapply find_none.
Qed.
Next Obligation.
  unfold sim_asleep. intros t c m g z g' u n _. unfold kcall, sim_is_futex_kernel, Sim.sim_call, Sim.sim_futex_wait, Sim.sim_acquire.
  destruct c; try (by intros [= <- <-]); try (by destruct (Sim.sim_lock g); [|intros [= <- <-]]).
  - destruct (Sim.find_sleeper _ _) as [[]|]; [|done|].
    + intros [= <- <-]. cbn. by intros [_ ?]%list_elem_of_filter.
    + destruct (negb _); [by intros [= <- <-]|]. by destruct timeout; intros [= <- <-].
  - intros [= <- <-]. cbn. apply wake_one_asleep.
Qed.
Next Obligation.
  unfold sim_asleep. intros t n e tmo m g z g' k _. unfold kcall, sim_is_futex_kernel, Sim.sim_call, Sim.sim_futex_wait.
  destruct (Sim.find_sleeper _ _) as [[]|] eqn:E; [|done|].
  - intros [= <- <-]. cbn. by intros [? _]%list_elem_of_filter.
  - destruct (negb _); [intros [= <- <-]; by apply find_none|]. destruct tmo; [|done]. intros [= <- <-]. by apply find_none.
Qed.
Next Obligation.
  unfold sim_asleep, sim_wf. intros t w m g z g' u Hw. intros [= <- <-]. cbn. by apply wake_one_other.
Qed.
Next Obligation.
  unfold sim_asleep. intros t c m g g' u n _. unfold kcall, sim_is_futex_kernel, Sim.sim_call, Sim.sim_futex_wait, Sim.sim_acquire.
  destruct c; try done; try (by destruct (Sim.sim_lock g)).
  destruct (Sim.find_sleeper _ _) as [[]|] eqn:E; [done|done|]. destruct (Z.eqb_spec (n_seq (node_ptr m node)) expected) as [Es|]; [|done].
  destruct timeout; [done|]. intros [= <-]. cbn. intros [?|[= -> ->]%list_elem_of_singleton]%elem_of_app; [by left|].
  right. split; [done|]. by exists expected, None.
Qed.
End sim.
