(* ===== verification/Critical.v ===== *)
(** * Critical: a wait that is satisfied owns its mutexes

    What a wait says of the memory it returns to, under every interleaving:
    each mutex it was satisfied with is held by its owner once more than before,
    every other one exactly as before, and that stays so.  [prize] lists the
    objects an outcome stands for; [taken] (from InterleaveAll) says how deep
    their mutexes are held. *)
From S2P Require Import Prelude Prog Config Region Kernel Lock Nodes Policy Sweep Init Slots Objects Words Wait Interleave InterleaveAll InterleaveWait.

(** The objects an outcome of a wait for [hs] says were acquired. *)
Definition prize (all : bool) (hs : list Z) (out : WaitOutcome) : list (Z * bool) :=
  match out with
  | Signaled i _ =>
      if i =? Z.of_nat (length hs) then []     (* the alert *)
      else if all then grabbed hs
      else match hs !! Z.to_nat i with Some h => [(handle_index h, false)] | None => [] end
  | _ => []
  end.

Lemma prize_alert all hs : prize all hs (alerted hs) = [].
Proof. unfold prize, alerted. by rewrite Z.eqb_refl. Qed.

Section critical.
Context `{!Config} (K : Z -> option kind) (P P' : Z -> Prop).
Context (owner : Z) (Hown : 0 < owner < W32) (HP : P owner) (Hex : ~ P' owner).
Context (D : Z -> Z) (HD : forall i, 0 <= D i).
Abbreviation sf Q p m :=
  (safe (table_ok false K) mapped (step_ok false P) (step_ok false P') Q p m) (only parsing).
Abbreviation ok Q p := (obeys (table_ok false K) mapped (step_ok false P) (step_ok false P') Q p) (only parsing).
(** Programs that touch no object. *)
Abbreviation still p :=
  (obeys (table_ok false K) mapped (step_ok false (fun _ => False)) (step_ok false P') any p) (only parsing).
Abbreviation taken := (taken K owner D) (only parsing).

(** From any good memory in which nothing more is held than at the start. *)
Definition okm {A} (Q : A -> Region -> Prop) (p : action A) : Prop :=
  forall m, table_ok false K m -> taken [] m -> sf Q p m.

Lemma okm_seq {A B} (Q : B -> Region -> Prop) (p : action A) (q : A -> action B) :
  still p -> (forall a, okm Q (q a)) -> okm Q (bind p q).
Proof.
  intros Hp Hq m HK Hl. eapply safe_bind; [apply step_keeps|done|by eapply sf_other|].
  intros a m' HK' [_ Hl']. by apply Hq.
Qed.

Lemma okm_bind {A B} (R : A -> Region -> Prop) (Q : B -> Region -> Prop) (p : action A) (q : A -> action B) :
  okm R p -> (forall a m, table_ok false K m -> R a m -> sf Q (q a) m) -> okm Q (bind p q).
Proof. intros Hp Hq m HK Hl. eapply safe_bind; [apply step_keeps|done|by apply Hp|]. auto. Qed.

(** With a prize in hand. *)
Lemma sf_hold_seq {A B} (Q : B -> Region -> Prop) l (p : action A) (q : A -> action B) m :
  still p -> table_ok false K m -> taken l m ->
  (forall a m', table_ok false K m' -> taken l m' -> sf Q (q a) m') -> sf Q (bind p q) m.
Proof.
  intros Hp HK Hl Hq. eapply safe_bind; [apply step_keeps|done|by eapply sf_other|].
  intros a m' HK' [_ Hl']. by apply Hq.
Qed.

Lemma sf_hold_ret {A} (Q : A -> Region -> Prop) l a m :
  taken l m -> (forall m', taken l m' -> Q a m') -> sf Q (Ret a) m.
Proof. intros Hl HQ. apply safe_ret. intros m' Hm'. apply HQ. by eapply taken_later. Qed.

Lemma okm_ret {A} (Q : A -> Region -> Prop) a : (forall m, taken [] m -> Q a m) -> okm Q (Ret a).
Proof. intros HQ m _ Hl. by eapply sf_hold_ret. Qed.

Section wait.
Context (all : bool) (hs : list Z) (Hne : hs <> []).

(** The outcome, if there is one, says what is held; without one it is what
    was held before. *)
Definition wins (got : option WaitOutcome) (m : Region) : Prop :=
  match got with Some out => taken (prize all hs out) m | None => taken [] m end.

Lemma wins_none out m : prize all hs out = [] -> taken [] m -> wins (Some out) m.
Proof. intros E Hl. unfold wins. by rewrite E. Qed.

Lemma sf_satisfy_any seqs : forall rest i m,
  rest = drop i hs -> table_ok false K m -> taken [] m -> all = false -> sf wins (satisfy_any i rest owner seqs) m.
Proof.
  induction rest as [|h rest IH]; intros i m Hr HK Hl Ha; cbn [satisfy_any]; [by eapply sf_hold_ret|].
  assert (hs !! i = Some h) as Hi by (rewrite <- (Nat.add_0_r i), <- lookup_drop, <- Hr; done).
  eapply safe_bind; [apply step_keeps|done|by apply (sf_try_acquire K P P' owner Hown HP Hex D _ _ [])|].
  intros [od|] m' HK' Hl'.
  - cbn [took app] in Hl'. eapply sf_hold_ret; [exact Hl'|]. intros m2 H2. cbn [wins prize].
    apply lookup_lt_Some in Hi as Hlt. rewrite (proj2 (Z.eqb_neq _ _)) by lia.
    rewrite Ha, Nat2Z.id, Hi. eapply taken_times; [|exact H2]. intros j. by rewrite !times_cons.
  - apply IH; [|done..]. by rewrite <- Nat.add_1_r, <- drop_drop, <- Hr.
Qed.

Lemma okm_try_satisfy seqs : okm wins (try_satisfy hs owner seqs all).
Proof.
  intros m HK Hl. unfold try_satisfy. destruct all eqn:Ha; cbn [negb].
  - eapply safe_mono; [|apply (sf_satisfy_all K P P' owner Hown HP Hex D HD hs seqs 0 []); done].
    intros [out|] m' _; [|done]. intros [H1 [od ->]]. cbn [wins prize]. rewrite Ha.
    rewrite (proj2 (Z.eqb_neq _ _)); [exact H1|]. destruct hs; [done|]. simpl. lia.
  - by apply sf_satisfy_any.
Qed.

(** *** The phases *)
#[local] Hint Constants Opaque : ok_db.
#[local] Hint Resolve ok_fast_objects ok_alert_valid ok_alert_fired ok_validate ok_alloc_nodes ok_cleanup
  ok_register_objects ok_register_if ok_lock_guard ok_guard_drop ok_futex_wait ok_spin_budget
  ok_park_slice ok_after_futex ok_detach_nodes ok_wake_latency ok_auto_sweep ok_any_locked ok_all_locked : ok_db.

Lemma okm_fast_path tmo alert : okm (fun r => wins (fst r)) (fast_path hs owner tmo all alert).
Proof.
  unfold fast_path. apply okm_seq; [auto with ok_db|]. intros [valid seqs]. cbn [fst snd].
  apply okm_seq; [oks|]. intros v. destruct (negb v); [by apply okm_ret|].
  apply okm_seq; [auto with ok_db|]. intros [].
  { apply okm_ret. intros m Hl. by apply wins_none; [apply prize_alert|]. }
  eapply okm_bind; [apply okm_try_satisfy|]. intros [out|] m HK Hw.
  - eapply sf_hold_seq; [apply ok_stat|done|exact Hw|]. intros _ m' _ H'.
    eapply sf_hold_ret; [exact H'|]. done.
  - case_bool_decide; (eapply sf_hold_ret; [exact Hw|]); [intros m' H'; by apply wins_none|done].
Qed.

(** A section under the lock that ends the wait. *)
Definition section_wins (l : locked_result) (m : Region) : Prop :=
  match l with LockedDone out => wins (Some out) m | LockedSleep _ _ _ _ => taken [] m end.

Lemma okm_done nodes out : prize all hs out = [] -> okm section_wins (cleanup nodes ;;; Ret (LockedDone out)).
Proof. intros E. apply okm_seq; [auto with ok_db|]. intros _. apply okm_ret. intros m Hl. by apply wins_none. Qed.

Lemma okm_check_registered dl alert nodes seqs :
  okm section_wins (check_registered hs owner dl all alert nodes seqs).
Proof.
  unfold check_registered. eapply okm_bind; [apply okm_try_satisfy|]. intros [out|] m HK Hw.
  - eapply sf_hold_seq; [apply ok_cleanup|done|exact Hw|]. intros _ m' _ H'. by eapply sf_hold_ret.
  - revert m HK Hw. match goal with |- forall m, _ -> _ -> sf _ ?p m => change (okm section_wins p) end.
    apply okm_seq; [oks|]. intros [rem|]; [|by apply okm_done].
    apply okm_seq; [apply ok_stat|]. intros _. apply okm_seq; [apply ok_stat|]. intros _.
    apply okm_seq; [by apply ok_read|]. intros seq. by apply okm_ret.
Qed.

Lemma okm_locked_section dl alert nodes seqs :
  okm section_wins (locked_section hs owner dl all alert nodes seqs).
Proof.
  unfold locked_section. apply okm_seq; [auto with ok_db|]. intros [mask|e].
  2: { apply okm_seq; [apply ok_if_lock, ok_cleanup|]. intros _. apply okm_ret. intros m Hl. by apply wins_none. }
  eapply okm_bind with (R := section_wins).
  - unfold locked_body. apply okm_seq; [auto with ok_db|]. intros [valid sq]. cbn [fst snd].
    apply okm_seq; [oks|]. intros v. destruct (negb v); [by apply okm_done|].
    apply okm_seq; [auto with ok_db|]. intros []; [apply okm_done, prize_alert|].
    apply okm_seq; [oks|]. intros [ns|]; [|apply okm_ret; intros m Hl; by apply wins_none].
    unfold register_and_check. cbv zeta. apply okm_seq; [auto with ok_db|]. intros _.
    apply okm_seq; [oks|]. intros _. apply okm_check_registered.
  - intros [out|seq rem ns sq] m HK Hw.
    + eapply sf_hold_seq; [apply ok_guard_drop|done|exact Hw|]. intros _ m' _ H'. by eapply sf_hold_ret.
    + eapply sf_hold_seq; [apply ok_guard_drop|done|exact Hw|]. intros _ m' _ H'. by eapply sf_hold_ret.
Qed.

Definition spin_wins (s : spin_result) (m : Region) : Prop :=
  match s with SpinWon out => wins (Some out) m | _ => taken [] m end.

Lemma okm_spin_loop alert nodes seqs n : okm spin_wins (spin_loop n hs owner all alert nodes seqs).
Proof.
  induction n as [|n IH]; cbn [spin_loop]; [by apply okm_ret|].
  apply okm_seq; [auto with ok_db|]. intros [].
  { unfold spin_credit_reward. apply okm_seq; [apply ok_stat|]. intros _. apply okm_seq; [oks|]. intros _.
    apply okm_seq; [apply ok_if_lock, ok_cleanup|]. intros _. apply okm_ret. intros m Hl. by apply wins_none; [apply prize_alert|]. }
  apply okm_seq; [unfold spin_peek; oks|]. intros peek.
  eapply okm_bind with (R := wins); [destruct peek; [apply okm_try_satisfy|by apply okm_ret]|].
  intros [out|] m HK Hw.
  - eapply sf_hold_seq; [apply ok_stat|done|exact Hw|]. intros _ m1 HK1 H1.
    eapply sf_hold_seq; [apply ok_if_lock, ok_cleanup|done|exact H1|]. intros _ m2 HK2 H2.
    eapply sf_hold_seq; [unfold spin_credit_reward; by apply ok_loc|done|exact H2|]. intros _ m3 HK3 H3.
    by eapply sf_hold_ret.
  - apply (okm_seq spin_wins); [by apply ok_read| |done|done]. intros reg.
    destruct (reg =? 0); [by apply okm_ret|apply IH].
Qed.

Lemma okm_spin_phase alert nodes seqs : okm wins (spin_phase hs owner all alert nodes seqs).
Proof.
  unfold spin_phase. apply okm_seq; [auto with ok_db|]. intros spin. destruct (0 <? spin); [|by apply okm_ret].
  eapply okm_bind; [apply okm_spin_loop|]. intros [out| |] m HK Hw.
  - by eapply sf_hold_ret.
  - by eapply sf_hold_ret.
  - unfold spin_credit_penalize. apply (okm_seq wins); [apply ok_stat| |done|done]. intros _.
    apply okm_seq; [oks|]. intros _. by apply okm_ret.
Qed.

Lemma okm_wait_loop fuel dl alert : forall nodes seqs last,
  okm (fun out => wins (Some out)) (wait_loop fuel hs owner dl all alert nodes seqs last).
Proof.
  induction fuel as [|fuel IH]; intros nodes seqs last; cbn [wait_loop]; [done|].
  eapply okm_bind; [apply okm_locked_section|]. intros [out|seq rem ns sq] m HK Hw; [by eapply sf_hold_ret|].
  cbv zeta. revert m HK Hw.
  match goal with |- forall m, _ -> _ -> sf _ ?p m => change (okm (fun out => wins (Some out)) p) end.
  eapply okm_bind; [apply okm_spin_phase|]. intros [out|] m HK Hw; [by eapply sf_hold_ret|].
  apply (okm_seq (fun out => wins (Some out))); [auto with ok_db| |done|done]. intros _.
  apply okm_seq; [auto with ok_db|]. intros [slice|]; [|apply IH].
  apply okm_seq; [apply ok_stat|]. intros _. apply okm_seq; [auto with ok_db|]. intros ret.
  apply okm_seq; [oks|]. intros _. apply okm_seq; [auto with ok_db|]. intros last'.
  apply okm_seq; [auto with ok_db|]. intros _. apply IH.
Qed.
End wait.

Lemma okm_wait hs tmo all alert :
  okm (fun out m => taken (prize all hs out) m) (wait hs owner tmo all alert).
Proof.
  unfold wait. destruct (bad_args hs owner) eqn:Eb.
  { by apply okm_ret. }
  assert (hs <> []) as Hne.
  { intros ->. unfold bad_args in Eb. simpl in Eb. rewrite orb_true_r in Eb. done. }
  intros m HK Hl. eapply safe_bind; [apply step_keeps|done| |].
  { eapply sf_other; [done..|by apply (ok_region false K _ P')|done|done]. }
  intros r m1 HK1 [-> Hl1]. revert m1 HK1 Hl1. change (okm (fun out m => taken (prize all hs out) m) (
    stat_bump 0 ;;;
    deadline <- match tmo with Some d => now <- sys ClockMonotonic ;; Ret (Some (now + d)) | None => Ret None end ;;
    start <- sys ClockMonotonic ;;
    fast <- fast_path hs owner tmo all alert ;;
    match fst fast with
    | Some outcome => Ret outcome
    | None => wait_loop loop_fuel hs owner deadline all alert [] (snd fast) start
    end)).
  apply okm_seq; [apply ok_stat|]. intros _. apply okm_seq; [oks|]. intros dl.
  apply okm_seq; [oks|]. intros start. eapply okm_bind; [by apply okm_fast_path|].
  intros [[out|] seqs] m1 HK1 Hw; cbn [fst snd] in *; [by eapply sf_hold_ret|].
  by apply okm_wait_loop.
Qed.
End critical.

(** ** Contenders *)
Section contenders.
Context `{!Config} (K : Z -> option kind) (acts : nat -> Z -> Prop).

(** A thread waits once, for itself alone, and keeps what it got; or it is a
    client that makes any calls, never on another's behalf. *)
Record contest : Type := mkContest {
  ct_handles : list Z;
  ct_owner : Z;
  ct_timeout : option Z;
  ct_all : bool;
  ct_alert : Z;
}.

Definition contender (c : contest) : action (option WaitOutcome) :=
  out <- wait (ct_handles c) (ct_owner c) (ct_timeout c) (ct_all c) (ct_alert c) ;; Ret (Some out).

Definition bystander (reqs : list request) : action (option WaitOutcome) := client reqs ;;; Ret None.

(** [cont t] is what thread [t] contends for, if it does. *)
Definition arena_thread (cont : nat -> option contest) (t : nat)
  (th : thread Region Local (option WaitOutcome)) : Prop :=
  mapped (tls th) /\
  match cont t with
  | Some c => code th = contender c /\ 0 < ct_owner c < W32 /\ acts t (ct_owner c) /\
      ~ others acts t (ct_owner c)
  | None => exists reqs, code th = bystander reqs /\
      Forall (request_ok false (acts t) (others acts t)) reqs
  end.

Definition arena (cont : nat -> option contest) (ths : list (thread Region Local (option WaitOutcome))) : Prop :=
  forall t th, ths !! t = Some th -> arena_thread cont t th.

(** What a returned thread holds: as much as when memory was [m0], and what
    its outcome stands for. *)
Definition holds_prize (m0 : Region) (cont : nat -> option contest) (t : nat) (a : option WaitOutcome) (m : Region) : Prop :=
  match cont t, a with
  | Some c, Some out => acts t (ct_owner c) /\ ~ others acts t (ct_owner c) /\
      taken K (ct_owner c) (depth_at (ct_owner c) m0) (prize (ct_all c) (ct_handles c) out) m
  | _, _ => True
  end.

Lemma arena_good cont t th m :
  table_ok false K m -> arena_thread cont t th ->
  good_thread (table_ok false K) mapped (fun t => step_ok false (acts t))
    (fun t => step_ok false (others acts t)) (holds_prize m cont) t m th.
Proof.
  intros HK [Hl Hth]. split; [|done]. unfold holds_prize. destruct (cont t) as [c|].
  - destruct Hth as (-> & Ho & Ha & Hx). unfold contender.
    eapply safe_bind; [apply step_keeps|done| |].
    { apply (okm_wait K (acts t) (others acts t) (ct_owner c) Ho Ha Hx _ (depth_at_pos (ct_owner c) m)); [done|].
      by apply taken_start. }
    intros out m' HK' Hw. eapply sf_hold_ret; [exact Ho|exact Hx|exact Hw|]. intros m2 H2. by split_and!.
  - destruct Hth as (reqs & -> & Hreqs). unfold bystander.
    eapply safe_bind; [apply step_keeps|done|by apply client_obeys|]. intros [] m' _ _. by apply safe_ret.
Qed.

(** Whatever has returned holds what it should. *)
Lemma arena_holds cont {G} `{!Kernel Region G} m (g : G) ths s' :
  table_ok false K m -> arena cont ths -> steps (Pool m g ths) s' ->
  forall t th a, threads s' !! t = Some th -> code th = Ret a -> holds_prize m cont t a (pmem s').
Proof.
  intros HK Hths Hs.
  destruct (good_steps (table_ok false K) mapped (fun t => step_ok false (acts t))
    (fun t => step_ok false (others acts t)) (fun t => table_ok_step false K (acts t))
    (others_rely false acts) (holds_prize m cont) _ _ Hs) as (HK' & _ & Hgood); [|done|].
  { intros t th Ht. apply arena_good; [done|by apply Hths]. }
  intros t th a Hth Hcode. destruct (Hgood t th Hth) as [Hsafe _]. rewrite Hcode in Hsafe.
  exact (Hsafe _ (later_refl _ _ _ HK')).
Qed.

(** Thread [t] has returned from its wait with the object of slot [i]. *)
Definition in_section {G} (cont : nat -> option contest) (s : pool Region Local G (option WaitOutcome))
  (t : nat) (i : Z) : Prop :=
  exists c th out, cont t = Some c /\ threads s !! t = Some th /\ code th = Ret (Some out) /\
    0 < times i (prize (ct_all c) (ct_handles c) out).

(** C1: Mutual exclusion.  Any number of threads, under any interleaving, wait
    for any or for all of several objects, each for an owner of its own, while
    others make any calls on behalf of other owners.  A thread whose wait was
    satisfied with a mutex finds it held by its owner from then on, and no two
    threads are ever satisfied with the same mutex. *)
Theorem critical_sections_exclude cont {G} `{!Kernel Region G} m (g : G) ths s' i :
  table_ok false K m -> arena cont ths -> steps (Pool m g ths) s' -> K i = Some KMutex ->
  (forall t, in_section cont s' t i -> exists c n d, cont t = Some c /\ 1 <= n /\
     repr_in false (OMutex (ct_owner c) n d) (slot_ptr (pmem s') i)) /\
  (forall t u, in_section cont s' t i -> in_section cont s' u i -> t = u).
Proof.
  intros HK Hths Hs HKi. pose proof (arena_holds cont m g ths s' HK Hths Hs) as Hold.
  assert (forall t, in_section cont s' t i -> exists c n d, cont t = Some c /\ acts t (ct_owner c) /\
    ~ others acts t (ct_owner c) /\ 1 <= n /\ repr_in false (OMutex (ct_owner c) n d) (slot_ptr (pmem s') i)) as Hin.
  { intros t (c & th & out & Hc & Hth & Hcode & Hpos). specialize (Hold t th _ Hth Hcode). unfold holds_prize in Hold.
    rewrite Hc in Hold. destruct Hold as (Ha & Hx & Hl). destruct (Hl i HKi) as (ow & n & d & Hr & Hn).
    pose proof (depth_at_pos (ct_owner c) m i). case_decide as E; [|lia]. subst ow.
    exists c, n, d. split_and!; [done..|lia|done]. }
  split.
  - intros t Ht. destruct (Hin t Ht) as (c & n & d & H1 & _ & _ & H2 & H3). by exists c, n, d.
  - intros t u Ht Hu. destruct (decide (t = u)) as [|Hne]; [done|].
    destruct (Hin t Ht) as (c & n & d & _ & _ & Hx & _ & Hr), (Hin u Hu) as (c' & n' & d' & _ & Ha' & _ & _ & Hr').
    pose proof (repr_in_inj _ _ _ _ Hr Hr') as [= E _ _]. destruct Hx. exists u. rewrite E. by split.
Qed.

(** C19: A wait takes what it was satisfied with, and nothing else.  Under every
    interleaving of waits for any or for all of several objects, each for an
    owner of its own, with any calls made for other owners, a wait that returns
    leaves its owner holding each mutex exactly as deep as when the threads
    started, and once more for each time its outcome stands for that mutex.  So
    one that times out, is alerted or refused has kept nothing: whatever a WAIT_ALL
    took on its attempts, it has given back. *)
Theorem waits_take_exactly cont {G} `{!Kernel Region G} m (g : G) ths s' i t th c out :
  table_ok false K m -> arena cont ths -> steps (Pool m g ths) s' -> K i = Some KMutex ->
  cont t = Some c -> threads s' !! t = Some th -> code th = Ret (Some out) ->
  exists o n d, repr_in false (OMutex o n d) (slot_ptr (pmem s') i) /\
    (if decide (o = ct_owner c) then n else 0) =
      depth_at (ct_owner c) m i + times i (prize (ct_all c) (ct_handles c) out).
Proof.
  intros HK Hths Hs HKi Hc Hth Hcode. pose proof (arena_holds cont m g ths s' HK Hths Hs t th _ Hth Hcode) as Hold.
  unfold holds_prize in Hold. rewrite Hc in Hold. by apply Hold.
Qed.
End contenders.
