(* ===== verification/Ffi.v ===== *)
(** * Ffi: the C interface (src/src/ffi.rs)

    A pointer argument is an [option]: [None] is NULL.  An out parameter is
    returned with the code: the memory it points to after the call. *)
From S2P Require Import Prelude Prog Config Region Lock Nodes Sweep Init Slots Objects Wait.

Definition NTSYNC_WAIT_REALTIME : Z := 1.
Definition NTSYNC_MAX_WAIT_COUNT : Z := MAX_WAIT_COUNT.
Definition U64_MAX : Z := W64 - 1.

Record ntsync_sem_args : Type := mkSemArgs { sa_count : Z; sa_max : Z }.
Record ntsync_mutex_args : Type := mkMutexArgs { ma_owner : Z; ma_count : Z }.
Record ntsync_event_args : Type := mkEventArgs { ea_manual : Z; ea_signaled : Z }.

(** [wa_objs] is the array [objs] points to, [None] for a null pointer. *)
Record ntsync_wait_args : Type := mkWaitArgs {
  wa_timeout : Z;
  wa_objs : option (list Z);
  wa_count : Z;
  wa_index : Z;
  wa_flags : Z;
  wa_owner : Z;
  wa_alert : Z;
  wa_pad : Z;
}.

Definition set_index (v : Z) (a : ntsync_wait_args) : ntsync_wait_args :=
  mkWaitArgs (wa_timeout a) (wa_objs a) (wa_count a) v (wa_flags a) (wa_owner a) (wa_alert a) (wa_pad a).

Definition errno (e : Error) : Z :=
  match e with
  | Invalid => - EINVAL
  | Perm => - EPERM
  | Overflow => - EOVERFLOW
  | Init e => - e
  end.

(** [n as i32] *)
Definition to_i32 (n : Z) : Z := as_i32 (wrap32 n).

(** [CStr::to_str]: the bytes of a C string are valid UTF-8. *)
Definition byte_in (lo hi b : Z) : bool := (lo <=? b) && (b <=? hi).

(** The range of the second byte of a sequence, and how many more follow it. *)
Definition utf8_lead (b : Z) : option (Z * Z * nat) :=
  if byte_in 0xc2 0xdf b then Some (0x80, 0xbf, 0%nat)
  else if b =? 0xe0 then Some (0xa0, 0xbf, 1%nat)
  else if b =? 0xed then Some (0x80, 0x9f, 1%nat)
  else if byte_in 0xe1 0xef b then Some (0x80, 0xbf, 1%nat)
  else if b =? 0xf0 then Some (0x90, 0xbf, 2%nat)
  else if byte_in 0xf1 0xf3 b then Some (0x80, 0xbf, 2%nat)
  else if b =? 0xf4 then Some (0x80, 0x8f, 2%nat)
  else None.

Fixpoint utf8_from (expect : list (Z * Z)) (s : list Z) : bool :=
  match s, expect with
  | [], [] => true
  | [], _ => false
  | b :: s', (lo, hi) :: expect' => byte_in lo hi b && utf8_from expect' s'
  | b :: s', [] =>
      if b <? 0x80 then utf8_from [] s'
      else match utf8_lead b with
           | Some (lo, hi, n) => utf8_from ((lo, hi) :: replicate n (0x80, 0xbf)) s'
           | None => false
           end
  end.

Definition utf8_valid (s : string) : bool :=
  utf8_from [] ((fun a => Z.of_nat (Ascii.nat_of_ascii a)) <$> String.list_ascii_of_string s).

Section ffi.
Context `{!Config}.

Definition timeout_to_duration (timeout flags : Z) : action (option Z) :=
  if timeout =? U64_MAX then Ret None
  else
    now <- sys (if negb (Z.land flags NTSYNC_WAIT_REALTIME =? 0) then ClockRealtime
                else ClockMonotonic) ;;
    Ret (Some (u64_saturating_sub timeout now)).

(** (handles, owner, alert, timeout), or the negated errno *)
Definition read_wait (args : option ntsync_wait_args)
  : action (result (list Z * Z * Z * option Z) Z) :=
  match args with
  | None => Ret (Err (- EFAULT))
  | Some a =>
      if (wa_count a =? 0) || (NTSYNC_MAX_WAIT_COUNT <? wa_count a) then Ret (Err (- EINVAL))
      else
        match wa_objs a with
        | None => Ret (Err (- EFAULT))
        | Some objs =>
            let handles := take (Z.to_nat (wa_count a)) objs in
            timeout <- timeout_to_duration (wa_timeout a) (wa_flags a) ;;
            Ret (Ok (handles, wa_owner a, wa_alert a, timeout))
        end
  end.

Definition ntsync_init (path : option string) : action Z :=
  if negb (from_option utf8_valid true path) then Ret (- EINVAL)
  else
    r <- init path ;;
    Ret (match r with Ok _ => 0 | Err e => errno e end).

Definition ntsync_sweep_dead : action Z :=
  r <- sweep_dead ;;
  Ret (match r with Ok n => to_i32 n | Err e => errno e end).

(** Store a created handle. *)
Definition store_handle (out : Z) (r : result Z Error) : Z * option Z :=
  match r with Ok h => (0, Some h) | Err e => (errno e, Some out) end.

Definition ntsync_create_sem (out : option Z) (args : option ntsync_sem_args)
  : action (Z * option Z) :=
  match out, args with
  | Some o, Some a =>
      r <- create_semaphore (sa_count a) (sa_max a) ;; Ret (store_handle o r)
  | _, _ => Ret (- EFAULT, out)
  end.

Definition ntsync_create_mutex (out : option Z) (args : option ntsync_mutex_args)
  : action (Z * option Z) :=
  match out, args with
  | Some o, Some a =>
      r <- create_mutex (ma_owner a) (ma_count a) ;; Ret (store_handle o r)
  | _, _ => Ret (- EFAULT, out)
  end.

Definition ntsync_create_event (out : option Z) (args : option ntsync_event_args)
  : action (Z * option Z) :=
  match out, args with
  | Some o, Some a =>
      r <- create_event (negb (ea_manual a =? 0)) (negb (ea_signaled a =? 0)) ;;
      Ret (store_handle o r)
  | _, _ => Ret (- EFAULT, out)
  end.

Definition ntsync_close (handle : Z) : action Z :=
  b <- close handle ;; Ret (if b : bool then 0 else - EINVAL).

Definition ntsync_retain (handle : Z) : action Z :=
  r <- retain handle ;;
  Ret (match r with
       | Ok _ => 0 | Err Invalid => - EINVAL | Err (Init e) => - e | Err _ => - EINVAL
       end).

Definition ntsync_release (handle : Z) : action Z :=
  r <- release handle ;;
  Ret (match r with
       | Ok _ => 0 | Err Invalid => - EINVAL | Err (Init e) => - e | Err _ => - EINVAL
       end).

Definition ntsync_sem_release (handle : Z) (count : option Z) : action (Z * option Z) :=
  match count with
  | None => Ret (- EFAULT, None)
  | Some c =>
      r <- sem_release handle c ;;
      Ret (match r with Ok prev => (0, Some prev) | Err e => (errno e, Some c) end)
  end.

Definition ntsync_sem_read (handle : Z) (args : option ntsync_sem_args)
  : action (Z * option ntsync_sem_args) :=
  match args with
  | None => Ret (- EFAULT, None)
  | Some a =>
      r <- read_sem handle ;;
      Ret (match r with
           | Ok (count, max) => (0, Some (mkSemArgs count max))
           | Err e => (errno e, Some a)
           end)
  end.

Definition ntsync_mutex_unlock (handle : Z) (args : option ntsync_mutex_args)
  : action (Z * option ntsync_mutex_args) :=
  match args with
  | None => Ret (- EFAULT, None)
  | Some a =>
      r <- mutex_unlock handle (ma_owner a) ;;
      Ret (match r with
           | Ok prev => (0, Some (mkMutexArgs (ma_owner a) prev))
           | Err e => (errno e, Some a)
           end)
  end.

Definition ntsync_mutex_kill (handle owner : Z) : action Z :=
  r <- mutex_kill handle owner ;;
  Ret (match r with Ok _ => 0 | Err e => errno e end).

Definition ntsync_mutex_read (handle : Z) (args : option ntsync_mutex_args)
  : action (Z * option ntsync_mutex_args) :=
  match args with
  | None => Ret (- EFAULT, None)
  | Some a =>
      r <- read_mutex handle ;;
      Ret (match r with
           | Ok (count, owner, ownerdead) =>
               (if ownerdead : bool then - EOWNERDEAD else 0, Some (mkMutexArgs owner count))
           | Err e => (errno e, Some a)
           end)
  end.

(** Store the previous state through a pointer that may be NULL. *)
Definition store_prev (prev : option Z) (r : result Z Error) : Z * option Z :=
  match r with Ok p => (0, const p <$> prev) | Err e => (errno e, prev) end.

Definition ntsync_event_set (handle : Z) (prev : option Z) : action (Z * option Z) :=
  r <- event_set handle ;; Ret (store_prev prev r).

Definition ntsync_event_reset (handle : Z) (prev : option Z) : action (Z * option Z) :=
  r <- event_reset handle ;; Ret (store_prev prev r).

Definition ntsync_event_pulse (handle : Z) (prev : option Z) : action (Z * option Z) :=
  r <- event_pulse handle ;; Ret (store_prev prev r).

Definition ntsync_event_read (handle : Z) (args : option ntsync_event_args)
  : action (Z * option ntsync_event_args) :=
  match args with
  | None => Ret (- EFAULT, None)
  | Some a =>
      r <- read_event handle ;;
      Ret (match r with
           | Ok (manual, signaled) =>
               (0, Some (mkEventArgs (Z.b2z manual) (Z.b2z signaled)))
           | Err e => (errno e, Some a)
           end)
  end.

(** The code returned for a wait outcome, and the args after it. *)
Definition wait_code (a : ntsync_wait_args) (outcome : WaitOutcome) : Z * option ntsync_wait_args :=
  match outcome with
  | Signaled index owner_dead =>
      (if owner_dead then - EOWNERDEAD else 0, Some (set_index index a))
  | Timeout => (- ETIMEDOUT, Some a)
  | WaitInvalid => (- EINVAL, Some a)
  end.

Definition do_wait (args : option ntsync_wait_args) (all : bool)
  : action (Z * option ntsync_wait_args) :=
  match args with
  | None => Ret (- EFAULT, None)
  | Some a =>
      rw <- read_wait args ;;
      match rw with
      | Err e => Ret (e, Some a)
      | Ok (handles, owner, alert, timeout) =>
          outcome <- (if all then wait_all handles owner timeout alert
                      else wait_any handles owner timeout alert) ;;
          Ret (wait_code a outcome)
      end
  end.

Definition ntsync_wait_any (args : option ntsync_wait_args) : action (Z * option ntsync_wait_args) :=
  do_wait args false.
Definition ntsync_wait_all (args : option ntsync_wait_args) : action (Z * option ntsync_wait_args) :=
  do_wait args true.
End ffi.
