(* ===== verification/WaitOk.v ===== *)
(** * WaitOk: WAIT_ANY and WAIT_ALL, undisturbed

    What a wait on live objects does when nobody interferes: the lock-free
    fast path takes the first acquirable object (WAIT_ANY) or all of them
    (WAIT_ALL) and touches nothing else; a poll that cannot be satisfied
    leaves every object as it was. *)
From S2P Require Import Prelude Prog Config Region Kernel Lock Nodes WaitLists NodePool Policy Sweep Init Slots Objects Words ObjectsOk Acquire Wait Satisfy SlotsOk.

(** The pulse count a wait remembers of an object at its start. *)
Definition entry_seq (o : obj) : Z := match o with OEvent _ _ p => p | _ => 0 end.

(** Acquiring at once: what WAIT_ANY and WAIT_ALL promise on a list of objects. *)
Definition acquire_now (owner : Z) (o : obj) : option (bool * obj) := spec_acquire owner (entry_seq o) o.

Fixpoint first_of (owner : Z) (k : nat) (objs : list obj) : option (nat * bool * obj) :=
  match objs with
  | [] => None
  | o :: rest =>
      match acquire_now owner o with
      | Some (od, o') => Some (k, od, o')
      | None => first_of owner (S k) rest
      end
  end.

Fixpoint all_of (owner : Z) (objs : list obj) : option (bool * list obj) :=
  match objs with
  | [] => Some (false, [])
  | o :: rest =>
      match acquire_now owner o with
      | None => None
      | Some (od, o') =>
          match all_of owner rest with
          | None => None
          | Some (d, rest') => Some (od || d, o' :: rest')
          end
      end
  end.

(** [seqs] holds the pulse counts of [objs] from index [k] on. *)
Definition seqs_for (seqs : list Z) (k : nat) (objs : list obj) : Prop :=
  forall n o, objs !! n = Some o -> obj_type o = TYPE_EVENT -> arr seqs (k + n) = entry_seq o.

Lemma obj_waitable o : is_waitable (obj_type o) = true.
Proof. by destruct o. Qed.

Lemma seqs_for_tail seqs k o objs : seqs_for seqs k (o :: objs) -> seqs_for seqs (S k) objs.
Proof. intros H n o' Hn Hw. rewrite Nat.add_succ_comm. by apply (H (S n)). Qed.

Lemma acquire_at owner seqs k o objs :
  seqs_for seqs k (o :: objs) -> spec_acquire owner (arr seqs k) o = acquire_now owner o.
Proof.
  intros H. destruct o as [| |m g p]; try done. unfold acquire_now.
  rewrite <- (H 0%nat (OEvent m g p)), Nat.add_0_r by done. done.
Qed.

Lemma spec_any_now owner seqs objs : forall k,
  seqs_for seqs k objs -> spec_any owner k seqs objs = first_of owner k objs.
Proof.
  induction objs as [|o objs IH]; intros k Hs; simpl; [done|].
  rewrite (acquire_at _ _ _ _ _ Hs).
  destruct (acquire_now _ _) as [[? ?]|]; [done|]. by eapply IH, seqs_for_tail.
Qed.

Lemma spec_all_now owner seqs objs : forall k,
  seqs_for seqs k objs -> spec_all owner k seqs objs = all_of owner objs.
Proof.
  induction objs as [|o objs IH]; intros k Hs; simpl; [done|].
  rewrite (acquire_at _ _ _ _ _ Hs).
  destruct (acquire_now _ _) as [[? ?]|]; [|done].
  by rewrite (IH (S k)) by (by eapply seqs_for_tail).
Qed.

(** An event acquired at its own pulse count is signaled, so undoing is exact. *)
Lemma restore_now owner seqs objs : forall k,
  seqs_for seqs k objs -> undone owner k seqs objs = objs.
Proof.
  induction objs as [|o objs IH]; intros k Hs; simpl; [done|].
  rewrite (acquire_at _ _ _ _ _ Hs). destruct (acquire_now owner o) as [[od o']|] eqn:E; [|done].
  rewrite (IH (S k)) by (by eapply seqs_for_tail). f_equal. apply restore_id.
  destruct o as [| |[] [] p]; try done. unfold acquire_now in E. simpl in E. by rewrite Z.eqb_refl in E.
Qed.

Section wait.
Context `{!Config} {G : Type} `{!Kernel Region G} {t : nat} `{!QuietKernel G t}.
Context (Hfuel : (Z.to_nat NODE_COUNT < loop_fuel)%nat).
Implicit Types (w : world Region Local G).

(** The handles name live objects. *)
Definition names (r : Region) (handles : list Z) (objs : list obj) : Prop :=
  Forall2 (fun h o => lookup_handle r h = Some (handle_index h) /\ repr o (slot_ptr r (handle_index h)))
    handles objs.

Lemma names_holds w handles objs :
  names (mem w) handles objs -> holds w (zip (handle_index <$> handles) objs).
Proof. induction 1 as [|h o hs os [_ Ho] _ IH]; simpl; [constructor|]. by constructor. Qed.

Lemma names_nodup r handles objs :
  names r handles objs -> NoDup handles -> NoDup (handle_index <$> handles).
Proof.
  intros Hn Hnd. apply NoDup_fmap_2_strong; [|done]. intros h h' Hh Hh' He.
  assert (forall x, x ∈ handles -> lookup_handle r x = Some (handle_index x)) as Hl.
  { intros x Hx. apply list_elem_of_lookup in Hx as [i Hi].
    destruct (Forall2_lookup_l _ _ _ _ _ Hn Hi) as (o & _ & Hx1 & _). done. }
  apply (lookup_handle_inj r h h' (handle_index h)); [by apply Hl|]. rewrite He. by apply Hl.
Qed.

(** The lock-free scan of the objects. *)
Lemma fast_objects_spec handles objs : forall i seqs w,
  names (mem w) handles objs -> (i + length handles <= length seqs)%nat ->
  wp t (fast_objects i handles seqs) (fun res w' => w' = w /\ fst res = true /\
    length (snd res) = length seqs /\
    (forall k, (k < i)%nat -> arr (snd res) k = arr seqs k) /\ seqs_for (snd res) i objs) w.
Proof.
  intros i seqs w Hn. revert i seqs. induction Hn as [|h o hs os [Hh Ho] _ IH]; intros i seqs Hlen.
  { apply wp_ret. split_and!; [done..|]. intros n o Hno. done. }
  simpl in Hlen. cbn [fast_objects]. apply wp_bind, wp_slot. rewrite Hh.
  apply wp_bind, wp_read. rewrite (proj1 Ho).
  assert (is_waitable (obj_type o) = true) as -> by apply obj_waitable.
  apply wp_bind. eapply (wp_mono _ _ (fun seqs1 w1 => w1 = w /\ seqs1 = <[i := entry_seq o]> seqs)).
  2: { destruct o as [c m|ow c d|m g p]; cbn [obj_type entry_seq].
       - by apply wp_ret.
       - by apply wp_ret.
       - apply wp_bind, wp_read. rewrite (proj2 (proj2 (proj2 Ho))). by apply wp_ret. }
  intros seqs1 w1 [-> ->]. eapply wp_mono; [|apply IH; rewrite length_insert; lia].
  intros res w1 (-> & Hr & Hl & Hlow & Hs). rewrite length_insert in Hl.
  split_and!; [done|done|done| |].
  - intros k Hk. rewrite Hlow by lia. unfold arr. by rewrite !nth_lookup, list_lookup_insert_ne by lia.
  - intros [|n] o' Hno Hw; simpl in Hno.
    + simplify_eq. rewrite Nat.add_0_r, Hlow by lia. unfold arr.
      by rewrite nth_lookup, list_lookup_insert_eq by lia.
    + rewrite <- Nat.add_succ_comm. by apply Hs.
Qed.

(** Only the listed slots changed, each to its object. *)
Definition changed (r r' : Region) (l : list (Z * obj)) : Prop :=
  nodes r' = nodes r /\ set_lock_owner 0 0 (header r') = set_lock_owner 0 0 (header r) /\
  (forall j, set_w0 0 (slot_ptr r' j) = set_w0 0 (slot_ptr r j)) /\
  (forall j, j ∉ l.*1 -> slot_ptr r' j = slot_ptr r j) /\
  Forall (fun io => repr io.2 (slot_ptr r' io.1)) l.

Lemma moved_changed w w1 w2 l r' :
  mem w1 ≡ mem w -> moved w1 w2 l -> r' ≡ mem w2 -> changed (mem w) r' l.
Proof.
  intros Hm ((_&_&Hn&Hh&Hk)&Hs&Ho) Hr.
  assert (forall j, slot_ptr (mem w1) j = slot_ptr (mem w) j) as S1 by (intros j; by rewrite Hm).
  assert (forall j, slot_ptr r' j = slot_ptr (mem w2) j) as S2 by (intros j; by rewrite Hr).
  destruct Hm as (_&Hm1&Hm2), Hr as (_&Hr1&Hr2). split_and!.
  - congruence.
  - rewrite Hr2, Hh. done.
  - intros j. by rewrite S2, Hk, S1.
  - intros j Hj. by rewrite S2, Hs, S1.
  - eapply Forall_impl; [exact Ho|]. intros io. cbn. by rewrite S2.
Qed.

(** An alert that is absent, or an event that is not signaled. *)
Definition alert_quiet (r : Region) (alert : Z) : Prop :=
  alert = 0 \/ exists i m p, lookup_handle r alert = Some i /\ repr (OEvent m false p) (slot_ptr r i).

Lemma alert_valid_spec alert w :
  alert_quiet (mem w) alert -> wp t (alert_valid alert) (fun b w' => b = true /\ w' = w) w.
Proof.
  intros Ha. unfold alert_valid. destruct (Z.eqb_spec alert 0) as [|Hne]; [by apply wp_ret|].
  destruct Ha as [|(i & m & p & Hl & Ho)]; [done|].
  apply wp_bind, wp_slot. rewrite Hl. apply wp_bind, wp_read, wp_ret. by rewrite (proj1 Ho).
Qed.

Lemma alert_fired_spec alert w :
  alert_quiet (mem w) alert -> wp t (alert_fired alert) (fun b w' => b = false /\ w' = w) w.
Proof.
  intros Ha. unfold alert_fired. destruct (Z.eqb_spec alert 0) as [|Hne]; [by apply wp_ret|].
  destruct Ha as [|(i & m & p & Hl & Ho)]; [done|].
  apply wp_bind, wp_slot. rewrite Hl. apply wp_bind, wp_read, wp_ret.
  rewrite (proj1 (proj2 Ho)). cbn [obj_word]. by rewrite lo32_event.
Qed.

(** Arguments [wait] accepts. *)
Record good_wait (r : Region) (handles : list Z) (owner : Z) (objs : list obj) : Prop := {
  gw_names : names r handles objs;
  gw_distinct : NoDup handles;
  gw_owner : 0 < owner < W32;
  gw_some : (0 < length handles <= Z.to_nat MAX_WAIT_COUNT)%nat;
}.

Lemma has_dup_nodup handles : has_dup handles = false <-> NoDup handles.
Proof.
  induction handles as [|h hs IH]; simpl; [by split; intros; [apply NoDup_nil_2|]|].
  rewrite orb_false_iff, NoDup_cons, IH.
  assert (existsb (Z.eqb h) hs = false <-> h ∉ hs) as ->; [|done].
  rewrite <- not_true_iff_false, existsb_exists.
  split; intros Hn Hx; apply Hn.
  - exists h. split; [by apply list_elem_of_In|apply Z.eqb_refl].
  - destruct Hx as (x & Hin & ->%Z.eqb_eq). by apply list_elem_of_In.
Qed.

(** The check rejects exactly what it should. *)
Lemma bad_args_spec handles owner :
  bad_args handles owner = false <->
  owner <> 0 /\ handles <> [] /\ Z.of_nat (length handles) <= MAX_WAIT_COUNT /\ NoDup handles.
Proof.
  unfold bad_args. rewrite !orb_false_iff, Z.eqb_neq, Nat.eqb_neq, Z.ltb_ge, has_dup_nodup.
  destruct handles; simpl; naive_solver.
Qed.

Lemma good_args r handles owner objs : good_wait r handles owner objs -> bad_args handles owner = false.
Proof.
  intros [_ Hd Ho Hl]. apply bad_args_spec. unfold MAX_WAIT_COUNT in *.
  split_and!; [lia| |lia|done]. intros ->. simpl in Hl. lia.
Qed.

Lemma names_length r handles objs : names r handles objs -> length objs = length handles.
Proof. intros Hn. symmetry. by eapply Forall2_length. Qed.

(** What [try_satisfy] answers on objects at their entry counts. *)
Definition answer_now (owner : Z) (all : bool) (objs : list obj) : option WaitOutcome :=
  if all then (fun x => Signaled 0 x.1) <$> all_of owner objs
  else (fun x => Signaled (Z.of_nat x.1.1) x.1.2) <$> first_of owner 0 objs.

(** The slots a satisfied wait changes. *)
Definition effect_now (owner : Z) (all : bool) (handles : list Z) (objs : list obj) : list (Z * obj) :=
  if all then from_option (fun x => zip (handle_index <$> handles) x.2) [] (all_of owner objs)
  else from_option (fun x => [(handle_index (nth x.1.1 handles 0), x.2)]) [] (first_of owner 0 objs).

Lemma moved_self w w' l :
  (forall io, io ∈ l -> repr io.2 (slot_ptr (mem w) io.1)) -> moved w w' l -> moved w w' [].
Proof.
  intros Hl (Hk & Hs & Ho). split; [done|]. split; [|constructor]. intros j _.
  destruct (decide (j ∈ l.*1)) as [Hj|Hj]; [|by apply Hs].
  apply list_elem_of_fmap in Hj as ([i o] & -> & Hin). simpl.
  pose proof (Hl _ Hin) as (_&Hw&_). pose proof (proj1 (Forall_forall _ _) Ho _ Hin) as (_&Hw'&_).
  cbn [fst snd] in *. destruct Hk as (_&_&_&_&Hk). specialize (Hk i).
  destruct (slot_ptr (mem w') i), (slot_ptr (mem w) i). cbn in *. unfold set_w0 in Hk. simpl in Hk.
  congruence.
Qed.

Lemma try_satisfy_spec all handles owner seqs objs w :
  names (mem w) handles objs -> NoDup handles -> 0 < owner < W32 -> seqs_for seqs 0 objs ->
  wp t (try_satisfy handles owner seqs all) (fun res w' =>
    res = answer_now owner all objs /\ moved w w' (effect_now owner all handles objs)) w.
Proof.
  intros Hn Hnd Hown Hs. pose proof (names_length _ _ _ Hn) as Hlen.
  pose proof (names_holds _ _ _ Hn) as Hh. unfold try_satisfy, answer_now, effect_now.
  destruct all; cbn [negb].
  - eapply wp_mono; [|apply (satisfy_all_spec ltac:(lia) owner seqs Hown handles objs 0 [] false w); try done].
    2: { simpl. by eapply names_nodup. }
    2: { constructor. }
    intros res w'. unfold all_post. rewrite (spec_all_now owner seqs objs 0 Hs).
    destruct (all_of owner objs) as [[od objs']|]; simpl; [done|].
    rewrite (restore_now owner seqs objs 0 Hs). intros [-> Hm]. split; [done|].
    eapply moved_self; [|exact Hm]. intros io Hio. exact (proj1 (Forall_forall _ _) Hh _ Hio).
  - eapply wp_mono; [|by apply (satisfy_any_spec ltac:(lia) owner seqs Hown handles objs 0 w)].
    intros res w'. rewrite (spec_any_now owner seqs objs 0 Hs).
    destruct (first_of owner 0 objs) as [[[n od] o']|]; simpl.
    + intros (_ & -> & h & Hh' & Hb). split; [done|]. rewrite Nat.sub_0_r in Hh'.
      rewrite (nth_lookup_Some _ _ _ _ Hh'). by apply becomes_moved.
    + intros [-> ->]. split; [done|]. apply moved_refl. constructor.
Qed.

Lemma moved_keeps_ready b w w' l : moved w w' l -> ready b w -> ready b w'.
Proof. intros ((Hl&Hk&_)&_) [H1 H2]. split; congruence. Qed.

Definition poll_answer (owner : Z) (all : bool) (objs : list obj) (timeout : option Z) : option WaitOutcome :=
  match answer_now owner all objs with
  | Some out => Some out
  | None => if bool_decide (timeout = Some 0) then Some Timeout else None
  end.

Lemma poll_default owner all objs timeout :
  answer_now owner all objs <> None \/ timeout = Some 0 ->
  poll_answer owner all objs timeout = Some (default Timeout (answer_now owner all objs)).
Proof.
  unfold poll_answer. destruct (answer_now owner all objs); [done|]. intros [|Ht]; [done|].
  by rewrite bool_decide_eq_true_2.
Qed.

Lemma fast_path_spec all handles owner timeout alert objs w :
  good_wait (mem w) handles owner objs -> alert_quiet (mem w) alert ->
  wp t (fast_path handles owner timeout all alert) (fun res w' =>
    fst res = poll_answer owner all objs timeout /\ seqs_for (snd res) 0 objs /\ length (snd res) = 64%nat /\
    exists w1, moved w w1 (effect_now owner all handles objs) /\ calm w1 w') w.
Proof.
  intros [Hn Hd Ho Hl] Ha. unfold fast_path. eapply wp_frame_bind.
  { apply (fast_objects_spec handles objs 0 zero_seqs); [done|]. unfold zero_seqs.
    rewrite length_replicate. unfold MAX_WAIT_COUNT in Hl. lia. }
  intros [ok seqs] w1 (-> & Hok & Hlen & _ & Hs). cbn [fst snd] in *. subst ok.
  eapply wp_frame_bind; [by apply alert_valid_spec|]. intros valid w1 [-> ->]. cbn [negb].
  eapply wp_frame_bind; [by apply alert_fired_spec|]. intros fired w1 [-> ->].
  eapply wp_frame_bind; [by apply (try_satisfy_spec all handles owner seqs objs)|].
  intros got w1 [-> Hm]. unfold poll_answer.
  destruct (answer_now owner all objs) as [out|].
  - apply wp_bind, wp_stat_bump. intros w2 Hc. apply wp_ret. split_and!; [done|done|done|by exists w1].
  - case_bool_decide; apply wp_ret; (split_and!; [done|done|done|]); exists w1; by split; [|apply calm_refl].
Qed.

Lemma wait_fast all handles owner timeout alert objs w out :
  idle w -> good_wait (mem w) handles owner objs -> alert_quiet (mem w) alert ->
  poll_answer owner all objs timeout = Some out ->
  wp t (wait handles owner timeout all alert) (fun res w' => idle w' /\ res = out /\
    changed (mem w) (mem w') (effect_now owner all handles objs)) w.
Proof.
  intros Hw Hg Ha Hp. unfold wait. rewrite (good_args _ _ _ _ Hg).
  apply wp_bind, (wp_region false); [done|]. cbn beta iota. apply wp_bind, wp_stat_bump. intros w1 Hc1.
  apply wp_bind. eapply (wp_mono _ _ (fun _ w2 => calm w w2)).
  2: { destruct timeout as [d|]; [|by apply wp_ret]. apply wp_bind, wp_quiet; [done|].
       intros z w2 Hc2. apply wp_ret. by eapply calm_trans. }
  intros dl w2 Hc2. apply wp_bind, wp_quiet; [done|]. intros start w3 Hc3.
  assert (calm w w3) as Hc by (by eapply calm_trans). pose proof (calm_mem _ _ Hc) as Hm.
  eapply wp_frame_bind; [apply (fast_path_spec all handles owner timeout alert objs w3)|].
  - destruct Hg as [H1 H2 H3 H4]. split; try done. unfold names in *.
    eapply Forall2_impl; [exact H1|]. intros h o [Hl Ho]. split; [by rewrite Hm|].
    assert (slot_ptr (mem w3) (handle_index h) = slot_ptr (mem w) (handle_index h)) as -> by (by rewrite Hm). done.
  - destruct Ha as [Ha|(i & m & p & Hl & Ho)]; [by left|]. right. exists i, m, p.
    split; [by rewrite Hm|].
    assert (slot_ptr (mem w3) i = slot_ptr (mem w) i) as -> by (by rewrite Hm). done.
  - intros [res seqs] w4 (Hr & _ & _ & w5 & Hmv & Hc5). cbn [fst snd] in *. rewrite Hr, Hp. apply wp_ret.
    split; [|split; [done|]].
    + eapply (calm_ready false); [exact Hc5|]. eapply moved_keeps_ready; [exact Hmv|].
      by eapply calm_ready.
    + eapply moved_changed; [exact Hm|exact Hmv|by apply calm_mem].
Qed.

(** C8: WAIT_ANY on live objects takes the first object, in the order of the
    handles, that the caller can acquire: it answers that index and whether
    a mutex owner had died, changes that object as the acquisition does and
    nothing else, without taking the region lock.  A poll with no such
    object answers [Timeout] and changes no slot. *)
Theorem wait_any_first handles owner timeout alert objs w :
  idle w -> good_wait (mem w) handles owner objs -> alert_quiet (mem w) alert ->
  first_of owner 0 objs <> None \/ timeout = Some 0 ->
  wp t (wait_any handles owner timeout alert) (fun res w' => idle w' /\
    match first_of owner 0 objs with
    | Some (k, od, o') => res = Signaled (Z.of_nat k) od /\
        changed (mem w) (mem w') [(handle_index (nth k handles 0), o')]
    | None => res = Timeout /\ changed (mem w) (mem w') []
    end) w.
Proof.
  intros Hw Hg Ha Hor. unfold wait_any.
  eapply wp_mono; [|apply (wait_fast false _ _ _ _ objs _ (default Timeout (answer_now owner false objs))); try done].
  - intros res w' (Hw' & -> & Hc). split; [done|]. unfold effect_now in Hc. unfold answer_now.
    by destruct (first_of owner 0 objs) as [[[k od] o']|].
  - apply poll_default. unfold answer_now. destruct (first_of owner 0 objs); [by left|].
    destruct Hor; [done|by right].
Qed.

(** C9: WAIT_ALL on live objects is all or nothing: when the caller can
    acquire every object it acquires each of them, answers index 0 and
    whether some mutex owner had died; a poll that finds one busy object
    answers [Timeout] and leaves every slot as it was, those taken and given
    back included. *)
Theorem wait_all_or_nothing handles owner timeout alert objs w :
  idle w -> good_wait (mem w) handles owner objs -> alert_quiet (mem w) alert ->
  all_of owner objs <> None \/ timeout = Some 0 ->
  wp t (wait_all handles owner timeout alert) (fun res w' => idle w' /\
    match all_of owner objs with
    | Some (od, objs') => res = Signaled 0 od /\
        changed (mem w) (mem w') (zip (handle_index <$> handles) objs')
    | None => res = Timeout /\ changed (mem w) (mem w') []
    end) w.
Proof.
  intros Hw Hg Ha Hor. unfold wait_all.
  eapply wp_mono; [|apply (wait_fast true _ _ _ _ objs _ (default Timeout (answer_now owner true objs))); try done].
  - intros res w' (Hw' & -> & Hc). split; [done|]. unfold effect_now in Hc. unfold answer_now.
    by destruct (all_of owner objs) as [[od objs']|].
  - apply poll_default. unfold answer_now. destruct (all_of owner objs); [by left|].
    destruct Hor; [done|by right].
Qed.
End wait.
