(* ===== verification/WaitBlock.v ===== *)
(** * WaitBlock: the section under the region lock

    What [locked_section] does when the wait cannot be satisfied lock-free:
    it takes one pool node per object, registers each on its object *before*
    the last acquisition attempt, and either gives every node back (satisfied,
    timed out, invalid, pool exhausted) or leaves exactly those nodes
    registered and says to sleep. *)
From S2P Require Import Prelude Prog Config Region Kernel Lock Nodes WaitLists NodePool Policy Sweep Init Slots Objects Words ObjectsOk Acquire Wait Satisfy SlotsOk WaitOk.

(** ** Slots up to their waiter head *)
Definition same_objects (r r' : Region) : Prop :=
  forall i, set_waiter_head 0 (slot_ptr r' i) = set_waiter_head 0 (slot_ptr r i).

Lemma same_objects_refl r : same_objects r r.
Proof. done. Qed.

Lemma same_objects_trans r1 r2 r3 : same_objects r1 r2 -> same_objects r2 r3 -> same_objects r1 r3.
Proof. intros H1 H2 i. by rewrite H2. Qed.

Lemma same_objects_equiv r r' : r' ≡ r -> same_objects r r'.
Proof. intros H i. by rewrite H. Qed.

Lemma same_objects_slots r r' : (forall i, slot_ptr r' i = slot_ptr r i) -> same_objects r r'.
Proof. intros H i. by rewrite H. Qed.

(** Everything but the head is equal. *)
Lemma same_head s s' :
  set_waiter_head 0 s' = set_waiter_head 0 s ->
  s_state s' = s_state s /\ s_generation s' = s_generation s /\ s_obj_type s' = s_obj_type s /\
  s_w0 s' = s_w0 s /\ s_d s' = s_d s.
Proof. destruct s, s'. unfold set_waiter_head. simpl. intros H. injection H. intros. by split_and!. Qed.

Lemma repr_same_objects r r' o i : same_objects r r' -> repr o (slot_ptr r i) -> repr o (slot_ptr r' i).
Proof.
  intros Hs (H1&H2&H3&H4). destruct (same_head _ _ (Hs i)) as (_&_&E1&E2&E3).
  split; [congruence|]. split; [congruence|]. split; [done|]. destruct o; congruence.
Qed.

Lemma lookup_same_objects r r' h : same_objects r r' -> lookup_handle r' h = lookup_handle r h.
Proof.
  intros Hs. unfold lookup_handle. destruct (same_head _ _ (Hs (handle_index h))) as (E1&E2&_).
  by rewrite E1, E2.
Qed.

Lemma names_same_objects r r' handles objs :
  same_objects r r' -> names r handles objs -> names r' handles objs.
Proof.
  intros Hs Hn. eapply Forall2_impl; [exact Hn|]. intros h o [Hl Ho].
  split; [by rewrite (lookup_same_objects _ _ _ Hs)|by eapply repr_same_objects].
Qed.

Lemma alert_same_objects r r' alert : same_objects r r' -> alert_quiet r alert -> alert_quiet r' alert.
Proof.
  intros Hs [|(i & m & p & Hl & Ho)]; [by left|]. right. exists i, m, p.
  split; [by rewrite (lookup_same_objects _ _ _ Hs)|by eapply repr_same_objects].
Qed.

(** ** Nodes a waiter owns *)

(** The waiter has taken exactly [nodes], distinct, out of the pool: what is
    handed out is they and what the others hold, [O]. *)
Definition mine (O : Z -> Prop) (r : Region) (F nodes : list Z) : Prop :=
  NoDup nodes /\ (forall n, owned r F n <-> n ∈ nodes \/ O n) /\ forall n, n ∈ nodes -> ~ O n.

(** Nothing but what the others hold: every node the waiter took is back. *)
Definition back (O : Z -> Prop) (r : Region) (F : list Z) : Prop := forall n, owned r F n <-> O n.

Lemma mine_owned O r F nodes n : mine O r F nodes -> n ∈ nodes -> owned r F n.
Proof. intros (_ & Hm & _) Hn. apply Hm. by left. Qed.

Lemma mine_none O r F : mine O r F [] <-> back O r F.
Proof.
  split; [intros (_ & Hm & _) n; rewrite Hm; set_solver|]. intros Hb.
  split; [apply NoDup_nil_2|]. split; [intros n; rewrite (Hb n); set_solver|set_solver].
Qed.

Lemma owned_fresh r r' F n :
  h_node_fresh (header r') = h_node_fresh (header r) -> owned r' F n <-> owned r F n.
Proof. unfold owned. by intros ->. Qed.

Lemma mine_fresh O r r' F nodes :
  h_node_fresh (header r') = h_node_fresh (header r) -> mine O r F nodes -> mine O r' F nodes.
Proof. intros Hf (H1 & H2 & H3). split; [done|]. split; [|done]. intros n. by rewrite (owned_fresh r r'). Qed.

Lemma back_fresh O r r' F :
  h_node_fresh (header r') = h_node_fresh (header r) -> back O r F -> back O r' F.
Proof. intros Hf Hb n. by rewrite (owned_fresh r r'). Qed.

(** Given back, in any order. *)
Lemma back_freed O r r' F nodes :
  h_node_fresh (header r') = h_node_fresh (header r) -> mine O r F nodes -> back O r' (rev nodes ++ F).
Proof.
  intros Hf (_ & Hm & Hn) n. rewrite (owned_fresh r r') by done. unfold owned in *.
  assert (n ∈ rev nodes <-> n ∈ nodes) as Hr by (by rewrite !list_elem_of_In, <- in_rev).
  rewrite elem_of_app, Hr. specialize (Hm n). specialize (Hn n). destruct (decide (n ∈ nodes)); naive_solver.
Qed.

Definition unregistered (r : Region) (nodes : list Z) : Prop :=
  forall n, n ∈ nodes -> n_registered (node_ptr r n) = 0.

(** All of them lead to the same futex word. *)
Definition points (r : Region) (nodes : list Z) (head : Z) : Prop :=
  forall n, n ∈ nodes -> n_wait_word (node_ptr r n) = head.

(** How many nodes the pool can still hand out. *)
Definition capacity (F : list Z) (r : Region) : Z :=
  Z.of_nat (length F) + (NODE_COUNT - h_node_fresh (header r)).

Lemma pop_capacity r L F F' n r1 :
  pool_ok r L F -> node_pop r = (Some n, r1) ->
  F = n :: F' \/ F = [] /\ F' = [] /\ n = h_node_fresh (header r) ->
  capacity F' r1 = capacity F r - 1.
Proof.
  intros [_ Hc _ Hr] E HF. unfold capacity, node_pop in *.
  destruct (Z.eqb_spec (h_node_free_head (header r)) NIL) as [Hn|Hn]; cbn [negb] in E.
  - destruct (NODE_COUNT <=? h_node_fresh (header r)); simplify_eq. simpl.
    destruct HF as [->|(-> & -> & _)]; [|simpl; lia].
    destruct Hc as [Hh _]. destruct (Hr _ (list_elem_of_here _ _)) as [_ Hlt]. unfold NODE_COUNT, NIL in *. lia.
  - simplify_eq. simpl. destruct HF as [->|(-> & -> & _)]; [simpl; lia|]. done.
Qed.

Section block.
Context `{!Config} {G : Type} `{!Kernel Region G} {t : nat} `{!QuietKernel G t}.
Context (Hfuel : (Z.to_nat NODE_COUNT < loop_fuel)%nat).
Implicit Types (w : world Region Local G).

(** ** Allocation *)
Lemma node_alloc_spec b L F (Q : option Z -> world Region Local G -> Prop) w :
  ready b w -> pool_ok (mem w) L F ->
  (forall n F' w', ready b w' -> pool_ok (mem w') L F' -> owned (mem w') F' n ->
     n_registered (node_ptr (mem w') n) = 0 ->
     (forall m, owned (mem w') F' m <-> m = n \/ owned (mem w) F m) -> ~ owned (mem w) F n ->
     capacity F' (mem w') = capacity F (mem w) - 1 ->
     (forall i, slot_ptr (mem w') i = slot_ptr (mem w) i) ->
     (forall m, m <> n -> node_ptr (mem w') m = node_ptr (mem w) m) -> Q (Some n) w') ->
  (F = [] -> h_node_fresh (header (mem w)) = NODE_COUNT -> Q None w) ->
  wp t node_alloc Q w.
Proof.
  intros Hw HP HS HN. apply wp_bind, wp_mem. destruct (node_pop (mem w)) as [[n|] r1] eqn:E; cbn [fst snd].
  2: { destruct (node_pop_none _ _ _ _ HP E) as (-> & HF & Hfr). apply wp_ret.
       destruct w. by apply HN. }
  destruct (pop_owned _ _ _ _ _ HP E) as (F' & HP1 & Hreg & Hslots & Hn1 & Hno & Ho & Hfwd & Hbwd & Hpop).
  pose proof (pop_capacity _ _ _ _ _ _ HP E Hpop) as Hcap.
  set (r2 := upd_node n node_reset r1).
  assert (pool_ok r2 L F') as HP2 by (by apply upd_mine_pool_ok).
  assert (forall f m, m <> n -> node_ptr (upd_node n f r2) m = node_ptr (mem w) m) as Hother.
  { intros f m Hm. unfold r2. by rewrite !node_ptr_upd_node, !decide_False, Hn1 by done. }
  assert (n_registered (node_ptr r2 n) = 0) as Hreg2.
  { unfold r2. by rewrite node_ptr_upd_node, decide_True. }
  apply wp_bind, wp_write, wp_bind, wp_getpid. cbn [mem loc ker]. intros w2 Hc.
  apply wp_bind, wp_write, wp_ret. cbn [mem loc ker].
  assert (upd_node n (set_npid k_pid) (mem w2) ≡ upd_node n (set_npid k_pid) r2) as Heq.
  { by rewrite (calm_mem _ _ Hc). }
  pose proof (node_fresh_proper _ _ Heq) as Hfr. cbn in Hfr.
  assert (pool_ok (upd_node n (set_npid k_pid) r2) L F') as HP3 by (by apply upd_mine_pool_ok).
  apply (HS n F').
  - by apply (calm_ready _ _ _ Hc).
  - cbn [mem]. by rewrite Heq.
  - destruct Ho as [Ho1 Ho2]. split; [|done]. cbn [mem]. rewrite header_upd_node, Hfr. exact Ho1.
  - cbn [mem]. by rewrite Heq, node_ptr_upd_node, decide_True.
  - intros m. rewrite (owned_fresh r1) by (cbn [mem]; by rewrite header_upd_node, Hfr).
    split; [by intros [->|Hm]%Hbwd; [left|right]|]. intros [->|Hm]; [done|by apply Hfwd].
  - done.
  - rewrite <- Hcap. unfold capacity. cbn [mem]. by rewrite header_upd_node, Hfr.
  - intros i. cbn [mem]. rewrite Heq. by rewrite <- Hslots.
  - intros m Hm. cbn [mem]. rewrite Heq. by apply Hother.
Qed.

(** The pool with [nodes] in the hands of a waiter, objects as in [r0]. *)
Record holding (O : Z -> Prop) (r0 : Region) (L : Z -> list Z) (F nodes : list Z) (r : Region) : Prop := {
  hd_pool : pool_ok r L F;
  hd_mine : mine O r F nodes;
  hd_same : same_objects r0 r;
}.

Lemma detach_all_same nodes : forall r, same_objects r (foldl (fun r idx => node_detach idx r) r nodes).
Proof.
  induction nodes as [|n ns IH]; intros r'; simpl; [done|]. eapply same_objects_trans; [|apply IH].
  intros i. unfold node_detach. destruct (_ =? 0); [done|]. cbn zeta.
  destruct (n_obj_prev _ =? NIL), (negb _); region_simpl; try done.
  all: destruct (decide (n_obj (node_ptr r' n) = i)) as [E|]; [by rewrite E|done].
Qed.

Lemma waiter_cleanup_slots nodes r : same_objects r (waiter_cleanup nodes r).
Proof.
  assert (forall ns r, same_objects r (foldl (fun r idx => node_free idx r) r ns)) as Hf.
  { induction ns as [|n ns IH]; intros r'; simpl; [done|]. by eapply same_objects_trans; [|apply IH]. }
  unfold waiter_cleanup. eapply same_objects_trans; [apply detach_all_same|apply Hf].
Qed.

Lemma cleanup_fresh nodes r L F :
  pool_ok r L F -> h_node_fresh (header (waiter_cleanup nodes r)) = h_node_fresh (header r).
Proof.
  intros HP. destruct (detach_all_pool_ok nodes r L F HP) as (_ & <- & _). unfold waiter_cleanup.
  generalize (foldl (fun r idx => node_detach idx r) r nodes). clear.
  induction nodes as [|n ns IH]; intros r; simpl; [done|]. by rewrite IH.
Qed.

Lemma cleanup_spec b O r0 L F nodes (Q : unit -> world Region Local G -> Prop) w :
  ready b w -> holding O r0 L F nodes (mem w) ->
  (forall w', ready b w' -> pool_ok (mem w') (without_all nodes L) (rev nodes ++ F) ->
     back O (mem w') (rev nodes ++ F) ->
     same_objects r0 (mem w') -> Q tt w') ->
  wp t (cleanup nodes) Q w.
Proof.
  intros Hw [HP Hm Hs] HQ. apply wp_write, HQ; [done| | |].
  - apply waiter_cleanup_ok; [done|apply Hm|]. intros n. by eapply mine_owned.
  - eapply back_freed; [|exact Hm]. by apply (cleanup_fresh nodes (mem w) L F).
  - eapply same_objects_trans; [exact Hs|apply waiter_cleanup_slots].
Qed.

Lemma alloc_nodes_spec b O r0 L (Q : option (list Z) -> world Region Local G -> Prop) : forall n nodes F w,
  ready b w -> holding O r0 L F nodes (mem w) -> unregistered (mem w) nodes ->
  (forall ns F' w', ready b w' -> holding O r0 L F' (nodes ++ ns) (mem w') ->
     unregistered (mem w') (nodes ++ ns) -> length ns = n -> Q (Some (nodes ++ ns)) w') ->
  (forall F' ns w', ready b w' -> pool_ok (mem w') (without_all ns L) F' -> back O (mem w') F' ->
     (forall m, m ∈ ns -> forall i, m ∉ L i) -> same_objects r0 (mem w') ->
     capacity F (mem w) < Z.of_nat n -> Q None w') ->
  wp t (alloc_nodes n nodes) Q w.
Proof.
  induction n as [|n IH]; intros nodes F w Hw Hh Hu HS HN; cbn [alloc_nodes].
  { apply wp_ret. rewrite <- (app_nil_r nodes). apply (HS [] F); rewrite ?app_nil_r; done. }
  destruct Hh as [HP Hmine Hs]. pose proof Hmine as (Hnd & Ho & Hd).
  apply wp_bind, (node_alloc_spec b L F); [done|done| |].
  - intros m F' w' Hw' HP' Hom Hrm Hothers Hno Hcap Hslots Hnodes.
    assert (m ∉ nodes) as Hm by (intros Hin; apply Hno; by eapply mine_owned).
    apply (IH (nodes ++ [m]) F' w'); [done| | |intros ns F2 w2|].
    + split; [done| |eapply same_objects_trans; [exact Hs|by apply same_objects_slots]].
      split; [|split].
      * apply NoDup_app. split; [done|]. split; [|apply NoDup_singleton].
        by intros x Hx ->%list_elem_of_singleton.
      * intros x. rewrite Hothers, Ho, elem_of_app, list_elem_of_singleton. tauto.
      * intros x [Hx|Hx%list_elem_of_singleton]%elem_of_app; [by apply Hd|]. subst. intros HO.
        apply Hno, Ho. by right.
    + intros x [Hx|Hx%list_elem_of_singleton]%elem_of_app; [|by subst].
      rewrite Hnodes by (by intros ->). by apply Hu.
    + rewrite <- app_assoc. intros Hw2 Hh2 Hu2 Hl. apply (HS (m :: ns) F2); [done..|]. simpl. lia.
    + intros F2 ns w2 Hw2 HP2 Hb2 Hni Hs2 Hlt. eapply HN; [done|done|done|done|done|lia].
  - intros HF Hfull. apply wp_bind, (cleanup_spec b O r0 L F nodes); [done|by split|].
    intros w' Hw' HP' Hb' Hs'. apply wp_ret. apply (HN (rev nodes ++ F) nodes); [done|done|done| |done|].
    2: { unfold capacity. rewrite HF, Hfull. simpl. lia. }
    intros m Hm i. apply (unregistered_not_listed (mem w) L F); [done|]. by apply Hu.
Qed.

(** ** Registration *)

(** The lists after [nodes] were registered on the objects of [targets]. *)
Fixpoint enlisted (targets nodes : list Z) (L : Z -> list Z) : Z -> list Z :=
  match targets, nodes with
  | h :: targets', n :: nodes' => enlisted targets' nodes' (push (handle_index h) n L)
  | _, _ => L
  end.

Lemma node_register_same idx obj ww r : same_objects r (node_register idx obj ww r).
Proof. intros i. rewrite node_register_slot. by destruct (decide (i = obj)) as [->|]. Qed.

Lemma register_if_needed_spec b O r0 L F all n h head (Q : unit -> world Region Local G -> Prop) w :
  ready b w -> holding O r0 L F all (mem w) -> n ∈ all -> n_registered (node_ptr (mem w) n) = 0 ->
  s_state (slot_ptr (mem w) (handle_index h)) = SLOT_USED ->
  (forall w', ready b w' -> holding O r0 (push (handle_index h) n L) F all (mem w') ->
     (forall m, m <> n -> n_registered (node_ptr (mem w') m) = n_registered (node_ptr (mem w) m) /\
       n_wait_word (node_ptr (mem w') m) = n_wait_word (node_ptr (mem w) m)) ->
     n_wait_word (node_ptr (mem w') n) = head -> Q tt w') ->
  wp t (register_if_needed n h head) Q w.
Proof.
  intros Hw [HP Hm Hs] Hin Hreg Hu HQ. apply wp_bind, wp_read. rewrite Hreg, Z.eqb_refl.
  pose proof (mine_owned _ _ _ _ _ Hm Hin) as Ho.
  assert (pool_ok (node_register n (handle_index h) head (mem w)) (push (handle_index h) n L) F) as HP'.
  { apply register_pool_ok; auto. }
  assert (s_waiter_head (slot_ptr (mem w) (handle_index h)) <> n) as Hhd.
  { rewrite (lo_head _ _ (po_lists _ _ _ HP) _ (or_intror Hu)).
    destruct (L (handle_index h)) as [|x l] eqn:El; simpl.
    - destruct Ho as [Hr _]. pose proof (lo_fresh _ _ (po_lists _ _ _ HP)).
      unfold NODE_COUNT, NIL in *. lia.
    - intros ->. apply (unregistered_not_listed (mem w) L F n (handle_index h) HP Hreg).
      rewrite El. apply list_elem_of_here. }
  apply wp_write, HQ; [done| | |].
  - split; [done| |eapply same_objects_trans; [exact Hs|apply node_register_same]].
    eapply mine_fresh; [|exact Hm]. cbn [mem]. by rewrite node_register_header.
  - intros m Hne. cbn [mem]. rewrite node_register_node by done.
    cbv zeta. rewrite decide_False by done. by destruct (decide (m = _ /\ _)).
  - cbn [mem]. rewrite node_register_node by done. cbv zeta. by rewrite decide_True.
Qed.

Lemma register_objects_spec b O r0 F all head (Q : unit -> world Region Local G -> Prop) :
  forall targets pre nodes L w,
  ready b w -> holding O r0 L F all (mem w) -> all = pre ++ nodes -> (length targets <= length nodes)%nat ->
  unregistered (mem w) nodes ->
  (forall h, h ∈ targets -> s_state (slot_ptr r0 (handle_index h)) = SLOT_USED) ->
  (forall w', ready b w' -> holding O r0 (enlisted targets nodes L) F all (mem w') ->
     unregistered (mem w') (drop (length targets) nodes) ->
     points (mem w') (take (length targets) nodes) head ->
     (forall m, m ∉ nodes -> n_wait_word (node_ptr (mem w') m) = n_wait_word (node_ptr (mem w) m)) -> Q tt w') ->
  wp t (register_objects (length pre) targets all head) Q w.
Proof.
  induction targets as [|h targets IH]; intros pre nodes L w Hw Hh Hall Hlen Hreg Hu HQ;
    cbn [register_objects].
  { apply wp_ret, HQ; [done| |done| |done]; [by destruct nodes|]. by intros n ?%elem_of_nil. }
  destruct nodes as [|n nodes]; simpl in Hlen; [lia|].
  assert (arr all (length pre) = n) as Hn.
  { unfold arr. rewrite Hall, nth_lookup, list_lookup_middle by done. done. }
  rewrite Hn. assert (n ∈ all) as Hin by (rewrite Hall; apply elem_of_app; right; apply list_elem_of_here).
  assert (n ∉ nodes) as Hni.
  { destruct (hd_mine _ _ _ _ _ _ Hh) as [Hnd _]. rewrite Hall in Hnd.
    apply NoDup_app in Hnd as (_ & _ & Hnd). by apply NoDup_cons in Hnd as []. }
  apply wp_bind, (register_if_needed_spec b O r0 L F all n h head); [done|done|done| | |].
  - apply Hreg, list_elem_of_here.
  - destruct (same_head _ _ (hd_same _ _ _ _ _ _ Hh (handle_index h))) as [-> _].
    apply Hu, list_elem_of_here.
  - intros w' Hw' Hh' Hothers Hword.
    replace (S (length pre)) with (length (pre ++ [n])) by (rewrite length_app; simpl; lia).
    apply (IH (pre ++ [n]) nodes (push (handle_index h) n L) w'); [done|done| | | | |].
    + by rewrite <- app_assoc.
    + lia.
    + intros m Hm. rewrite (proj1 (Hothers m ltac:(by intros ->))). by apply Hreg, list_elem_of_further.
    + intros h' Hh'2. by apply Hu, list_elem_of_further.
    + intros w2 Hw2 Hh2 Hu2 Hp2 Hsame. apply HQ; [done|done|done| |].
      * intros m [->|Hm]%elem_of_cons; [by rewrite Hsame|by apply Hp2].
      * intros m [Hm1 Hm2]%not_elem_of_cons. by rewrite Hsame, (proj2 (Hothers m Hm1)).
Qed.

(** Registering and cleaning up gives the lists back. *)
Lemma without_all_enlisted nodes : forall targets sub L i,
  (forall n, n ∈ sub -> n ∈ nodes) -> (forall n, n ∈ nodes -> n ∉ L i) ->
  without_all nodes (enlisted targets sub L) i = L i.
Proof.
  intros targets sub L i Hsub Hni.
  assert (forall ns l, foldl (fun l n => without n l) l ns = filter (fun x => x ∉ ns) l) as Hf.
  { induction ns as [|n ns IH]; intros l; simpl.
    - induction l as [|x l IHl]; [done|].
      rewrite filter_cons_True by (intros Hx; by apply elem_of_nil in Hx). by rewrite <- IHl.
    - rewrite IH. unfold without. rewrite list_filter_filter. apply list_filter_iff. intros x.
      rewrite not_elem_of_cons. tauto. }
  unfold without_all. rewrite Hf.
  assert (forall targets sub (L' : Z -> list Z), (forall n, n ∈ sub -> n ∈ nodes) ->
    filter (fun x => x ∉ nodes) (enlisted targets sub L' i) = filter (fun x => x ∉ nodes) (L' i)) as He.
  { clear targets sub L Hsub Hni. induction targets as [|h targets IH]; intros [|n sub] L' Hsub; try done.
    cbn [enlisted]. rewrite IH by (intros m Hm; by apply Hsub, list_elem_of_further).
    unfold push. destruct (decide (i = handle_index h)) as [->|]; [|done].
    rewrite filter_cons_False; [done|]. intros Hn. apply Hn, Hsub, list_elem_of_here. }
  rewrite He by done. clear - Hni. induction (L i) as [|x l IH]; [done|].
  assert (x ∉ nodes) as Hx.
  { intros Hin. apply (Hni x Hin), list_elem_of_here. }
  rewrite filter_cons_True by done. f_equal. apply IH. intros n Hn Hin. by apply (Hni n Hn), list_elem_of_further.
Qed.

(** ** The locked section *)
Lemma validate_spec handles objs : forall i seqs w,
  names (mem w) handles objs -> (i + length handles <= length seqs)%nat ->
  wp t (validate i handles [] seqs) (fun res w' => w' = w /\ fst res = true /\
    length (snd res) = length seqs /\
    (forall k, (k < i)%nat -> arr (snd res) k = arr seqs k) /\ seqs_for (snd res) i objs) w.
Proof.
  intros i seqs w Hn. revert i seqs. induction Hn as [|h o hs os [Hh Ho] _ IH]; intros i seqs Hlen.
  { apply wp_ret. split_and!; [done..|]. intros n o Hno. done. }
  simpl in Hlen. cbn [validate]. apply wp_bind, wp_slot. rewrite Hh.
  apply wp_bind, wp_read. rewrite (proj1 Ho), obj_waitable. cbn [negb length Nat.eqb andb].
  apply wp_bind. eapply (wp_mono _ _ (fun seqs1 w1 => w1 = w /\ length seqs1 = length seqs /\
    (forall k, k <> i -> arr seqs1 k = arr seqs k) /\ (obj_type o = TYPE_EVENT -> arr seqs1 i = entry_seq o))).
  2: { destruct o as [c m|ow c d|m g p]; cbn [obj_type entry_seq].
       - by apply wp_ret.
       - by apply wp_ret.
       - apply wp_bind, wp_read. rewrite (proj2 (proj2 (proj2 Ho))). apply wp_ret.
         split; [done|]. rewrite length_insert. split; [done|]. unfold arr. split.
         + intros k Hk. by rewrite !nth_lookup, list_lookup_insert_ne by done.
         + intros _. by rewrite nth_lookup, list_lookup_insert_eq by lia. }
  intros seqs1 w1 (-> & Hl1 & Hsame & Hev). eapply wp_mono; [|apply IH; lia].
  intros res w1 (-> & Hr & Hl & Hlow & Hs).
  split_and!; [done|done|lia| |].
  - intros k Hk. rewrite Hlow by lia. apply Hsame. lia.
  - intros [|n] o' Hno Hw; simpl in Hno.
    + simplify_eq. rewrite Nat.add_0_r, Hlow by lia. by apply Hev.
    + rewrite <- Nat.add_succ_comm. by apply Hs.
Qed.

Lemma moved_pool_ok w w' l L F : moved w w' l -> pool_ok (mem w) L F -> pool_ok (mem w') L F.
Proof.
  intros ((_&_&Hn&Hh&Hk)&_&_). eapply table_pool_ok; rewrite ?Hn, ?Hh; try done.
  intros j. left. specialize (Hk j). destruct (slot_ptr (mem w') j), (slot_ptr (mem w) j).
  unfold set_w0 in Hk. simpl in *. injection Hk. intros. subst. done.
Qed.

(** Only the listed slots hold another object; waiter heads may move. *)
Definition objects_changed (r r' : Region) (l : list (Z * obj)) : Prop :=
  (forall j, j ∉ l.*1 -> set_waiter_head 0 (slot_ptr r' j) = set_waiter_head 0 (slot_ptr r j)) /\
  Forall (fun io => repr io.2 (slot_ptr r' io.1)) l.

Lemma same_objects_changed r r' : same_objects r r' -> objects_changed r r' [].
Proof. intros Hs. split; [|constructor]. intros j _. apply Hs. Qed.

Lemma moved_objects_changed r0 w w1 r' l :
  same_objects r0 (mem w) -> moved w w1 l -> same_objects (mem w1) r' -> objects_changed r0 r' l.
Proof.
  intros H1 (_&Hs&Ho) H2. split.
  - intros j Hj. by rewrite H2, Hs, H1.
  - eapply Forall_impl; [exact Ho|]. intros io. by apply repr_same_objects.
Qed.

Definition targets (handles : list Z) (alert : Z) : list Z :=
  handles ++ (if alert =? 0 then [] else [alert]).

(** How a locked section may end: satisfied, timed out, the pool exhausted,
    or ready to sleep.  In all but the last the waiter lists are as before. *)
Inductive locked_end (O : Z -> Prop) (owner : Z) (all : bool) (handles : list Z) (objs : list obj) (deadline : option Z)
  (alert : Z) (r : Region) (L : Z -> list Z) (F : list Z) (r' : Region) : locked_result -> Prop :=
| end_satisfied out F' :
    answer_now owner all objs = Some out -> pool_ok r' L F' -> back O r' F' ->
    objects_changed r r' (effect_now owner all handles objs) ->
    locked_end O owner all handles objs deadline alert r L F r' (LockedDone out)
| end_timeout dl F' :
    answer_now owner all objs = None -> deadline = Some dl -> pool_ok r' L F' -> back O r' F' ->
    objects_changed r r' [] ->
    locked_end O owner all handles objs deadline alert r L F r' (LockedDone Timeout)
| end_exhausted F' :
    capacity F r < Z.of_nat (n_nodes handles alert) -> pool_ok r' L F' -> back O r' F' ->
    objects_changed r r' [] ->
    locked_end O owner all handles objs deadline alert r L F r' (LockedDone WaitInvalid)
| end_sleep seq remaining nodes seqs F' :
    answer_now owner all objs = None ->
    pool_ok r' (enlisted (targets handles alert) nodes L) F' -> mine O r' F' nodes ->
    length nodes = n_nodes handles alert -> seq = n_seq (node_ptr r' (arr nodes 0)) ->
    points r' nodes (arr nodes 0) -> seqs_for seqs 0 objs ->
    (remaining = None <-> deadline = None) -> (forall d, remaining = Some d -> 0 < d) ->
    objects_changed r r' [] ->
    locked_end O owner all handles objs deadline alert r L F r' (LockedSleep seq remaining nodes seqs).

Lemma pool_ok_ext r L L' F : (forall i, L' i = L i) -> pool_ok r L F -> pool_ok r L' F.
Proof. intros He [H1 H2 H3 H4]. split; [by eapply lists_ok_ext|done|done|done]. Qed.

Lemma locked_end_equiv O owner all handles objs deadline alert r r1 L F r' r'' res :
  r1 ≡ r -> r'' ≡ r' -> locked_end O owner all handles objs deadline alert r1 L F r' res ->
  locked_end O owner all handles objs deadline alert r L F r'' res.
Proof.
  intros Hr Hr'. assert (forall l, objects_changed r1 r' l -> objects_changed r r'' l) as Hoc.
  { intros l [Ha Hb]. assert (forall j, slot_ptr r'' j = slot_ptr r' j) as S1 by (intros j; by rewrite Hr').
    assert (forall j, slot_ptr r1 j = slot_ptr r j) as S2 by (intros j; by rewrite Hr).
    split; [intros j Hj; rewrite S1, <- S2; by apply Ha|].
    eapply Forall_impl; [exact Hb|]. intros io. by rewrite S1. }
  pose proof (node_fresh_proper _ _ Hr') as Hf.
  intros [out F' Ha Hp Hb Hc|dl F' Ha Hd Hp Hb Hc|F' Hcap Hp Hb Hc|seq rem nodes seqs F' Ha Hp Hm Hl Hs Hpt Hsq H1 H2 Hc].
  - apply (end_satisfied _ _ _ _ _ _ _ _ _ _ _ _ F'); [done|by rewrite Hr'|exact (back_fresh _ _ _ _ Hf Hb)|by apply Hoc].
  - apply (end_timeout _ _ _ _ _ _ _ _ _ _ _ dl F'); [done|done|by rewrite Hr'|exact (back_fresh _ _ _ _ Hf Hb)|by apply Hoc].
  - apply (end_exhausted _ _ _ _ _ _ _ _ _ _ _ F'); [|by rewrite Hr'|exact (back_fresh _ _ _ _ Hf Hb)|by apply Hoc].
    unfold capacity in *. by rewrite <- (node_fresh_proper _ _ Hr).
  - apply (end_sleep _ _ _ _ _ _ _ _ _ _ _ _ _ _ _ F'); try done;
      [by rewrite Hr'|exact (mine_fresh _ _ _ _ _ Hf Hm)| | |by apply Hoc].
    + by rewrite Hs, Hr'.
    + intros n Hn. rewrite <- (Hpt n Hn). by rewrite Hr'.
Qed.

Lemma enlisted_app ts1 : forall ts2 ns1 ns2 L, length ns1 = length ts1 ->
  enlisted (ts1 ++ ts2) (ns1 ++ ns2) L = enlisted ts2 ns2 (enlisted ts1 ns1 L).
Proof.
  induction ts1 as [|t1 ts1 IH]; intros ts2 [|n ns1] ns2 L Hl; try done. simpl in *. apply IH. lia.
Qed.

Lemma enlisted_extra ts : forall ns1 ns2 L, length ns1 = length ts ->
  enlisted ts (ns1 ++ ns2) L = enlisted ts ns1 L.
Proof.
  induction ts as [|t1 ts IH]; intros [|n ns1] ns2 L Hl; try done.
  simpl in *. apply IH. lia.
Qed.

(** Registration of all the targets, the alert last. *)
Lemma register_all_spec b O r0 L F handles alert nodes (Q : unit -> world Region Local G -> Prop) w :
  ready b w -> holding O r0 L F nodes (mem w) -> unregistered (mem w) nodes ->
  length nodes = n_nodes handles alert ->
  (forall h, h ∈ targets handles alert -> s_state (slot_ptr r0 (handle_index h)) = SLOT_USED) ->
  (forall w', ready b w' -> holding O r0 (enlisted (targets handles alert) nodes L) F nodes (mem w') ->
     points (mem w') nodes (arr nodes 0) -> Q tt w') ->
  wp t (register_objects 0 handles nodes (arr nodes 0) ;;;
        when negb (alert =? 0) do
          register_if_needed (arr nodes (length handles)) alert (arr nodes 0)) Q w.
Proof.
  intros Hw Hh Hu Hlen Hused HQ. unfold n_nodes, targets in *.
  apply wp_bind, (register_objects_spec b O r0 F nodes (arr nodes 0) _ handles [] nodes L w);
    [done|done|done|lia|done| |].
  { intros h Hin. apply Hused, elem_of_app. by left. }
  intros w1 Hw1 Hh1 Hu1 Hp1 _. destruct (Z.eqb_spec alert 0) as [Ha|Ha]; cbn [negb].
  { apply wp_ret, HQ; [done|by rewrite app_nil_r|]. rewrite firstn_all2 in Hp1 by lia. done. }
  rewrite <- (take_drop (length handles) nodes) in Hh1 at 1.
  assert (length (take (length handles) nodes) = length handles) as Hl1 by (rewrite length_take; lia).
  rewrite (enlisted_extra _ _ _ _ Hl1) in Hh1.
  destruct (drop (length handles) nodes) as [|n [|n2 rest]] eqn:Ed.
  { apply (f_equal length) in Ed. rewrite length_drop in Ed. simpl in Ed. lia. }
  2: { apply (f_equal length) in Ed. rewrite length_drop in Ed. simpl in Ed. lia. }
  assert (nodes !! length handles = Some n) as Hn.
  { rewrite <- (Nat.add_0_r (length handles)), <- lookup_drop, Ed. done. }
  unfold arr at 1. rewrite (nth_lookup_Some _ _ _ _ Hn).
  apply (register_if_needed_spec b O r0 _ F nodes n alert _ _ _ Hw1 Hh1).
  - by eapply list_elem_of_lookup_2.
  - apply Hu1, list_elem_of_here.
  - destruct (same_head _ _ (hd_same _ _ _ _ _ _ Hh1 (handle_index alert))) as [-> _].
    apply Hused, elem_of_app. right. apply list_elem_of_here.
  - intros w2 Hw2 Hh2 Hothers Hword. apply HQ; [done| |].
    { rewrite <- (take_drop (length handles) nodes) at 1. by rewrite Ed, (enlisted_app _ _ _ _ _ Hl1). }
    intros m Hm. destruct (decide (m = n)) as [->|Hne]; [done|]. rewrite (proj2 (Hothers m Hne)).
    apply Hp1. rewrite <- (take_drop (length handles) nodes), Ed in Hm.
    apply elem_of_app in Hm as [Hm|Hm%list_elem_of_singleton]; done.
Qed.

Lemma names_used r handles objs alert :
  names r handles objs -> alert_quiet r alert ->
  forall h, h ∈ targets handles alert -> s_state (slot_ptr r (handle_index h)) = SLOT_USED.
Proof.
  intros Hn Ha h [Hin|Hin]%elem_of_app.
  - apply list_elem_of_lookup in Hin as [i Hi].
    destruct (Forall2_lookup_l _ _ _ _ _ Hn Hi) as (o & _ & Hl & _). by apply lookup_handle_Some in Hl as (_&?&_).
  - destruct (Z.eqb_spec alert 0); [by apply elem_of_nil in Hin|]. apply list_elem_of_singleton in Hin as ->.
    destruct Ha as [|(i & m & p & Hl & _)]; [done|]. by apply lookup_handle_Some in Hl as (->&?&_).
Qed.

(** The time left until the deadline. *)
Lemma time_left_spec deadline (Q : option (option Z) -> world Region Local G -> Prop) w :
  (forall w' dl, calm w w' -> deadline = Some dl -> Q None w') ->
  (forall w' rem, calm w w' -> (rem = None <-> deadline = None) -> (forall d, rem = Some d -> 0 < d) -> Q (Some rem) w') ->
  wp t (match deadline with
        | Some dl => now <- sys ClockMonotonic ;; Ret (if dl <=? now then None else Some (Some (dl - now)))
        | None => Ret (Some None)
        end) Q w.
Proof.
  intros HN HS. destruct deadline as [dl|].
  - apply wp_bind, wp_quiet; [done|]. intros now w1 Hc. apply wp_ret.
    destruct (Z.leb_spec dl now); [by eapply HN|]. apply HS; [done|by split|]. intros d [= <-]. lia.
  - apply wp_ret, HS; [apply calm_refl|done|done].
Qed.

Lemma effect_none owner all handles objs :
  answer_now owner all objs = None -> effect_now owner all handles objs = [].
Proof.
  unfold effect_now, answer_now. destruct all; [by destruct (all_of owner objs)|].
  by destruct (first_of owner 0 objs).
Qed.

(** Acquiring objects leaves the nodes with the waiter. *)
Lemma moved_holding O r0 L F nodes w1 w2 w3 l :
  holding O r0 L F nodes (mem w1) -> moved w1 w2 l -> mem w3 ≡ mem w2 -> holding O (mem w2) L F nodes (mem w3).
Proof.
  intros Hh Hm Hm3. pose proof (moved_pool_ok _ _ _ _ _ Hm (hd_pool _ _ _ _ _ _ Hh)) as HP2.
  split; [by rewrite Hm3| |by apply same_objects_equiv].
  eapply mine_fresh; [|exact (hd_mine _ _ _ _ _ _ Hh)].
  pose proof (node_fresh_proper _ _ Hm3) as Hf. cbn in Hf. rewrite Hf.
  destruct Hm as ((_&_&_&Hhd&_)&_). by rewrite Hhd.
Qed.

(** With the nodes enlisted: the check and the decision. *)
Lemma check_registered_spec O handles owner deadline all alert nodes seqs objs L L1 F F0 r0 w1 :
  held w1 -> L1 = enlisted (targets handles alert) nodes L -> (forall i, L i = without_all nodes L1 i) ->
  holding O r0 L1 F nodes (mem w1) -> points (mem w1) nodes (arr nodes 0) ->
  length nodes = n_nodes handles alert -> good_wait r0 handles owner objs -> seqs_for seqs 0 objs ->
  wp t (check_registered handles owner deadline all alert nodes seqs) (fun res w' => held w' /\
    locked_end O owner all handles objs deadline alert r0 L F0 (mem w') res) w1.
Proof.
  intros Hw1 HL1 Hback Hh1 Hpt Hlen [Hn Hd Hown Hl] Hs. pose proof (hd_same _ _ _ _ _ _ Hh1) as Hs1.
  eapply wp_frame_bind.
  { apply (try_satisfy_spec Hfuel all handles owner seqs objs w1); try done.
    by eapply names_same_objects. }
  intros got w2 [-> Hm]. pose proof (moved_keeps_ready true _ _ _ Hm Hw1) as Hw2.
  pose proof (fun w3 => moved_holding O r0 L1 F nodes w1 w2 w3 _ Hh1 Hm) as Hh2.
  destruct (answer_now owner all objs) as [out|] eqn:Ean.
  { apply wp_bind, (cleanup_spec true O (mem w2) L1 F nodes); [done|by apply Hh2|].
    intros w3 Hw3 HP3 Hb3 Hs3. apply wp_ret. split; [done|]. eapply end_satisfied; [done| |exact Hb3|].
    - eapply pool_ok_ext; [exact Hback|exact HP3].
    - by eapply moved_objects_changed. }
  rewrite (effect_none _ _ handles _ Ean) in Hm. apply wp_bind, time_left_spec.
  - intros w3 dl Hc Hdl. apply wp_bind, (cleanup_spec true O (mem w2) L1 F nodes); [exact (calm_ready _ _ _ Hc Hw2)| |].
    { apply Hh2, (calm_mem _ _ Hc). }
    intros w4 Hw4 HP4 Hb4 Hs4. apply wp_ret. split; [done|]. eapply end_timeout; [done|done| |exact Hb4|].
    + eapply pool_ok_ext; [exact Hback|exact HP4].
    + by eapply moved_objects_changed.
  - intros w3 rem Hc Hr1 Hr2. apply wp_bind, wp_stat_bump. intros w4 Hc4.
    apply wp_bind, wp_stat_add. intros w5 Hc5. apply wp_bind, wp_read, wp_ret.
    assert (calm w2 w5) as Hc25 by (eapply calm_trans; [exact Hc|by eapply calm_trans]).
    split; [by eapply (calm_ready true)|]. pose proof (Hh2 w5 (calm_mem _ _ Hc25)) as Hh5. subst L1.
    eapply (end_sleep _ _ _ _ _ _ _ _ _ _ _ _ _ _ _ F); try done.
    + apply (hd_pool _ _ _ _ _ _ Hh5).
    + apply (hd_mine _ _ _ _ _ _ Hh5).
    + intros n Hin. rewrite <- (Hpt n Hin). pose proof (calm_mem _ _ Hc25) as Hm5.
      assert (node_ptr (mem w5) n = node_ptr (mem w2) n) as -> by (by rewrite Hm5).
      destruct Hm as ((_&_&Hnodes&_)&_). unfold node_ptr. by rewrite Hnodes.
    + eapply moved_objects_changed; [exact Hs1|exact Hm|]. apply (hd_same _ _ _ _ _ _ Hh5).
Qed.

Lemma register_and_check_spec O handles owner deadline all alert nodes seqs objs L F F0 r0 w :
  held w -> holding O r0 L F nodes (mem w) -> unregistered (mem w) nodes ->
  length nodes = n_nodes handles alert -> good_wait r0 handles owner objs -> alert_quiet r0 alert ->
  seqs_for seqs 0 objs ->
  wp t (register_and_check handles owner deadline all alert nodes seqs) (fun res w' => held w' /\
    locked_end O owner all handles objs deadline alert r0 L F0 (mem w') res) w.
Proof.
  intros Hw Hh Hu Hlen Hg Ha Hs. unfold register_and_check. cbv zeta.
  assert (forall n, n ∈ nodes -> forall i, n ∉ L i) as Hni.
  { intros n Hin i. eapply unregistered_not_listed; [apply (hd_pool _ _ _ _ _ _ Hh)|]. by apply Hu. }
  (* reassociate the two registrations *)
  match goal with |- wp _ (?p ;;; (?q ;;; ?k)) ?Q _ =>
    cut (wp t ((p ;;; q) ;;; k) Q w); [unfold wp; rewrite !run_bind; by destruct (run t p w) as [[] ?]; rewrite ?run_bind|] end.
  apply wp_bind, (register_all_spec true O r0 L F); [done..|by apply (names_used _ _ objs); [apply Hg|]|].
  intros w1 Hw1 Hh1 Hp1. eapply (check_registered_spec _ _ _ _ _ _ _ _ _ L); [done|reflexivity| |done..].
  intros i. symmetry. apply without_all_enlisted; [done|]. intros n Hin. by apply Hni.
Qed.

Lemma good_wait_same r r' handles owner objs :
  same_objects r r' -> good_wait r handles owner objs -> good_wait r' handles owner objs.
Proof. intros Hs [H1 H2 H3 H4]. split; try done. by eapply names_same_objects. Qed.

Lemma locked_body_spec O handles owner deadline all alert seqs objs L F w :
  held w -> pool_ok (mem w) L F -> back O (mem w) F ->
  good_wait (mem w) handles owner objs -> alert_quiet (mem w) alert -> length seqs = 64%nat ->
  wp t (locked_body handles owner deadline all alert [] seqs) (fun res w' => held w' /\
    locked_end O owner all handles objs deadline alert (mem w) L F (mem w') res) w.
Proof.
  intros Hw HP Hb Hg Ha Hlen. pose proof Hg as [Hn Hd Hown Hl]. unfold locked_body.
  eapply wp_frame_bind.
  { apply (validate_spec handles objs 0 seqs); [done|]. unfold MAX_WAIT_COUNT in Hl. lia. }
  intros [ok seqs'] w1 (-> & Hok & _ & _ & Hs). cbn [fst snd] in *. subst ok.
  eapply wp_frame_bind; [by apply alert_valid_spec|]. intros valid w1 [-> ->]. cbn [negb].
  eapply wp_frame_bind; [by apply alert_fired_spec|]. intros fired w1 [-> ->].
  cbn [length Nat.eqb]. apply wp_bind.
  apply (alloc_nodes_spec true O (mem w) L _ _ [] F w); [done| | | |].
  - split; [done| |done]. by apply mine_none.
  - by intros n ?%elem_of_nil.
  - cbn [app]. intros ns F' w1 Hw1 Hh1 Hu1 Hl1.
    by apply (register_and_check_spec O _ _ _ _ _ _ _ objs L F' F (mem w)).
  - intros F' ns w1 Hw1 HP1 Hb1 Hni Hs1 Hcap. apply wp_ret. split; [done|].
    eapply end_exhausted; [exact Hcap| |exact Hb1|].
    + eapply pool_ok_ext; [|exact HP1]. intros i. symmetry.
      apply (without_all_enlisted ns [] [] L i); [by intros n ?%elem_of_nil|].
      intros n Hin. by apply Hni.
    + by apply same_objects_changed.
Qed.

(** The lock is taken, the body runs, the lock is released. *)
Lemma in_guard O handles owner deadline all alert nodes seqs objs L F w :
  idle w ->
  (forall w1, mem w1 ≡ mem w -> held w1 ->
    wp t (locked_body handles owner deadline all alert nodes seqs) (fun res w' => held w' /\
      locked_end O owner all handles objs deadline alert (mem w1) L F (mem w') res) w1) ->
  wp t (locked_section handles owner deadline all alert nodes seqs) (fun res w' => idle w' /\
    locked_end O owner all handles objs deadline alert (mem w) L F (mem w') res) w.
Proof.
  intros Hw Hb. unfold locked_section.
  apply wp_bind, lock_guard_spec; [lia|done|]. intros mask w1 Hm1 Hw1. cbn iota.
  eapply wp_frame_bind; [by apply Hb|]. intros res w2 [Hw2 He].
  apply wp_bind, guard_drop_spec; [done|]. intros w3 Hm3 Hw3.
  apply wp_ret. split; [done|]. by eapply locked_end_equiv.
Qed.

(** The blocking half of a wait on live objects. *)
Lemma locked_section_spec O handles owner deadline all alert seqs objs L F w :
  idle w -> pool_ok (mem w) L F -> back O (mem w) F ->
  good_wait (mem w) handles owner objs -> alert_quiet (mem w) alert -> length seqs = 64%nat ->
  wp t (locked_section handles owner deadline all alert [] seqs) (fun res w' => idle w' /\
    locked_end O owner all handles objs deadline alert (mem w) L F (mem w') res) w.
Proof.
  intros Hw HP Hb Hg Ha Hlen. apply in_guard; [done|]. intros w1 Hm1 Hw1.
  apply (locked_body_spec O handles owner deadline all alert seqs objs L F w1); [done| | | | |done].
  - by rewrite Hm1.
  - eapply back_fresh; [|exact Hb]. exact (node_fresh_proper _ _ Hm1).
  - eapply good_wait_same; [by apply same_objects_equiv|done].
  - eapply alert_same_objects; [by apply same_objects_equiv|done].
Qed.

(** *** Back after a sleep: the nodes are kept, the objects looked at again *)
Lemma validate_again handles objs nodes seqs : forall i w,
  names (mem w) handles objs -> nodes <> [] ->
  wp t (validate i handles nodes seqs) (fun res w' => w' = w /\ res = (true, seqs)) w.
Proof.
  intros i w Hn Hne. revert i. induction Hn as [|h o hs os [Hh Ho] _ IH]; intros i.
  { by apply wp_ret. }
  cbn [validate]. apply wp_bind, wp_slot. rewrite Hh. apply wp_bind, wp_read.
  rewrite (proj1 Ho), obj_waitable. destruct nodes as [|n nodes]; [done|]. cbn [negb length Nat.eqb andb].
  apply wp_bind, wp_ret, IH.
Qed.

(** None is allocated: [F0], the free nodes a failed allocation would have
    seen, is arbitrary. *)
Lemma locked_body_again O handles owner deadline all alert nodes seqs objs L F F0 w :
  held w -> holding O (mem w) L F nodes (mem w) -> unregistered (mem w) nodes ->
  length nodes = n_nodes handles alert -> good_wait (mem w) handles owner objs ->
  alert_quiet (mem w) alert -> seqs_for seqs 0 objs ->
  wp t (locked_body handles owner deadline all alert nodes seqs) (fun res w' => held w' /\
    locked_end O owner all handles objs deadline alert (mem w) L F0 (mem w') res) w.
Proof.
  intros Hw Hh Hu Hlen Hg Ha Hs. pose proof (gw_some _ _ _ _ Hg) as Hl.
  assert (0 < length nodes)%nat as Hpos by (unfold n_nodes in Hlen; lia).
  assert (nodes <> []) as Hne by (intros ->; simpl in Hpos; lia).
  unfold locked_body. eapply wp_frame_bind; [apply (validate_again _ objs); [apply Hg|done]|].
  intros vs w1 [-> ->]. cbn [fst snd].
  eapply wp_frame_bind; [by apply alert_valid_spec|]. intros valid w1 [-> ->]. cbn [negb].
  eapply wp_frame_bind; [by apply alert_fired_spec|]. intros fired w1 [-> ->].
  rewrite (proj2 (Nat.eqb_neq (length nodes) 0)) by lia. apply wp_bind, wp_ret.
  by apply (register_and_check_spec O _ _ _ _ _ _ _ objs L F F0 (mem w)).
Qed.

Lemma locked_section_again O handles owner deadline all alert nodes seqs objs L F F0 w :
  idle w -> pool_ok (mem w) L F -> mine O (mem w) F nodes -> unregistered (mem w) nodes ->
  length nodes = n_nodes handles alert -> good_wait (mem w) handles owner objs ->
  alert_quiet (mem w) alert -> seqs_for seqs 0 objs ->
  wp t (locked_section handles owner deadline all alert nodes seqs) (fun res w' => idle w' /\
    locked_end O owner all handles objs deadline alert (mem w) L F0 (mem w') res) w.
Proof.
  intros Hw HP Hm Hu Hlen Hg Ha Hs. apply in_guard; [done|]. intros w1 Hmem Hw1.
  pose proof (same_objects_equiv _ _ Hmem) as Hso.
  apply (locked_body_again O handles owner deadline all alert nodes seqs objs L F F0 w1); try done.
  - split; [by rewrite Hmem| |done]. eapply mine_fresh; [|exact Hm]. exact (node_fresh_proper _ _ Hmem).
  - intros n Hn. rewrite Hmem. by apply Hu.
  - by eapply good_wait_same.
  - by eapply alert_same_objects.
Qed.

(** C10: The blocking half of a wait on live objects, from one node per
    object taken to the decision to sleep, ends in one of four ways.  Either
    it is satisfied (the same answer and the same effect as lock-free), or
    the deadline has passed, or the node pool is exhausted: then every waiter
    list is what it was and the nodes handed out are exactly those that were
    handed out before, so that each node it took can be handed out again.  Or
    it is to sleep: then no object can be acquired, it has taken nodes that
    nobody held, exactly these are enlisted, one at the head of each object's
    list (and the alert's), what else is handed out is what was before, and
    the futex value to sleep on was read after that.  The lock is released
    in all four. *)
Theorem locked_section_ends handles owner deadline all alert seqs objs L F w :
  idle w -> pool_ok (mem w) L F -> good_wait (mem w) handles owner objs -> alert_quiet (mem w) alert ->
  length seqs = 64%nat ->
  wp t (locked_section handles owner deadline all alert [] seqs) (fun res w' => idle w' /\
    locked_end (owned (mem w) F) owner all handles objs deadline alert (mem w) L F (mem w') res) w.
Proof. intros. by apply locked_section_spec. Qed.
End block.
