(* ===== verification/Steady.v ===== *)
(** * Steady: the count of wait calls between two sweeps

    A wait sweeps the table for dead processes only at every 256th call of a
    thread; the count is thread-local.  No phase of a wait but
    [auto_sweep_dead] moves it. *)
From S2P Require Import Prelude Prog Config Region Kernel Lock Nodes Policy Sweep Objects Wait.

(** Whatever memory and kernel answer, the count stays. *)
Fixpoint steady {A} (p : action A) : Prop :=
  match p with
  | Ret _ | Panic | OutOfFuel => True
  | Mem f k => forall b, steady (k b)
  | Loc f k => forall l, l_calls (snd (f l)) = l_calls l /\ steady (k (fst (f l)))
  | Sys c k => forall z, steady (k z)
  end.

Lemma steady_bind {A B} (p : action A) (q : A -> action B) :
  steady p -> (forall a, steady (q a)) -> steady (bind p q).
Proof.
  intros Hp Hq. induction p as [a|B' f k IH|B' f k IH|c k IH| |]; simpl in *; auto.
  intros l. destruct (Hp l). auto.
Qed.

Section run.
Context {G : Type} `{!Kernel Region G} (t : nat).

Lemma steady_run {A} (p : action A) : forall (w w' : world Region Local G) a,
  steady p -> run t p w = (Done a, w') -> l_calls (loc w') = l_calls (loc w).
Proof.
  induction p as [a0|B' f k IH|B' f k IH|c k IH| |]; intros w w' a Hp Hr; simpl in Hr, Hp; try done.
  - by simplify_eq.
  - by apply IH in Hr.
  - destruct (Hp (loc w)) as [H1 H2]. apply IH in Hr; [|done]. simpl in Hr. congruence.
  - destruct (kcall t c (mem w) (ker w)); [|done..]. by apply IH in Hr.
Qed.

Lemma wp_steady {A} (p : action A) (Q : A -> world Region Local G -> Prop) w :
  steady p -> wp t p Q w -> wp t p (fun a w' => Q a w' /\ l_calls (loc w') = l_calls (loc w)) w.
Proof.
  intros Hp. unfold wp. destruct (run t p w) as [[] w'] eqn:E; try done.
  intros HQ. split; [done|]. by eapply steady_run.
Qed.
End run.

Create HintDb steady.

(** One step into a steady program. *)
Ltac steady1 :=
  match goal with
  | |- steady (bind _ _) => apply steady_bind
  | |- steady (Ret _) => exact I
  | |- steady Panic => exact I
  | |- steady OutOfFuel => exact I
  | |- steady (mem_read _) => by intros ?
  | |- steady (mem_do _) => by intros ?
  | |- steady (mem_write _) => by intros ?
  | |- steady (sys _) => by intros ?
  | |- steady (stat_add _ _) => by intros ?
  | |- steady (stat_bump _) => by intros ?
  | |- forall _, steady _ => intros ?
  | |- steady (match ?x with _ => _ end) => destruct x
  | |- steady _ => solve [auto with steady nocore]
  end.
Ltac steadies := cbv zeta; repeat steady1.

Section phases.
Context `{!Config}.

Lemma lock_guard_steady : steady lock_guard.
Proof.
  unfold lock_guard. apply steady_bind; [steadies|]. intros mask.
  generalize 0. generalize loop_fuel. intros n. induction n as [|n IH]; intros tries; cbn [lock_loop]; steadies.
Qed.

Lemma guard_drop_steady mask : steady (guard_drop mask).
Proof. unfold guard_drop. steadies. Qed.
Hint Resolve lock_guard_steady guard_drop_steady : steady.

Lemma if_lock_steady body : steady body -> steady (if_lock body).
Proof. intros Hb. unfold if_lock. steadies. Qed.

Lemma slot_steady h : steady (slot h).
Proof. unfold slot, ld_state, ld_generation. steadies. Qed.
Hint Resolve slot_steady : steady.

Lemma cas_steady i old new : steady (cas64 i old new).
Proof. unfold cas64. steadies. Qed.
Hint Resolve cas_steady : steady.

(** A compare-and-swap loop. *)
Ltac loop n := induction n as [|n IH]; intros;
  cbn [acquire_sem acquire_mutex claim_event rollback_sem rollback_mutex rollback_event];
  unfold ld_w0, ld_d; steadies.

Lemma acquire_sem_steady n i : steady (acquire_sem n i).
Proof. revert i. loop n. Qed.
Lemma acquire_mutex_steady n i owner : steady (acquire_mutex n i owner).
Proof. revert i owner. loop n. Qed.
Lemma claim_event_steady n i : steady (claim_event n i).
Proof. revert i. loop n. Qed.
Lemma rollback_sem_steady n i : steady (rollback_sem n i).
Proof. revert i. loop n. Qed.
Lemma rollback_mutex_steady n i owner od : steady (rollback_mutex n i owner od).
Proof. revert i. loop n. Qed.
Lemma rollback_event_steady n i : steady (rollback_event n i).
Proof. revert i. loop n. Qed.
Hint Resolve acquire_sem_steady acquire_mutex_steady claim_event_steady
  rollback_sem_steady rollback_mutex_steady rollback_event_steady : steady.

Lemma try_acquire_steady i owner seq : steady (try_acquire i owner seq).
Proof. unfold try_acquire, acquire_event, pulse_check, ld_obj_type, ld_w0, ld_d. steadies. Qed.

Lemma rollback_acquire_steady i owner od : steady (rollback_acquire i owner od).
Proof. unfold rollback_acquire, ld_obj_type. steadies. Qed.
Hint Resolve try_acquire_steady rollback_acquire_steady : steady.

Lemma rollback_all_steady acquired owner : steady (rollback_all acquired owner).
Proof. induction acquired as [|[i od] acquired IH]; cbn [rollback_all]; steadies. Qed.
Hint Resolve rollback_all_steady : steady.

Lemma try_satisfy_steady handles owner seqs all : steady (try_satisfy handles owner seqs all).
Proof.
  unfold try_satisfy. destruct (negb all).
  - generalize 0%nat. induction handles as [|h hs IH]; intros k; cbn [satisfy_any]; steadies.
  - generalize (@nil (Z * bool)) 0%nat false.
    induction handles as [|h hs IH]; intros acq k d; cbn [satisfy_all]; steadies.
Qed.

Lemma alert_valid_steady alert : steady (alert_valid alert).
Proof. unfold alert_valid, ld_obj_type. steadies. Qed.
Lemma alert_fired_steady alert : steady (alert_fired alert).
Proof. unfold alert_fired, ld_w0. steadies. Qed.
Hint Resolve try_satisfy_steady alert_valid_steady alert_fired_steady : steady.

Lemma fast_objects_steady handles : forall k seqs, steady (fast_objects k handles seqs).
Proof.
  induction handles as [|h hs IH]; intros k seqs; cbn [fast_objects]; unfold ld_obj_type, ld_d; steadies.
Qed.
Hint Resolve fast_objects_steady : steady.

Lemma fast_path_steady handles owner timeout all alert : steady (fast_path handles owner timeout all alert).
Proof. unfold fast_path. steadies. Qed.

Lemma cleanup_steady nodes : steady (cleanup nodes).
Proof. unfold cleanup. steadies. Qed.
Hint Resolve cleanup_steady : steady.

Lemma validate_steady handles nodes : forall k seqs, steady (validate k handles nodes seqs).
Proof.
  induction handles as [|h hs IH]; intros k seqs; cbn [validate]; unfold ld_obj_type, ld_d; steadies.
Qed.

Lemma alloc_nodes_steady n : forall nodes, steady (alloc_nodes n nodes).
Proof.
  induction n as [|n IH]; intros nodes; cbn [alloc_nodes]; unfold node_alloc; steadies.
Qed.

Lemma register_if_needed_steady node h head : steady (register_if_needed node h head).
Proof. unfold register_if_needed. steadies. Qed.
Hint Resolve validate_steady alloc_nodes_steady register_if_needed_steady : steady.

Lemma register_objects_steady handles nodes head : forall k, steady (register_objects k handles nodes head).
Proof. induction handles as [|h hs IH]; intros k; cbn [register_objects]; steadies. Qed.
Hint Resolve register_objects_steady : steady.

Lemma locked_section_steady handles owner deadline all alert nodes seqs :
  steady (locked_section handles owner deadline all alert nodes seqs).
Proof.
  unfold locked_section, locked_body, register_and_check, check_registered. steadies.
  all: apply if_lock_steady; steadies.
Qed.

Lemma is_locked_steady i owner seq : steady (is_locked i owner seq).
Proof. unfold is_locked, ld_w0, ld_obj_type, ld_d. steadies. Qed.
Hint Resolve is_locked_steady : steady.

Lemma spin_peek_steady handles owner seqs all : steady (spin_peek handles owner seqs all).
Proof.
  unfold spin_peek. generalize 0%nat. intros k. apply steady_bind.
  - revert k. induction handles as [|h hs IH]; intros k; cbn [any_locked]; steadies.
  - intros b. destruct b; [|steadies]. destruct (negb all); [steadies|].
    revert k. induction handles as [|h hs IH]; intros k; cbn [all_locked]; steadies.
Qed.
Hint Resolve spin_peek_steady : steady.

Lemma spin_phase_steady handles owner all alert nodes seqs :
  steady (spin_phase handles owner all alert nodes seqs).
Proof.
  unfold spin_phase, spin_budget, spin_credit_penalize. apply steady_bind.
  { destruct (_ =? 0); [steadies|]. intros l. split; [|exact I].
    unfold spin_budget_step. by destruct (0 <? _). }
  intros spin. destruct (0 <? spin); [|steadies]. apply steady_bind.
  - induction (Z.to_nat spin) as [|n IH]; cbn [spin_loop]; unfold spin_credit_reward; steadies.
    all: try (by intros l). all: try (apply if_lock_steady; steadies).
  - intros []; steadies. by intros l.
Qed.
End phases.
