(* ===== verification/Sleep.v ===== *)
(** * Sleep: a thread that sleeps in a futex, and one that wakes it

    What the library relies on from futexes ([SleepKernel]), and the two
    halves of a wake-up: [wps] describes a program up to the point where it
    falls asleep, and [paired] says of a program that it follows every bump of
    a futex word with a wake-up of that word, so that a sleeper whose word
    moved was woken ([paired_wakes]). *)
From S2P Require Import Prelude Prog Config Region Kernel Lock Nodes Init Slots Objects.

(** ** The interface *)

(** Thread [t0] may sleep, thread [t1] runs meanwhile. *)
Class SleepKernel (G : Type) `{!Kernel Region G} (t0 t1 : nat)
  `{!QuietKernel G t0} `{!QuietKernel G t1} : Type := {
  k_asleep : Z -> bool -> G -> Prop;   (* [t0] is in a wait on this node; was it woken? *)
  law_enter node m g : k_lock (t := t0) false g -> exists g',
    kcall t0 (FutexWait node (n_seq (node_ptr m node)) None) m g = Sleep g' /\
    k_asleep node false g' /\ k_lock (t := t1) false g';
  law_blocked node e m g : k_asleep node false g -> kcall t0 (FutexWait node e None) m g = Block;
  law_resume node e m g : k_asleep node true g -> k_lock (t := t1) false g -> exists g',
    kcall t0 (FutexWait node e None) m g = Answer 0 g' /\ k_lock (t := t0) false g';
  law_keep c node b m g z g' : (forall n e d, c <> FutexWait n e d) -> c <> FutexWake node ->
    kcall t1 c m g = Answer z g' -> k_asleep node b g -> k_asleep node b g';
  law_wake node b m g z g' :
    kcall t1 (FutexWake node) m g = Answer z g' -> k_asleep node b g -> k_asleep node true g';
}.

(** ** Up to the sleep *)
Section wps.
Context {G : Type} `{!Kernel Region G} (t : nat).
Implicit Types (w : world Region Local G).

Lemma advance_bind {A B} (p : action A) (q : A -> action B) w :
  advance t (bind p q) w =
  match (advance t p w).1 with
  | Ret a => advance t (q a) (advance t p w).2
  | p' => (bind p' q, (advance t p w).2)
  end.
Proof.
  revert w. induction p as [a|B' f k IH|B' f k IH|c k IH| |]; intros w; simpl; auto.
  destruct (kcall t c (mem w) (ker w)); simpl; auto.
Qed.

Lemma wp_advance {A} (p : action A) (Q : A -> world Region Local G -> Prop) w :
  wp t p Q w -> exists a w', advance t p w = (Ret a, w') /\ Q a w'.
Proof.
  unfold wp. rewrite run_advance. destruct (advance t p w) as [[] w']; simpl; try done. eauto.
Qed.

(** [p] falls asleep, waiting for node [n] to move from [e]; [k] is what it
    does with the answer. *)
Definition wps {A} (p : action A)
  (S : Z -> Z -> (Z -> action A) -> world Region Local G -> Prop) w : Prop :=
  exists n e k w', advance t p w = (Sys (FutexWait n e None) k, w') /\ S n e k w'.

Lemma wps_bind {A B} (p : action A) (q : A -> action B) P S w :
  wp t p P w -> (forall a w', P a w' -> wps (q a) S w') -> wps (bind p q) S w.
Proof.
  intros (a & w1 & E & HP)%wp_advance Hq. destruct (Hq a w1 HP) as (n & e & k & w2 & E2 & HS).
  exists n, e, k, w2. split; [|done]. by rewrite advance_bind, E.
Qed.

Lemma wps_frame {A B} (p : action A) (q : A -> action B) S w :
  wps p (fun n e k => S n e (fun z => bind (k z) q)) w -> wps (bind p q) S w.
Proof.
  intros (n & e & k & w' & E & HS). exists n, e, (fun z => bind (k z) q), w'. split; [|done].
  by rewrite advance_bind, E.
Qed.

Lemma wps_futex n e (S : Z -> Z -> (Z -> action Z) -> world Region Local G -> Prop) w g' :
  kcall t (FutexWait n e None) (mem w) (ker w) = Sleep g' ->
  S n e Ret (World (mem w) (loc w) g') -> wps (sys (FutexWait n e None)) S w.
Proof. intros E HS. eexists n, e, Ret, _. split; [|exact HS]. simpl. by rewrite E. Qed.
End wps.

(** ** Time

    [k_now] is a clock that no system call turns back and that a read of
    CLOCK_MONOTONIC answers. *)
Section clock.
Context {G : Type} `{!Kernel Region G} (t : nat).
Implicit Types (w : world Region Local G).

Record clock_laws (k_now : G -> Z) : Prop := {
  cl_mono c m g z g' : kcall t c m g = Answer z g' -> k_now g <= k_now g';
  cl_read m g z g' : kcall t ClockMonotonic m g = Answer z g' -> k_now g <= z <= k_now g';
}.

(** No clock went back. *)
Definition time_passes w w' : Prop := forall k_now, clock_laws k_now -> k_now (ker w) <= k_now (ker w').

Lemma time_refl w : time_passes w w.
Proof. intros k _. lia. Qed.

Lemma time_trans w1 w2 w3 : time_passes w1 w2 -> time_passes w2 w3 -> time_passes w1 w3.
Proof. intros H1 H2 k Hk. specialize (H1 k Hk). specialize (H2 k Hk). lia. Qed.

Lemma run_time {A} (p : action A) : forall w w' a, run t p w = (Done a, w') -> time_passes w w'.
Proof.
  induction p as [a0|B' f k IH|B' f k IH|c k IH| |]; intros w w' a Hr; simpl in Hr; try done.
  - simplify_eq. apply time_refl.
  - by apply IH in Hr.
  - by apply IH in Hr.
  - destruct (kcall t c (mem w) (ker w)) as [z g|g|] eqn:E; [|done..].
    eapply time_trans; [|by eapply IH]. intros k' Hk. by eapply (cl_mono _ Hk).
Qed.

Lemma wp_time {A} (p : action A) (Q : A -> world Region Local G -> Prop) w :
  wp t p Q w -> wp t p (fun a w' => Q a w' /\ time_passes w w') w.
Proof.
  unfold wp. destruct (run t p w) as [[] w'] eqn:E; try done. intros HQ. split; [done|]. by eapply run_time.
Qed.

(** [Q] of the answer, if [P] of every value the clock told. *)
Fixpoint told (P : Z -> Prop) {A} (Q : A -> Prop) (p : action A) : Prop :=
  match p with
  | Ret a => Q a
  | Mem f k => forall b, told P Q (k b)
  | Loc f k => forall b, told P Q (k b)
  | Sys c k => forall z, (c = ClockMonotonic -> P z) -> told P Q (k z)
  | Panic | OutOfFuel => True
  end.

Lemma told_bind P {A B} (Q : B -> Prop) (p : action A) (q : A -> action B) :
  (forall a, told P Q (q a)) -> told P Q (bind p q).
Proof. intros Hq. induction p; simpl; auto. Qed.

Lemma told_seq P {A B} (T : A -> Prop) (Q : B -> Prop) (p : action A) (q : A -> action B) :
  told P T p -> (forall a, T a -> told P Q (q a)) -> told P Q (bind p q).
Proof. intros Hp Hq. induction p; simpl in *; auto. Qed.

Lemma run_told {A} (p : action A) (Q : A -> Prop) k_now : clock_laws k_now -> forall lo w w' a,
  lo <= k_now (ker w) -> run t p w = (Done a, w') ->
  told (fun z => lo <= z <= k_now (ker w')) Q p -> Q a.
Proof.
  intros Hk lo. induction p as [a0|B' f k IH|B' f k IH|c k IH| |]; intros w w' a Hlo Hr Hp; simpl in Hr, Hp; try done.
  - by simplify_eq.
  - eapply IH; [|exact Hr|]; done.
  - eapply IH; [|exact Hr|]; done.
  - destruct (kcall t c (mem w) (ker w)) as [z g|g|] eqn:E; [|done..].
    pose proof (cl_mono _ Hk _ _ _ _ _ E). eapply IH; [|exact Hr|]; [cbn [ker]; lia|]. apply Hp.
    intros ->. pose proof (cl_read _ Hk _ _ _ _ E). pose proof (run_time _ _ _ _ Hr _ Hk). cbn [ker] in *. lia.
Qed.

Lemma wp_told {A} (p : action A) (T : (Z -> Prop) -> A -> Prop) (Q : A -> world Region Local G -> Prop) w :
  (forall P, told P (T P) p) -> wp t p Q w ->
  wp t p (fun a w' => Q a w' /\ forall k_now, clock_laws k_now ->
    T (fun z => k_now (ker w) <= z <= k_now (ker w')) a) w.
Proof.
  intros Hp. unfold wp. destruct (run t p w) as [[] w'] eqn:E; try done. intros HQ. split; [done|].
  intros k Hk. apply (run_told p _ k Hk (k (ker w)) w w'); [lia|exact E|apply Hp].
Qed.

(** A step of a sequence that returns. *)
Lemma advance_wp {A B} (p : action A) (q : A -> action B) (P : A -> world Region Local G -> Prop) w :
  wp t p P w -> exists a w', P a w' /\ advance t (bind p q) w = advance t (q a) w'.
Proof.
  intros (a & w' & E & HP)%wp_advance. exists a, w'. split; [done|]. by rewrite advance_bind, E.
Qed.

Lemma wp_of_advance {A} (p q : action A) (Q : A -> world Region Local G -> Prop) w w' :
  advance t p w = advance t q w' -> wp t q Q w' -> wp t p Q w.
Proof. unfold wp. rewrite !run_advance. by intros ->. Qed.
End clock.

(** ** Turns

    One thread of a pool runs as far as it gets. *)
Section turns.
Context {G : Type} `{!Kernel Region G} {A : Type}.

Definition let_run (t : nat) (s : pool Region Local G A) : pool Region Local G A :=
  match threads s !! t with
  | Some th =>
      let '(p, w) := advance t (code th) (World (pmem s) (tls th) (pker s)) in
      Pool (mem w) (ker w) (<[t := Thread p (loc w)]> (threads s))
  | None => s
  end.

(** It is an execution of the pool. *)
Lemma let_run_steps t (s : pool Region Local G A) : steps s (let_run t s).
Proof.
  unfold let_run. destruct (threads s !! t) as [[p l]|] eqn:E; [|constructor].
  destruct (advance t _ _) as [p' w'] eqn:Ha. destruct s as [m g ths].
  by eapply advance_steps.
Qed.

Lemma let_run_eq t (s : pool Region Local G A) p l p' w' :
  threads s !! t = Some (Thread p l) -> advance t p (World (pmem s) l (pker s)) = (p', w') ->
  let_run t s = Pool (mem w') (ker w') (<[t := Thread p' (loc w')]> (threads s)).
Proof. intros E Ha. unfold let_run. rewrite E. cbn [code tls]. by rewrite Ha. Qed.

(** A call that the kernel does not let go on. *)
Lemma blocked_step t (s : pool Region Local G A) c k l :
  threads s !! t = Some (Thread (Sys c k) l) -> kcall t c (pmem s) (pker s) = Block -> pool_step t s = None.
Proof. intros E Hb. unfold pool_step, thread_step. rewrite E. cbn [code]. by rewrite Hb. Qed.
End turns.

(** ** Bumps and wake-ups *)
Section paired.
Context (nd : Z).

(** The futex word of [nd] stays. *)
Definition still (m m' : Region) : Prop := n_seq (node_ptr m' nd) = n_seq (node_ptr m nd).

Definition waits (c : syscall) : bool := match c with FutexWait _ _ _ => true | _ => false end.
Definition wakes (c : syscall) : bool := match c with FutexWake n => n =? nd | _ => false end.

(** The region is mapped, so that nothing initialises it. *)
Definition mapped (l : Local) : Prop := l_region l = Some (Ok tt).

(** Every change of the word is followed by a wake-up before the end. *)
Fixpoint paired {A} (pending : bool) (p : action A) : Prop :=
  match p with
  | Ret _ => pending = false
  | Mem f k => forall m,
      still m (snd (f m)) /\ paired pending (k (fst (f m))) \/ paired true (k (fst (f m)))
  | Loc f k => forall l, mapped l -> mapped (snd (f l)) /\ paired pending (k (fst (f l)))
  | Sys c k => waits c = false /\ forall z, paired (pending && negb (wakes c)) (k z)
  | Panic | OutOfFuel => True
  end.

Lemma paired_bind {A B} b (p : action A) (q : A -> action B) :
  paired b p -> (forall a, paired false (q a)) -> paired b (bind p q).
Proof.
  intros Hp Hq. revert b Hp. induction p as [a|B' f k IH|B' f k IH|c k IH| |]; intros b Hp; simpl in *; auto.
  - subst. apply Hq.
  - intros m. destruct (Hp m) as [[H1 H2]|H]; [left; auto|right; auto].
  - intros l Hl. destruct (Hp l Hl). auto.
  - destruct Hp as [Hc Hp]. auto.
Qed.

(** *** The signal operations are paired *)
Lemma paired_ret {A} (a : A) : paired false (Ret a).
Proof. done. Qed.

Lemma paired_do {A} (f : Region -> A * Region) : (forall m, still m (snd (f m))) -> paired false (mem_do f).
Proof. intros Hf m. left. by split. Qed.

Lemma paired_read {A} (f : Region -> A) : paired false (mem_read f).
Proof. intros m. left. by split. Qed.

Lemma paired_write f : (forall m, still m (f m)) -> paired false (mem_write f).
Proof. intros Hf m. left. by split. Qed.

Lemma paired_loc {A} (f : Local -> A * Local) : (forall l, mapped l -> mapped (snd (f l))) -> paired false (loc_do f).
Proof. intros Hf l Hl. split; [by apply Hf|done]. Qed.

Lemma paired_sys c : waits c = false -> paired false (sys c).
Proof. by split. Qed.

Lemma paired_stat i n : paired false (stat_add i n).
Proof. by apply paired_loc. Qed.

(** With the region mapped, [region] answers at once. *)
Lemma paired_region `{!Config} {A} (q : result unit Error -> action A) :
  paired false (q (Ok tt)) -> paired false (bind region q).
Proof.
  intros Hq l Hl. split; [by destruct l; unfold mapped in *; simpl in *; subst|].
  destruct l as [[[[]|]|]]; try done. cbn. intros l Hl2. split; [done|].
  by destruct l as [[[[]|]|]].
Qed.

Lemma upd_node_still idx f r : (forall n, n_seq (f n) = n_seq n) -> still r (upd_node idx f r).
Proof. intros Hf. unfold still. rewrite node_ptr_upd_node. by destruct (decide _) as [->|]. Qed.

Lemma detach_still idx r : still r (node_detach idx r).
Proof.
  unfold node_detach. destruct (_ =? 0); [done|]. cbn zeta. unfold still.
  rewrite upd_node_still by done.
  destruct (negb (n_obj_next _ =? NIL)); [rewrite upd_node_still by done|].
  all: destruct (n_obj_prev _ =? NIL); [done|by rewrite upd_node_still].
Qed.

(** One step into a paired program. *)
Ltac pair1 :=
  match goal with
  | |- paired _ (bind region _) => apply paired_region
  | |- paired _ (bind _ _) => apply paired_bind
  | |- paired _ (Ret _) => apply paired_ret
  | |- paired _ (mem_read _) => apply paired_read
  | |- paired _ (mem_do _) => apply paired_do
  | |- paired _ (mem_write _) => apply paired_write
  | |- paired _ (stat_add _ _) => apply paired_stat
  | |- paired _ (stat_bump _) => apply paired_stat
  | |- paired _ (sys _) => by apply paired_sys
  | |- paired _ Panic => done
  | |- paired _ OutOfFuel => done
  | |- forall _ : Region, still _ _ => intros ?
  | |- forall _, paired _ _ => intros ?
  | |- still _ (node_detach _ _) => apply detach_still
  | |- still _ (upd_node _ _ _) => by apply upd_node_still
  | |- still _ _ => done
  | |- paired _ (match ?x with _ => _ end) => destruct x
  end.
Ltac pairs := repeat pair1.

Section signals.
Context `{!Config}.

Lemma paired_cas i old new : paired false (cas64 i old new).
Proof. unfold cas64, cas_w0_step. pairs. unfold still. simpl. by destruct (_ =? old). Qed.

Lemma paired_slot h : paired false (slot h).
Proof. unfold slot. cbv zeta. unfold ld_state, ld_generation. pairs. Qed.

Lemma paired_typed ty h : paired false (typed_slot ty h).
Proof. unfold typed_slot, ld_obj_type. apply paired_bind; [apply paired_slot|]. pairs. Qed.

Lemma paired_lock_loop n : forall mask tries, paired false (lock_loop n mask tries).
Proof.
  induction n as [|n IH]; intros mask tries; cbn [lock_loop]; [done|]. cbv zeta.
  apply paired_bind; [pairs|]. intros ret. destruct (_ || _); [pairs|].
  destruct (_ =? _); [apply IH|]. destruct (negb _); [pairs|apply IH].
Qed.

Lemma paired_if_lock body : paired false body -> paired false (if_lock body).
Proof.
  intros Hb. unfold if_lock, lock_guard. apply paired_bind.
  { apply paired_bind; [pairs|]. intros mask. apply paired_lock_loop. }
  intros [mask|]; [|done]. apply paired_bind; [done|]. intros _. unfold guard_drop. pairs.
Qed.

(** The bump and the wake-up of one waiter. *)
Lemma paired_wake_node word : paired false (wake_node word).
Proof.
  unfold wake_node. apply paired_bind; [pairs|]. intros _ m.
  destruct (decide (word = nd)) as [->|Hne]; [right|left].
  - split; [done|]. intros z. simpl. by rewrite Z.eqb_refl.
  - split; [|split; [done|by intros z]]. unfold still. simpl.
    by rewrite node_ptr_upd_node, decide_False.
Qed.

Lemma paired_wake_loop n : forall idx, paired false (wake_loop n idx).
Proof.
  induction n as [|n IH]; intros idx; cbn [wake_loop]; [done|]. destruct (_ =? _); [done|].
  apply paired_bind; [pairs|]. intros nw. apply paired_bind; [pairs|]. intros _.
  apply paired_bind; [apply paired_wake_node|]. intros _. apply IH.
Qed.

Lemma paired_wake_waiters i : paired false (wake_waiters_if_any i).
Proof.
  unfold wake_waiters_if_any, ld_waiter_head. apply paired_bind; [pairs|]. intros head.
  destruct (_ =? _); [done|]. apply paired_bind; [pairs|]. intros _.
  apply paired_if_lock. unfold wake_object, ld_waiter_head.
  apply paired_bind; [pairs|]. intros idx. apply paired_wake_loop.
Qed.

(** A compare-and-swap loop: load, decide, swap; then wake or go round. *)
Ltac round IH :=
  unfold ld_w0; pairs; first [apply paired_cas | apply paired_wake_waiters | apply IH].

Lemma paired_sem_release h n : paired false (sem_release h n).
Proof.
  apply paired_region, paired_bind; [apply paired_typed|]. intros [i|]; [|done].
  generalize loop_fuel. intros fuel. revert i. induction fuel as [|fuel IH]; intros i; cbn [sem_release_loop]; [done|].
  round IH.
Qed.

Lemma paired_event_set h : paired false (event_set h).
Proof.
  apply paired_bind; [pairs|]. intros _. apply paired_region, paired_bind; [apply paired_typed|]. intros [i|]; [|done].
  generalize loop_fuel. intros fuel. revert i. induction fuel as [|fuel IH]; intros i; cbn [event_set_loop]; [done|].
  round IH.
Qed.

Lemma paired_mutex_unlock h owner : paired false (mutex_unlock h owner).
Proof.
  apply paired_bind; [pairs|]. intros _. destruct (_ =? _); [done|].
  apply paired_region, paired_bind; [apply paired_typed|]. intros [i|]; [|done].
  generalize loop_fuel. intros fuel. revert i. induction fuel as [|fuel IH]; intros i; cbn [mutex_unlock_loop]; [done|].
  round IH.
Qed.

Lemma paired_mutex_kill h owner : paired false (mutex_kill h owner).
Proof.
  apply paired_bind; [pairs|]. intros _. destruct (_ =? _); [done|].
  apply paired_region, paired_bind; [apply paired_typed|]. intros [i|]; [|done].
  generalize loop_fuel. intros fuel. revert i. induction fuel as [|fuel IH]; intros i; cbn [mutex_kill_loop]; [done|].
  round IH.
Qed.
End signals.

Context {G : Type} `{!Kernel Region G} {t0 t1 : nat} `{!QuietKernel G t0} `{!QuietKernel G t1}
  `{!SleepKernel G t0 t1}.

(** What a call of a paired program does to a sleeper. *)
Lemma paired_call {A} pending c (k : Z -> action A) m g z g' b :
  paired pending (Sys c k) -> kcall t1 c m g = Answer z g' -> k_asleep (t1 := t1) nd b g ->
  k_asleep (t1 := t1) nd true g' /\ paired false (k z) \/
  k_asleep (t1 := t1) nd b g' /\ paired pending (k z).
Proof.
  intros [Hc Hk] E Hb. specialize (Hk z). destruct (wakes c) eqn:Hw.
  - left. rewrite andb_false_r in Hk. split; [|done].
    destruct c; try done. apply Z.eqb_eq in Hw as ->. by eapply law_wake.
  - right. rewrite andb_true_r in Hk. split; [|done]. eapply law_keep; [|  |exact E|exact Hb].
    + by intros n e d ->.
    + intros ->. by apply Z.eqb_neq in Hw.
Qed.

(** Who is woken stays so. *)
Lemma paired_awake {A} (p : action A) : forall pending (w : world Region Local G) a w',
  paired pending p -> mapped (loc w) -> k_asleep (t1 := t1) nd true (ker w) -> run t1 p w = (Done a, w') ->
  k_asleep (t1 := t1) nd true (ker w').
Proof.
  induction p as [a0|B' f k IH|B' f k IH|c k IH| |]; intros pending w a w' Hp Hl Hb Hr; simpl in Hr; try done.
  - by simplify_eq.
  - destruct (Hp (mem w)) as [[_ Hk]|Hk]; by apply (IH _ _ (World (f (mem w)).2 (loc w) (ker w)) a w' Hk Hl Hb).
  - destruct (Hp (loc w) Hl) as [Hl' Hk]. exact (IH _ _ (World (mem w) (f (loc w)).2 (ker w)) a w' Hk Hl' Hb Hr).
  - destruct (kcall t1 c (mem w) (ker w)) as [z g|g|] eqn:E; try done.
    destruct (paired_call _ _ _ _ _ _ _ _ Hp E Hb) as [[Hb' Hk]|[Hb' Hk]];
      exact (IH z _ (World (mem w) (loc w) g) a w' Hk Hl Hb' Hr).
Qed.

(** If the word of a sleeper moved, the sleeper was woken. *)
Lemma paired_wakes {A} (p : action A) : forall pending b (w : world Region Local G) a w',
  paired pending p -> mapped (loc w) -> k_asleep (t1 := t1) nd b (ker w) -> run t1 p w = (Done a, w') ->
  k_asleep (t1 := t1) nd true (ker w') \/
  pending = false /\ n_seq (node_ptr (mem w') nd) = n_seq (node_ptr (mem w) nd).
Proof.
  induction p as [a0|B' f k IH|B' f k IH|c k IH| |]; intros pending b w a w' Hp Hl Hb Hr; simpl in Hr; try done.
  - simplify_eq. simpl in Hp. auto.
  - destruct (Hp (mem w)) as [[Hs Hk]|Hk].
    + destruct (IH _ _ b (World (f (mem w)).2 (loc w) (ker w)) a w' Hk Hl Hb Hr) as [|[? He]]; [by left|]. right. split; [done|]. by rewrite He.
    + destruct (IH _ _ b (World (f (mem w)).2 (loc w) (ker w)) a w' Hk Hl Hb Hr) as [|[? _]]; [by left|done].
  - destruct (Hp (loc w) Hl) as [Hl' Hk]. exact (IH _ _ b (World (mem w) (f (loc w)).2 (ker w)) a w' Hk Hl' Hb Hr).
  - destruct (kcall t1 c (mem w) (ker w)) as [z g|g|] eqn:E; try done.
    destruct (paired_call _ _ _ _ _ _ _ _ Hp E Hb) as [[Hb' Hk]|[Hb' Hk]].
    + left. exact (paired_awake _ _ (World (mem w) (loc w) g) a w' Hk Hl Hb' Hr).
    + exact (IH z pending b (World (mem w) (loc w) g) a w' Hk Hl Hb' Hr).
Qed.
End paired.

(** ** The executable kernel implements the interface *)
Section sim.
Import Sim.
Context (pids : nat -> Z) (alive : Z -> bool).
Context (Hpid : forall t, 0 < pids t < W31) (Halive : forall p, alive (as_i32 p) = alive p).
#[local] Instance sim_kernel : Kernel Region sim := sim_call pids alive.

(** The thread that will sleep: nobody else does. *)
Program Definition sim_sleeper (t : nat) : QuietKernel sim t := {|
  k_lock b g := k_lock (QuietKernel := sim_quiet pids alive Hpid Halive t) b g /\ sim_sleepers g = [];
  k_pid := pids t;
  k_alive := alive;
|}.
Next Obligation. intros t. apply Hpid. Qed.
Next Obligation.
  intros t m g [Hk Hs]. unfold kcall, sim_kernel, sim_call, sim_acquire. rewrite (proj1 Hk).
  eexists _, _. split; [done|]. split; [by left|]. split; [|done]. split; [done|apply Hk].
Qed.
Next Obligation.
  intros t abs m g [Hk Hs]. unfold kcall, sim_kernel, sim_call, sim_acquire. rewrite (proj1 Hk).
  eexists _, _. split; [done|]. split; [by left|]. split; [|done]. split; [done|apply Hk].
Qed.
Next Obligation. intros t m g [Hk Hs]. eexists _, _. split; [done|]. split; [|done]. split; [done|apply Hk]. Qed.
Next Obligation.
  intros t c m g Hc. destruct c; try discriminate Hc; eexists _, _; (split; [done|]).
  all: intros b [[H1 H2] H3]; cbn in *; rewrite ?H3; repeat split; try done; cbn; lia.
Qed.
Next Obligation. by intros t m g z g' [= <- <-]. Qed.
Next Obligation. intros t pid m g z g' [= <- <-] _. rewrite Halive. by destruct (alive pid). Qed.
Next Obligation. by intros t b c m g z g' [-> | ->] [[_ Hc] _] [= <- <-]. Qed.

Program Definition sim_sleep (t0 t1 : nat) :
  SleepKernel sim t0 t1 (QuietKernel0 := sim_sleeper t0)
    (QuietKernel1 := sim_quiet pids alive Hpid Halive t1) := {|
  k_asleep node b g := sim_sleepers g = [(t0, node, b)];
|}.
Next Obligation.
  intros t0 t1 node m g [[H1 H2] H3]. unfold kcall, sim_kernel, sim_call, sim_futex_wait.
  rewrite H3, Z.eqb_refl. eexists. split; [done|]. by split.
Qed.
Next Obligation.
  intros t0 t1 node e m g Hs. unfold kcall, sim_kernel, sim_call, sim_futex_wait. cbn in Hs.
  rewrite Hs. cbn. by rewrite Nat.eqb_refl.
Qed.
Next Obligation.
  intros t0 t1 node e m g Hs [H1 H2]. unfold kcall, sim_kernel, sim_call, sim_futex_wait. cbn in Hs.
  rewrite Hs. cbn [find_sleeper]. rewrite Nat.eqb_refl. eexists. split; [done|]. split; [by split|].
  cbn [sim_sleepers with_sleepers]. unfold drop_sleeper. rewrite filter_cons_False; [done|]. simpl. naive_solver.
Qed.
Next Obligation.
  intros t0 t1 c node b m g z g' Hw Hn Hc Hs. cbn in Hs.
  destruct c; cbn in Hc; unfold sim_acquire in Hc; try (by simplify_eq); try (by destruct (sim_lock g); simplify_eq).
  - by destruct (Hw node0 expected timeout).
  - simplify_eq. cbn. rewrite Hs. cbn. destruct (Z.eqb_spec node node0); [congruence|done].
Qed.
Next Obligation.
  intros t0 t1 node b m g z g' [= <- <-] Hs. cbn in *. rewrite Hs. cbn. rewrite Z.eqb_refl. by destruct b.
Qed.
End sim.
