(* ===== verification/Park.v ===== *)
(** * Park: a wait on its way into the futex, and back

    The phases of a blocking wait that WaitBlock leaves out: the spin that
    finds nothing, the way to the futex call ([wait_parks]), and afterwards
    the detach.  What the kernel does with the futex call is the matter of
    Wakeup and Timeout. *)
From S2P Require Import Prelude Prog Config Region Kernel Lock Nodes WaitLists NodePool Policy Sweep Init Slots Objects Words ObjectsOk Acquire Wait Satisfy SlotsOk WaitOk WaitBlock Steady Sleep.

Section phases.
Context `{!Config} {G : Type} `{!Kernel Region G} {t : nat} `{!QuietKernel G t}.
Context (Hfuel : (Z.to_nat NODE_COUNT < loop_fuel)%nat).
Implicit Types (w : world Region Local G).

(** ** Steps that change nothing another thread could see *)
Record unmoved (w w' : world Region Local G) : Prop := {
  um_slots i : slot_ptr (mem w') i = slot_ptr (mem w) i;
  um_nodes n : node_ptr (mem w') n = node_ptr (mem w) n;
  um_header : set_lock_owner 0 0 (header (mem w')) = set_lock_owner 0 0 (header (mem w));
  um_region : l_region (loc w') = l_region (loc w);
  um_lock b : k_lock b (ker w) -> k_lock b (ker w');
}.

Lemma unmoved_refl w : unmoved w w.
Proof. by split. Qed.

Lemma unmoved_trans w1 w2 w3 : unmoved w1 w2 -> unmoved w2 w3 -> unmoved w1 w3.
Proof. intros [A1 A2 A3 A4 A5] [B1 B2 B3 B4 B5]. split; intros; auto; congruence. Qed.

Lemma calm_unmoved w w' : calm w w' -> unmoved w w'.
Proof.
  intros (Hm&Hl&Hk). split; try done.
  - intros i. by rewrite Hm.
  - intros n. by rewrite Hm.
  - apply Hm.
Qed.

Lemma moved_unmoved w w' : moved w w' [] -> unmoved w w'.
Proof.
  intros ((Hl&Hk&Hn&Hh&_)&Hs&_). split.
  - intros i. apply Hs, not_elem_of_nil.
  - intros n. unfold node_ptr. by rewrite Hn.
  - by rewrite Hh.
  - by rewrite Hl.
  - intros b. by rewrite Hk.
Qed.

Lemma unmoved_ready b w w' : unmoved w w' -> ready b w -> ready b w'.
Proof. intros Hu [H1 H2]. split; [rewrite (um_region _ _ Hu); done|by apply (um_lock _ _ Hu)]. Qed.

Lemma unmoved_same w w' : unmoved w w' -> same_objects (mem w) (mem w').
Proof. intros Hu i. by rewrite (um_slots _ _ Hu). Qed.

Lemma unmoved_fields w w' : unmoved w w' ->
  h_node_fresh (header (mem w')) = h_node_fresh (header (mem w)) /\
  h_node_free_head (header (mem w')) = h_node_free_head (header (mem w)).
Proof.
  intros Hu. pose proof (um_header _ _ Hu) as Hh. unfold set_lock_owner in Hh. by injection Hh.
Qed.

Lemma unmoved_pool_ok w w' L F : unmoved w w' -> pool_ok (mem w) L F -> pool_ok (mem w') L F.
Proof.
  intros Hu [[A1 A2 A3 A4 A5 A6 A7] H2 H3 H4]. destruct (unmoved_fields _ _ Hu) as [Hf Hh].
  pose proof (um_nodes _ _ Hu) as Hn. pose proof (um_slots _ _ Hu) as Hs.
  split; rewrite ?Hh; [| |done|].
  - split; intros *; rewrite ?Hn, ?Hs, ?Hf; [|apply A2|apply A3|apply A4|apply A5|apply A6|apply A7].
    eapply dseg_ext; [|apply A1]. intros n _. by rewrite Hn.
  - eapply chain_ext; [|exact H2]. intros n _. by rewrite Hn.
  - intros n. rewrite Hn, Hf. apply H4.
Qed.

Lemma unmoved_mine O w w' F nodes : unmoved w w' -> mine O (mem w) F nodes -> mine O (mem w') F nodes.
Proof. intros Hu. apply mine_fresh, (unmoved_fields _ _ Hu). Qed.

Lemma unmoved_points w w' nodes head :
  unmoved w w' -> points (mem w) nodes head -> points (mem w') nodes head.
Proof. intros Hu Hp n Hn. rewrite (um_nodes _ _ Hu). by apply Hp. Qed.

(** ** The spin finds nothing *)
Lemma names_tail r h o hs os : names r (h :: hs) (o :: os) ->
  (lookup_handle r h = Some (handle_index h) /\ repr o (slot_ptr r (handle_index h))) /\ names r hs os.
Proof. intros Hn. by apply Forall2_cons in Hn. Qed.

Lemma any_locked_spec handles owner seqs objs : forall k w,
  0 < owner < W32 -> names (mem w) handles objs ->
  wp t (any_locked k handles owner seqs) (fun _ w' => w' = w) w.
Proof.
  revert objs. induction handles as [|h hs IH]; intros [|o os] k w Hown Hn; try by inversion Hn.
  apply names_tail in Hn as [[Hh Ho] Hn]. cbn [any_locked].
  eapply wp_frame_bind; [by apply (is_locked_spec ltac:(lia) _ _ _ o)|]. intros b w1 [-> _].
  destruct b; [by apply wp_ret|]. by eapply IH.
Qed.

Lemma all_locked_spec handles owner seqs objs : forall k w,
  0 < owner < W32 -> names (mem w) handles objs ->
  wp t (all_locked k handles owner seqs) (fun _ w' => w' = w) w.
Proof.
  revert objs. induction handles as [|h hs IH]; intros [|o os] k w Hown Hn; try by inversion Hn.
  apply names_tail in Hn as [[Hh Ho] Hn]. cbn [all_locked].
  eapply wp_frame_bind; [by apply (is_locked_spec ltac:(lia) _ _ _ o)|]. intros b w1 [-> _].
  destruct b; [by eapply IH|by apply wp_ret].
Qed.

Lemma spin_peek_spec handles owner seqs all objs w :
  0 < owner < W32 -> names (mem w) handles objs ->
  wp t (spin_peek handles owner seqs all) (fun _ w' => w' = w) w.
Proof.
  intros Hown Hn. eapply wp_frame_bind; [by eapply any_locked_spec|]. intros b w1 ->.
  destruct b; [|by apply wp_ret]. destruct (negb all); [by apply wp_ret|]. by eapply all_locked_spec.
Qed.

(** What the waiter knows while it is enlisted and nothing is acquirable. *)
Record waiting (r : Region) (handles : list Z) (owner : Z) (all : bool) (alert : Z)
  (nodes seqs : list Z) (objs : list obj) : Prop := {
  wt_good : good_wait r handles owner objs;
  wt_alert : alert_quiet r alert;
  wt_seqs : seqs_for seqs 0 objs;
  wt_none : answer_now owner all objs = None;
  wt_reg : n_registered (node_ptr r (arr nodes 0)) <> 0;
}.

Lemma waiting_unmoved w w' handles owner all alert nodes seqs objs :
  unmoved w w' -> waiting (mem w) handles owner all alert nodes seqs objs ->
  waiting (mem w') handles owner all alert nodes seqs objs.
Proof.
  intros Hu [H1 H2 H3 H4 H5]. pose proof (unmoved_same _ _ Hu) as Hs.
  split; [by eapply good_wait_same|by eapply alert_same_objects|done|done|by rewrite (um_nodes _ _ Hu)].
Qed.

Lemma try_nothing handles owner all alert nodes seqs objs w :
  waiting (mem w) handles owner all alert nodes seqs objs ->
  wp t (try_satisfy handles owner seqs all) (fun got w' => got = None /\ unmoved w w') w.
Proof.
  intros [[Hn Hd Hown _] _ Hs Hno _].
  eapply wp_mono; [|by apply (try_satisfy_spec Hfuel all handles owner seqs objs w)].
  intros got w' [-> Hm]. rewrite Hno. split; [done|].
  rewrite (effect_none _ _ handles _ Hno) in Hm. by apply moved_unmoved.
Qed.

Lemma spin_loop_spec n handles owner all alert nodes seqs objs : forall w,
  waiting (mem w) handles owner all alert nodes seqs objs ->
  wp t (spin_loop n handles owner all alert nodes seqs) (fun s w' => s = SpinExhausted /\ unmoved w w') w.
Proof.
  induction n as [|n IH]; intros w Hw; cbn [spin_loop]; [by apply wp_ret; split; [|apply unmoved_refl]|].
  eapply wp_frame_bind; [apply alert_fired_spec, (wt_alert _ _ _ _ _ _ _ _ Hw)|]. intros fired w1 [-> ->].
  eapply wp_frame_bind; [apply (spin_peek_spec _ _ _ _ objs); apply (wt_good _ _ _ _ _ _ _ _ Hw)|].
  intros peek w1 ->. eapply wp_frame_bind with (P := fun got w1 => got = None /\ unmoved w w1).
  { destruct peek; [by eapply try_nothing|]. apply wp_ret. by split; [|apply unmoved_refl]. }
  intros got w1 [-> Hu]. apply wp_bind, wp_read.
  pose proof (waiting_unmoved _ _ _ _ _ _ _ _ _ Hu Hw) as Hw1.
  rewrite (proj2 (Z.eqb_neq _ _) (wt_reg _ _ _ _ _ _ _ _ Hw1)).
  eapply wp_mono; [|by apply IH]. intros s w2 [-> Hu2]. split; [done|]. by eapply unmoved_trans.
Qed.

Lemma spin_phase_spec handles owner all alert nodes seqs objs w :
  waiting (mem w) handles owner all alert nodes seqs objs ->
  wp t (spin_phase handles owner all alert nodes seqs) (fun s w' => s = None /\ unmoved w w') w.
Proof.
  intros Hw. unfold spin_phase, spin_budget. eapply wp_frame_bind with (P := fun _ w1 => unmoved w w1).
  { destruct (spin_max_iters =? 0); [by apply wp_ret, unmoved_refl|]. apply wp_loc.
    unfold spin_budget_step. by destruct (0 <? _). }
  intros spin w1 Hu. destruct (0 <? spin); [|by apply wp_ret].
  eapply wp_frame_bind; [apply (spin_loop_spec _ _ _ _ _ _ _ objs); by eapply waiting_unmoved|].
  intros s w2 [-> Hu2]. apply wp_bind, wp_stat_bump. intros w3 Hc. apply wp_bind, wp_loc, wp_ret.
  split; [done|]. eapply unmoved_trans; [by eapply unmoved_trans|].
  eapply unmoved_trans; [by apply calm_unmoved|]. by split.
Qed.

(** A sweep is not due: the 256th call, and only it, looks. *)
Definition no_sweep_due (l : Local) : Prop := sweep_interval_ns = 0 \/ Z.land (l_calls l) 0xFF <> 0.

Lemma auto_sweep_skips w : no_sweep_due (loc w) ->
  wp t auto_sweep_dead (fun _ w' => unmoved w w') w.
Proof.
  intros Hd. apply wp_bind, wp_loc. cbn [fst snd].
  destruct (negb (Z.land (l_calls (loc w)) 0xFF =? 0)) eqn:E; [by apply wp_ret|].
  apply negb_false_iff, Z.eqb_eq in E. destruct Hd as [->|]; [|done]. by apply wp_ret.
Qed.

(** ** After the sleep *)
Lemma any_registered_spec nodes w :
  wp t (any_registered nodes) (fun b w' => w' = w /\ (b = false -> unregistered (mem w) nodes)) w.
Proof.
  induction nodes as [|n nodes IH]; cbn [any_registered].
  { apply wp_ret. split; [done|]. by intros _ n ?%elem_of_nil. }
  apply wp_bind, wp_read. destruct (Z.eqb_spec (n_registered (node_ptr (mem w) n)) 0) as [H0|]; cbn [negb]; [|by apply wp_ret].
  eapply wp_mono; [|apply IH]. intros b w' [-> Hb]. split; [done|]. intros Hf m [->|Hm]%elem_of_cons; [done|by apply Hb].
Qed.

Lemma detach_nodes_spec O nodes L F w :
  idle w -> pool_ok (mem w) L F -> mine O (mem w) F nodes ->
  wp t (detach_nodes nodes) (fun _ w' => idle w' /\ pool_ok (mem w') (without_all nodes L) F /\
    mine O (mem w') F nodes /\ unregistered (mem w') nodes /\ same_objects (mem w) (mem w')) w.
Proof.
  intros Hw HP Hm. eapply wp_frame_bind; [apply any_registered_spec|]. intros b w1 [-> Hb].
  destruct b.
  - apply if_lock_spec; [lia|done|]. intros w1 Hm1 Hw1. apply wp_write. split; [done|]. cbn [mem].
    intros w2 Hm2 Hw2. set (f := fun r => foldl (fun r idx => node_detach idx r) r nodes) in *.
    assert (pool_ok (mem w1) L F) as HP1 by (by rewrite Hm1).
    destruct (detach_all_pool_ok nodes _ _ _ HP1) as (HP2 & Hfr & Hreg).
    split; [done|]. split; [by rewrite Hm2|]. split_and!.
    + eapply mine_fresh; [|exact Hm]. pose proof (node_fresh_proper _ _ Hm2) as E2.
      pose proof (node_fresh_proper _ _ Hm1) as E1. cbn in E1, E2. by rewrite E2, Hfr, E1.
    + intros n Hn. rewrite Hm2. apply Hreg. by left.
    + eapply same_objects_trans; [by apply same_objects_equiv|].
      eapply same_objects_trans; [apply detach_all_same|by apply same_objects_equiv].
  - specialize (Hb eq_refl). apply wp_ret. split; [done|]. split; [|done].
    eapply pool_ok_ext; [|exact HP]. intros i. apply (without_all_enlisted nodes [] [] L i); [by intros n ?%elem_of_nil|].
    intros n Hn. apply (unregistered_not_listed (mem w) L F); [done|]. by apply Hb.
Qed.

Lemma objects_changed_same r r1 r' l : same_objects r r1 -> objects_changed r1 r' l -> objects_changed r r' l.
Proof. intros Hs [H1 H2]. split; [|done]. intros j Hj. by rewrite H1. Qed.

(** Back from the futex with something to acquire: the nodes are taken off
    the lists, the objects acquired and the nodes returned. *)
Lemma resume_spec O n handles owner all alert nodes seqs objs out L F last w :
  idle w -> pool_ok (mem w) L F -> mine O (mem w) F nodes -> length nodes = n_nodes handles alert ->
  good_wait (mem w) handles owner objs -> alert_quiet (mem w) alert -> seqs_for seqs 0 objs ->
  answer_now owner all objs = Some out ->
  wp t (detach_nodes nodes ;;; wait_loop (S n) handles owner None all alert nodes seqs last)
    (fun res w' => idle w' /\ res = out /\ (exists F', pool_ok (mem w') (without_all nodes L) F' /\ back O (mem w') F') /\
      objects_changed (mem w) (mem w') (effect_now owner all handles objs)) w.
Proof.
  intros Hw HP Hm Hlen Hg Ha Hs Hout.
  eapply wp_frame_bind; [by apply (detach_nodes_spec O nodes L F)|].
  intros [] w1 (Hw1 & HP1 & Hm1 & Hu1 & Hs1). cbn [wait_loop]. eapply wp_frame_bind.
  { apply (locked_section_again Hfuel O handles owner None all alert nodes seqs objs (without_all nodes L) F (replicate (n_nodes handles alert) NIL) w1); try done.
    - by eapply good_wait_same.
    - by eapply alert_same_objects. }
  intros res w2 [Hw2 He]. destruct He as [out' F' Ho HP2 Hb2 Hc|dl F' Hn|F' Hcap|seq rem ns sq F' Hn].
  - rewrite Hout in Ho. simplify_eq. apply wp_ret. split; [done|]. split; [done|].
    split; [by exists F'|]. by eapply objects_changed_same.
  - by rewrite Hout in Hn.
  - pose proof (lo_fresh _ _ (po_lists _ _ _ HP1)). unfold capacity in Hcap. rewrite length_replicate in Hcap. lia.
  - by rewrite Hout in Hn.
Qed.
End phases.

(** ** The lists with a waiter's nodes *)
Lemma enlisted_keeps targets : forall nodes L n i, n ∈ L i -> n ∈ enlisted targets nodes L i.
Proof.
  induction targets as [|x ts IH]; intros [|y ns] L n i Hin; try done. cbn [enlisted]. apply IH.
  unfold push. destruct (decide _); [by apply list_elem_of_further|done].
Qed.

(** Every target has its node on its list. *)
Lemma enlisted_elem targets : forall nodes L k h n,
  targets !! k = Some h -> nodes !! k = Some n -> n ∈ enlisted targets nodes L (handle_index h).
Proof.
  induction targets as [|x ts IH]; intros [|y ns] L [|k] h n Hh Hn; simplify_eq/=; [|by eapply IH].
  apply enlisted_keeps. unfold push. rewrite decide_True by done. apply list_elem_of_here.
Qed.

Lemma first_target handles alert nodes objs r owner :
  good_wait r handles owner objs -> length nodes = n_nodes handles alert ->
  exists h, handles !! 0%nat = Some h /\ targets handles alert !! 0%nat = Some h /\
    nodes !! 0%nat = Some (arr nodes 0).
Proof.
  intros [_ _ _ Hl] Hlen. unfold n_nodes in Hlen. destruct handles as [|h hs]; simpl in *; [lia|].
  destruct nodes as [|n ns]; simpl in *; [lia|]. by exists h.
Qed.

(** The region while the waiter sleeps: its nodes [nodes] are enlisted, one per
    target, and all lead to its futex word, that of the first node; the others
    hold the nodes [O]. *)
Record enlisted_in (O : Z -> Prop) (handles : list Z) (alert : Z) (objs : list obj) (nodes seqs : list Z)
  (L : Z -> list Z) (F : list Z) (r0 r : Region) : Prop := {
  ea_pool : pool_ok r (enlisted (targets handles alert) nodes L) F;
  ea_mine : mine O r F nodes;
  ea_len : length nodes = n_nodes handles alert;
  ea_points : points r nodes (arr nodes 0);
  ea_seqs : seqs_for seqs 0 objs;
  ea_same : same_objects r0 r;
}.

(** The nodes of a sleeper were on no list before. *)
Lemma enlisted_fresh r targets : forall nodes L,
  lists_ok r (enlisted targets nodes L) -> (length nodes <= length targets)%nat ->
  forall n, n ∈ nodes -> forall i, n ∉ L i.
Proof.
  induction targets as [|h ts IH]; intros [|m ns] L HL Hlen n Hn i Hi; simpl in *; try lia.
  1,2: by apply elem_of_nil in Hn.
  assert (forall ts ns L j, NoDup (enlisted ts ns L j) -> NoDup (L j)) as Hnd.
  { clear. induction ts as [|x ts IH]; intros [|y ns] L j Hnd; try done. cbn [enlisted] in Hnd.
    apply IH in Hnd. unfold push in Hnd. destruct (decide _); [by apply NoDup_cons in Hnd as []|done]. }
  apply elem_of_cons in Hn as [->|Hn].
  - assert (m ∈ push (handle_index h) m L (handle_index h)) as H1.
    { unfold push. rewrite decide_True by done. apply list_elem_of_here. }
    destruct (decide (i = handle_index h)) as [->|Hne].
    + pose proof (Hnd _ _ _ _ (lo_nodup _ _ HL (handle_index h))) as Hn2. unfold push in Hn2.
      rewrite decide_True in Hn2 by done. by apply NoDup_cons in Hn2 as [].
    + apply Hne. eapply (lists_ok_disjoint _ _ _ _ m HL); apply enlisted_keeps; [|exact H1].
      unfold push. by rewrite decide_False.
  - apply (IH ns (push (handle_index h) m L) HL ltac:(lia) n Hn i).
    unfold push. destruct (decide _); [by apply list_elem_of_further|done].
Qed.

(** Taken off again, the lists are what they were. *)
Lemma without_all_enlisted_in handles alert nodes L r F :
  pool_ok r (enlisted (targets handles alert) nodes L) F -> length nodes = n_nodes handles alert ->
  forall j, L j = without_all nodes (enlisted (targets handles alert) nodes L) j.
Proof.
  intros HP Hlen j. assert (length nodes <= length (targets handles alert))%nat as Hle.
  { unfold n_nodes, targets in *. rewrite length_app. destruct (alert =? 0); simpl; lia. }
  pose proof (enlisted_fresh _ _ _ _ (po_lists _ _ _ HP) Hle) as Hf.
  symmetry. apply (without_all_enlisted nodes); [done|]. intros m Hm. by apply Hf.
Qed.

Lemma without_all_woken handles alert nodes L i r F :
  pool_ok r (enlisted (targets handles alert) nodes L) F -> length nodes = n_nodes handles alert ->
  forall j, clear i L j = without_all nodes (clear i (enlisted (targets handles alert) nodes L)) j.
Proof.
  intros HP Hlen j. pose proof (without_all_enlisted_in _ _ _ _ _ _ HP Hlen j) as Hj.
  unfold without_all, clear in *. destruct (decide (j = i)); [|done]. clear. induction nodes; done.
Qed.

(** ** The way to the futex *)
Section park.
Context `{!Config} {G : Type} `{!Kernel Region G} {t : nat} `{!QuietKernel G t}.
Context (Hfuel : (Z.to_nat NODE_COUNT < loop_fuel)%nat) (Hquiet : debug_enabled = false).
Implicit Types (w : world Region Local G).

(** What follows the futex call in a round of [wait_loop]. *)
Definition after_park (fuel : nat) (handles : list Z) (owner : Z) (deadline : option Z) (all : bool)
  (alert : Z) (nodes seqs : list Z) (last ret : Z) : action WaitOutcome :=
  (when ((ret =? 0) && debug_enabled) do wake_latency (arr nodes 0)) ;;;
  last <- after_futex ret handles owner alert deadline last ;;
  detach_nodes nodes ;;;
  wait_loop fuel handles owner deadline all alert nodes seqs last.

(** Without debug nothing but the detach and the next round. *)
Lemma after_park_eq fuel handles owner deadline all alert nodes seqs last ret :
  ret = 0 \/ ret < 0 ->
  after_park fuel handles owner deadline all alert nodes seqs last ret =
  (detach_nodes nodes ;;; wait_loop fuel handles owner deadline all alert nodes seqs last).
Proof.
  intros Hr. unfold after_park. rewrite Hquiet, andb_false_r. cbn [bind]. unfold after_futex, EAGAIN, ETIMEDOUT.
  destruct Hr as [->|Hr]; [done|].
  by rewrite (proj2 (Z.eqb_neq ret 0)), (proj2 (Z.eqb_neq ret 11)), (proj2 (Z.eqb_neq ret 110)) by lia.
Qed.

Lemma park_slice_whole head seq rem (Q : option (option Z) -> world Region Local G -> Prop) w :
  rem = None \/ spin_tail = None -> Q (Some rem) w -> wp t (park_slice head seq rem) Q w.
Proof.
  intros Hs HQ. unfold park_slice. rewrite Hquiet. destruct Hs as [->| ->]; [destruct spin_tail|]; by apply wp_ret.
Qed.

(** What a locked section says of the deadline comes from a clock read in it. *)
Definition time_left (deadline : option Z) (P : Z -> Prop) (res : locked_result) : Prop :=
  match res with
  | LockedSleep _ (Some r) _ _ => exists dl now, deadline = Some dl /\ r = dl - now /\ P now
  | LockedDone Timeout => exists dl now, deadline = Some dl /\ dl <= now /\ P now
  | _ => True
  end.

Lemma try_satisfy_told P handles owner seqs all :
  told P (fun got => got <> Some Timeout) (try_satisfy handles owner seqs all).
Proof.
  unfold try_satisfy. destruct (negb all).
  - generalize 0%nat. induction handles as [|h hs IH]; intros k; cbn [satisfy_any]; [done|].
    apply told_bind. intros [od|]; [done|apply IH].
  - generalize (@nil (Z * bool)) 0%nat false.
    induction handles as [|h hs IH]; intros acq k d; cbn [satisfy_all]; [done|].
    apply told_bind. intros [od|]; [apply IH|by apply told_bind].
Qed.

Lemma locked_section_told P handles owner deadline all alert nodes seqs :
  told P (time_left deadline P) (locked_section handles owner deadline all alert nodes seqs).
Proof.
  unfold locked_section. apply told_bind. intros [mask|]; [|by apply told_bind].
  apply told_seq with (time_left deadline P); [|intros r Hr; by apply told_bind].
  unfold locked_body. apply told_bind. intros vs. apply told_bind. intros valid.
  destruct (negb valid); [by apply told_bind|]. apply told_bind. intros fired. destruct fired; [by apply told_bind|].
  apply told_bind. intros [ns|]; [|done]. unfold register_and_check. cbv zeta. apply told_bind. intros _.
  apply told_bind. intros _. unfold check_registered.
  eapply told_seq; [apply try_satisfy_told|]. intros [out|] Hout; [apply told_bind; intros _; by destruct out|].
  destruct deadline as [dl|]; simpl; [|done].
  intros now Hnow. destruct (Z.leb_spec dl now); simpl; eauto 10.
Qed.

(** What a locked section that is to sleep knows of the time. *)
Definition timely (deadline rem : option Z) w w' : Prop :=
  (rem = None <-> deadline = None) /\
  (forall r, rem = Some r -> 0 < r) /\
  forall k_now, clock_laws t k_now -> forall r, rem = Some r ->
    exists dl now, deadline = Some dl /\ r = dl - now /\ k_now (ker w) <= now <= k_now (ker w').

Lemma timely_later deadline rem w w1 w2 : timely deadline rem w w1 -> time_passes t w1 w2 -> timely deadline rem w w2.
Proof.
  intros (H1 & H2 & H3) Ht. split; [done|]. split; [done|]. intros k Hk r Hr.
  destruct (H3 k Hk r Hr) as (dl & now & -> & -> & Hn). specialize (Ht k Hk). exists dl, now.
  split; [done|]. split; [done|]. lia.
Qed.

(** A round that finds nothing: the deadline has passed, or the futex is called. *)
Definition parks (O : Z -> Prop) (fuel : nat) (handles : list Z) (owner : Z) (deadline : option Z) (all : bool) (alert : Z)
  (objs : list obj) (L : Z -> list Z) (r0 : Region) w (p : action WaitOutcome) w0 : Prop :=
  (exists dl w' F', deadline = Some dl /\ advance t p w0 = (Ret Timeout, w') /\
     (forall k_now, clock_laws t k_now -> dl <= k_now (ker w')) /\ ready (t := t) false w' /\
     pool_ok (mem w') L F' /\ back O (mem w') F' /\ same_objects r0 (mem w')) \/
  (exists rem nodes seqs F' last w',
     advance t p w0 = advance t
       (ret <- futex_wait (arr nodes 0) (n_seq (node_ptr (mem w') (arr nodes 0))) rem ;;
        after_park fuel handles owner deadline all alert nodes seqs last ret) w' /\
     enlisted_in O handles alert objs nodes seqs L F' r0 (mem w') /\
     ready (t := t) false w' /\ timely deadline rem w w').

(** Run the first part of the sequence in the goal, which returns. *)
Ltac first_step a w' H' :=
  lazymatch goal with
  | |- context [advance ?u (bind ?p ?q) ?w0] =>
      let E := fresh "E" in let HW := fresh "HW" in
      eassert (wp u p _ w0) as HW;
      [|destruct (advance_wp u p q _ w0 HW) as (a & w' & H' & E); rewrite E; clear E HW]
  end.

(** After a locked section that is to sleep: spin, sweep, slice; then the futex. *)
Lemma parks_after_section O fuel handles owner deadline all alert nodes seqs rem objs L F r0 w w1 last :
  deadline = None \/ spin_tail = None -> ready (t := t) false w1 -> no_sweep_due (loc w1) ->
  timely deadline rem w w1 -> waiting (mem w1) handles owner all alert nodes seqs objs ->
  enlisted_in O handles alert objs nodes seqs L F r0 (mem w1) ->
  exists w', enlisted_in O handles alert objs nodes seqs L F r0 (mem w') /\ ready (t := t) false w' /\
    timely deadline rem w w' /\
    advance t
      (won <- spin_phase handles owner all alert nodes seqs ;;
       match won with
       | Some outcome => Ret outcome
       | None =>
           auto_sweep_dead ;;;
           slice <- park_slice (arr nodes 0) (n_seq (node_ptr (mem w1) (arr nodes 0))) rem ;;
           match slice with
           | None => wait_loop fuel handles owner deadline all alert nodes seqs last
           | Some slice =>
               stat_bump 3 ;;;
               ret <- futex_wait (arr nodes 0) (n_seq (node_ptr (mem w1) (arr nodes 0))) slice ;;
               after_park fuel handles owner deadline all alert nodes seqs last ret
           end
       end) w1 =
    advance t
      (ret <- futex_wait (arr nodes 0) (n_seq (node_ptr (mem w') (arr nodes 0))) rem ;;
       after_park fuel handles owner deadline all alert nodes seqs last ret) w'.
Proof.
  intros Htail Hw1 Hdue Htm Hwt [A1 A2 A3 A4 A5 A6].
  assert (rem = None \/ spin_tail = None) as Hrem by (destruct Htail as [Hd|]; [left; by apply Htm|by right]).
  first_step won w2 H2.
  { apply wp_time, wp_steady; [apply spin_phase_steady|]. by eapply (spin_phase_spec Hfuel). }
  destruct H2 as [[[-> Hu2] Hc2] Ht2]. first_step u3 w3 H3.
  { apply wp_time, auto_sweep_skips. unfold no_sweep_due. by rewrite Hc2. }
  destruct H3 as [Hu3 Ht3]. first_step slice w4 H4.
  { by apply (park_slice_whole _ _ _ (fun s w' => s = Some rem /\ w' = w3)). }
  destruct H4 as [-> ->]. first_step u4 w4 H4.
  { apply wp_time, (wp_stat_bump (t := t) 3 (fun _ w' => unmoved (t := t) w3 w')). intros. by apply calm_unmoved. }
  destruct H4 as [Hu4 Ht4].
  assert (unmoved (t := t) w1 w4) as Hu by (exact (unmoved_trans _ _ _ Hu2 (unmoved_trans _ _ _ Hu3 Hu4))).
  exists w4. split; [|split; [exact (unmoved_ready _ _ _ Hu Hw1)|split]].
  - split; [exact (unmoved_pool_ok _ _ _ _ Hu A1)|exact (unmoved_mine _ _ _ _ _ Hu A2)|done| |done|].
    + exact (unmoved_points _ _ _ _ Hu A4).
    + eapply same_objects_trans; [exact A6|exact (unmoved_same _ _ Hu)].
  - eapply timely_later; [exact Htm|]. eapply time_trans; [exact Ht2|]. by eapply time_trans.
  - by rewrite (um_nodes _ _ Hu).
Qed.

Lemma round_parks O fuel handles owner deadline all alert seqs objs L F w last :
  deadline = None \/ spin_tail = None ->
  ready (t := t) false w -> pool_ok (mem w) L F -> back O (mem w) F -> good_wait (mem w) handles owner objs ->
  alert_quiet (mem w) alert -> length seqs = 64%nat -> answer_now owner all objs = None ->
  Z.of_nat (n_nodes handles alert) <= capacity F (mem w) -> no_sweep_due (loc w) ->
  parks O fuel handles owner deadline all alert objs L (mem w) w
    (wait_loop (S fuel) handles owner deadline all alert [] seqs last) w.
Proof.
  intros Htail Hw HP Hb Hg Ha Hseqs Hno Hcap Hdue. cbn [wait_loop]. unfold parks. first_step res w1 H1.
  { apply (wp_told t _ (fun P => time_left deadline P)); [intros P; apply locked_section_told|].
    apply wp_steady; [apply locked_section_steady|].
    by apply (locked_section_spec Hfuel O handles owner deadline all alert seqs objs L F w). }
  destruct H1 as [[[Hw1 He] Hc1] Htold].
  destruct He as [out F' Ho|dl F' _ Hd HP1 Hb1 Hch|F' Hc|seq rem nodes sq F' _ HP1 Hm1 Hlen Hsq Hp1 Hs1 Hrem Hpos Hch];
    [by rewrite Hno in Ho| |lia|].
  { left. exists dl, w1, F'. split; [done|]. split; [done|]. split.
    { intros k Hk. destruct (Htold k Hk) as (dl' & now & E & Hle & Hn). simplify_eq. lia. }
    split; [done|]. split; [done|]. split; [done|]. intros i. apply Hch, not_elem_of_nil. }
  right. assert (same_objects (mem w) (mem w1)) as Hso1 by (intros i; apply Hch, not_elem_of_nil).
  assert (waiting (mem w1) handles owner all alert nodes sq objs) as Hwt.
  { split; [by eapply good_wait_same|by eapply alert_same_objects|done|done|].
    destruct (first_target _ _ _ _ _ _ Hg Hlen) as (h & _ & Hh & Hn).
    apply (lo_reg _ _ (po_lists _ _ _ HP1) (handle_index h)). by eapply enlisted_elem. }
  assert (timely deadline rem w w1) as Htm.
  { split; [done|]. split; [done|]. intros k Hk r ->. exact (Htold k Hk). }
  destruct (parks_after_section O fuel handles owner deadline all alert nodes sq rem objs L F' (mem w) w w1 last
    Htail Hw1 ltac:(unfold no_sweep_due; by rewrite Hc1) Htm Hwt ltac:(by split)) as (w' & H1 & H2 & H3 & E2).
  exists rem, nodes, sq, F', last, w'. split; [|done]. rewrite <- E2, Hsq. reflexivity.
Qed.

Lemma parks_same O fuel handles owner deadline all alert objs L r0 r1 w p w0 :
  same_objects r0 r1 -> parks O fuel handles owner deadline all alert objs L r1 w p w0 ->
  parks O fuel handles owner deadline all alert objs L r0 w p w0.
Proof.
  intros Hs [(dl & w' & F' & H1 & H2 & H3 & H4 & H5 & Hb & H6)|(rem & nodes & seqs & F' & last & w' & H1 & [A1 A2 A3 A4 A5 A6] & H3)].
  - left. exists dl, w', F'. split_and!; try done. by eapply same_objects_trans.
  - right. exists rem, nodes, seqs, F', last, w'. split; [done|]. split; [|done].
    split; try done. by eapply same_objects_trans.
Qed.

(** The deadline of a wait. *)
Definition deadline_of (timeout : option Z) : action (option Z) :=
  match timeout with
  | Some d => now <- sys ClockMonotonic ;; Ret (Some (now + d))
  | None => Ret None
  end.

Definition due_after (timeout deadline : option Z) w w' : Prop :=
  (deadline = None <-> timeout = None) /\
  forall k_now, clock_laws t k_now -> forall d dl, timeout = Some d -> deadline = Some dl ->
    k_now (ker w) + d <= dl /\ dl <= k_now (ker w') + d.

Lemma deadline_of_spec timeout w :
  ready (t := t) false w ->
  wp t (deadline_of timeout) (fun dl w' => calm (t := t) w w' /\ l_calls (loc w') = l_calls (loc w) /\ due_after timeout dl w w') w.
Proof.
  intros Hw. eapply wp_mono; [|apply (wp_told t _ (fun P dl => forall d x, timeout = Some d -> dl = Some x ->
    exists now, P now /\ x = now + d) (fun dl w' => (calm (t := t) w w' /\ (dl = None <-> timeout = None)) /\
      l_calls (loc w') = l_calls (loc w)))].
  - intros dl w' [[[Hc Hiff] Hl] Hdl]. split; [done|]. split; [done|]. split; [done|].
    intros k Hk d x Hd Hx. destruct (Hdl k Hk d x Hd Hx) as (now & Hn & ->). lia.
  - intros P. destruct timeout as [d|]; simpl; [|done]. intros z Hz d' x [= <-] [= <-]. eauto.
  - apply wp_steady; [unfold deadline_of; destruct timeout; steadies|]. destruct timeout as [d|]; [|apply wp_ret; by split; [apply calm_refl|]].
    apply wp_bind, wp_quiet; [done|]. intros z w2 Hc2. by apply wp_ret.
Qed.

(** The start of a wait: nothing on the lock-free path, so round it goes. *)
Lemma wait_parks handles owner timeout all alert objs L F w :
  timeout = None \/ spin_tail = None -> timeout <> Some 0 ->
  ready (t := t) false w -> pool_ok (mem w) L F -> good_wait (mem w) handles owner objs ->
  alert_quiet (mem w) alert -> answer_now owner all objs = None ->
  Z.of_nat (n_nodes handles alert) <= capacity F (mem w) -> no_sweep_due (loc w) ->
  exists deadline w1, due_after timeout deadline w w1 /\ time_passes t w w1 /\
    parks (owned (mem w) F) (pred loop_fuel) handles owner deadline all alert objs L (mem w) w1
      (wait handles owner timeout all alert) w.
Proof.
  intros Htail Hpoll Hw HP Hg Ha Hno Hcap Hdue. unfold wait. rewrite (good_args Hfuel _ _ _ _ Hg).
  unfold parks. first_step r w0 H0.
  { by apply (wp_region (t := t) false (fun r w' => r = Ok tt /\ w' = w)). }
  destruct H0 as [-> ->]. first_step u1 w1 H1.
  { apply wp_time, (wp_steady t _ (fun _ w' => calm (t := t) w w')); [steadies|by apply wp_stat_bump]. }
  destruct H1 as [[Hc1 Hl1] Ht1]. first_step deadline w2 H2.
  { apply wp_time, (deadline_of_spec timeout w1), (calm_ready _ _ _ Hc1 Hw). }
  destruct H2 as [(Hc2 & Hl2 & Hiff & Hdl) Ht2]. first_step start w3 H3.
  { apply wp_time, (wp_steady t _ (fun _ w' => calm (t := t) w2 w')); [steadies|by apply wp_quiet]. }
  destruct H3 as [[Hc3 Hl3] Ht3].
  assert (unmoved (t := t) w w3) as Hu3.
  { apply calm_unmoved. eapply calm_trans; [exact Hc1|]. eapply calm_trans; [exact Hc2|exact Hc3]. }
  first_step fast w4 H4.
  { apply wp_time, wp_steady; [apply fast_path_steady|].
    apply (fast_path_spec Hfuel all handles owner timeout alert objs w3).
    - eapply good_wait_same; [exact (unmoved_same _ _ Hu3)|done].
    - eapply alert_same_objects; [exact (unmoved_same _ _ Hu3)|done]. }
  destruct fast as [res seqs]. destruct H4 as [[(Hr & _ & Hlen & w5 & Hm & Hc4) Hl4] Ht4].
  cbn [fst snd] in *. unfold poll_answer in Hr. rewrite Hno, bool_decide_false in Hr by done. rewrite Hr.
  rewrite (effect_none _ _ handles _ Hno) in Hm.
  assert (unmoved (t := t) w w4) as Hu.
  { exact (unmoved_trans _ _ _ Hu3 (unmoved_trans _ _ _ (moved_unmoved _ _ Hm) (calm_unmoved _ _ Hc4))). }
  pose proof (unmoved_same _ _ Hu) as Hs.
  exists deadline, w4. split; [|split].
  - split; [done|]. intros k Hk d dl Hd Hdl'. specialize (Hdl k Hk d dl Hd Hdl').
    pose proof (Ht1 k Hk). pose proof (Ht3 k Hk). pose proof (Ht4 k Hk). lia.
  - eapply time_trans; [exact Ht1|]. eapply time_trans; [exact Ht2|]. by eapply time_trans.
  - change (parks (owned (mem w) F) (pred loop_fuel) handles owner deadline all alert objs L (mem w) w4
      (wait_loop loop_fuel handles owner deadline all alert [] seqs start) w4).
    assert (loop_fuel = S (pred loop_fuel)) as -> by lia. eapply parks_same; [exact Hs|].
    eapply round_parks; [| |exact (unmoved_pool_ok _ _ _ _ Hu HP)| |by eapply good_wait_same|by eapply alert_same_objects|done..| |].
    + destruct Htail as [->|]; [left; by apply Hiff|by right].
    + exact (unmoved_ready _ _ _ Hu Hw).
    + intros n. apply owned_fresh, (unmoved_fields _ _ Hu).
    + unfold capacity. rewrite (proj1 (unmoved_fields _ _ Hu)). exact Hcap.
    + unfold no_sweep_due. by rewrite Hl4, Hl3, Hl2, Hl1.
Qed.
End park.
