(* ===== verification/Wakeup.v ===== *)
(** * Wakeup: a wait that sleeps is woken

    The signal operations of one thread against the sleep of another: the
    signal that makes its objects acquirable wakes the sleeper, and the sleeper
    answers. *)
From S2P Require Import Prelude Prog Config Region Kernel Lock Nodes WaitLists NodePool Policy Sweep Init Slots Objects Words ObjectsOk Acquire Wait Satisfy SlotsOk WaitOk WaitBlock Steady Sleep Park.

(** ** Signals *)
Inductive signal : Type :=
| SigRelease (n : Z)
| SigSet
| SigUnlock (owner : Z)
| SigKill (owner : Z).

(** The object after a signal that wakes. *)
Definition signaled (s : signal) (o : obj) : option obj :=
  match s, o with
  | SigRelease n, OSem count max => if count + n <=? max then Some (OSem (count + n) max) else None
  | SigSet, OEvent manual false p => Some (OEvent manual true p)
  | SigUnlock by_owner, OMutex owner count dead =>
      if negb (by_owner =? 0) && (owner =? by_owner) && (count =? 1) then Some (OMutex 0 0 dead) else None
  | SigKill by_owner, OMutex owner _ _ =>
      if negb (by_owner =? 0) && (owner =? by_owner) then Some (OMutex 0 0 true) else None
  | _, _ => None
  end.

Definition legal (s : signal) : Prop := match s with SigRelease n => 0 <= n | _ => True end.

Lemma signaled_ok s o o' : legal s -> obj_wf o -> signaled s o = Some o' ->
  obj_wf o' /\ obj_type o' = obj_type o /\ entry_seq o' = entry_seq o.
Proof.
  intros Hs Hwf E. destruct s as [n| |ow|ow], o as [c m|w c d|m [] p]; simpl in *; simplify_eq; try done.
  - destruct (Z.leb_spec (c + n) m); simplify_eq. simpl. split; [lia|done].
  - destruct (negb _ && _ && _); simplify_eq. simpl. split; [lia|done].
  - destruct (negb _ && _); simplify_eq. simpl. split; [lia|done].
Qed.

Section signals.
Context `{!Config} {G : Type} `{!Kernel Region G} {t : nat} `{!QuietKernel G t}.
Context (Hfuel : (Z.to_nat NODE_COUNT < loop_fuel)%nat).
Implicit Types (w : world Region Local G).

Definition signal_call (s : signal) (h : Z) : action unit :=
  match s with
  | SigRelease n => sem_release h n ;;; Ret tt
  | SigSet => event_set h ;;; Ret tt
  | SigUnlock owner => mutex_unlock h owner ;;; Ret tt
  | SigKill owner => mutex_kill h owner ;;; Ret tt
  end.

Lemma signal_call_ok s h i o o' L F w :
  legal s -> live (t := t) L F w h i o -> signaled s o = Some o' ->
  wp t (signal_call s h) (fun _ w' => ready (t := t) false w' /\ effect i o' true L F (mem w) (mem w')) w.
Proof.
  intros Hs Hl E. destruct s as [n| |ow|ow]; cbn [signal_call].
  - eapply wp_frame_bind; [by apply (sem_release_run Hfuel L F w h i o)|]. intros res w' (Hw' & -> & He).
    apply wp_ret. split; [done|]. destruct o as [c m| |]; try done. cbn [signaled spec_sem_release] in *.
    destruct (c + n <=? m); by simplify_eq/=.
  - eapply wp_frame_bind; [by apply (event_set_run Hfuel L F w h i o)|]. intros res w' (Hw' & -> & He).
    apply wp_ret. split; [done|]. destruct o as [| |m [] p]; try done. cbn in E, He. by simplify_eq.
  - eapply wp_frame_bind; [by apply (mutex_unlock_run Hfuel L F w h i o)|]. intros res w' (Hw' & -> & He).
    apply wp_ret. split; [done|]. destruct o as [|x c d|]; try done. cbn [signaled spec_mutex_unlock] in *.
    destruct (ow =? 0), (x =? ow), (Z.eqb_spec c 1) as [->|]; cbn in E, He; by simplify_eq.
  - eapply wp_frame_bind; [by apply (mutex_kill_run Hfuel L F w h i o)|]. intros res w' (Hw' & -> & He).
    apply wp_ret. split; [done|]. destruct o as [|x c d|]; try done. cbn [signaled spec_mutex_kill] in *.
    destruct (ow =? 0), (x =? ow); cbn in E, He; by simplify_eq.
Qed.
End signals.

Lemma signal_call_paired `{!Config} nd s h : paired nd false (signal_call s h).
Proof.
  destruct s; apply paired_bind; try done.
  - apply paired_sem_release.
  - apply paired_event_set.
  - apply paired_mutex_unlock.
  - apply paired_mutex_kill.
Qed.

(** ** What a signal leaves *)
Lemma effect_slot i o' L F r r' j : effect i o' true L F r r' ->
  slot_ptr r' j = if decide (j = i) then set_waiter_head NIL (put_obj o' (slot_ptr r i)) else slot_ptr r j.
Proof.
  intros (r1 & H1 & Hw & _).
  assert (forall k, slot_ptr r1 k = slot_ptr (upd_slot i (put_obj o') r) k) as E by (intros k; by rewrite H1).
  rewrite (wk_slot _ _ _ _ Hw j), !E, !slot_ptr_upd_slot.
  destruct (decide (j = i)) as [->|]; [by rewrite decide_True|by rewrite decide_False].
Qed.

Lemma repr_after o o' s :
  repr o s -> obj_wf o' -> obj_type o' = obj_type o -> entry_seq o' = entry_seq o ->
  repr o' (set_waiter_head NIL (put_obj o' s)).
Proof.
  intros Ho Hwf Hty Hseq. destruct (repr_put o o' s Ho Hwf Hty) as (H1&H2&H3&H4).
  - intros m g p ->. destruct Ho as (_&_&_&Ho). destruct o; simplify_eq/=. done.
  - split; [done|]. split; [done|]. split; [done|]. by destruct o'.
Qed.

Lemma effect_lookup i o' L F r r' h : effect i o' true L F r r' -> lookup_handle r' h = lookup_handle r h.
Proof.
  intros He. unfold lookup_handle. rewrite (effect_slot _ _ _ _ _ _ _ He).
  by destruct (decide (handle_index h = i)) as [->|].
Qed.

Lemma effect_names k h o o' L F r r' handles objs :
  effect (handle_index h) o' true L F r r' -> names r handles objs -> NoDup handles ->
  handles !! k = Some h -> objs !! k = Some o ->
  obj_wf o' -> obj_type o' = obj_type o -> entry_seq o' = entry_seq o ->
  names r' handles (<[k := o']> objs).
Proof.
  intros He Hn Hnd Hh Ho Hwf Hty Hseq. pose proof (names_nodup _ _ _ Hn Hnd) as Hnd'.
  apply Forall2_same_length_lookup. split.
  { rewrite length_insert. by eapply Forall2_length. }
  intros n h2 o2 Hh2 Ho2. rewrite (effect_lookup _ _ _ _ _ _ _ He), (effect_slot _ _ _ _ _ _ _ He).
  destruct (decide (n = k)) as [->|Hne].
  - rewrite Hh in Hh2. simplify_eq. rewrite list_lookup_insert_eq in Ho2 by (by eapply lookup_lt_Some).
    simplify_eq. destruct (Forall2_lookup_lr _ _ _ _ _ _ Hn Hh Ho) as [H1 H2].
    split; [done|]. rewrite decide_True by done. by eapply repr_after.
  - rewrite list_lookup_insert_ne in Ho2 by done.
    destruct (Forall2_lookup_lr _ _ _ _ _ _ Hn Hh2 Ho2) as [H1 H2]. split; [done|].
    rewrite decide_False; [done|]. intros E. apply Hne.
    apply (NoDup_lookup (handle_index <$> handles) n k (handle_index h)); [done| |]; rewrite list_lookup_fmap.
    + by rewrite Hh2, <- E.
    + by rewrite Hh.
Qed.

Lemma effect_alert h o o' L F r r' alert :
  effect (handle_index h) o' true L F r r' -> lookup_handle r h = Some (handle_index h) -> alert <> h ->
  repr o (slot_ptr r (handle_index h)) -> alert_quiet r alert -> alert_quiet r' alert.
Proof.
  intros He Hh Hne Ho [|(i & m & p & Hl & Hr)]; [by left|]. right. exists i, m, p.
  rewrite (effect_lookup _ _ _ _ _ _ _ He). split; [done|].
  rewrite (effect_slot _ _ _ _ _ _ _ He), decide_False; [done|]. intros ->.
  apply Hne. by eapply lookup_handle_inj.
Qed.

Lemma seqs_for_insert seqs objs k o o' :
  objs !! k = Some o -> obj_type o' = obj_type o -> entry_seq o' = entry_seq o ->
  seqs_for seqs 0 objs -> seqs_for seqs 0 (<[k := o']> objs).
Proof.
  intros Ho Hty Hseq Hs n o2 Hn Hev. destruct (decide (n = k)) as [->|Hne].
  - rewrite list_lookup_insert_eq in Hn by (by eapply lookup_lt_Some). simplify_eq.
    rewrite Hseq. apply Hs; [done|congruence].
  - rewrite list_lookup_insert_ne in Hn by done. by apply Hs.
Qed.

(** The futex word of a waiter on the object's list moves. *)
Lemma effect_bumps i o' L F r r' n head :
  effect i o' true L F r r' -> pool_ok r L F -> n ∈ L i -> n_wait_word (node_ptr r n) = head ->
  n_seq (node_ptr r' head) <> n_seq (node_ptr r head).
Proof.
  intros (r1 & H1 & Hw & _) HP Hn <-.
  assert (forall k, node_ptr r1 k = node_ptr r k) as E1 by (intros k; by rewrite H1).
  pose proof (woken_moves _ _ _ _ r L n Hw (po_lists _ _ _ HP) eq_refl Hn) as Hm. cbv zeta in Hm. by rewrite !E1 in Hm.
Qed.

Lemma effect_mine O i o' L F r r' nodes :
  effect i o' true L F r r' -> mine O r F nodes -> mine O r' F nodes.
Proof.
  intros (r1 & H1 & Hw & _). apply mine_fresh. rewrite (wk_fresh _ _ _ _ Hw).
  exact (node_fresh_proper _ _ H1).
Qed.

(** ** Falling asleep, and waking *)
Section sleep.
Context `{!Config} {G : Type} `{!Kernel Region G} {t0 t1 : nat}.
Context `{Q0 : !QuietKernel G t0} `{Q1 : !QuietKernel G t1} `{!SleepKernel G t0 t1}.
Context (Hfuel : (Z.to_nat NODE_COUNT < loop_fuel)%nat) (Hquiet : debug_enabled = false).
Implicit Types (w : world Region Local G).

(** Asleep in the futex; when the call answers 0, what is left is the detach
    and the next round. *)
Definition sleeping (O : Z -> Prop) (fuel : nat) (handles : list Z) (owner : Z) (all : bool) (alert : Z)
  (objs : list obj) (L : Z -> list Z) (r0 : Region) (n e : Z) (k : Z -> action WaitOutcome) w : Prop :=
  exists nodes seqs F last,
    n = arr nodes 0 /\
    k 0 = (detach_nodes nodes ;;; wait_loop fuel handles owner None all alert nodes seqs last) /\
    enlisted_in O handles alert objs nodes seqs L F r0 (mem w) /\
    k_asleep (t1 := t1) n false (ker w) /\ k_lock (t := t1) false (ker w) /\ mapped (loc w).

(** A wait with nothing to acquire, no deadline and room in the pool goes to
    sleep, with its nodes enlisted. *)
Lemma wait_sleeps handles owner all alert objs L F w :
  ready (t := t0) false w -> pool_ok (mem w) L F -> good_wait (mem w) handles owner objs ->
  alert_quiet (mem w) alert -> answer_now owner all objs = None ->
  Z.of_nat (n_nodes handles alert) <= capacity F (mem w) -> no_sweep_due (loc w) ->
  wps t0 (wait handles owner None all alert)
    (sleeping (owned (mem w) F) (pred loop_fuel) handles owner all alert objs L (mem w)) w.
Proof.
  intros Hw HP Hg Ha Hno Hcap Hdue.
  destruct (wait_parks (t := t0) Hfuel Hquiet handles owner None all alert objs L F w (or_introl eq_refl) ltac:(done)
    Hw HP Hg Ha Hno Hcap Hdue) as (dl & w1 & [Hiff _] & _ & Hparks).
  rewrite (proj2 Hiff eq_refl) in Hparks.
  destruct Hparks as [(?&?&?&[=]&_)|(rem & nodes & sq & F' & last & w' & E & Hen & [Hl' Hk'] & [Hrem _])].
  rewrite (proj2 Hrem eq_refl) in E.
  destruct (law_enter (arr nodes 0) (mem w') (ker w') Hk') as (g & Hcall & Hsl & Hlk).
  eexists _, _, _, _. split.
  { rewrite E. unfold futex_wait. cbn [bind sys advance]. rewrite Hcall. reflexivity. }
  exists nodes, sq, F', last. split; [done|]. split; [|done]. apply (after_park_eq Hfuel Hquiet). by left.
Qed.

(** The signal finds the sleeper. *)
Lemma signal_wakes O handles alert objs nodes seqs L F r0 e m1 g1 l1 s j h o o' :
  enlisted_in O handles alert objs nodes seqs L F r0 m1 ->
  k_asleep (t1 := t1) (arr nodes 0) false g1 -> k_lock (t := t1) false g1 -> mapped l1 ->
  handles !! j = Some h -> lookup_handle m1 h = Some (handle_index h) ->
  repr o (slot_ptr m1 (handle_index h)) -> legal s -> signaled s o = Some o' ->
  exists w2 g2,
    advance t1 (signal_call s h) (World m1 l1 g1) = (Ret tt, w2) /\
    effect (handle_index h) o' true (enlisted (targets handles alert) nodes L) F m1 (mem w2) /\
    kcall t0 (FutexWait (arr nodes 0) e None) (mem w2) (ker w2) = Answer 0 g2 /\ k_lock (t := t0) false g2.
Proof.
  intros [HP Hm Hlen Hp Hsq Hso] Hsl Hlk Hl1 Hh Hlu Hrep Hs Hsig.
  assert (live (t := t1) (enlisted (targets handles alert) nodes L) F (World m1 l1 g1) h (handle_index h) o) as Hlive.
  { by split. }
  destruct (wp_advance t1 _ _ _ (signal_call_ok Hfuel s h _ o o' _ _ _ Hs Hlive Hsig)) as ([] & w2 & Hadv & Hw2 & He).
  cbn [mem] in He. destruct (nodes !! j) as [nj|] eqn:Enj.
  2: { apply lookup_ge_None in Enj. apply lookup_lt_Some in Hh. unfold n_nodes in Hlen. lia. }
  assert (nj ∈ enlisted (targets handles alert) nodes L (handle_index h)) as Hin.
  { eapply enlisted_elem; [|exact Enj]. by apply lookup_app_l_Some. }
  assert (k_asleep (t1 := t1) (arr nodes 0) true (ker w2)) as Hwoken.
  { pose proof (run_advance t1 (signal_call s h) (World m1 l1 g1)) as Hr. rewrite Hadv in Hr.
    destruct (paired_wakes (arr nodes 0) _ false false (World m1 l1 g1) tt w2 (signal_call_paired _ s h) Hl1 Hsl Hr) as [|[_ E]]; [done|].
    exfalso. refine (effect_bumps _ _ _ _ _ _ nj _ He HP Hin _ E).
    apply Hp. by eapply list_elem_of_lookup_2. }
  destruct (law_resume (arr nodes 0) e (mem w2) (ker w2) Hwoken (proj2 Hw2)) as (g2 & Hcall & Hlk2).
  by exists w2, g2.
Qed.

(** And the sleeper returns with what it came for. *)
Lemma signal_resumes O fuel handles owner all alert objs L r0 n e k w1 l1 s j h o o' out :
  sleeping O (S fuel) handles owner all alert objs L r0 n e k w1 -> mapped l1 ->
  good_wait r0 handles owner objs -> alert_quiet r0 alert -> alert <> h ->
  handles !! j = Some h -> objs !! j = Some o -> legal s -> signaled s o = Some o' ->
  answer_now owner all (<[j := o']> objs) = Some out ->
  exists w2 w3,
    advance t1 (signal_call s h) (World (mem w1) l1 (ker w1)) = (Ret tt, w2) /\
    names (mem w2) handles (<[j := o']> objs) /\
    advance t0 (Sys (FutexWait n e None) k) (World (mem w2) (loc w1) (ker w2)) = (Ret out, w3) /\
    (exists F', pool_ok (mem w3) (clear (handle_index h) L) F' /\ back O (mem w3) F') /\
    objects_changed (mem w2) (mem w3) (effect_now owner all handles (<[j := o']> objs)).
Proof.
  intros (nodes & seqs & F & last & -> & Hk & Hen & Hsl & Hlk & Hmap) Hl1 Hg Ha Hne Hh Ho Hs Hsig Hout.
  pose proof Hen as [HP Hm Hlen Hp Hsq Hso]. pose proof (good_wait_same _ _ _ _ _ Hso Hg) as Hg1.
  pose proof (gw_names _ _ _ _ Hg1) as Hn1. pose proof (Forall2_lookup_lr _ _ _ _ _ _ Hn1 Hh Ho) as [Hlu Hrep].
  destruct (signaled_ok _ _ _ Hs (proj1 (proj2 (proj2 Hrep))) Hsig) as (Hwf & Hty & Hes).
  destruct (signal_wakes _ _ _ _ _ _ _ _ _ e _ _ l1 s j h o o' Hen Hsl Hlk Hl1 Hh Hlu Hrep Hs Hsig)
    as (w2 & g2 & Hadv & He & Hcall & Hlk2).
  pose proof (effect_names j h o o' _ _ _ _ handles objs He Hn1 (gw_distinct _ _ _ _ Hg1) Hh Ho Hwf Hty Hes) as Hn2.
  assert (good_wait (mem w2) handles owner (<[j := o']> objs)) as Hg2 by (destruct Hg1; by split).
  pose proof He as (_ & _ & _ & HP2).
  destruct (wp_advance t0 _ _ _ (resume_spec Hfuel O fuel handles owner all alert nodes seqs _ out _ F last
    (World (mem w2) (loc w1) g2) (conj Hmap Hlk2) HP2 (effect_mine _ _ _ _ _ _ _ _ He Hm) Hlen Hg2
    (effect_alert _ _ _ _ _ _ _ _ He Hlu Hne Hrep (alert_same_objects _ _ _ Hso Ha))
    (seqs_for_insert _ _ _ _ _ Ho Hty Hes Hsq) Hout)) as (res & w3 & Hadv3 & _ & -> & (F' & HP3 & Hb3) & Hch).
  exists w2, w3. split; [done|]. split; [done|]. split; [cbn [advance mem ker]; rewrite Hcall, Hk; exact Hadv3|].
  split; [|done]. exists F'. split; [|done]. eapply pool_ok_ext; [|exact HP3]. by eapply without_all_woken.
Qed.
End sleep.

(** ** Two threads *)
Section two_threads.
Context `{!Config} {G : Type} `{!Kernel Region G}.
Context `{Q0 : !QuietKernel G 0} `{Q1 : !QuietKernel G 1} `{!SleepKernel G 0 1}.
Context (Hfuel : (Z.to_nat NODE_COUNT < loop_fuel)%nat) (Hquiet : debug_enabled = false).

(** Thread 0 waits without a deadline, thread 1 makes one signal. *)
Definition waiter (handles : list Z) (owner : Z) (all : bool) (alert : Z) (l : Local)
  : thread Region Local (option WaitOutcome) :=
  Thread (out <- wait handles owner None all alert ;; Ret (Some out)) l.
Definition signaler (s : signal) (h : Z) (l : Local) : thread Region Local (option WaitOutcome) :=
  Thread (signal_call s h ;;; Ret None) l.

Definition asleep_on (n : Z) (th : thread Region Local (option WaitOutcome)) : Prop :=
  exists e k, code th = Sys (FutexWait n e None) k.

Lemma advance_ret {A B} t (p : action A) (q : A -> action B) (w w' : world Region Local G) a :
  advance t p w = (Ret a, w') -> advance t (bind p q) w = advance t (q a) w'.
Proof. intros E. by rewrite advance_bind, E. Qed.

(** C11: A blocked wait is woken.  A wait for live objects, none of which can be
    acquired, without a deadline, goes to sleep in its futex and cannot go on.
    When another thread then makes the signal that lets the wait be satisfied
    (a release, a set, the last unlock or a kill of one of its objects), that
    call returns, the sleeper has been woken, and it returns in turn, with the
    answer the changed objects give.  Its nodes are back in the pool: no list
    of waiters holds one, the nodes handed out are exactly those that were
    before it began, and only the objects it acquired have changed. *)
Theorem blocked_wait_is_woken handles owner all alert objs L F m (g : G) l0 l1 s j h o o' out :
  k_lock (t := 0%nat) false g -> mapped l0 -> mapped l1 -> pool_ok m L F ->
  good_wait m handles owner objs -> alert_quiet m alert -> answer_now owner all objs = None ->
  Z.of_nat (n_nodes handles alert) <= capacity F m -> no_sweep_due l0 ->
  handles !! j = Some h -> objs !! j = Some o -> alert <> h -> legal s -> signaled s o = Some o' ->
  answer_now owner all (<[j := o']> objs) = Some out ->
  let s0 := Pool m g [waiter handles owner all alert l0; signaler s h l1] in
  let s1 := let_run 0 s0 in let s2 := let_run 1 s1 in let s3 := let_run 0 s2 in
  steps s0 s3 /\
  (exists n th, threads s1 !! 0%nat = Some th /\ asleep_on n th /\ pool_step 0 s1 = None) /\
  names (pmem s2) handles (<[j := o']> objs) /\
  code <$> threads s3 = [Ret (Some out); Ret None] /\
  (exists F', pool_ok (pmem s3) (clear (handle_index h) L) F' /\ back (owned m F) (pmem s3) F') /\
  objects_changed (pmem s2) (pmem s3) (effect_now owner all handles (<[j := o']> objs)).
Proof.
  intros Hk Hl0 Hl1 HP Hg Ha Hno Hcap Hdue Hh Ho Hne Hs Hsig Hout. cbv zeta.
  split; [eapply steps_trans; [apply let_run_steps|]; eapply steps_trans; apply let_run_steps|].
  destruct (wait_sleeps (t0 := 0) (t1 := 1) Hfuel Hquiet handles owner all alert objs L F (World m l0 g)
    (conj Hl0 Hk) HP Hg Ha Hno Hcap Hdue) as (n & e & k & w1 & E1 & HS). cbn [mem] in HS.
  assert (pred loop_fuel = S (pred (pred loop_fuel))) as Hf2 by (unfold NODE_COUNT in Hfuel; lia).
  rewrite Hf2 in HS. pose proof HS as (_ & _ & _ & _ & _ & _ & _ & Hsl & _).
  destruct (signal_resumes Hfuel _ _ handles owner all alert objs L m n e k w1 l1 s j h o o' out
    HS Hl1 Hg Ha Hne Hh Ho Hs Hsig Hout) as (w2 & w3 & E2 & Hn2 & E3 & HP3 & Hch).
  set (s0 := Pool m g _).
  rewrite (let_run_eq 0 s0 _ l0 (Sys (FutexWait n e None) (fun z => bind (k z) (fun out => Ret (Some out)))) w1 eq_refl)
    by (cbn [pmem pker s0]; by rewrite advance_bind, E1).
  set (s1 := Pool (mem w1) _ _).
  rewrite (let_run_eq 1 s1 _ l1 (Ret None) w2 eq_refl) by exact (advance_ret _ _ _ _ _ _ E2).
  set (s2 := Pool (mem w2) _ _).
  rewrite (let_run_eq 0 s2 _ (loc w1) (Ret (Some out)) w3 eq_refl)
    by exact (advance_ret _ _ (fun out => Ret (Some out)) _ _ _ E3).
  split; [|done]. exists n. eexists. split; [reflexivity|]. split; [by eexists _, _|].
  eapply blocked_step; [reflexivity|]. exact (law_blocked n e (mem w1) (ker w1) Hsl).
Qed.
End two_threads.
