(* ===== verification/Timeout.v ===== *)
(** * Timeout: a wait with a deadline times out

    A wait for objects that nobody signals, seen from its thread alone: it
    goes to sleep with the remaining time, the futex call times out, the nodes
    are taken off the lists and the next round finds the deadline passed. *)
From S2P Require Import Prelude Prog Config Region Kernel Lock Nodes WaitLists NodePool Policy Sweep Init Slots Objects Words ObjectsOk Acquire Wait Satisfy SlotsOk WaitOk WaitBlock Steady Sleep Park.

(** ** The interface *)

(** futex(2) with a timeout, on a word that nobody moves or wakes: it answers
    ETIMEDOUT when that time has passed. *)
Class TimerKernel (G : Type) `{!Kernel Region G} (t : nat) `{!QuietKernel G t} : Type := {
  k_now : G -> Z;
  law_clocks : clock_laws t k_now;
  law_futex_timeout node m g d : k_lock (t := t) false g -> 0 < d -> exists g',
    kcall t (FutexWait node (n_seq (node_ptr m node)) (Some d)) m g = Answer ETIMEDOUT g' /\
    k_now g + d <= k_now g' /\ k_lock (t := t) false g';
}.

Section timeout.
Context `{!Config} {G : Type} `{!Kernel Region G} {t : nat} `{!QuietKernel G t} `{!TimerKernel G t}.
Context (Hfuel : (Z.to_nat NODE_COUNT < loop_fuel)%nat) (Hquiet : debug_enabled = false).
Implicit Types (w : world Region Local G).

(** Where a wait that timed out leaves the thread: the deadline has passed, the
    nodes handed out are those the others hold, [O], and no object has changed. *)
Definition timed_out (O : Z -> Prop) (dl : Z) (L : Z -> list Z) (r0 : Region) (out : WaitOutcome) w' : Prop :=
  out = Timeout /\ dl <= k_now (ker w') /\ ready (t := t) false w' /\
  (exists F', pool_ok (mem w') L F' /\ back O (mem w') F') /\ same_objects r0 (mem w').

(** The round after the deadline. *)
Lemma expired_round O fuel handles owner dl all alert nodes seqs objs L F last w :
  ready (t := t) false w -> dl <= k_now (ker w) -> pool_ok (mem w) L F -> mine O (mem w) F nodes ->
  unregistered (mem w) nodes -> length nodes = n_nodes handles alert -> good_wait (mem w) handles owner objs ->
  alert_quiet (mem w) alert -> seqs_for seqs 0 objs -> answer_now owner all objs = None ->
  wp t (wait_loop (S fuel) handles owner (Some dl) all alert nodes seqs last)
    (timed_out O dl L (mem w)) w.
Proof.
  intros Hw Hdl HP Hm Hu Hlen Hg Ha Hs Hno. cbn [wait_loop]. eapply wp_frame_bind.
  { apply wp_time, (wp_told t _ (fun P => time_left (Some dl) P)); [intros P; apply locked_section_told|].
    by apply (locked_section_again Hfuel O handles owner (Some dl) all alert nodes seqs objs L F
      (replicate (n_nodes handles alert) NIL) w). }
  intros res w1 [[[Hw1 He] Htold] Ht]. specialize (Htold _ law_clocks). specialize (Ht _ law_clocks).
  destruct He as [out F' Ho|dl' F' _ _ HP1 Hb1 Hch|F' Hcap|seq rem ns sq F' _ _ _ _ _ _ _ Hrem Hpos _].
  - by rewrite Hno in Ho.
  - apply wp_ret. split; [done|]. split; [lia|]. split; [done|]. split; [by exists F'|].
    intros i. apply Hch, not_elem_of_nil.
  - pose proof (lo_fresh _ _ (po_lists _ _ _ HP)). unfold capacity in Hcap. rewrite length_replicate in Hcap. lia.
  - destruct rem as [r|]; [|discriminate (proj1 Hrem eq_refl)].
    destruct Htold as (dl' & now & [= <-] & -> & Hn). specialize (Hpos _ eq_refl). lia.
Qed.

(** Back from a futex call that timed out. *)
Lemma expired_resume O fuel handles owner dl all alert objs nodes seqs L F r0 last w :
  ready (t := t) false w -> dl <= k_now (ker w) -> good_wait r0 handles owner objs ->
  alert_quiet r0 alert -> answer_now owner all objs = None ->
  enlisted_in O handles alert objs nodes seqs L F r0 (mem w) ->
  wp t (after_park (S fuel) handles owner (Some dl) all alert nodes seqs last (- ETIMEDOUT))
    (timed_out O dl L r0) w.
Proof.
  intros Hw Hdl Hg Ha Hno [HP Hm Hlen Hp Hsq Hso].
  rewrite (after_park_eq Hfuel Hquiet) by (by right). eapply wp_frame_bind.
  { by apply wp_time, (detach_nodes_spec Hfuel O nodes (enlisted (targets handles alert) nodes L) F w). }
  intros [] w1 [(Hw1 & HP1 & Hm1 & Hu1 & Hs1) Ht]. specialize (Ht _ law_clocks).
  pose proof (same_objects_trans _ _ _ Hso Hs1) as Hs.
  assert (pool_ok (mem w1) L F) as HP2.
  { eapply pool_ok_ext; [|exact HP1]. by eapply without_all_enlisted_in. }
  eapply wp_mono; [|apply (expired_round O fuel handles owner dl all alert nodes seqs objs L F last w1); try done; [lia|..]].
  - intros out w2 (-> & H1 & H2 & H3 & H4). repeat (split; [done|]). by eapply same_objects_trans.
  - by eapply good_wait_same.
  - by eapply alert_same_objects.
Qed.

(** C12: A wait with a deadline times out.  A wait for live objects, none of which
    can be acquired, with a timeout [d], without debug and tail spin, in a
    thread that nobody signals: it returns [Timeout], not before [d] has passed
    since the call; the waiter lists are those that were there before, the nodes
    handed out are exactly those that were handed out before, and no object has
    changed. *)
Theorem timed_wait_times_out handles owner d all alert objs L F w :
  0 < d -> spin_tail = None ->
  ready (t := t) false w -> pool_ok (mem w) L F -> good_wait (mem w) handles owner objs ->
  alert_quiet (mem w) alert -> answer_now owner all objs = None ->
  Z.of_nat (n_nodes handles alert) <= capacity F (mem w) -> no_sweep_due (loc w) ->
  wp t (wait handles owner (Some d) all alert)
    (timed_out (owned (mem w) F) (k_now (ker w) + d) L (mem w)) w.
Proof.
  intros Hd Htail Hw HP Hg Ha Hno Hcap Hdue.
  destruct (wait_parks Hfuel Hquiet handles owner (Some d) all alert objs L F w (or_intror Htail) ltac:(naive_solver lia)
    Hw HP Hg Ha Hno Hcap Hdue) as (deadline & w1 & [Hiff Hdue1] & Ht1 & Hparks).
  destruct deadline as [dl|]; [|discriminate (proj1 Hiff eq_refl)].
  destruct (Hdue1 _ law_clocks d dl eq_refl eq_refl) as [Hlo _].
  destruct Hparks as [(dl' & w' & F' & [= <-] & E & Hlate & H1 & H2 & Hb & H3)|(rem & nodes & sq & F' & last & w' & E & Hen & Hw' & Hrem & Hpos & Htime)].
  { apply (wp_of_advance t _ (Ret Timeout) _ w w'); [exact E|]. specialize (Hlate _ law_clocks). apply wp_ret.
    split; [done|]. split; [lia|]. split; [done|]. split; [by exists F'|done]. }
  destruct rem as [r|]; [|discriminate (proj1 Hrem eq_refl)].
  destruct (Htime _ law_clocks r eq_refl) as (dl' & now & [= <-] & -> & Hnow).
  destruct (law_futex_timeout (arr nodes 0) (mem w') (ker w') (dl - now) (proj2 Hw') (Hpos _ eq_refl)) as (g & Hcall & Hg1 & Hlk).
  assert (pred loop_fuel = S (pred (pred loop_fuel))) as Hf2 by (unfold NODE_COUNT in Hfuel; lia).
  eapply wp_of_advance; [exact E|]. rewrite Hf2.
  eapply wp_frame_bind with (P := fun ret w2 => ret = - ETIMEDOUT /\ w2 = World (mem w') (loc w') g).
  { eapply wp_bind, wp_sys; [exact Hcall|]. by apply wp_ret. }
  intros ret w2 [-> ->]. eapply wp_mono; [|eapply (expired_resume _ _ handles owner dl all alert objs nodes sq L F' (mem w)); try done].
  - intros out w2 (-> & Hl & H2). split; [done|]. split; [lia|done].
  - split; [apply Hw'|done].
  - cbn [ker]. lia.
Qed.
End timeout.

(** ** The executable kernel keeps time *)
Section sim.
Import Sim.
Context (pids : nat -> Z) (alive : Z -> bool).
Context (Hpid : forall t, 0 < pids t < W31) (Halive : forall p, alive (as_i32 p) = alive p).
#[local] Instance sim_kernel : Kernel Region sim := sim_call pids alive.

Lemma sim_clocks t : clock_laws t sim_clock.
Proof.
  split; [|intros m g z g' [= <- <-]; cbn; lia].
  intros c m g z g' E. unfold kcall, sim_kernel, sim_call, sim_acquire, sim_futex_wait in E.
  destruct c; repeat case_match; simplify_eq/=; lia.
Qed.

Program Definition sim_timer (t : nat) : TimerKernel sim t (QuietKernel0 := sim_sleeper pids alive Hpid Halive t) := {|
  k_now := sim_clock;
|}.
Next Obligation. intros t. apply sim_clocks. Qed.
Next Obligation.
  intros t node m g d [[H1 H2] H3] Hd. unfold kcall, Sleep.sim_kernel, sim_call, sim_futex_wait.
  rewrite H3, Z.eqb_refl. eexists. split; [done|]. cbn in *. repeat split; try done; lia.
Qed.
End sim.
