(* ===== verification/SweepOk.v ===== *)
(** * SweepOk: the sweep reaps the dead and only the dead

    [next_chunk] walks the table in chunks of 256 candidates without skipping
    any; the pid cache answers what kill(2) would; and one sweep frees exactly
    the objects whose creator and recorded holders are all dead, unless a
    holder went unrecorded, and the waiter nodes of dead processes. *)
From S2P Require Import Prelude Prog Config Region Kernel Lock Nodes WaitLists NodePool Sweep Init Slots Objects Words ObjectsOk Wait Satisfy SlotsOk WaitOk WaitBlock.

(** ** The scan *)
Definition opt_list {A} (o : option A) : list A := match o with Some a => [a] | None => [] end.

Definition cand_node_at (r : Region) (i : Z) : option DeadCand :=
  if negb (n_registered (node_ptr r i) =? 0) then Some (node_cand i (n_pid (node_ptr r i))) else None.

Definition cand_slot_at (r : Region) (i : Z) : option DeadCand :=
  if (s_state (slot_ptr r i) =? SLOT_USED) && negb (s_pid (slot_ptr r i) =? 0)
  then Some (slot_cand i (slot_ptr r i)) else None.

(** The candidates a scan passes over when it moves from [s] to [s']. *)
Definition between (s s' : SweepScan) (r : Region) : list DeadCand :=
  omap (cand_node_at r) (seqZ (next_node s) (next_node s' - next_node s)) ++
  omap (cand_slot_at r) (seqZ (next_slot s) (next_slot s' - next_slot s)).

Record advances (s s' : SweepScan) : Prop := {
  ad_hi : node_hi s' = node_hi s /\ slot_hi s' = slot_hi s;
  ad_node : next_node s <= next_node s' <= Z.max (next_node s) (node_hi s);
  ad_slot : next_slot s <= next_slot s' <= Z.max (next_slot s) (slot_hi s);
  ad_order : next_slot s < next_slot s' -> node_hi s <= next_node s';
}.

Definition at_end (s : SweepScan) : Prop := node_hi s <= next_node s /\ slot_hi s <= next_slot s.

Lemma seqZ_step (m n : Z) : m < n -> seqZ m (n - m) = m :: seqZ (m + 1) (n - (m + 1)).
Proof. intros H. rewrite seqZ_cons by lia. f_equal. f_equal; lia. Qed.

Lemma omap_step {A} (f : Z -> option A) m n :
  m < n -> omap f (seqZ m (n - m)) = opt_list (f m) ++ omap f (seqZ (m + 1) (n - (m + 1))).
Proof. intros H. rewrite seqZ_step by done. cbn. by destruct (f m). Qed.

Lemma omap_none {A} (f : Z -> option A) m : omap f (seqZ m (m - m)) = [].
Proof. by rewrite Z.sub_diag. Qed.

Lemma between_refl s r : between s s r = [].
Proof. unfold between. by rewrite !omap_none. Qed.

Lemma opt_list_if {A} (b : bool) (x : A) out :
  (if b then out ++ [x] else out) = out ++ opt_list (if b then Some x else None).
Proof. destruct b; simpl; [done|by rewrite app_nil_r]. Qed.

Lemma chunk_loop_spec r fuel : forall s out,
  (scan_left s < fuel)%nat -> (length out <= SWEEP_CHUNK)%nat ->
  exists s', chunk_loop fuel s r out = (out ++ between s s' r, s') /\ advances s s' /\
    (length (out ++ between s s' r) = SWEEP_CHUNK \/
     (length (out ++ between s s' r) <= SWEEP_CHUNK)%nat /\ at_end s').
Proof.
  induction fuel as [|fuel IH]; intros s out Hf Hlen; [lia|]. cbn [chunk_loop].
  destruct (Nat.leb_spec SWEEP_CHUNK (length out)) as [Hfull|Hroom].
  { exists s. rewrite between_refl, app_nil_r. split; [done|]. split; [|left; lia]. split; try lia; done. }
  destruct (Z.ltb_spec (next_node s) (node_hi s)) as [Hn|Hn].
  - set (s1 := mkScan (node_hi s) (slot_hi s) (next_node s + 1) (next_slot s)).
    rewrite opt_list_if. fold (cand_node_at r (next_node s)).
    destruct (IH s1 (out ++ opt_list (cand_node_at r (next_node s)))) as (s' & He & Ha & Hend).
    { unfold scan_left in *. subst s1. cbn [node_hi slot_hi next_node next_slot]. lia. }
    { rewrite length_app. destruct (cand_node_at r (next_node s)); simpl; lia. }
    destruct Ha as [[A1 A2] A3 A4 A5]. subst s1. cbn [node_hi slot_hi next_node next_slot] in *.
    assert (between s s' r = opt_list (cand_node_at r (next_node s)) ++
      between (mkScan (node_hi s) (slot_hi s) (next_node s + 1) (next_slot s)) s' r) as Hb.
    { unfold between. cbn [next_node next_slot]. rewrite (omap_step _ (next_node s)) by lia.
      by rewrite <- app_assoc. }
    exists s'. rewrite Hb, app_assoc. split; [done|]. split; [|done]. split; [done|lia|lia|done].
  - destruct (Z.ltb_spec (next_slot s) (slot_hi s)) as [Hs|Hs].
    + set (s1 := mkScan (node_hi s) (slot_hi s) (next_node s) (next_slot s + 1)).
      rewrite opt_list_if. fold (cand_slot_at r (next_slot s)).
      destruct (IH s1 (out ++ opt_list (cand_slot_at r (next_slot s)))) as (s' & He & Ha & Hend).
      { unfold scan_left in *. subst s1. cbn [node_hi slot_hi next_node next_slot]. lia. }
      { rewrite length_app. destruct (cand_slot_at r (next_slot s)); simpl; lia. }
      destruct Ha as [[A1 A2] A3 A4 A5]. subst s1. cbn [node_hi slot_hi next_node next_slot] in *.
      assert (between s s' r = opt_list (cand_slot_at r (next_slot s)) ++
        between (mkScan (node_hi s) (slot_hi s) (next_node s) (next_slot s + 1)) s' r) as Hb.
      { unfold between. cbn [next_node next_slot]. replace (next_node s') with (next_node s) by lia.
        rewrite omap_none, (omap_step _ (next_slot s)) by lia. done. }
      exists s'. rewrite Hb, app_assoc. split; [done|]. split; [|done]. split; [done|lia|lia|lia].
    + exists s. rewrite between_refl, app_nil_r. split; [done|]. split; [|right; split; [lia|done]].
      split; try lia; done.
Qed.

Lemma next_chunk_spec s r :
  exists s', next_chunk s r = (between s s' r, s') /\ advances s s' /\
    (length (between s s' r) = SWEEP_CHUNK \/ (length (between s s' r) <= SWEEP_CHUNK)%nat /\ at_end s').
Proof. apply (chunk_loop_spec r (S (scan_left s)) s []); [lia|]. unfold SWEEP_CHUNK. simpl. lia. Qed.

(** A chunk cannot hold more candidates than the positions passed. *)
Lemma omap_length_le {A B} (f : A -> option B) l : (length (omap f l) <= length l)%nat.
Proof.
  induction l as [|x l IH]; [done|].
  change (omap f (x :: l)) with (match f x with Some y => y :: omap f l | None => omap f l end).
  destruct (f x); cbn [length]; lia.
Qed.

Lemma between_length s s' r : advances s s' ->
  (length (between s s' r) + scan_left s' <= scan_left s)%nat.
Proof.
  intros [[A1 A2] A3 A4 A5]. unfold between, scan_left. rewrite length_app, A1, A2.
  pose proof (omap_length_le (cand_node_at r) (seqZ (next_node s) (next_node s' - next_node s))) as H1.
  pose proof (omap_length_le (cand_slot_at r) (seqZ (next_slot s) (next_slot s' - next_slot s))) as H2.
  rewrite length_seqZ in H1, H2. lia.
Qed.

Lemma at_end_left s : at_end s -> scan_left s = 0%nat.
Proof. intros [H1 H2]. unfold scan_left. lia. Qed.

(** Membership. *)
Lemma elem_between s s' r c : c ∈ between s s' r <->
  (exists i, next_node s <= i < next_node s' /\ cand_node_at r i = Some c) \/
  (exists i, next_slot s <= i < next_slot s' /\ cand_slot_at r i = Some c).
Proof.
  unfold between. rewrite elem_of_app, !list_elem_of_omap. split.
  - intros [(i & Hi%elem_of_seqZ & Hc)|(i & Hi%elem_of_seqZ & Hc)]; [left|right]; exists i; split; (lia || done).
  - intros [(i & Hi & Hc)|(i & Hi & Hc)]; [left|right]; exists i; split; try done; apply elem_of_seqZ; lia.
Qed.

(** ** Liveness *)
Section live.
Context `{!Config} {G : Type} `{!Kernel Region G} {t : nat} `{!QuietKernel G t}.
Context (Hfuel : (Z.to_nat NODE_COUNT < loop_fuel)%nat).
Implicit Types (w : world Region Local G).

(** A process id that names a live process. *)
Definition alive (pid : Z) : bool := negb (pid =? 0) && k_alive pid.

Lemma pid_alive_spec b pid (Q : bool -> world Region Local G -> Prop) w :
  ready b w -> (forall w', calm w w' -> Q (alive pid) w') -> wp t (pid_alive pid) Q w.
Proof.
  intros Hw HQ. unfold pid_alive, alive in *. destruct (Z.eqb_spec pid 0) as [->|Hp]; cbn [negb andb] in *.
  { apply wp_ret, HQ, calm_refl. }
  destruct (law_quiet (Kill0 (as_i32 pid)) (mem w) (ker w) eq_refl) as (z & g & Hk & Hl).
  pose proof (law_kill _ _ _ _ _ Hk Hp) as Hz.
  apply wp_bind. eapply wp_sys; [exact Hk|]. apply wp_ret.
  assert (negb (negb (z =? 0) && (z =? ESRCH)) = k_alive pid) as ->; [|by apply HQ].
  rewrite Hz. unfold ESRCH in Hz. destruct (Z.eqb_spec z 0) as [->|]; simpl in *.
  - destruct (k_alive pid); done.
  - by rewrite negb_involutive.
Qed.

(** Every cached verdict is right. *)
Record cache_ok (c : PidCache) : Prop := {
  ca_right n p a : pc_pid c !! n = Some p -> pc_alive c !! n = Some a -> p <> 0 -> a = k_alive p;
}.

Lemma cache_new_ok : cache_ok cache_new.
Proof.
  split. intros n p a Hp%list_elem_of_lookup_2 _ Hne. unfold cache_new in Hp. cbn in Hp.
  repeat (apply elem_of_cons in Hp as [Hp|Hp]; [done|]). by apply elem_of_nil in Hp.
Qed.

Lemma cache_find_right pid pids : forall alives a,
  (forall n p x, pids !! n = Some p -> alives !! n = Some x -> p <> 0 -> x = k_alive p) ->
  pid <> 0 -> cache_find pid pids alives = Some a -> a = k_alive pid.
Proof.
  induction pids as [|p pids IH]; intros [|x alives] a Hr Hp; simpl; try done.
  destruct (Z.eqb_spec p pid) as [->|Hne].
  - intros [= <-]. by apply (Hr 0%nat).
  - apply IH; [|done]. intros n q y. apply (Hr (S n)).
Qed.

Lemma cache_put_ok pid c : cache_ok c -> cache_ok (cache_put pid (k_alive pid) c).
Proof.
  intros [Hr]. split. intros n p a. unfold cache_put. cbn [pc_pid pc_alive].
  destruct (decide (n = Z.to_nat (pc_next c))) as [->|Hne].
  - intros [[_ [<- _]]|[[] _]]%list_lookup_insert_Some; [|done].
    intros [[_ [<- _]]|[[] _]]%list_lookup_insert_Some; done.
  - rewrite !list_lookup_insert_ne by done. apply Hr.
Qed.

Lemma cache_alive_spec b pid c (Q : bool * PidCache -> world Region Local G -> Prop) w :
  ready b w -> cache_ok c ->
  (forall c' w', calm w w' -> cache_ok c' -> Q (alive pid, c') w') -> wp t (cache_alive pid c) Q w.
Proof.
  intros Hw Hc HQ. unfold cache_alive. destruct (Z.eqb_spec pid 0) as [->|Hp].
  { apply wp_ret, (HQ c w); [apply calm_refl|done]. }
  assert (alive pid = k_alive pid) as Ha by (unfold alive; by rewrite (proj2 (Z.eqb_neq pid 0))).
  rewrite Ha in HQ. destruct (cache_find pid (pc_pid c) (pc_alive c)) as [a|] eqn:E.
  - apply cache_find_right in E as ->; [|apply Hc|done]. apply wp_ret, HQ; [apply calm_refl|done].
  - apply wp_bind, (pid_alive_spec b); [done|]. rewrite Ha. intros w' Hw'. apply wp_ret, HQ; [done|].
    by apply cache_put_ok.
Qed.

(** The verdict on a candidate: its creator lives, or a recorded holder does. *)
Definition cand_lives (c : DeadCand) : bool :=
  alive (c_pid c) ||
  existsb alive (take (Z.to_nat (Z.min (holders_count (c_holders_len c)) MAX_HOLDERS)) (c_holders c)).

Lemma any_alive_spec b hs : forall c (Q : bool * PidCache -> world Region Local G -> Prop) w,
  ready b w -> cache_ok c ->
  (forall c' w', calm w w' -> cache_ok c' -> Q (existsb alive hs, c') w') -> wp t (any_alive hs c) Q w.
Proof.
  induction hs as [|h hs IH]; intros c Q w Hw Hc HQ; cbn [any_alive existsb] in *.
  { apply wp_ret, HQ; [apply calm_refl|done]. }
  destruct (Z.eqb_spec h 0) as [->|Hh]; [by apply IH|].
  apply wp_bind, (cache_alive_spec b); [done|done|]. intros c1 w1 Hw1 Hc1. cbn [fst snd].
  destruct (alive h); [by apply wp_ret, HQ|].
  apply IH; [by eapply calm_ready|done|]. intros c2 w2 Hw2 Hc2. apply HQ; [by eapply calm_trans|done].
Qed.

Lemma cand_alive_spec b c cache (Q : bool * PidCache -> world Region Local G -> Prop) w :
  ready b w -> cache_ok cache ->
  (forall cache' w', calm w w' -> cache_ok cache' -> Q (cand_lives c, cache') w') ->
  wp t (cand_alive c cache) Q w.
Proof.
  intros Hw Hc HQ. apply wp_bind, (cache_alive_spec b); [done|done|]. intros c1 w1 Hw1 Hc1. cbn [fst snd].
  unfold cand_lives in HQ. destruct (alive (c_pid c)); [by apply wp_ret, HQ|].
  apply (any_alive_spec b); [by eapply calm_ready|done|]. intros c2 w2 Hw2 Hc2.
  apply HQ; [by eapply calm_trans|done].
Qed.

Lemma verdicts_spec b cands : forall cache (Q : list bool * PidCache -> world Region Local G -> Prop) w,
  ready b w -> cache_ok cache ->
  (forall cache' w', calm w w' -> cache_ok cache' -> Q (cand_lives <$> cands, cache') w') ->
  wp t (verdicts cands cache) Q w.
Proof.
  induction cands as [|c cands IH]; intros cache Q w Hw Hc HQ; cbn [verdicts].
  { apply wp_ret, HQ; [apply calm_refl|done]. }
  apply wp_bind, (cand_alive_spec b); [done|done|]. intros c1 w1 Hw1 Hc1. cbn [fst snd].
  apply wp_bind, IH; [by eapply calm_ready|done|]. intros c2 w2 Hw2 Hc2. cbn [fst snd].
  apply wp_ret, HQ; [by eapply calm_trans|done].
Qed.
End live.

(** ** Reaping *)

Lemma slots_ok_frame r r' L L' :
  slots_ok r L -> same_objects r r' -> h_next_scan (header r') = h_next_scan (header r) ->
  (forall i, s_pid (slot_ptr r' i) = s_pid (slot_ptr r i)) ->
  (forall i, L i = [] -> L' i = []) -> slots_ok r' L'.
Proof.
  intros [(Z1&Z2&Z3) H2 H3 H4 H5] Hs Hn Hp HL.
  assert (forall i, s_state (slot_ptr r' i) = s_state (slot_ptr r i)) as Hst.
  { intros i. by destruct (same_head _ _ (Hs i)) as (->&_). }
  split.
  - rewrite Hst, Hp. split_and!; try done. by destruct (same_head _ _ (Hs 0)) as (_&_&->&_).
  - by rewrite Hn.
  - intros i Hi. rewrite Hst. unfold scan_new. cbn [slot_hi]. rewrite Hn. by apply H3.
  - intros i. by rewrite Hst.
  - intros i. rewrite Hst. intros Hf. by apply HL, H5.
Qed.

Lemma same_pid r r' i : same_objects r r' -> s_pid (slot_ptr r' i) = s_pid (slot_ptr r i).
Proof.
  intros Hs. specialize (Hs i). destruct (slot_ptr r' i), (slot_ptr r i).
  unfold set_waiter_head in Hs. injection Hs. by intros.
Qed.

(** A registered node whose recorded process is the candidate's is unlinked
    and given back. *)
Lemma reap_node_ok c r L F :
  pool_ok r L F -> slots_ok r L ->
  exists L' F', pool_ok (reap_node c r) L' F' /\ slots_ok (reap_node c r) L' /\
    same_objects r (reap_node c r) /\
    h_next_scan (header (reap_node c r)) = h_next_scan (header r) /\
    h_node_fresh (header (reap_node c r)) = h_node_fresh (header r) /\
    (forall n, n_pid (node_ptr (reap_node c r) n) = n_pid (node_ptr r n)) /\
    forall n, n_registered (node_ptr (reap_node c r) n) =
      if decide (n = c_index c /\ n_pid (node_ptr r n) = c_pid c) then 0 else n_registered (node_ptr r n).
Proof.
  intros HP HS. unfold reap_node.
  destruct (Z.eqb_spec (n_registered (node_ptr r (c_index c))) 0) as [H0|H0]; cbn [negb andb].
  { exists L, F. split_and!; try done. intros n.
    destruct (decide _) as [[-> _]|]; done. }
  destruct (Z.eqb_spec (n_pid (node_ptr r (c_index c))) (c_pid c)) as [Hp|Hp].
  2: { exists L, F. split_and!; try done. intros n. destruct (decide _) as [[-> ?]|]; done. }
  set (i := c_index c) in *. set (r1 := node_detach i r).
  pose proof (detach_pool_ok r L F i HP) as HP1. fold r1 in HP1.
  assert (owned r F i) as Ho.
  { pose proof (lo_cov _ _ (po_lists _ _ _ HP) i H0) as Hin. split.
    - by apply (lo_range _ _ (po_lists _ _ _ HP) _ _ Hin).
    - intros HF. by destruct (po_free _ _ _ HP i HF). }
  assert (forall n, n_registered (node_ptr r1 n) = (if decide (n = i) then 0 else n_registered (node_ptr r n)) /\
    n_pid (node_ptr r1 n) = n_pid (node_ptr r n)) as Hn1.
  { intros n. by destruct (detach_waiter_next r L i n (po_lists _ _ _ HP)) as (_&_&?&?). }
  assert (same_objects r r1) as Hs1.
  { pose proof (waiter_cleanup_slots [i] r) as Hs. intros j. specialize (Hs j). exact Hs. }
  exists (fun j => without i (L j)), (i :: F). split_and!.
  - apply node_free_pool_ok; [done| |].
    + destruct Ho as [H1 H2]. split; [|done]. unfold r1. by rewrite node_detach_header.
    + destruct (Hn1 i) as [-> _]. by rewrite decide_True.
  - eapply slots_ok_frame; [exact HS|exact Hs1| | |].
    + cbn. unfold r1. by rewrite node_detach_header.
    + intros j. by apply (same_pid r r1 j).
    + intros j ->. done.
  - exact Hs1.
  - cbn. unfold r1. by rewrite node_detach_header.
  - cbn. unfold r1. by rewrite node_detach_header.
  - intros n. unfold node_free. region_simpl. destruct (decide (i = n)) as [<-|]; cbn; apply Hn1.
  - intros n. unfold node_free. region_simpl. destruct (Hn1 n) as [Hr _].
    destruct (decide (i = n)) as [<-|Hne]; cbn.
    + rewrite Hr, !decide_True by done. done.
    + rewrite Hr, !decide_False; [done|naive_solver|done].
Qed.

(** The slot up to its waiter head. *)
Definition core (s : Slot) : Slot := set_waiter_head 0 s.

Lemma core_free s s' : core s = core s' -> core (free_slot s) = core (free_slot s').
Proof. destruct s, s'. unfold core, free_slot, set_waiter_head, set_generation, set_state. simpl. congruence. Qed.

Lemma reapable_core c s s' : core s = core s' -> reapable c s = reapable c s'.
Proof.
  destruct s, s'. unfold core, set_waiter_head. simpl. intros H. injection H as -> -> -> -> -> -> -> ->. done.
Qed.

Section reap.
Context `{!Config} {G : Type} `{!Kernel Region G} {t : nat} `{!QuietKernel G t}.
Context (Hfuel : (Z.to_nat NODE_COUNT < loop_fuel)%nat).
Implicit Types (w : world Region Local G).

Abbreviation lives := (cand_lives (t := t)).

(** The candidate takes slot [j] of region [r] with it. *)
Definition takes_slot (r : Region) (j : Z) (c : DeadCand) : bool :=
  negb (c_node c) && (c_index c =? j) && negb (lives c) && reapable c (slot_ptr r j).

(** The candidate takes the registered node [n] with it. *)
Definition takes_node (r : Region) (n : Z) (c : DeadCand) : bool :=
  c_node c && (c_index c =? n) && negb (lives c) && (n_pid (node_ptr r n) =? c_pid c).

(** What reaping the candidates [cs] makes of region [r]. *)
Record reaped (cs : list DeadCand) (r r' : Region) : Prop := {
  rp_slot j : core (slot_ptr r' j) =
    if existsb (takes_slot r j) cs then core (free_slot (slot_ptr r j)) else core (slot_ptr r j);
  rp_scan : h_next_scan (header r') = h_next_scan (header r);
  rp_fresh : h_node_fresh (header r') = h_node_fresh (header r);
  rp_pid n : n_pid (node_ptr r' n) = n_pid (node_ptr r n);
  rp_node n : n_registered (node_ptr r' n) <> 0 ->
    n_registered (node_ptr r n) <> 0 /\ existsb (takes_node r n) cs = false;
}.

Definition good (r : Region) : Prop := exists L F, pool_ok r L F /\ slots_ok r L.

Lemma reaped_refl r : reaped [] r r.
Proof. by split. Qed.

(** Distinct slots below the table's end, none of them slot 0. *)
Definition slot_index (c : DeadCand) : option Z := if c_node c then None else Some (c_index c).
Definition cands_ok (cs : list DeadCand) : Prop :=
  NoDup (omap slot_index cs) /\ forall j, j ∈ omap slot_index cs -> 0 < j < SLOT_COUNT.

Lemma reaped_cons c cs r r1 r' :
  cands_ok (c :: cs) -> reaped [c] r r1 -> reaped cs r1 r' -> reaped (c :: cs) r r'.
Proof.
  intros [Hnd _] [A1 A2 A3 A4 A5] [B1 B2 B3 B4 B5]. split; try congruence.
  - intros j. rewrite B1. cbn [existsb] in *. specialize (A1 j). rewrite orb_false_r in A1.
    destruct (takes_slot r j c) eqn:Et; cbn [orb].
    + assert (existsb (takes_slot r1 j) cs = false) as ->; [|exact A1].
      apply not_true_iff_false. intros (c' & Hc' & Ht)%existsb_exists. unfold takes_slot in *.
      repeat rewrite andb_true_iff in *. destruct Et as [[[E1 E2] _] _], Ht as [[[F1 F2] _] _].
      apply negb_true_iff in E1, F1. apply Z.eqb_eq in E2, F2.
      change (omap slot_index (c :: cs)) with
        (match slot_index c with Some y => y :: omap slot_index cs | None => omap slot_index cs end) in Hnd.
      unfold slot_index in Hnd at 1. rewrite E1 in Hnd. apply NoDup_cons in Hnd as [Hni _].
      apply Hni, list_elem_of_omap. exists c'. split; [by apply list_elem_of_In|].
      unfold slot_index. rewrite F1. congruence.
    + assert (existsb (takes_slot r1 j) cs = existsb (takes_slot r j) cs) as ->.
      { clear - A1. induction cs as [|c' cs IH]; cbn [existsb]; [done|]. rewrite IH. f_equal.
        unfold takes_slot. by rewrite (reapable_core c' _ _ A1). }
      destruct (existsb _ cs); [by apply core_free|done].
  - intros n Hn. destruct (B5 n Hn) as [H1 H2]. destruct (A5 n H1) as [H3 H4]. split; [done|].
    cbn [existsb] in *. rewrite orb_false_r in H4. rewrite H4. cbn [orb]. rewrite <- H2.
    clear - A4. induction cs as [|c' cs IH]; cbn [existsb]; [done|]. rewrite IH. f_equal.
    unfold takes_node. by rewrite A4.
Qed.

Lemma reaped_nothing c r : (forall j, takes_slot r j c = false) -> (forall n, takes_node r n c = false) -> reaped [c] r r.
Proof.
  intros Hs Hn. split; try done.
  - intros j. cbn [existsb]. by rewrite Hs.
  - intros n H0. cbn [existsb]. by rewrite Hn.
Qed.

Lemma reaped_node c r :
  good r -> c_node c = true -> lives c = false -> reaped [c] r (reap_node c r) /\ good (reap_node c r).
Proof.
  intros (L & F & HP & HS) Hc Hl.
  destruct (reap_node_ok c r L F HP HS) as (L' & F' & H1 & H2 & H3 & H4 & H5 & H6 & H7).
  split; [|by exists L', F']. split; try done.
  - intros j. cbn [existsb]. unfold takes_slot. rewrite Hc. cbn. apply H3.
  - intros n. rewrite H7. destruct (decide _) as [|Hd]; [done|]. intros H0. split; [done|].
    cbn [existsb]. unfold takes_node. rewrite Hc, Hl. cbn.
    destruct (Z.eqb_spec (c_index c) n) as [Ei|], (Z.eqb_spec (n_pid (node_ptr r n)) (c_pid c)); try done.
    exfalso. apply Hd. by split.
Qed.

Lemma reap_slot_wake c r L F (Q : unit -> world Region Local G -> Prop) w :
  held w -> mem w = r -> pool_ok r L F -> slots_ok r L -> 0 < c_index c < SLOT_COUNT ->
  c_node c = false -> lives c = false -> reapable c (slot_ptr r (c_index c)) = true ->
  (forall w', held w' -> good (mem w') -> reaped [c] r (mem w') -> Q tt w') ->
  wp t (wake_object (c_index c)) Q (World (upd_slot (c_index c) free_slot (mem w)) (loc w) (ker w)).
Proof.
  intros Hw Hm HP HS Hi Hc Hl Hr HQ. rewrite Hm. set (i := c_index c) in *.
  assert (s_state (slot_ptr r i) = SLOT_USED) as Hu.
  { unfold reapable in Hr. rewrite !andb_true_iff in Hr. by destruct Hr as [[[[[E%Z.eqb_eq _] _] _] _] _]. }
  assert (pool_ok (upd_slot i free_slot r) L F) as HP1.
  { eapply (table_pool_ok r); [|done..]. intros j. left. rewrite slot_ptr_upd_slot.
    by destruct (decide (i = j)) as [<-|]. }
  apply (wake_object_spec Hfuel true i L F); [exact Hw|exact HP1| |].
  { cbn [mem]. rewrite slot_ptr_upd_slot, decide_True by done. cbn. by apply (used_head _ _ F). }
  intros w' Hw' Hwk HP'. cbn [mem] in Hwk.
  assert (forall j, slot_ptr (mem w') j = if decide (j = i) then set_waiter_head NIL (free_slot (slot_ptr r i))
    else slot_ptr r j) as Hs.
  { intros j. rewrite (wk_slot _ _ _ _ Hwk), slot_ptr_upd_slot.
    destruct (decide (j = i)) as [->|]; [by rewrite decide_True|by rewrite decide_False]. }
  apply HQ; [done| |].
  - exists (clear i L), F. split; [done|].
    eapply (free_table_ok r _ L i free_slot); [done|lia|reflexivity|done|exact Hwk].
  - split.
    + intros j. rewrite Hs. cbn [existsb]. unfold takes_slot. rewrite Hc, Hl, orb_false_r. cbn.
      destruct (decide (j = i)) as [->|Hne]; [by rewrite Z.eqb_refl, Hr|].
      by rewrite (proj2 (Z.eqb_neq (c_index c) j)) by (subst i; congruence).
    + apply (wk_scan _ _ _ _ Hwk).
    + apply (wk_fresh _ _ _ _ Hwk).
    + intros n. by destruct (wk_same _ _ _ _ Hwk n) as (_&_&->).
    + intros n. rewrite (wk_reg _ _ _ _ Hwk). destruct (decide (n ∈ L i)); [done|]. intros H0.
      split; [done|]. cbn [existsb]. unfold takes_node. by rewrite Hc.
Qed.

Definition taken_count (r : Region) (cs : list DeadCand) : Z :=
  Z.of_nat (length (filter (fun c => takes_slot r (c_index c) c = true) cs)).

Lemma taken_count_cons r c cs :
  taken_count r (c :: cs) = (if takes_slot r (c_index c) c then 1 else 0) + taken_count r cs.
Proof.
  unfold taken_count. rewrite filter_cons. destruct (takes_slot r (c_index c) c) eqn:E.
  - rewrite decide_True by done. cbn [length]. lia.
  - by rewrite decide_False.
Qed.

(** Reaping one slot does not change which of the others are taken. *)
Lemma taken_count_after c cs r r1 :
  cands_ok (c :: cs) -> reaped [c] r r1 -> taken_count r1 cs = taken_count r cs.
Proof.
  intros [Hnd _] [A1 _ _ _ _]. unfold taken_count. do 2 f_equal.
  assert (forall c', c' ∈ cs -> takes_slot r1 (c_index c') c' = takes_slot r (c_index c') c') as Hsame.
  { intros c' Hc'. specialize (A1 (c_index c')). cbn [existsb] in A1. rewrite orb_false_r in A1.
    destruct (takes_slot r (c_index c') c) eqn:Et.
    - unfold takes_slot in Et |- *. repeat rewrite andb_true_iff in Et.
      destruct Et as [[[E1 E2] E3] E4]. apply negb_true_iff in E1. apply Z.eqb_eq in E2.
      destruct (c_node c') eqn:Ec'; [done|]. exfalso.
      change (omap slot_index (c :: cs)) with
        (match slot_index c with Some y => y :: omap slot_index cs | None => omap slot_index cs end) in Hnd.
      unfold slot_index in Hnd at 1. rewrite E1 in Hnd. apply NoDup_cons in Hnd as [Hni _].
      apply Hni, list_elem_of_omap. exists c'. split; [done|]. unfold slot_index. rewrite Ec'. congruence.
    - unfold takes_slot. by rewrite (reapable_core c' _ _ A1). }
  clear - Hsame. induction cs as [|c' cs IH]; [done|]. rewrite !filter_cons.
  rewrite (Hsame c') by apply list_elem_of_here.
  rewrite IH by (intros x Hx; by apply Hsame, list_elem_of_further). done.
Qed.

Lemma cands_ok_tail c cs : cands_ok (c :: cs) -> cands_ok cs.
Proof.
  intros [H1 H2]. change (omap slot_index (c :: cs)) with
    (match slot_index c with Some y => y :: omap slot_index cs | None => omap slot_index cs end) in *.
  destruct (slot_index c); [|done]. apply NoDup_cons in H1 as [_ H1]. split; [done|].
  intros j Hj. by apply H2, list_elem_of_further.
Qed.

Lemma reap_dead_locked_spec cs : forall freed w,
  held w -> good (mem w) -> cands_ok cs ->
  wp t (reap_dead_locked cs (lives <$> cs) freed) (fun n w' =>
    held w' /\ good (mem w') /\ reaped cs (mem w) (mem w') /\ n = freed + taken_count (mem w) cs) w.
Proof.
  induction cs as [|c cs IH]; intros freed w Hw Hg Hok; cbn [reap_dead_locked fmap list_fmap].
  { apply wp_ret. split_and!; [done|done|apply reaped_refl|]. unfold taken_count. simpl. lia. }
  pose proof (cands_ok_tail _ _ Hok) as Hok'.
  (* the rest, after [c] was dealt with *)
  assert (forall freed' w1, held w1 -> good (mem w1) -> reaped [c] (mem w) (mem w1) ->
    freed' = freed + (if takes_slot (mem w) (c_index c) c then 1 else 0) ->
    wp t (reap_dead_locked cs (lives <$> cs) freed') (fun n w' =>
      held w' /\ good (mem w') /\ reaped (c :: cs) (mem w) (mem w') /\
      n = freed + taken_count (mem w) (c :: cs)) w1) as Hrest.
  { intros freed' w1 Hw1 Hg1 Hr1 Hf. eapply wp_mono; [|by apply (IH freed' w1)].
    intros n w2 (Hw2 & Hg2 & Hr2 & ->). split_and!; [done|done|by eapply reaped_cons|].
    rewrite taken_count_cons, (taken_count_after c cs _ _ Hok Hr1). lia. }
  destruct (lives c) eqn:El.
  { apply Hrest; [done|done| |].
    - apply reaped_nothing; intros j; unfold takes_slot, takes_node; rewrite El; cbn;
        by rewrite ?andb_false_r.
    - unfold takes_slot. rewrite El. cbn. rewrite andb_false_r. simpl. lia. }
  destruct (c_node c) eqn:Ec.
  { destruct (reaped_node c (mem w) Hg Ec El) as [H1 H2].
    apply wp_bind, wp_write, Hrest; [done|done|done|]. unfold takes_slot. rewrite Ec. simpl. lia. }
  apply wp_bind, wp_mem. unfold reap_slot.
  destruct (reapable c (slot_ptr (mem w) (c_index c))) eqn:Er; cbn [fst snd].
  - destruct Hg as (L & F & HP & HS).
    apply wp_bind, (reap_slot_wake c (mem w) L F); try done.
    { apply (proj2 Hok). apply list_elem_of_omap. exists c. split; [apply list_elem_of_here|].
      unfold slot_index. by rewrite Ec. }
    intros w1 Hw1 Hg1 Hr1. apply Hrest; [done|done|done|].
    unfold takes_slot. rewrite Ec, El, Er, Z.eqb_refl. done.
  - destruct w as [m l k]. apply Hrest; [done|done| |].
    + apply reaped_nothing; intros j; unfold takes_slot, takes_node; rewrite Ec, El; [|done].
      cbn. destruct (Z.eqb_spec (c_index c) j) as [<-|]; [done|done].
    + unfold takes_slot. rewrite Er, andb_false_r. lia.
Qed.

(** ** The whole sweep *)

(** A published object whose creator and recorded holders are all dead, with
    no holder left unrecorded. *)
Definition doomed (s : Slot) : bool :=
  (s_state s =? SLOT_USED) && negb (s_pid s =? 0) && negb (lives (slot_cand 0 s))
  && (Z.land (s_holders_len s) HOLDER_OVERFLOW =? 0).

Lemma doomed_core s s' : core s = core s' -> doomed s = doomed s'.
Proof.
  destruct s, s'. unfold core, set_waiter_head. simpl. intros Hc.
  injection Hc as -> -> -> -> -> -> -> ->. done.
Qed.

Lemma takes_cand r j :
  match cand_slot_at r j with
  | Some c => c_node c = false /\ c_index c = j /\ takes_slot r j c = doomed (slot_ptr r j)
  | None => doomed (slot_ptr r j) = false
  end.
Proof.
  unfold cand_slot_at, doomed. destruct (_ && _) eqn:E; [|done].
  split; [done|]. split; [done|]. unfold takes_slot, reapable. cbn [c_node c_index slot_cand negb andb].
  rewrite Z.eqb_refl. cbn [andb]. apply andb_true_iff in E as [E _]. rewrite E.
  cbn [c_pid c_generation c_holders_len c_holders slot_cand].
  rewrite !Z.eqb_refl, bool_decide_eq_true_2 by done. done.
Qed.

Lemma takes_between s s' r j :
  existsb (takes_slot r j) (between s s' r) =
  (next_slot s <=? j) && (j <? next_slot s') && doomed (slot_ptr r j).
Proof.
  apply eq_true_iff_eq. rewrite existsb_exists, !andb_true_iff, Z.leb_le, Z.ltb_lt. split.
  - intros (c & Hc & Ht). apply list_elem_of_In, elem_between in Hc as [(i & Hi & Hc)|(i & Hi & Hc)].
    + unfold cand_node_at in Hc. destruct (negb _); by simplify_eq.
    + pose proof (takes_cand r i) as Hcand. rewrite Hc in Hcand. destruct Hcand as (H1 & H2 & H3).
      assert (i = j) as ->.
      { unfold takes_slot in Ht. rewrite !andb_true_iff in Ht. destruct Ht as [[[_ E%Z.eqb_eq] _] _]. congruence. }
      rewrite <- H3. split; [lia|done].
  - intros [Hj Hd]. pose proof (takes_cand r j) as Hcand.
    destruct (cand_slot_at r j) as [c|] eqn:Ec; [|by rewrite Hcand in Hd].
    destruct Hcand as (H1 & H2 & H3). exists c. split; [|by rewrite H3].
    apply list_elem_of_In, elem_between. right. exists j. split; [lia|done].
Qed.

Lemma node_cand_lives i pid : lives (node_cand i pid) = alive (t := t) pid.
Proof. unfold cand_lives. cbn. by rewrite orb_false_r. Qed.

Lemma spared_node s s' r n :
  existsb (takes_node r n) (between s s' r) = false -> next_node s <= n < next_node s' ->
  n_registered (node_ptr r n) <> 0 -> alive (t := t) (n_pid (node_ptr r n)) = true.
Proof.
  intros Hf Hn H0. destruct (alive (n_pid (node_ptr r n))) eqn:Ea; [done|].
  rewrite <- not_true_iff_false in Hf. exfalso. apply Hf, existsb_exists.
  exists (node_cand n (n_pid (node_ptr r n))). split.
  - apply list_elem_of_In, elem_between. left. exists n. split; [lia|].
    unfold cand_node_at. by rewrite (proj2 (Z.eqb_neq _ _) H0).
  - unfold takes_node. cbn. rewrite node_cand_lives, Ea, !Z.eqb_refl. done.
Qed.

Lemma slot_indices r (l : list Z) :
  omap slot_index (omap (cand_slot_at r) l) =
  filter (fun j => cand_slot_at r j <> None) l.
Proof.
  induction l as [|j l IH]; [done|]. rewrite filter_cons.
  change (omap (cand_slot_at r) (j :: l)) with
    (match cand_slot_at r j with Some y => y :: omap (cand_slot_at r) l | None => omap (cand_slot_at r) l end).
  pose proof (takes_cand r j) as Hc. destruct (cand_slot_at r j) as [c|].
  - destruct Hc as (H1 & H2 & _). rewrite decide_True by done.
    change (omap slot_index (c :: omap (cand_slot_at r) l)) with
      (match slot_index c with Some y => y :: omap slot_index (omap (cand_slot_at r) l)
       | None => omap slot_index (omap (cand_slot_at r) l) end).
    unfold slot_index at 1. by rewrite H1, H2, IH.
  - rewrite decide_False; [done|]. by intros [].
Qed.

Lemma node_indices r (l : list Z) : omap slot_index (omap (cand_node_at r) l) = [].
Proof.
  induction l as [|j l IH]; [done|].
  change (omap (cand_node_at r) (j :: l)) with
    (match cand_node_at r j with Some y => y :: omap (cand_node_at r) l | None => omap (cand_node_at r) l end).
  unfold cand_node_at at 1. by destruct (negb _).
Qed.

Lemma between_cands_ok s s' r :
  good r -> 0 <= next_slot s -> next_slot s' <= SLOT_COUNT -> cands_ok (between s s' r).
Proof.
  intros (L & F & _ & HS) H0 Hhi. unfold cands_ok, between.
  rewrite omap_app, node_indices, slot_indices. cbn [app]. split; [apply NoDup_filter, NoDup_seqZ|].
  intros j [Hc Hj%elem_of_seqZ]%list_elem_of_filter.
  destruct (decide (j = 0)) as [->|]; [|lia]. exfalso. apply Hc. unfold cand_slot_at.
  destruct (so_zero _ _ HS) as (_&_&->). by rewrite andb_false_r.
Qed.

Lemma count_between s s' r :
  taken_count r (between s s' r) =
  Z.of_nat (length (filter (fun j => doomed (slot_ptr r j) = true) (seqZ (next_slot s) (next_slot s' - next_slot s)))).
Proof.
  unfold taken_count, between. rewrite filter_app, length_app. f_equal.
  assert (forall l : list Z, filter (fun c => takes_slot r (c_index c) c = true) (omap (cand_node_at r) l) = []) as ->.
  { induction l as [|j l IH]; [done|].
    change (omap (cand_node_at r) (j :: l)) with
      (match cand_node_at r j with Some y => y :: omap (cand_node_at r) l | None => omap (cand_node_at r) l end).
    unfold cand_node_at at 1. by destruct (negb _). }
  cbn [length Nat.add]. induction (seqZ (next_slot s) (next_slot s' - next_slot s)) as [|j l IH]; [done|].
  change (omap (cand_slot_at r) (j :: l)) with
    (match cand_slot_at r j with Some y => y :: omap (cand_slot_at r) l | None => omap (cand_slot_at r) l end).
  rewrite (filter_cons _ j). pose proof (takes_cand r j) as Hc. destruct (cand_slot_at r j) as [c|].
  - destruct Hc as (H1 & H2 & H3). rewrite filter_cons, H2, H3.
    destruct (decide (doomed (slot_ptr r j) = true)); cbn [length]; by rewrite IH.
  - rewrite Hc, decide_False by done. exact IH.
Qed.

Definition doomed_count (r : Region) (n : Z) : Z :=
  Z.of_nat (length (filter (fun j => doomed (slot_ptr r j) = true) (seqZ 0 n))).

(** The sweep of [r0], so far: slots below [next_slot] and nodes below
    [next_node] are dealt with. *)
Record sweep_inv (r0 : Region) (s : SweepScan) (freed : Z) (r : Region) : Prop := {
  si_good : good r;
  si_hi : node_hi s = Z.min (h_node_fresh (header r0)) NODE_COUNT /\ slot_hi s = slot_hi (scan_new r0);
  si_node_range : 0 <= next_node s <= node_hi s;
  si_slot_range : 0 <= next_slot s <= slot_hi s;
  si_slots j : core (slot_ptr r j) =
    if (0 <=? j) && (j <? next_slot s) && doomed (slot_ptr r0 j)
    then core (free_slot (slot_ptr r0 j)) else core (slot_ptr r0 j);
  si_pid n : n_pid (node_ptr r n) = n_pid (node_ptr r0 n);
  si_nodes n : n_registered (node_ptr r n) <> 0 -> n_registered (node_ptr r0 n) <> 0 /\
    (0 <= n < next_node s -> alive (t := t) (n_pid (node_ptr r0 n)) = true);
  si_header : h_next_scan (header r) = h_next_scan (header r0) /\
    h_node_fresh (header r) = h_node_fresh (header r0);
  si_count : freed = doomed_count r0 (next_slot s);
}.

Lemma hi_range r L : slots_ok r L -> 0 <= slot_hi (scan_new r) <= SLOT_COUNT.
Proof.
  intros HS. destruct (so_cursor _ _ HS) as (c & b & Hc & Hn). rewrite (scan_hi_val _ _ _ Hc Hn).
  destruct b; unfold SLOT_COUNT in *; lia.
Qed.

Lemma sweep_inv_step r0 s s' freed r r' :
  sweep_inv r0 s freed r -> advances s s' -> good r' -> reaped (between s s' r) r r' ->
  sweep_inv r0 s' (freed + taken_count r (between s s' r)) r'.
Proof.
  intros [I1 [I2 I2'] I3 I4 I5 I6 I7 [I8 I8'] I9] [[A1 A2] A3 A4 A5] Hg [R1 R2 R3 R4 R5].
  assert (forall j, next_slot s <= j -> doomed (slot_ptr r j) = doomed (slot_ptr r0 j)) as Hd.
  { intros j Hj. apply doomed_core. rewrite I5, (proj2 (Z.ltb_ge j (next_slot s))) by lia.
    by rewrite andb_false_r. }
  split; rewrite ?A1, ?A2; try done; try lia; try congruence.
  - intros j. rewrite R1, takes_between.
    destruct (Z.leb_spec (next_slot s) j) as [Hj|Hj]; cbn [andb].
    + rewrite Hd by done. rewrite (I5 j), (proj2 (Z.ltb_ge j (next_slot s))) by lia.
      rewrite andb_false_r. cbn [andb]. rewrite (proj2 (Z.leb_le 0 j)) by lia. cbn [andb].
      destruct ((j <? next_slot s') && doomed (slot_ptr r0 j)); [|done]. apply core_free.
      rewrite I5, (proj2 (Z.ltb_ge j (next_slot s))) by lia. by rewrite andb_false_r.
    + rewrite I5, (proj2 (Z.ltb_lt j (next_slot s))), (proj2 (Z.ltb_lt j (next_slot s'))) by lia. done.
  - intros n Hn. destruct (R5 n Hn) as [H1 H2]. destruct (I7 n H1) as [H3 H4]. split; [done|].
    intros Hr. destruct (decide (n < next_node s)) as [|Hge]; [apply H4; lia|].
    rewrite <- I6. apply (spared_node s s' r n H2); [lia|done].
  - rewrite I9, count_between. unfold doomed_count.
    replace (next_slot s') with (next_slot s + (next_slot s' - next_slot s)) at 2 by lia.
    rewrite seqZ_app by lia. rewrite filter_app, length_app, Nat2Z.inj_add, Z.add_0_l. f_equal. f_equal. f_equal.
    assert (forall l : list Z, (forall j, j ∈ l -> next_slot s <= j) ->
      filter (fun j => doomed (slot_ptr r j) = true) l = filter (fun j => doomed (slot_ptr r0 j) = true) l) as Hf.
    { induction l as [|j l IH]; intros Hl; [done|]. rewrite !filter_cons, (Hd j) by (apply Hl, list_elem_of_here).
      rewrite IH by (intros k Hk; by apply Hl, list_elem_of_further). done. }
    apply Hf. intros j Hj%elem_of_seqZ. lia.
Qed.

(** A calm step changes nothing a scan looks at. *)
Lemma good_calm w w1 : calm w w1 -> good (mem w) -> good (mem w1).
Proof.
  intros Hc (L & F & HP & HS). exists L, F. split; [by rewrite (calm_mem _ _ Hc)|].
  eapply slots_ok_frame; [exact HS|by apply same_objects_equiv, calm_mem| | |done].
  - apply (next_scan_proper _ _ (calm_mem _ _ Hc)).
  - intros i. by rewrite (calm_mem _ _ Hc).
Qed.

Lemma between_calm s s' w w1 : calm w w1 -> between s s' (mem w1) = between s s' (mem w).
Proof.
  intros Hc. unfold between.
  assert (forall j, slot_ptr (mem w1) j = slot_ptr (mem w) j) as S1 by (intros j; by rewrite (calm_mem _ _ Hc)).
  assert (forall n, node_ptr (mem w1) n = node_ptr (mem w) n) as N1 by (intros n; by rewrite (calm_mem _ _ Hc)).
  f_equal.
  - apply list_omap_ext, Forall_Forall2_diag, Forall_forall. intros j _. unfold cand_node_at. by rewrite N1.
  - apply list_omap_ext, Forall_Forall2_diag, Forall_forall. intros j _. unfold cand_slot_at. by rewrite S1.
Qed.

Lemma sweep_inv_calm r0 s freed w w1 :
  calm w w1 -> sweep_inv r0 s freed (mem w) -> sweep_inv r0 s freed (mem w1).
Proof.
  intros Hc [I1 I2 I3 I4 I5 I6 I7 [I8 I8'] I9].
  assert (forall j, slot_ptr (mem w1) j = slot_ptr (mem w) j) as S1 by (intros j; by rewrite (calm_mem _ _ Hc)).
  assert (forall n, node_ptr (mem w1) n = node_ptr (mem w) n) as N1 by (intros n; by rewrite (calm_mem _ _ Hc)).
  split; try done.
  - by eapply good_calm.
  - intros j. rewrite S1. apply I5.
  - intros n. by rewrite N1.
  - intros n. rewrite N1. apply I7.
  - split; [rewrite <- I8; apply (next_scan_proper _ _ (calm_mem _ _ Hc))|].
    rewrite <- I8'. apply (node_fresh_proper _ _ (calm_mem _ _ Hc)).
Qed.

Lemma sweep_loop_spec r0 fuel : forall s cache freed w,
  held w -> cache_ok (t := t) cache -> sweep_inv r0 s freed (mem w) ->
  (scan_left s <= SWEEP_CHUNK * (fuel - 1) /\ 0 < fuel)%nat ->
  wp t (sweep_loop fuel s cache freed) (fun n w' => held w' /\
    exists s', at_end s' /\ sweep_inv r0 s' n (mem w')) w.
Proof.
  induction fuel as [|fuel IH]; intros s cache freed w Hw Hc Hi [Hf Hf0]; [lia|]. cbn [sweep_loop].
  apply wp_bind, wp_read. destruct (next_chunk_spec s (mem w)) as (s' & -> & Ha & Hend).
  pose proof (between_length s s' (mem w) Ha) as Hlen. unfold SWEEP_CHUNK in *.
  pose proof (hi_range (mem w)) as Hhi. destruct (si_good _ _ _ _ Hi) as (L & F & HP & HS).
  specialize (Hhi L HS).
  destruct (between s s' (mem w)) as [|c cs] eqn:Eb.
  { destruct Hend as [Hend|[_ Hend]]; [done|]. apply wp_ret. split; [done|]. exists s'. split; [done|].
    replace freed with (freed + taken_count (mem w) (between s s' (mem w))).
    2: { rewrite Eb. unfold taken_count. simpl. lia. }
    eapply sweep_inv_step; [done|done|by exists L, F|]. rewrite Eb. apply reaped_refl. }
  cbv beta iota zeta. rewrite <- Eb in *.
  apply wp_bind, (verdicts_spec true); [done|done|]. intros cache' w1 Hc1 Hca. cbn [fst snd].
  pose proof (between_calm s s' _ _ Hc1) as Hb. pose proof (sweep_inv_calm _ _ _ _ _ Hc1 Hi) as Hi1.
  pose proof (si_good _ _ _ _ Hi1) as Hg1.
  rewrite <- Hb. eapply wp_frame_bind.
  { apply (reap_dead_locked_spec _ 0 w1); [by eapply calm_ready|done|].
    apply between_cands_ok; [done| |].
    - destruct (si_slot_range _ _ _ _ Hi). lia.
    - destruct Ha as [[_ Hh] _ Has _]. destruct (si_slot_range _ _ _ _ Hi), (si_hi _ _ _ _ Hi) as [_ Hh2].
      destruct (si_header _ _ _ _ Hi) as [Hhd _].
      assert (slot_hi (scan_new r0) = slot_hi (scan_new (mem w))) as Heq.
      { unfold scan_new. cbn [slot_hi]. by rewrite Hhd. }
      lia. }
  intros n w2 (Hw2 & Hg2 & Hr2 & ->).
  replace (freed + (0 + taken_count (mem w1) (between s s' (mem w1))))
    with (freed + taken_count (mem w1) (between s s' (mem w1))) by lia.
  apply IH; [done|done|by eapply sweep_inv_step|].
  destruct Hend as [He|[He Hat]].
  - split; [lia|]. destruct fuel; [|lia]. exfalso. simpl in Hf. lia.
  - apply at_end_left in Hat. split; [lia|]. destruct fuel; [|lia]. exfalso.
    assert (0 < length (between s s' (mem w)))%nat by (rewrite Eb; simpl; lia). lia.
Qed.

Lemma sweep_start r L F : pool_ok r L F -> slots_ok r L -> sweep_inv r (scan_new r) 0 r.
Proof.
  intros HP HS. pose proof (lo_fresh _ _ (po_lists _ _ _ HP)) as Hfr. pose proof (hi_range r L HS) as Hhi.
  split; try done.
  - by exists L, F.
  - cbn [scan_new next_node node_hi]. unfold NODE_COUNT in *. lia.
  - cbn [scan_new next_slot]. lia.
  - intros j. cbn [scan_new next_slot]. destruct (Z.leb_spec 0 j); [|done]. by rewrite (proj2 (Z.ltb_ge j 0)).
  - intros n Hn. split; [done|]. cbn [scan_new next_node]. lia.
Qed.

(** Beyond the high-water mark there is nothing to reap. *)
Lemma doomed_below r L j :
  slots_ok r L -> 0 <= j < SLOT_COUNT -> doomed (slot_ptr r j) = true -> j < slot_hi (scan_new r).
Proof.
  intros HS Hj Hd. unfold doomed in Hd. rewrite !andb_true_iff in Hd.
  destruct Hd as [[[Hu%Z.eqb_eq Hp] _] _]. apply (so_hi _ _ HS); [|done].
  destruct (decide (j = 0)) as [->|]; [|lia]. exfalso.
  destruct (so_zero _ _ HS) as (_&_&E). by rewrite E in Hp.
Qed.

Lemma doomed_count_hi r L : slots_ok r L -> doomed_count r (slot_hi (scan_new r)) = doomed_count r SLOT_COUNT.
Proof.
  intros HS. pose proof (hi_range r L HS) as Hhi. unfold doomed_count.
  replace SLOT_COUNT with (slot_hi (scan_new r) + (SLOT_COUNT - slot_hi (scan_new r))) at 1 by lia.
  rewrite seqZ_app by lia. rewrite filter_app, length_app.
  assert (forall l : list Z, (forall j, j ∈ l -> slot_hi (scan_new r) <= j < SLOT_COUNT) ->
    filter (fun j => doomed (slot_ptr r j) = true) l = []) as Hnone.
  { induction l as [|j l IH]; intros Hl; [done|]. rewrite filter_cons.
    pose proof (Hl j (list_elem_of_here _ _)) as Hj. rewrite decide_False.
    - apply IH. intros k Hk. by apply Hl, list_elem_of_further.
    - intros Hd. apply (doomed_below r L) in Hd; [lia|done|lia]. }
  rewrite (Hnone (seqZ (0 + slot_hi (scan_new r)) _)); [simpl; lia|].
  intros j Hj%elem_of_seqZ. lia.
Qed.

Lemma sweep_dead_locked_spec L F w :
  held w -> pool_ok (mem w) L F -> slots_ok (mem w) L ->
  wp t sweep_dead_locked (fun n w' => held w' /\ good (mem w') /\ n = doomed_count (mem w) SLOT_COUNT /\
    (forall j, 0 <= j < SLOT_COUNT -> core (slot_ptr (mem w') j) =
      if doomed (slot_ptr (mem w) j) then core (free_slot (slot_ptr (mem w) j)) else core (slot_ptr (mem w) j)) /\
    (forall n, n_registered (node_ptr (mem w') n) <> 0 -> alive (t := t) (n_pid (node_ptr (mem w') n)) = true)) w.
Proof.
  intros Hw HP HS. apply wp_bind, wp_read. pose proof (hi_range _ L HS) as Hhi.
  pose proof (lo_fresh _ _ (po_lists _ _ _ HP)) as Hfr.
  eapply wp_mono; [|apply (sweep_loop_spec (mem w)); [done|apply cache_new_ok|by eapply sweep_start|]].
  2: { assert (Z.of_nat (scan_left (scan_new (mem w))) <= 24576) as Hl.
       { unfold scan_left. change (next_node (scan_new (mem w))) with 0.
         change (next_slot (scan_new (mem w))) with 0.
         change (node_hi (scan_new (mem w))) with (Z.min (h_node_fresh (header (mem w))) NODE_COUNT).
         unfold NODE_COUNT, SLOT_COUNT in *. lia. }
       unfold NODE_COUNT, SWEEP_CHUNK in *. lia. }
  intros n w' (Hw' & s' & [He1 He2] & [I1 [I2 I2'] I3 I4 I5 I6 I7 [I8 I8'] I9]).
  assert (next_slot s' = slot_hi (scan_new (mem w))) as Hns by lia.
  split_and!; [done|done| | |].
  - rewrite I9, Hns. by eapply doomed_count_hi.
  - intros j Hj. rewrite I5. destruct (doomed (slot_ptr (mem w) j)) eqn:Ed; [|by rewrite andb_false_r].
    pose proof (doomed_below _ L j HS Hj Ed). rewrite (proj2 (Z.leb_le 0 j)), (proj2 (Z.ltb_lt _ _)) by lia. done.
  - intros k Hk. rewrite I6. apply I7; [done|].
    destruct I1 as (L' & F' & HP' & _). pose proof (lo_cov _ _ (po_lists _ _ _ HP') _ Hk) as Hin.
    pose proof (lo_range _ _ (po_lists _ _ _ HP') _ _ Hin) as Hr. rewrite I8' in Hr. lia.
Qed.

(** C13: A sweep reaps the dead and only the dead.  It frees exactly the
    objects whose creator and recorded holders are all dead and that have no
    unrecorded holder, answers how many it freed, leaves no waiter
    registered for a dead process, changes nothing else about any object,
    and keeps the invariants of the table, the lists and the pool, however
    many chunks of candidates it takes. *)
Theorem sweep_reaps_the_dead L F w :
  idle w -> pool_ok (mem w) L F -> slots_ok (mem w) L ->
  wp t sweep_dead (fun res w' => idle w' /\ good (mem w') /\
    res = Ok (doomed_count (mem w) SLOT_COUNT) /\
    (forall j, 0 <= j < SLOT_COUNT -> core (slot_ptr (mem w') j) =
      if doomed (slot_ptr (mem w) j) then core (free_slot (slot_ptr (mem w) j)) else core (slot_ptr (mem w) j)) /\
    (forall n, n_registered (node_ptr (mem w') n) <> 0 -> alive (t := t) (n_pid (node_ptr (mem w') n)) = true)) w.
Proof.
  intros Hw HP HS. apply wp_bind, (wp_region false); [done|]. cbn beta iota.
  apply with_lock_spec; [lia|done|]. intros w1 Hm1 Hw1.
  assert (forall j, slot_ptr (mem w1) j = slot_ptr (mem w) j) as S1 by (intros j; by rewrite Hm1).
  eapply wp_frame_bind.
  { apply (sweep_dead_locked_spec L F w1); [done|by rewrite Hm1|].
    eapply slots_ok_frame; [exact HS|by apply same_objects_equiv|apply (next_scan_proper _ _ Hm1)| |done].
    intros i. by rewrite S1. }
  intros n w2 (Hw2 & (L2 & F2 & HP2 & HS2) & -> & Hs & Hn). apply wp_ret. split; [done|].
  intros w3 Hm3 Hw3.
  assert (forall j, slot_ptr (mem w3) j = slot_ptr (mem w2) j) as S3 by (intros j; by rewrite Hm3).
  split_and!; [done| | | |].
  - exists L2, F2. split; [by rewrite Hm3|].
    eapply slots_ok_frame; [exact HS2|by apply same_objects_equiv|apply (next_scan_proper _ _ Hm3)| |done].
    intros i. by rewrite S3.
  - f_equal. unfold doomed_count. do 2 f_equal. apply list_filter_iff. intros j. by rewrite S1.
  - intros j Hj. rewrite S3, Hs, S1 by done. done.
  - intros k. assert (node_ptr (mem w3) k = node_ptr (mem w2) k) as -> by (by rewrite Hm3). apply Hn.
Qed.
End reap.
