(* ===== verification/TableEq.v ===== *)
(** * TableEq: the searches of the table against plain ones

    The allocator walks the slots round from a cursor, the sweep collects its
    candidates chunk by chunk and remembers the verdicts of 32 processes.
    Here both are equal to their obvious counterparts: the first free slot of
    the ring, and one pass over the whole table that asks the kernel about
    every process. *)
From S2P Require Import Prelude Prog Config Region Kernel Lock Nodes WaitLists NodePool Sweep Init Slots Objects Words ObjectsOk SlotsOk SweepOk.

(** ** Allocation *)

(** All indices, from the cursor on and round. *)
Definition ring (cursor : Z) : list Z := (fun k => (cursor + k) mod SLOT_COUNT) <$> seqZ 0 SLOT_COUNT.

Definition free_slots (r : Region) : list Z :=
  filter (fun i => s_state (slot_ptr r i) = SLOT_FREE) (ring (scan_cursor r)).

Definition alloc_first_free (r : Region) : option Z * Region :=
  match free_slots r with
  | i :: _ => (Some (make_handle (s_generation (slot_ptr r i)) i), snd (take_slot i r))
  | [] => (None, r)
  end.

Lemma alloc_loop_first r n : forall i,
  alloc_loop n i r =
  match filter (fun i => s_state (slot_ptr r i) = SLOT_FREE)
    ((fun k => (scan_cursor r + k) mod SLOT_COUNT) <$> seqZ i (Z.of_nat n)) with
  | j :: _ => (Some (make_handle (s_generation (slot_ptr r j)) j), snd (take_slot j r))
  | [] => (None, r)
  end.
Proof.
  induction n as [|n IH]; intros i; [done|]. cbn [alloc_loop].
  rewrite seqZ_cons, fmap_cons, filter_cons by lia.
  replace (Z.pred (Z.of_nat (S n))) with (Z.of_nat n) by lia. rewrite <- Z.add_1_r.
  destruct (Z.eqb_spec (s_state (slot_ptr r ((scan_cursor r + i) mod SLOT_COUNT))) SLOT_FREE) as [E|E].
  - by rewrite decide_True.
  - rewrite decide_False by done. apply IH.
Qed.

Lemma ring_perm c : Permutation (ring c) (seqZ 0 SLOT_COUNT).
Proof.
  apply NoDup_Permutation.
  - unfold ring. apply NoDup_fmap_2_strong; [|apply NoDup_seqZ].
    intros x y Hx%elem_of_seqZ Hy%elem_of_seqZ E. unfold SLOT_COUNT in *.
    pose proof (Z.div_mod (c + x) 16384). pose proof (Z.div_mod (c + y) 16384). lia.
  - apply NoDup_seqZ.
  - intros x. unfold ring. rewrite list_elem_of_fmap, elem_of_seqZ. split.
    + intros (k & -> & _). pose proof (Z.mod_pos_bound (c + k) SLOT_COUNT). unfold SLOT_COUNT in *. lia.
    + intros Hx. exists ((x - c) mod SLOT_COUNT). rewrite Zplus_mod_idemp_r.
      replace (c + (x - c)) with x by lia. rewrite Z.mod_small by (unfold SLOT_COUNT in *; lia).
      split; [done|]. apply elem_of_seqZ. pose proof (Z.mod_pos_bound (x - c) SLOT_COUNT).
      unfold SLOT_COUNT in *. lia.
Qed.

(** C20: Allocation takes the first free slot of the ring that starts at the
    cursor, answers the handle of its index and generation, and fails exactly
    when the ring, which visits every slot once, has no free slot.  This is the
    choice of the slot; what becomes of it is the part of [create_publishes]. *)
Theorem alloc_slot_first_free r :
  alloc_slot r = alloc_first_free r /\ Permutation (ring (scan_cursor r)) (seqZ 0 SLOT_COUNT).
Proof.
  split; [|apply ring_perm]. unfold alloc_slot. rewrite alloc_loop_first.
  by rewrite Z2Nat.id by done.
Qed.

(** ** The scan *)

(** The chunks of a scan of a region at rest, one after the other. *)
Fixpoint chunks (fuel : nat) (s : SweepScan) (r : Region) : list (list DeadCand) :=
  match fuel with
  | O => []
  | S fuel' =>
      match next_chunk s r with
      | ([], _) => []
      | (cs, s') => cs :: chunks fuel' s' r
      end
  end.

(** One pass: every registered node, every published object. *)
Definition plain_scan (r : Region) : list DeadCand :=
  omap (cand_node_at r) (seqZ 0 (Z.min (h_node_fresh (header r)) NODE_COUNT)) ++
  omap (cand_slot_at r) (seqZ 0 SLOT_COUNT).

(** What is left of the scan at [s]. *)
Definition rest (s : SweepScan) (r : Region) : list DeadCand :=
  omap (cand_node_at r) (seqZ (next_node s) (node_hi s - next_node s)) ++
  omap (cand_slot_at r) (seqZ (next_slot s) (slot_hi s - next_slot s)).

Lemma seqZ_split (m n p : Z) : m <= n <= p -> seqZ m (p - m) = seqZ m (n - m) ++ seqZ n (p - n).
Proof. intros H. replace (p - m) with ((n - m) + (p - n)) by lia. rewrite seqZ_app by lia. f_equal. f_equal. lia. Qed.

(** A scan never starts on the slots before it is through with the nodes. *)
Lemma rest_step s s' r : advances s s' ->
  next_node s <= node_hi s -> next_slot s <= slot_hi s ->
  rest s r = between s s' r ++ rest s' r.
Proof.
  intros [[A1 A2] A3 A4 A5] H1 H2. unfold rest, between. rewrite A1, A2.
  destruct (decide (next_node s' = node_hi s)) as [E|E].
  - rewrite E, Z.sub_diag. rewrite (seqZ_split (next_slot s) (next_slot s') (slot_hi s)) by lia.
    rewrite omap_app. change (seqZ (node_hi s) 0) with (@nil Z). cbn [omap list_omap app].
    by rewrite app_assoc.
  - assert (next_slot s' = next_slot s) as -> by (apply A5 || lia).
    rewrite Z.sub_diag. change (seqZ (next_slot s) 0) with (@nil Z). cbn [omap list_omap app].
    rewrite (seqZ_split (next_node s) (next_node s') (node_hi s)) by lia.
    by rewrite omap_app, app_nil_r, <- app_assoc.
Qed.

Lemma rest_end s r : at_end s -> rest s r = [].
Proof.
  intros [H1 H2]. unfold rest.
  assert (forall m n, n <= m -> seqZ m (n - m) = []) as Hs.
  { intros m n Hmn. unfold seqZ. replace (Z.to_nat (n - m)) with 0%nat by lia. done. }
  by rewrite !Hs.
Qed.

Lemma chunks_rest r fuel : forall s,
  next_node s <= node_hi s -> next_slot s <= slot_hi s -> (scan_left s < fuel)%nat ->
  concat (chunks fuel s r) = rest s r /\ Forall (fun cs => (0 < length cs <= SWEEP_CHUNK)%nat) (chunks fuel s r).
Proof.
  induction fuel as [|fuel IH]; intros s Hn Hs Hf; [lia|]. cbn [chunks].
  destruct (next_chunk_spec s r) as (s' & -> & Ha & Hlen). rewrite (rest_step s s' r) by done.
  pose proof (between_length s s' r Ha) as Hl. destruct Ha as [[A1 A2] A3 A4 _].
  destruct (between s s' r) as [|c cs] eqn:E.
  - split; [|constructor]. cbn [concat app]. symmetry. apply rest_end. by destruct Hlen as [[=]|[_ ?]].
  - destruct (IH s') as [H1 H2]; [lia|lia|cbn [length] in Hl; lia|].
    cbn [concat]. rewrite H1. split; [done|]. constructor; [|done]. cbn [length] in *. lia.
Qed.

Lemma scan_new_hi r L : slots_ok r L -> 0 <= slot_hi (scan_new r) <= SLOT_COUNT.
Proof.
  intros HS. destruct (so_cursor _ _ HS) as (c & b & Hc & Hn). rewrite (scan_hi_val _ _ _ Hc Hn).
  destruct b; unfold SLOT_COUNT in *; lia.
Qed.

(** Above the high-water mark there is nothing. *)
Lemma scan_new_rest r L : slots_ok r L -> rest (scan_new r) r = plain_scan r.
Proof.
  intros HS. pose proof (scan_new_hi r L HS) as Hhi. unfold rest, plain_scan.
  change (next_node (scan_new r)) with 0. change (next_slot (scan_new r)) with 0.
  change (node_hi (scan_new r)) with (Z.min (h_node_fresh (header r)) NODE_COUNT).
  rewrite !Z.sub_0_r. f_equal. pose proof (seqZ_split 0 (slot_hi (scan_new r)) SLOT_COUNT Hhi) as Hsp.
  rewrite !Z.sub_0_r in Hsp. rewrite Hsp, omap_app.
  assert (omap (cand_slot_at r) (seqZ (slot_hi (scan_new r)) (SLOT_COUNT - slot_hi (scan_new r))) = []) as ->;
    [|by rewrite app_nil_r].
  apply elem_of_nil_inv. intros c (i & Hi%elem_of_seqZ & Hc)%list_elem_of_omap.
  unfold cand_slot_at in Hc. destruct (_ && _) eqn:E; [|done].
  apply andb_true_iff in E as [Hu%Z.eqb_eq Hp%negb_true_iff].
  destruct (decide (i = 0)) as [->|Hne].
  - destruct (so_zero _ _ HS) as (_&_&H0). by rewrite H0 in Hp.
  - pose proof (so_hi _ _ HS i ltac:(lia) Hu). lia.
Qed.

Section probe.
Context `{!Config} {G : Type} `{!Kernel Region G} {t : nat} `{!QuietKernel G t}.
Implicit Types (w : world Region Local G).

(** Liveness without a cache: the kernel is asked every time. *)
Fixpoint any_alive_plain (holders : list Z) : action bool :=
  match holders with
  | [] => Ret false
  | h :: hs => a <- pid_alive h ;; if a : bool then Ret true else any_alive_plain hs
  end.

Definition cand_alive_plain (c : DeadCand) : action bool :=
  any_alive_plain (c_pid c :: take (Z.to_nat (Z.min (holders_count (c_holders_len c)) MAX_HOLDERS)) (c_holders c)).

Fixpoint verdicts_plain (cands : list DeadCand) : action (list bool) :=
  match cands with
  | [] => Ret []
  | c :: rest => a <- cand_alive_plain c ;; vs <- verdicts_plain rest ;; Ret (a :: vs)
  end.

Lemma any_alive_plain_spec b hs : forall (Q : bool -> world Region Local G -> Prop) w,
  ready b w -> (forall w', calm w w' -> Q (existsb (alive (t := t)) hs) w') -> wp t (any_alive_plain hs) Q w.
Proof.
  induction hs as [|h hs IH]; intros Q w Hw HQ; cbn [any_alive_plain existsb] in *.
  { apply wp_ret, HQ, calm_refl. }
  apply wp_bind, (pid_alive_spec b); [done|]. intros w1 H1. destruct (alive h); [by apply wp_ret, HQ|].
  apply IH; [by eapply calm_ready|]. intros w2 H2. apply HQ. by eapply calm_trans.
Qed.

Lemma verdicts_plain_spec b cands : forall (Q : list bool -> world Region Local G -> Prop) w,
  ready b w -> (forall w', calm w w' -> Q (cand_lives (t := t) <$> cands) w') -> wp t (verdicts_plain cands) Q w.
Proof.
  induction cands as [|c cands IH]; intros Q w Hw HQ; cbn [verdicts_plain].
  { apply wp_ret, HQ, calm_refl. }
  apply wp_bind, (any_alive_plain_spec b); [done|]. intros w1 H1. apply wp_bind, IH; [by eapply calm_ready|].
  intros w2 H2. apply wp_ret, HQ. by eapply calm_trans.
Qed.

(** C21: The sweep's scan and cache change nothing: on a region at rest, the
    chunks of at most 256 candidates are together exactly one pass over the
    nodes and the slots, and the verdicts given with the cache of 32 processes
    are those of asking the kernel about every process of every candidate. *)
Theorem sweep_scan_plain b L w fuel :
  ready b w -> slots_ok (mem w) L -> 0 <= h_node_fresh (header (mem w)) ->
  (scan_left (scan_new (mem w)) < fuel)%nat ->
  let cs := chunks fuel (scan_new (mem w)) (mem w) in
  concat cs = plain_scan (mem w) /\
  Forall (fun c => (0 < length c <= SWEEP_CHUNK)%nat) cs /\
  wp t (v <- verdicts (concat cs) cache_new ;; p <- verdicts_plain (concat cs) ;; Ret (fst v, p))
    (fun vp w' => fst vp = snd vp /\ mem w' ≡ mem w) w.
Proof.
  intros Hw HS Hn Hf. cbn zeta. pose proof (scan_new_hi _ _ HS) as Hhi.
  destruct (chunks_rest (mem w) fuel (scan_new (mem w))) as [H1 H2]; [|apply Hhi|done|].
  { change (0 <= Z.min (h_node_fresh (header (mem w))) NODE_COUNT). unfold NODE_COUNT. lia. }
  split; [by rewrite H1, (scan_new_rest _ L)|]. split; [done|].
  apply wp_bind, (verdicts_spec b); [done|apply cache_new_ok|]. intros c1 w1 Hw1 _.
  apply wp_bind, (verdicts_plain_spec b); [by eapply calm_ready|]. intros w2 Hw2.
  apply wp_ret. split; [done|]. rewrite (calm_mem _ _ Hw2). apply (calm_mem _ _ Hw1).
Qed.
End probe.
