(* ===== verification/InitOk.v ===== *)
(** * InitOk: opening, mapping and initialising the region

    A fresh file becomes a table that satisfies every invariant the other
    files assume; an existing file is accepted only when its layout is this
    build's; the outcome is decided once per process. *)
From S2P Require Import Prelude Prog Config Region Kernel Lock Nodes WaitLists NodePool Sweep Init Slots Objects Words ObjectsOk SlotsOk.

(** ** The fresh region *)
Lemma no_waiters_pool_ok r :
  nodes r = ∅ -> h_node_free_head (header r) = NIL -> h_node_fresh (header r) = 0 ->
  (forall i, s_state (slot_ptr r i) = SLOT_USED -> s_waiter_head (slot_ptr r i) = NIL) ->
  pool_ok r (fun _ => []) [].
Proof.
  intros Hn Hf Hfr Hs. assert (forall n, node_ptr r n = zero_node) as Hz.
  { intros n. unfold node_ptr. by rewrite Hn. }
  split; [|done|apply NoDup_nil_2|by intros n ?%elem_of_nil].
  split; intros *; rewrite ?Hz, ?Hfr; try done.
  - intros [|Hu]; [done|by apply Hs].
  - intros Hin. by apply elem_of_nil in Hin.
  - intros _. apply NoDup_nil_2.
  - intros _ n Hin. by apply elem_of_nil in Hin.
Qed.

Definition fresh_region : Region := upd_slot 0 reserve_slot0 (init_header zero_region).

Lemma fresh_slot j :
  slot_ptr fresh_region j = if decide (0 = j) then reserve_slot0 zero_slot else zero_slot.
Proof. unfold fresh_region. by rewrite slot_ptr_upd_slot. Qed.

(** C33: A freshly initialised region satisfies the invariants of the waiter
    lists, the node pool and the slot table, has this build's layout, reserves slot
    0 and leaves every other slot free. *)
Theorem fresh_region_ok :
  pool_ok fresh_region (fun _ => []) [] /\ slots_ok fresh_region (fun _ => []) /\
  layout_matches fresh_region = true /\
  forall j, 0 < j < SLOT_COUNT -> s_state (slot_ptr fresh_region j) = SLOT_FREE.
Proof.
  split_and!; [| |done|].
  - apply no_waiters_pool_ok; [done..|]. intros i. rewrite fresh_slot. by destruct (decide (0 = i)).
  - split; intros *; rewrite ?fresh_slot; try done.
    + by exists 0, false.
    + intros Hi. by rewrite decide_False by lia.
    + destruct (decide (0 = i)); auto.
  - intros j Hj. by rewrite fresh_slot, decide_False by lia.
Qed.

(** ** Opening *)
Section open.
Context `{!Config} {G : Type} `{!Kernel Region G} {t : nat} `{!QuietKernel G t}.
Implicit Types (w : world Region Local G).

Lemma layout_equiv r r' : r' ≡ r -> layout_matches r' = layout_matches r.
Proof. destruct r as [[] ? ?], r' as [[] ? ?]. intros (_&_&E). unfold set_lock_owner in E. simpl in E. by injection E as -> -> -> -> -> -> -> ->. Qed.

(** The region after a successful open: freshly initialised, or the file's
    own content with the right layout. *)
Definition opened (r r' : Region) : Prop :=
  r' ≡ fresh_region \/ r' ≡ r /\ layout_matches r' = true.

Definition open_post w (res : result unit Z) w' : Prop :=
  l_region (loc w') = l_region (loc w) /\
  match res with Ok _ => opened (mem w) (mem w') | Err _ => mem w' ≡ mem w end.

Lemma open_post_err w w' e : calm w w' -> open_post w (Err e) w'.
Proof. intros (Hm&Hl&_). by split. Qed.

Lemma unlock_close_spec (Q : unit -> world Region Local G -> Prop) w :
  (forall w', calm w w' -> Q tt w') -> wp t unlock_close Q w.
Proof.
  intros HQ. apply wp_bind, wp_quiet; [done|]. intros z1 w1 H1. apply wp_bind, wp_quiet; [done|].
  intros z2 w2 H2. apply wp_ret, HQ. by eapply calm_trans.
Qed.

Lemma open_fail w w1 e : calm w w1 -> wp t (unlock_close ;;; Ret (Err e)) (open_post w) w1.
Proof.
  intros H1. apply wp_bind, unlock_close_spec. intros w2 H2. apply wp_ret, open_post_err.
  by eapply calm_trans.
Qed.

Lemma open_done w w1 w2 :
  l_region (loc w1) = l_region (loc w) -> opened (mem w) (mem w1) ->
  calm w1 w2 -> open_post w (Ok tt) w2.
Proof.
  intros Hl Ho (Hm&Hl2&_). split; [congruence|]. destruct Ho as [Ho|[Ho Hlm]].
  - left. by rewrite Hm.
  - right. split; [by rewrite Hm|]. by rewrite (layout_equiv _ _ Hm).
Qed.

Lemma try_open_spec path w : wp t (try_open_and_map path) (open_post w) w.
Proof.
  unfold try_open_and_map. apply wp_bind, wp_quiet; [done|]. intros fd w1 H1.
  destruct (fd <? 0); [by apply wp_ret, open_post_err|].
  apply wp_bind, wp_quiet; [done|]. intros e1 w2 H2.
  assert (calm w w2) as C2 by (by eapply calm_trans).
  destruct (negb (e1 =? 0)).
  { apply wp_bind, wp_quiet; [done|]. intros z w3 H3. apply wp_ret, open_post_err. by eapply calm_trans. }
  apply wp_bind, wp_quiet; [done|]. intros size w3 H3.
  assert (calm w w3) as C3 by (by eapply calm_trans).
  destruct (size <? 0); [by apply open_fail|].
  destruct (negb (size =? 0) && negb (size =? file_size)); [by apply open_fail|]. cbv zeta.
  apply wp_bind. eapply (wp_mono _ _ (fun _ w4 => calm w w4)).
  2: { destruct (size =? 0); [|by apply wp_ret]. apply wp_quiet; [done|]. intros z w4 H4. by eapply calm_trans. }
  intros e2 w4 C4. destruct (negb (e2 =? 0)); [by apply open_fail|].
  apply wp_bind, wp_quiet; [done|]. intros e3 w5 H5.
  assert (calm w w5) as C5 by (by eapply calm_trans).
  destruct (negb (e3 =? 0)); [by apply open_fail|].
  destruct (size =? 0).
  - apply wp_bind, wp_write, wp_bind, wp_quiet; [done|]. intros z w6 H6.
    apply wp_bind, wp_write, wp_bind, wp_write, wp_bind, unlock_close_spec. cbn [mem loc ker].
    intros w7 H7. apply wp_ret.
    eapply (open_done w (World (upd_slot 0 reserve_slot0 (init_header (mem w6))) (loc w6) (ker w6))); [| |exact H7].
    + cbn [loc]. destruct H6 as (_&->&_). cbn [loc]. apply C5.
    + left. cbn [mem]. destruct H6 as (Hm&_&_). cbn [mem] in Hm. unfold fresh_region.
      destruct (mem w6) as [[] sl nd]. destruct Hm as (Hs&Hn&Hh). cbn in Hs, Hn. subst. done.
  - apply wp_bind, wp_read. destruct (layout_matches (mem w5)) eqn:El; cbn [negb].
    + apply wp_bind, unlock_close_spec. intros w6 H6. apply wp_ret.
      eapply (open_done w w5); [apply C5| |exact H6]. right. split; [apply C5|done].
    + apply wp_bind, wp_quiet; [done|]. intros z w6 H6. apply open_fail. by eapply calm_trans.
Qed.

Lemma open_retry_spec n : forall path w w1, calm w w1 -> wp t (open_retry n path) (open_post w) w1.
Proof.
  induction n as [|n IH]; intros path w w1 Hc; cbn [open_retry]; [by apply wp_ret, open_post_err|].
  eapply wp_frame_bind; [apply try_open_spec|]. intros [[]|e] w2 [Hl Ho].
  - apply wp_ret. split; [rewrite Hl; apply Hc|].
    destruct Ho as [Ho|[Ho Hlm]]; [by left|]. right. split; [|done]. rewrite Ho. apply Hc.
  - destruct (e =? ESTALE).
    + apply wp_bind, wp_quiet; [done|]. intros z w3 H3.
      assert (mem w3 ≡ mem w /\ l_region (loc w3) = l_region (loc w)) as [Hm3 Hl3].
      { destruct H3 as (A&B&_). split; [by rewrite A, Ho, (calm_mem _ _ Hc)|].
        rewrite B, Hl. apply Hc. }
      eapply wp_mono; [|apply (IH path w3 w3), calm_refl]. intros res w4 [Hl4 Ho4].
      split; [congruence|]. destruct res; [|by rewrite Ho4].
      destruct Ho4 as [Ho4|[Ho4 Hlm]]; [by left|]. right. split; [by rewrite Ho4|done].
    + apply wp_ret. split; [rewrite Hl; apply Hc|]. rewrite Ho. apply (calm_mem _ _ Hc).
Qed.

Lemma open_and_map_spec path w : wp t (open_and_map path) (open_post w) w.
Proof.
  unfold open_and_map. destruct (has_char nul (versioned_path path)).
  - apply wp_ret, open_post_err, calm_refl.
  - apply open_retry_spec, calm_refl.
Qed.

(** C32: The first initialisation of a process always returns.  When it
    succeeds, its success is recorded for the calls that follow, and the region
    is either freshly initialised or an existing one whose layout was checked; when it fails it says why, and no
    shared memory was written and the failure is recorded. *)
Theorem init_maps path w :
  l_region (loc w) = None ->
  wp t (init path) (fun res w' =>
    match res with
    | Ok _ => l_region (loc w') = Some (Ok tt) /\ opened (mem w) (mem w')
    | Err e => exists n, e = Init n /\ l_region (loc w') = Some (Err n) /\ mem w' ≡ mem w
    end) w.
Proof.
  intros Hl. unfold init. apply wp_bind, wp_loc. cbn [fst snd]. rewrite Hl.
  set (w0 := World (mem w) (loc w) (ker w)).
  apply wp_bind, wp_bind. eapply wp_mono with (Q := open_post w0).
  2: { destruct (resolve_path path); [apply open_and_map_spec|]. apply wp_ret, open_post_err, calm_refl. }
  intros res w1 [_ Ho]. apply wp_bind, wp_loc, wp_ret. cbn [mem loc fst snd].
  destruct res as [[]|e]; apply wp_ret; cbn; [done|]. by exists e.
Qed.

End open.
