(* ===== verification/WaitErr.v ===== *)
(** * WaitErr: waits that are refused, and waits that are alerted

    What a wait answers before any object is looked at for acquisition: bad
    arguments and handles that name nothing to wait for are refused, a
    signaled alert event ends the wait; none of them changes anything. *)
From S2P Require Import Prelude Prog Config Region Kernel Lock Nodes WaitLists NodePool Init Objects Words ObjectsOk Wait WaitOk.

(** Every handle names a semaphore, a mutex or an event. *)
Definition all_waitable (r : Region) (handles : list Z) : bool :=
  forallb (fun h => match lookup_handle r h with
                    | Some i => is_waitable (s_obj_type (slot_ptr r i))
                    | None => false
                    end) handles.

(** The alert is absent or names an event. *)
Definition alert_names_event (r : Region) (alert : Z) : bool :=
  (alert =? 0) || match lookup_handle r alert with
                  | Some i => s_obj_type (slot_ptr r i) =? TYPE_EVENT
                  | None => false
                  end.

Definition waitable_args (r : Region) (handles : list Z) (alert : Z) : bool :=
  all_waitable r handles && alert_names_event r alert.

(** The alert is an event that is signaled. *)
Definition alert_signaled (r : Region) (alert : Z) : Prop :=
  alert <> 0 /\ exists i m p, lookup_handle r alert = Some i /\ repr (OEvent m true p) (slot_ptr r i).

Lemma waitable_args_equiv r r' handles alert :
  r' ≡ r -> waitable_args r' handles alert = waitable_args r handles alert.
Proof.
  intros Hr. unfold waitable_args, all_waitable, alert_names_event. f_equal.
  - induction handles as [|h hs IH]; [done|]. cbn [forallb]. rewrite IH, Hr. f_equal.
    destruct (lookup_handle r h) as [i|]; [|done]. by rewrite Hr.
  - rewrite Hr. f_equal. destruct (lookup_handle r alert) as [i|]; [|done]. by rewrite Hr.
Qed.

Section err.
Context `{!Config} {G : Type} `{!Kernel Region G} {t : nat} `{!QuietKernel G t}.
Context (Hfuel : (0 < loop_fuel)%nat).
Implicit Types (w : world Region Local G).

(** The two scans of the handles, lock-free and locked, agree. *)
Lemma fast_objects_valid handles : forall i seqs w,
  wp t (fast_objects i handles seqs) (fun res w' => w' = w /\ fst res = all_waitable (mem w) handles) w.
Proof.
  induction handles as [|h hs IH]; intros i seqs w; [by apply wp_ret|]. cbn [fast_objects all_waitable forallb].
  apply wp_bind, wp_slot. destruct (lookup_handle (mem w) h) as [idx|]; [|by apply wp_ret].
  apply wp_bind, wp_read, wp_bind. eapply (wp_mono _ _ (fun _ w1 => w1 = w)).
  - intros seqs' w1 ->. destruct (is_waitable _); [apply IH|by apply wp_ret].
  - destruct (_ =? TYPE_EVENT); [apply wp_bind, wp_read|]; by apply wp_ret.
Qed.

Lemma validate_valid nodes handles : forall i seqs w,
  wp t (validate i handles nodes seqs) (fun res w' => w' = w /\ fst res = all_waitable (mem w) handles) w.
Proof.
  induction handles as [|h hs IH]; intros i seqs w; [by apply wp_ret|]. cbn [validate all_waitable forallb].
  apply wp_bind, wp_slot. destruct (lookup_handle (mem w) h) as [idx|]; [|by apply wp_ret].
  apply wp_bind, wp_read. destruct (is_waitable _); [|by apply wp_ret]. cbn [negb andb].
  apply wp_bind. eapply (wp_mono _ _ (fun _ w1 => w1 = w)).
  - intros seqs' w1 ->. apply IH.
  - destruct (_ && _); [apply wp_bind, wp_read|]; by apply wp_ret.
Qed.

Lemma alert_valid_is alert w :
  wp t (alert_valid alert) (fun b w' => w' = w /\ b = alert_names_event (mem w) alert) w.
Proof.
  unfold alert_valid, alert_names_event. destruct (alert =? 0); [by apply wp_ret|].
  apply wp_bind, wp_slot. destruct (lookup_handle (mem w) alert); [|by apply wp_ret].
  by apply wp_bind, wp_read, wp_ret.
Qed.

(** Both scans end in the same test of all the arguments. *)
Lemma valid_args {B} (scan : action (bool * list Z)) handles alert (k : bool * list Z -> bool -> action B) Q w :
  wp t scan (fun res w' => w' = w /\ fst res = all_waitable (mem w) handles) w ->
  (forall fv, wp t (k fv (waitable_args (mem w) handles alert)) Q w) ->
  wp t (fv <- scan ;; valid <- (if fst fv : bool then alert_valid alert else Ret false) ;; k fv valid) Q w.
Proof.
  intros Hs HQ. unfold waitable_args in HQ. eapply wp_frame_bind; [exact Hs|].
  intros fv w1 (-> & ->).
  destruct (all_waitable (mem w) handles); cbn [andb] in HQ.
  - eapply wp_frame_bind; [apply alert_valid_is|]. intros b w1 (-> & ->). apply HQ.
  - apply wp_bind, wp_ret, HQ.
Qed.

(** The prologue of [wait]: the counters and the two clock readings. *)
Lemma wait_entry handles owner timeout all alert Q w :
  idle w -> bad_args handles owner = false ->
  (forall deadline start w1, calm w w1 ->
    wp t (fast <- fast_path handles owner timeout all alert ;;
          match fst fast with
          | Some outcome => Ret outcome
          | None => wait_loop loop_fuel handles owner deadline all alert [] (snd fast) start
          end) Q w1) ->
  wp t (wait handles owner timeout all alert) Q w.
Proof.
  intros Hw Hb HQ. unfold wait. rewrite Hb.
  apply wp_bind, (wp_region false); [done|]. cbn beta iota. apply wp_bind, wp_stat_bump. intros w1 Hc1.
  apply wp_bind. eapply (wp_mono _ _ (fun _ w2 => calm w w2)).
  2: { destruct timeout as [d|]; [|by apply wp_ret]. apply wp_bind, wp_quiet; [done|].
       intros z w2 Hc2. apply wp_ret. by eapply calm_trans. }
  intros dl w2 Hc2. apply wp_bind, wp_quiet; [done|]. intros start w3 Hc3.
  apply HQ. by eapply calm_trans.
Qed.

Lemma refused_section handles owner deadline all alert seqs w :
  idle w -> waitable_args (mem w) handles alert = false ->
  wp t (locked_section handles owner deadline all alert [] seqs)
    (fun res w' => res = LockedDone WaitInvalid /\ idle w' /\ mem w' ≡ mem w) w.
Proof.
  intros Hw Hv. apply wp_bind, lock_guard_spec; [done..|]. intros mask w1 Hm1 Hw1. cbn iota.
  eapply (wp_frame_bind _ _ _ (fun r w2 => r = LockedDone WaitInvalid /\ held w2 /\ mem w2 ≡ mem w)).
  - unfold locked_body. apply (valid_args _ handles); [apply validate_valid|]. intros seqs'.
    rewrite (waitable_args_equiv _ _ _ _ Hm1), Hv. cbn [negb]. apply wp_bind, wp_write, wp_ret.
    split; [done|]. split; [exact Hw1|]. exact Hm1.
  - intros r w2 (-> & Hw2 & Hm2). apply wp_bind, guard_drop_spec; [done|]. intros w3 Hm3 Hw3.
    apply wp_ret. split_and!; [done|done|]. by rewrite Hm3.
Qed.

Lemma wait_refused handles owner timeout all alert w :
  idle w -> bad_args handles owner = true \/ waitable_args (mem w) handles alert = false ->
  wp t (wait handles owner timeout all alert)
    (fun res w' => res = WaitInvalid /\ idle w' /\ mem w' ≡ mem w) w.
Proof.
  intros Hw Hor. destruct (bad_args handles owner) eqn:Hb.
  { unfold wait. rewrite Hb. by apply wp_ret. }
  destruct Hor as [|Hv]; [done|]. apply wait_entry; [done..|]. intros dl start w1 Hc.
  pose proof (calm_mem _ _ Hc) as Hm. rewrite <- (waitable_args_equiv _ _ _ _ Hm) in Hv.
  apply wp_bind. unfold fast_path. apply (valid_args _ handles); [apply fast_objects_valid|]. intros seqs.
  rewrite Hv. cbn [negb]. apply wp_ret. cbn [fst snd].
  assert (exists n, loop_fuel = S n) as [n En] by (exists (pred loop_fuel); lia).
  rewrite En. cbn [wait_loop].
  eapply wp_frame_bind; [apply refused_section; [by eapply calm_ready|done]|].
  intros r w2 (-> & Hw2 & Hm2). apply wp_ret. split_and!; [done|done|]. by rewrite Hm2.
Qed.

(** C29: A wait is refused, by [Invalid] and without changing anything, when
    it names no object or more than 64, the same handle twice, owner 0, a
    handle that is stale or not waitable, or an alert that is not a live
    event; whatever the timeout, it does not block. *)
Theorem wait_refuses handles owner timeout all alert w :
  idle w ->
  handles = [] \/ MAX_WAIT_COUNT < Z.of_nat (length handles) \/ ~ NoDup handles \/ owner = 0 \/
    waitable_args (mem w) handles alert = false ->
  wp t (wait handles owner timeout all alert)
    (fun res w' => res = WaitInvalid /\ idle w' /\ mem w' ≡ mem w) w.
Proof.
  intros Hw Hor. apply wait_refused; [done|].
  destruct (bad_args handles owner) eqn:Hb; [by left|].
  apply bad_args_spec in Hb as (H1 & H2 & H3 & H4). right.
  destruct Hor as [|[|[|[|]]]]; try done. lia.
Qed.

(** A wait whose alert event is signaled ends at once with the index one
    past the objects, whatever the state of the objects, and takes none of
    them; the alert event itself stays signaled. *)
Theorem wait_alerted handles owner timeout all alert w :
  idle w -> bad_args handles owner = false -> all_waitable (mem w) handles = true ->
  alert_signaled (mem w) alert ->
  wp t (wait handles owner timeout all alert)
    (fun res w' => res = Signaled (Z.of_nat (length handles)) false /\ idle w' /\ mem w' ≡ mem w) w.
Proof.
  intros Hw Hb Hv (Hne & i & m & p & Hl & Ho). apply wait_entry; [done..|]. intros dl start w1 Hc.
  pose proof (calm_mem _ _ Hc) as Hm.
  assert (waitable_args (mem w1) handles alert = true) as Hv1.
  { rewrite (waitable_args_equiv _ _ _ _ Hm). unfold waitable_args, alert_names_event.
    rewrite Hv, Hl, (proj1 Ho). by rewrite orb_true_r. }
  apply wp_bind. unfold fast_path. apply (valid_args _ handles); [apply fast_objects_valid|]. intros seqs.
  rewrite Hv1. cbn [negb]. unfold alert_fired. rewrite (proj2 (Z.eqb_neq alert 0)) by done.
  apply wp_bind, wp_bind, wp_slot. rewrite Hm, Hl. apply wp_bind, wp_read. rewrite Hm.
  rewrite (proj1 (proj2 Ho)). cbn [obj_word]. rewrite lo32_event. cbn [Z.b2z Z.eqb negb].
  apply wp_ret, wp_ret, wp_ret. split; [done|]. split; [by eapply calm_ready|done].
Qed.
End err.
