(* ===== verification/FfiOk.v ===== *)
(** * FfiOk: the C interface keeps the promises of the core

    The functions of Ffi.v against the theorems of the core: what was created
    reads back, bad arguments are refused with the right code, the answer of a
    wait reaches the caller's struct. *)
From S2P Require Import Prelude Prog Config Region Kernel Lock Nodes WaitLists NodePool Init Slots Objects Words ObjectsOk Wait SlotsOk WaitOk WaitBlock WaitErr Ffi.

(** Create an object and read it back through the handle. *)
Definition create_then {A} (create : action (Z * option Z)) (read : Z -> action (Z * option A))
  : action (Z * option A) :=
  r <- create ;;
  match r with
  | (0, Some h) => read h
  | (code, _) => Ret (code, None)
  end.

(** The code of arguments that [do_wait] refuses before it looks at the
    region. *)
Definition args_error (args : option ntsync_wait_args) : option Z :=
  match args with
  | None => Some (- EFAULT)
  | Some a =>
      if (wa_count a =? 0) || (NTSYNC_MAX_WAIT_COUNT <? wa_count a) then Some (- EINVAL)
      else match wa_objs a with None => Some (- EFAULT) | Some _ => None end
  end.

(** What the C caller is to see of an answer: code and struct; no answer is a
    timeout. *)
Definition wait_reply (a : ntsync_wait_args) (answer : option WaitOutcome) : Z * option ntsync_wait_args :=
  match answer with
  | Some (Signaled index dead) => (if dead then - EOWNERDEAD else 0, Some (set_index index a))
  | _ => (- ETIMEDOUT, Some a)
  end.

(** [changed] counts from any equivalent region. *)
Lemma changed_equiv r r1 r' l : r1 ≡ r -> changed r1 r' l -> changed r r' l.
Proof.
  intros Hr (H1 & H2 & H3 & H4 & H5).
  assert (forall j, slot_ptr r1 j = slot_ptr r j) as S by (intros j; by rewrite Hr).
  destruct Hr as (_ & Hn & Hh). split_and!; [congruence|congruence| | |done].
  - intros j. by rewrite H3, S.
  - intros j Hj. by rewrite H4, S.
Qed.

Section ffi.
Context `{!Config} {G : Type} `{!Kernel Region G} {t : nat} `{!QuietKernel G t}.
Context (Hfuel : (Z.to_nat NODE_COUNT < loop_fuel)%nat).
Implicit Types (w : world Region Local G).

(** ** Reading *)
Lemma read_object_spec {A} ty (f : Z -> A) h i o Q w :
  idle w -> lookup_handle (mem w) h = Some i -> repr o (slot_ptr (mem w) i) -> obj_type o = ty ->
  Q (Ok (f (obj_word o))) w ->
  wp t (_ <-? region ;; i <-? typed_slot ty h ;; x <- ld_w0 i ;; Ret (Ok (E := Error) (f x))) Q w.
Proof.
  intros Hw Hl Ho Hty HQ. apply wp_bind, (wp_region false); [done|]. cbn beta iota.
  apply wp_bind, wp_typed_slot. rewrite Hl, (proj1 Ho), Hty, Z.eqb_refl.
  apply wp_bind, wp_read, wp_ret. by rewrite (proj1 (proj2 Ho)).
Qed.

Lemma read_sem_ok h i c m Q w :
  idle w -> lookup_handle (mem w) h = Some i -> repr (OSem c m) (slot_ptr (mem w) i) ->
  Q (Ok (c, m)) w -> wp t (read_sem h) Q w.
Proof.
  intros Hw Hl Ho HQ. destruct (proj1 (proj2 (proj2 Ho))) as [H1 H2].
  eapply (read_object_spec TYPE_SEM (fun x => (lo32 x, hi32 x))); [done..|].
  cbn [obj_word]. by rewrite lo32_sem, hi32_sem by lia.
Qed.

Lemma read_mutex_ok h i ow c d Q w :
  idle w -> lookup_handle (mem w) h = Some i -> repr (OMutex ow c d) (slot_ptr (mem w) i) ->
  Q (Ok (c, ow, d)) w -> wp t (read_mutex h) Q w.
Proof.
  intros Hw Hl Ho HQ. destruct (proj1 (proj2 (proj2 Ho))) as (H1 & H2 & _).
  eapply (read_object_spec TYPE_MUTEX (fun x => (m_count x, lo32 x, m_dead x))); [done..|].
  cbn [obj_word]. by rewrite m_count_mutex, lo32_mutex, m_dead_mutex by lia.
Qed.

Lemma read_event_ok h i m g p Q w :
  idle w -> lookup_handle (mem w) h = Some i -> repr (OEvent m g p) (slot_ptr (mem w) i) ->
  Q (Ok (m, g)) w -> wp t (read_event h) Q w.
Proof.
  intros Hw Hl Ho HQ.
  eapply (read_object_spec TYPE_EVENT (fun x => (negb (Z.shiftr x 32 =? 0), negb (lo32 x =? 0)))); [done..|].
  cbn [obj_word]. by rewrite manual_event, lo32_event, event_flag, !negb_involutive.
Qed.

(** ** Creating *)
(** The table has room and every generation fits in a handle. *)
Record roomy (L : Z -> list Z) (F : list Z) w : Prop := {
  ro_idle : idle w;
  ro_pool : pool_ok (mem w) L F;
  ro_slots : slots_ok (mem w) L;
  ro_free : exists i, 0 <= i < SLOT_COUNT /\ s_state (slot_ptr (mem w) i) = SLOT_FREE;
  ro_fits i : 0 <= s_generation (slot_ptr (mem w) i) < GEN_BITS_RANGE;
}.

Lemma create_of_ok o L F (Q : result Z Error -> world Region Local G -> Prop) w :
  roomy L F w -> fresh_obj o -> obj_wf o ->
  (forall h i w', idle w' -> lookup_handle (mem w') h = Some i -> repr o (slot_ptr (mem w') i) -> Q (Ok h) w') ->
  wp t (create_of o) Q w.
Proof.
  intros [Hw HP HS Hfree Hfit] Hf Hwf HQ. rewrite create_of_valid by done.
  eapply wp_mono; [|by apply (create_object_spec Hfuel _ _ L F)].
  intros res w' (Hw' & h & i & -> & [Hi Hfr -> Hs Ho Hn HP' HS']).
  apply (HQ _ i); [done| |by rewrite Hs; apply fill_repr].
  unfold lookup_handle. rewrite make_handle_index, make_handle_generation by lia.
  rewrite Hs, (Z.mod_small (s_generation _)) by apply Hfit. cbn. by rewrite Z.eqb_refl.
Qed.

(** Creating [o] through the interface and reading it back. *)
Lemma create_then_ok {A} o out L F (read : Z -> action (Z * option A)) Q w :
  roomy L F w -> fresh_obj o ->
  (obj_wf o -> forall h i w', idle w' -> lookup_handle (mem w') h = Some i ->
    repr o (slot_ptr (mem w') i) -> wp t (read h) Q w') ->
  (~ obj_wf o -> Q (- EINVAL, None) w) ->
  wp t (create_then (r <- create_of o ;; Ret (store_handle out r)) read) Q w.
Proof.
  intros Hr Hf Hok Hbad. apply wp_bind.
  destruct (decide (obj_wf o)) as [Hwf|Hwf].
  - apply wp_bind, (create_of_ok o L F); [done..|]. intros h i w' Hw' Hl Ho.
    apply wp_ret. cbn [store_handle]. by apply (Hok Hwf h i).
  - rewrite create_of_invalid by done. apply wp_bind, wp_ret, wp_ret. cbn [store_handle errno].
    apply wp_ret. by apply Hbad.
Qed.

(** C26: What is created reads back as it was asked for, through the handle
    the interface stored: a semaphore's count and maximum, a mutex's owner
    and recursion count, an event's kind and state as 0 or 1; arguments that
    describe no object answer -EINVAL instead and store nothing. *)
Theorem create_read_roundtrip L F w out x y z c m ow rc ma si :
  roomy L F w -> u32 c -> u32 m -> u32 ow -> u32 rc ->
  wp t (create_then (ntsync_create_sem (Some out) (Some (mkSemArgs c m))) (fun h => ntsync_sem_read h (Some x)))
    (fun res _ => res = if c <=? m then (0, Some (mkSemArgs c m)) else (- EINVAL, None)) w /\
  wp t (create_then (ntsync_create_mutex (Some out) (Some (mkMutexArgs ow rc))) (fun h => ntsync_mutex_read h (Some y)))
    (fun res _ => res = if Bool.eqb (ow =? 0) (rc =? 0) && (rc <? W31)
                        then (0, Some (mkMutexArgs ow rc)) else (- EINVAL, None)) w /\
  wp t (create_then (ntsync_create_event (Some out) (Some (mkEventArgs ma si))) (fun h => ntsync_event_read h (Some z)))
    (fun res _ => res = (0, Some (mkEventArgs (Z.b2z (negb (ma =? 0))) (Z.b2z (negb (si =? 0)))))) w.
Proof.
  unfold u32. intros Hr Hc Hm How Hrc. split_and!.
  - apply (create_then_ok (OSem c m) out L F); [done|done| |].
    + intros [Hwf _] h i w' Hw' Hl Ho. apply wp_bind, (read_sem_ok h i c m); [done..|]. apply wp_ret.
      by rewrite (proj2 (Z.leb_le c m)) by lia.
    + cbn. intros Hwf. by rewrite (proj2 (Z.leb_gt c m)) by lia.
  - apply (create_then_ok (OMutex ow rc false) out L F); [done|done| |].
    + intros (_ & Hrc' & Hiff) h i w' Hw' Hl Ho. apply wp_bind, (read_mutex_ok h i ow rc false); [done..|].
      apply wp_ret. rewrite (proj2 (Z.ltb_lt rc W31)) by lia.
      destruct (Z.eqb_spec ow 0), (Z.eqb_spec rc 0); try done; exfalso; lia.
    + cbn. intros Hwf. destruct (Z.ltb_spec rc W31); [|by rewrite andb_false_r].
      destruct (Z.eqb_spec ow 0), (Z.eqb_spec rc 0); try done; exfalso; apply Hwf; lia.
  - apply (create_then_ok (OEvent (negb (ma =? 0)) (negb (si =? 0)) 0) out L F); [done|done| |].
    + intros _ h i w' Hw' Hl Ho. apply wp_bind, (read_event_ok h i _ _ _ _ _ Hw' Hl Ho).
      by apply wp_ret.
    + cbn. intros Hwf. exfalso. by apply Hwf.
Qed.

(** ** Waiting *)
Lemma do_wait_core a handles all (Q : Z * option ntsync_wait_args -> world Region Local G -> Prop) w :
  idle w -> args_error (Some a) = None -> wa_objs a = Some handles ->
  (forall timeout w1, calm w w1 -> (wa_timeout a = 0 -> timeout = Some 0) ->
    wp t (wait (take (Z.to_nat (wa_count a)) handles) (wa_owner a) timeout all (wa_alert a))
      (fun res w' => Q (wait_code a res) w') w1) ->
  wp t (do_wait (Some a) all) Q w.
Proof.
  cbn [args_error]. intros Hw He Ho HQ. unfold do_wait, read_wait. rewrite Ho in *.
  destruct ((wa_count a =? 0) || (NTSYNC_MAX_WAIT_COUNT <? wa_count a)); [done|].
  apply wp_bind, wp_bind. eapply (wp_mono _ _ (fun timeout w1 => calm w w1 /\ (wa_timeout a = 0 -> timeout = Some 0))).
  - intros timeout w1 [Hc Ht]. apply wp_ret, wp_bind. eapply wp_mono; [|destruct all; by apply (HQ timeout)].
    intros res w2 HQ2. by apply wp_ret.
  - unfold timeout_to_duration. destruct (Z.eqb_spec (wa_timeout a) U64_MAX) as [->|Hne].
    + apply wp_ret. split; [apply calm_refl|]. intros Hx. exfalso. by compute in Hx.
    + set (c := if negb _ then ClockRealtime else ClockMonotonic).
      assert (c = ClockMonotonic \/ c = ClockRealtime) as Hc by (subst c; destruct (negb _); auto).
      assert (is_quiet c = true) as Hq by (by destruct Hc as [->| ->]).
      destruct (law_quiet c (mem w) (ker w) Hq) as (z & g & Hk & Hl).
      pose proof (law_clock _ _ _ _ _ _ Hc (proj2 Hw) Hk) as Hz.
      apply wp_bind. eapply wp_sys; [exact Hk|]. apply wp_ret. split; [by repeat split|].
      intros ->. f_equal. unfold u64_saturating_sub. lia.
Qed.

(** C28: The wait calls refuse bad arguments and change nothing, the caller's
    struct included: -EFAULT for a null struct or a null array, -EINVAL for
    a count of 0 or above 64, for owner 0, for a handle given twice, stale
    or not waitable, and for an alert that is not a live event. *)
Theorem ffi_wait_refuses args all w :
  idle w ->
  (exists e, args_error args = Some e) \/
  (exists a handles, args = Some a /\ wa_objs a = Some handles /\
    let hs := take (Z.to_nat (wa_count a)) handles in
    wa_owner a = 0 \/ ~ NoDup hs \/ waitable_args (mem w) hs (wa_alert a) = false) ->
  wp t (do_wait args all)
    (fun res w' => res = (default (- EINVAL) (args_error args), args) /\ idle w' /\ mem w' ≡ mem w) w.
Proof.
  intros Hw Hor. destruct (args_error args) as [e|] eqn:He; cbn [default].
  { clear Hor. destruct args as [a|]; cbn in He; [|simplify_eq; by apply wp_ret].
    unfold do_wait, read_wait.
    destruct ((wa_count a =? 0) || (NTSYNC_MAX_WAIT_COUNT <? wa_count a)); simplify_eq; [by apply wp_bind, wp_ret, wp_ret|].
    destruct (wa_objs a); simplify_eq. by apply wp_bind, wp_ret, wp_ret. }
  destruct Hor as [[e ?]|(a & handles & -> & Ho & Hor)]; [done|].
  eapply do_wait_core; [done..|]. intros timeout w1 Hc _. cbv zeta in Hor.
  eapply wp_mono; [|apply (wait_refused ltac:(lia)); [by eapply calm_ready|]].
  - intros res w' (-> & Hw' & Hm'). split; [done|]. split; [done|]. by rewrite Hm', (calm_mem _ _ Hc).
  - rewrite (waitable_args_equiv _ _ _ _ (calm_mem _ _ Hc)).
    destruct (bad_args _ (wa_owner a)) eqn:Hb; [by left|].
    apply bad_args_spec in Hb as (H1 & _ & _ & H4). destruct Hor as [|[|]]; [done..|by right].
Qed.

(** C27: The answer of a wait on live objects reaches the caller: 0, or
    -EOWNERDEAD when a mutex owner had died, with the index of the acquired
    object stored in the struct (0 for a wait for all); with a deadline in
    the past and nothing to acquire, -ETIMEDOUT, the struct and every slot
    unchanged. *)
Theorem ffi_wait_answers a handles objs all w :
  idle w -> wa_objs a = Some handles -> wa_count a = Z.of_nat (length handles) ->
  good_wait (mem w) handles (wa_owner a) objs -> alert_quiet (mem w) (wa_alert a) ->
  answer_now (wa_owner a) all objs <> None \/ wa_timeout a = 0 ->
  wp t (if all then ntsync_wait_all (Some a) else ntsync_wait_any (Some a)) (fun res w' => idle w' /\
    res = wait_reply a (answer_now (wa_owner a) all objs) /\
    changed (mem w) (mem w') (effect_now (wa_owner a) all handles objs)) w.
Proof.
  intros Hw Ho Hcount Hg Ha Hor. pose proof (gw_some _ _ _ _ Hg) as Hlen. unfold MAX_WAIT_COUNT in Hlen.
  assert (take (Z.to_nat (wa_count a)) handles = handles) as Htake.
  { apply take_ge. rewrite Hcount. lia. }
  assert (args_error (Some a) = None) as He.
  { cbn. unfold NTSYNC_MAX_WAIT_COUNT, MAX_WAIT_COUNT.
    rewrite (proj2 (Z.eqb_neq _ 0)), (proj2 (Z.ltb_ge 64 _)) by lia. cbn. by rewrite Ho. }
  assert (wp t (do_wait (Some a) all) (fun res w' => idle w' /\
    res = wait_code a (default Timeout (answer_now (wa_owner a) all objs)) /\
    changed (mem w) (mem w') (effect_now (wa_owner a) all handles objs)) w) as Hcore.
  { eapply do_wait_core; [done..|]. rewrite Htake. intros timeout w1 Hc Ht.
    pose proof (calm_mem _ _ Hc) as Hm. pose proof (same_objects_equiv _ _ Hm) as Hs.
    eapply wp_mono; [|apply (wait_fast Hfuel all handles (wa_owner a) timeout (wa_alert a) objs w1
      (default Timeout (answer_now (wa_owner a) all objs)))].
    - intros res w' (Hw' & -> & Hch). split; [done|]. split; [done|]. by eapply changed_equiv.
    - by eapply calm_ready.
    - by eapply good_wait_same.
    - by eapply alert_same_objects.
    - apply poll_default. destruct Hor; [by left|right; auto]. }
  assert (forall res, res = wait_code a (default Timeout (answer_now (wa_owner a) all objs)) ->
    res = wait_reply a (answer_now (wa_owner a) all objs)) as Hcode.
  { intros res ->. unfold answer_now. destruct all; [by destruct (all_of _ _)|by destruct (first_of _ _ _)]. }
  eapply wp_mono; [|destruct all; exact Hcore]. intros res w' (Hw' & Hres & Hch). auto.
Qed.
End ffi.
