(* ===== verification/Example.v ===== *)
(** * Example: a concrete process, kernel and region

    One configuration, the executable kernel of Kernel.v and a region with one
    object in slot 1 on which node 0 waits: the inputs at which the witnesses
    apply the theorems. *)
From S2P Require Import Prelude Prog Config Region Kernel Lock Nodes WaitLists NodePool Init Slots Objects Words ObjectsOk SlotsOk.

Definition ex_env (name : string) : option string :=
  if String.eqb name "TMPDIR" then Some "/tmp"%string else None.

#[export] Instance ex_config : Config := config_of_env ex_env (Z.to_nat 8193) 40.

Lemma ex_fuel : (Z.to_nat NODE_COUNT < loop_fuel)%nat.
Proof. apply Z2Nat.inj_lt; done. Qed.

Lemma ex_fuel_pos : (0 < loop_fuel)%nat.
Proof. apply (Z2Nat.inj_lt 0 8193); done. Qed.

(** Thread [t] runs in process [100 + t mod 4]; processes from 200 on are dead. *)
Definition ex_pids (t : nat) : Z := 100 + Z.of_nat t mod 4.
Definition ex_alive (p : Z) : bool := (0 <? p mod W32) && (p mod W32 <? 200).

Lemma ex_pids_range t : 0 < ex_pids t < W31.
Proof. unfold ex_pids. pose proof (Z.mod_pos_bound (Z.of_nat t) 4). lia. Qed.

Lemma ex_alive_i32 p : ex_alive (as_i32 p) = ex_alive p.
Proof.
  unfold ex_alive, as_i32. destruct (W31 <=? p); [|done].
  replace (p - W32) with (p + (-1) * W32) by lia. by rewrite Z_mod_plus_full.
Qed.

#[export] Instance ex_kernel : Kernel Region Sim.sim := Sim.sim_call ex_pids ex_alive.
#[export] Instance ex_quiet t : QuietKernel Sim.sim t :=
  Sim.sim_quiet ex_pids ex_alive ex_pids_range ex_alive_i32 t.

(** Slot 1 holds [o]; node 0, of process 101, waits for it. *)
Definition ex_slot (o : obj) : Slot :=
  mkSlot SLOT_USED 0 (obj_type o) 100 0 0 (obj_word o)
    (match o with OEvent _ _ p => p | _ => 0 end) zero_holders.
Definition ex_slot0 : Slot := mkSlot SLOT_USED 0 TYPE_RESERVED 0 NIL 0 0 0 zero_holders.
Definition ex_node : WaitNode := mkNode 5 1 1 0 NIL NIL NIL 101 0.
Definition ex_header : Header := mkHeader MAGIC VERSION SLOT_COUNT NODE_COUNT NIL 1 2 0 0 0.
Definition ex_region (o : obj) : Region :=
  mkRegion ex_header {[0 := ex_slot0; 1 := ex_slot o]} {[0 := ex_node]}.
Definition ex_local : Local := set_region (Some (Ok tt)) init_local.
Definition ex_world (o : obj) : world Region Local Sim.sim :=
  World (ex_region o) ex_local Sim.sim0.

(** The waiters: node 0 on slot 1. *)
Definition ex_lists (i : Z) : list Z := if i =? 1 then [0] else [].

Lemma ex_slot_ptr o i :
  slot_ptr (ex_region o) i =
  if decide (i = 0) then ex_slot0 else if decide (i = 1) then ex_slot o else zero_slot.
Proof.
  unfold slot_ptr, ex_region. cbn [slots]. destruct (decide (i = 0)) as [->|H0]; [done|].
  rewrite lookup_insert_ne by done. destruct (decide (i = 1)) as [->|H1].
  - done.
  - by rewrite lookup_singleton_ne by done.
Qed.

Lemma ex_node_ptr o i : node_ptr (ex_region o) i = if decide (i = 0) then ex_node else zero_node.
Proof.
  unfold node_ptr, ex_region. cbn [nodes]. destruct (decide (i = 0)) as [->|H0]; [done|].
  by rewrite lookup_singleton_ne by done.
Qed.

Lemma ex_lists_ok o : lists_ok (ex_region o) ex_lists.
Proof.
  unfold ex_lists. split; intros *; rewrite ?ex_node_ptr, ?ex_slot_ptr.
  - destruct (i =? 1); [|done]. simpl. rewrite ex_node_ptr. done.
  - destruct (Z.eqb_spec i 1) as [->|H]; [done|].
    destruct (decide (i = 0)) as [->|H0]; [done|]. rewrite decide_False by done. by intros [].
  - destruct (Z.eqb_spec i 1) as [->|H]; [|by intros ?%elem_of_nil].
    intros ->%list_elem_of_singleton. done.
  - destruct (decide (n = 0)) as [->|]; [|done]. intros _. apply list_elem_of_here.
  - destruct (i =? 1); [apply NoDup_singleton|apply NoDup_nil_2].
  - destruct (i =? 1); [|by intros ?%elem_of_nil]. intros ->%list_elem_of_singleton. done.
  - done.
Qed.

Lemma ex_pool_ok o : pool_ok (ex_region o) ex_lists [].
Proof. split; [apply ex_lists_ok|done|apply NoDup_nil_2|]. by intros n ?%elem_of_nil. Qed.

Lemma ex_idle o : ready (t := 0%nat) false (ex_world o).
Proof. done. Qed.

Lemma ex_repr o : obj_wf o -> repr o (slot_ptr (ex_region o) 1).
Proof. intros Hwf. rewrite ex_slot_ptr. split; [done|]. split; [done|]. split; [done|]. by destruct o. Qed.

Lemma ex_live o : obj_wf o -> live (t := 0%nat) ex_lists [] (ex_world o) 1 1 o.
Proof. intros Hwf. split; [done|apply ex_pool_ok|done|by apply ex_repr]. Qed.

Lemma ex_slots_ok o : slots_ok (ex_region o) ex_lists.
Proof.
  split; intros *; rewrite ?ex_slot_ptr.
  - done.
  - by exists 2, false.
  - intros Hi. destruct (decide (i = 0)); [lia|]. by destruct (decide (i = 1)) as [->|].
  - destruct (decide (i = 0)), (decide (i = 1)); auto.
  - unfold ex_lists. destruct (decide (i = 0)); [done|]. destruct (decide (i = 1)); [done|].
    by rewrite (proj2 (Z.eqb_neq i 1)).
Qed.
