(* ===== verification/Lab.v ===== *)
(** * Lab: a bench to run the repository's tests on

    The tests under src/ call the library from several threads and processes
    and look at what it answers.  A test is written here as a [script]; the
    bench runs it against the model: the main thread's calls, the threads and
    processes it starts, the sleeps, joins and kills between them.  The kernel
    [lab_call] implements the system calls with futex time-outs and with
    processes that die, and a thread gets the processor until it blocks
    ([advance], an execution of the pool by [advance_steps]). *)
From S2P Require Import Prelude Prog Config Region Kernel Init Example.

(** ** The kernel *)

(** A thread asleep in a futex wait: on which node, until when, woken? *)
Record sleeper : Type := mkSleeper {
  sl_thread : nat;
  sl_node : Z;
  sl_deadline : option Z;
  sl_woken : bool;
}.

Record lab : Type := mkLab {
  lab_lock : option nat;        (* the thread that holds the region mutex *)
  lab_clock : Z;
  lab_sleepers : list sleeper;
  lab_pids : list Z;            (* the process of each thread *)
  lab_dead : list Z;            (* processes that were waited for *)
  lab_size : Z;                 (* size of the region file *)
  lab_cells : list (Z * nat * Z);  (* process, atomic variable, value *)
}.

Definition with_lock (v : option nat) (g : lab) : lab :=
  mkLab v (lab_clock g) (lab_sleepers g) (lab_pids g) (lab_dead g) (lab_size g) (lab_cells g).
Definition with_clock (v : Z) (g : lab) : lab :=
  mkLab (lab_lock g) v (lab_sleepers g) (lab_pids g) (lab_dead g) (lab_size g) (lab_cells g).
Definition with_sleepers (v : list sleeper) (g : lab) : lab :=
  mkLab (lab_lock g) (lab_clock g) v (lab_pids g) (lab_dead g) (lab_size g) (lab_cells g).
Definition with_pids (v : list Z) (g : lab) : lab :=
  mkLab (lab_lock g) (lab_clock g) (lab_sleepers g) v (lab_dead g) (lab_size g) (lab_cells g).
Definition with_dead (v : list Z) (g : lab) : lab :=
  mkLab (lab_lock g) (lab_clock g) (lab_sleepers g) (lab_pids g) v (lab_size g) (lab_cells g).
Definition with_size (v : Z) (g : lab) : lab :=
  mkLab (lab_lock g) (lab_clock g) (lab_sleepers g) (lab_pids g) (lab_dead g) v (lab_cells g).

Definition with_cells (v : list (Z * nat * Z)) (g : lab) : lab :=
  mkLab (lab_lock g) (lab_clock g) (lab_sleepers g) (lab_pids g) (lab_dead g) (lab_size g) v.

(** Atomic variables, 0 until they are stored to. *)
Definition cell_value (pid : Z) (c : nat) (l : list (Z * nat * Z)) : Z :=
  match List.find (fun e => (e.1.1 =? pid) && Nat.eqb e.1.2 c) l with Some e => e.2 | None => 0 end.

Definition lab_atomic (pid : Z) (c : nat) (op : atomic_op) (g : lab) : kanswer lab :=
  let old := cell_value pid c (lab_cells g) in
  let others := List.filter (fun e => negb ((e.1.1 =? pid) && Nat.eqb e.1.2 c)) (lab_cells g) in
  match op with
  | AtomicLoad => Answer old g
  | AtomicStore v => Answer old (with_cells ((pid, c, v) :: others) g)
  | AtomicAdd modulus n => Answer old (with_cells ((pid, c, (old + n) mod modulus) :: others) g)
  end.

Definition drop_sleeper (t : nat) (l : list sleeper) : list sleeper :=
  List.filter (fun s => negb (Nat.eqb (sl_thread s) t)) l.

(** FUTEX_WAKE wakes at most one. *)
Fixpoint wake_first (node : Z) (l : list sleeper) : list sleeper :=
  match l with
  | [] => []
  | s :: l' =>
      if (sl_node s =? node) && negb (sl_woken s)
      then mkSleeper (sl_thread s) (sl_node s) (sl_deadline s) true :: l'
      else s :: wake_first node l'
  end.

Definition lab_futex_wait (t : nat) (node expected : Z) (timeout : option Z) (m : Region) (g : lab)
  : kanswer lab :=
  match List.find (fun s => Nat.eqb (sl_thread s) t) (lab_sleepers g) with
  | Some s =>
      let g' := with_sleepers (drop_sleeper t (lab_sleepers g)) g in
      if sl_woken s then Answer 0 g'
      else
        match sl_deadline s with
        | Some d => if d <=? lab_clock g then Answer ETIMEDOUT g' else Block
        | None => Block
        end
  | None =>
      if negb (n_seq (node_ptr m node) =? expected) then Answer EAGAIN g
      else
        let deadline := match timeout with Some d => Some (lab_clock g + d) | None => None end in
        Sleep (with_sleepers (lab_sleepers g ++ [mkSleeper t node deadline false]) g)
  end.

Definition lab_alive (g : lab) (pid : Z) : bool :=
  existsb (Z.eqb pid) (lab_pids g) && negb (existsb (Z.eqb pid) (lab_dead g)).

Definition lab_call (t : nat) (c : syscall) (m : Region) (g : lab) : kanswer lab :=
  match c with
  | GetPid => Answer (nth t (lab_pids g) 0) g
  | GetTid => Answer (1000 + Z.of_nat t) g
  | Kill0 p => Answer (if lab_alive g p then 0 else ESRCH) g
  | ClockMonotonic | ClockRealtime => Answer (lab_clock g) (with_clock (lab_clock g + 1) g)
  | MutexLock | MutexTimedlock _ =>
      match lab_lock g with
      | None => Answer 0 (with_lock (Some t) g)
      | Some _ => Block
      end
  | MutexUnlock => Answer 0 (with_lock None g)
  | FutexWait node expected timeout => lab_futex_wait t node expected timeout m g
  | FutexWake node => Answer 0 (with_sleepers (wake_first node (lab_sleepers g)) g)
  | Open _ => Answer 3 g
  | Fstat => Answer (lab_size g) g
  | Ftruncate n => Answer 0 (with_size n g)
  | Unlink _ => Answer 0 (with_size 0 g)
  | Atomic cell op => lab_atomic (nth t (lab_pids g) 0) cell op g
  | _ => Answer 0 g
  end.

#[export] Instance lab_kernel : Kernel Region lab := lab_call.

(** ** Scripts *)

(** What the main thread of a test does.  A thread that it starts computes a
    number: a handle, or 1 for "all was as expected". *)
Inductive script : Type :=
| Call {A : Type} (p : action A) (k : A -> script)
| Spawn (parent : nat) (fork : bool) (p : action Z) (k : nat -> script)
| Await (t : nat) (k : Z -> script)       (* until thread [t] is done: join, or a read from its pipe *)
| Reap (t : nat) (k : script)             (* kill or exit, and waitpid, of the process of [t] *)
| Nap (d : Z) (k : script)                (* thread::sleep *)
| Pass
| Fail.

Inductive verdict : Type := Passed | Failed | Stuck.

(** The bench: memory, kernel, the main thread's local state, and the other
    threads ([None] once its process is gone); thread [i] of the list is
    thread [S i] of the kernel. *)
Record bench : Type := mkBench {
  b_mem : Region;
  b_ker : lab;
  b_main : Local;
  b_threads : list (option (thread Region Local Z));
}.

(** Process 100 starts with an empty file at some time after boot. *)
Definition bench0 : bench :=
  mkBench zero_region (mkLab None 1000000000000 [] [100] [] 0 []) init_local [].

Definition run_one (t : nat) (th : thread Region Local Z) (m : Region) (g : lab)
  : thread Region Local Z * Region * lab :=
  let '(p, w) := advance (S t) (code th) (World m (tls th) g) in (Thread p (loc w), mem w, ker w).

(** Every thread in turn runs until it blocks. *)
Fixpoint run_from (t : nat) (ths : list (option (thread Region Local Z))) (m : Region) (g : lab)
  : list (option (thread Region Local Z)) * Region * lab :=
  match ths with
  | [] => ([], m, g)
  | None :: rest =>
      let '(rest', m', g') := run_from (S t) rest m g in (None :: rest', m', g')
  | Some th :: rest =>
      let '(th', m1, g1) := run_one t th m g in
      let '(rest', m', g') := run_from (S t) rest m1 g1 in (Some th' :: rest', m', g')
  end.

Definition run_others (b : bench) : bench :=
  let '(ths, m, g) := run_from 0 (b_threads b) (b_mem b) (b_ker b) in mkBench m g (b_main b) ths.

Definition runnable (b : bench) (t : nat) (th : option (thread Region Local Z)) : bool :=
  match th with
  | Some th => match thread_step (S t) (b_mem b) (b_ker b) th with Some _ => true | None => false end
  | None => false
  end.

Definition any_runnable (b : bench) : bool :=
  existsb (fun x => x) (imap (runnable b) (b_threads b)).

(** The earliest time at which a sleeper times out. *)
Definition next_deadline (l : list sleeper) : option Z :=
  foldl (fun acc s =>
    match sl_woken s, sl_deadline s, acc with
    | false, Some d, Some e => Some (Z.min d e)
    | false, Some d, None => Some d
    | _, _, _ => acc
    end) None l.

(** Somebody runs, or else time passes; [None] when nothing can happen. *)
Definition idle_round (b : bench) : option bench :=
  if any_runnable b then Some (run_others b)
  else
    match next_deadline (lab_sleepers (b_ker b)) with
    | Some d => Some (mkBench (b_mem b) (with_clock (Z.max d (lab_clock (b_ker b))) (b_ker b)) (b_main b) (b_threads b))
    | None => None
    end.

(** The main thread runs [p]; the others get their turns when it blocks. *)
Fixpoint call_loop {A} (fuel : nat) (p : action A) (b : bench) : option (A * bench) :=
  match fuel with
  | O => None
  | S fuel' =>
      let '(p', w) := advance 0 p (World (b_mem b) (b_main b) (b_ker b)) in
      let b' := mkBench (mem w) (ker w) (loc w) (b_threads b) in
      match p' with
      | Ret a => Some (a, b')
      | Panic | OutOfFuel => None
      | _ => match idle_round b' with Some b'' => call_loop fuel' p' b'' | None => None end
      end
  end.

Definition finished (t : nat) (b : bench) : option Z :=
  match b_threads b !! t with
  | Some (Some th) => match code th with Ret z => Some z | _ => None end
  | _ => None
  end.

Fixpoint await_loop (fuel t : nat) (b : bench) : option (Z * bench) :=
  match fuel with
  | O => None
  | S fuel' =>
      match finished t b with
      | Some z => Some (z, b)
      | None => match idle_round b with Some b' => await_loop fuel' t b' | None => None end
      end
  end.

(** The others run until all of them are blocked. *)
Fixpoint settle (fuel : nat) (b : bench) : bench :=
  match fuel with
  | O => b
  | S fuel' => if any_runnable b then settle fuel' (run_others b) else b
  end.

(** A new thread shares the mapped region of its process; a forked process
    has a copy of the whole local state and of the atomic variables. *)
Definition start_thread (parent : nat) (fork : bool) (p : action Z) (b : bench) : bench :=
  let g := b_ker b in
  let from := match parent with
              | O => b_main b
              | S i => match b_threads b !! i with Some (Some th) => tls th | _ => init_local end
              end in
  let l := if fork then from else set_region (l_region from) init_local in
  let pid := if fork then 100 + Z.of_nat (length (lab_pids g)) else nth parent (lab_pids g) 0 in
  let copy (e : Z * nat * Z) := if e.1.1 =? nth parent (lab_pids g) 0 then [e; (pid, e.1.2, e.2)] else [e] in
  let cells := if fork then concat (map copy (lab_cells g)) else lab_cells g in
  mkBench (b_mem b) (with_cells cells (with_pids (lab_pids g ++ [pid]) g)) (b_main b) (b_threads b ++ [Some (Thread p l)]).

(** The process of thread [t] is gone, with all its threads. *)
Definition reap_process (t : nat) (b : bench) : bench :=
  let g := b_ker b in
  let pid := nth (S t) (lab_pids g) 0 in
  let gone (i : nat) := nth i (lab_pids g) 0 =? pid in
  mkBench (b_mem b)
    (with_dead (pid :: lab_dead g)
      (with_sleepers (List.filter (fun s => negb (gone (sl_thread s))) (lab_sleepers g)) g))
    (b_main b)
    (imap (fun i th => if gone (S i) then None else th) (b_threads b)).

(** How often the turn may pass before a test counts as stuck. *)
Definition rounds : nat := 1000.

Fixpoint exec (s : script) (b : bench) : verdict * bench :=
  match s with
  | Call p k => match call_loop rounds p b with Some (a, b') => exec (k a) b' | None => (Stuck, b) end
  | Spawn parent fork p k => exec (k (length (b_threads b))) (start_thread parent fork p b)
  | Await t k => match await_loop rounds t b with Some (z, b') => exec (k z) b' | None => (Stuck, b) end
  | Reap t k => exec k (reap_process t b)
  | Nap d k =>
      let b' := settle rounds b in
      exec k (mkBench (b_mem b') (with_clock (lab_clock (b_ker b') + d) (b_ker b')) (b_main b') (b_threads b'))
  | Pass => (Passed, b)
  | Fail => (Failed, b)
  end.

Definition passes (b : bench) (s : script) : bool := match (exec s b).1 with Passed => true | _ => false end.

Declare Scope script_scope.
Delimit Scope script_scope with script.
Notation "'let!' x := p 'in' s" := (Call p (fun x => s))
  (at level 10, x name, p at level 100, s at level 200) : script_scope.
(** [unwrap]. *)
Notation "'let?' x := p 'in' s" := (Call p (fun r => match r with Ok x => s | Err _ => Fail end))
  (at level 10, x name, p at level 100, s at level 200) : script_scope.
Notation "'do!' p ';' s" := (Call p (fun _ => s))
  (at level 10, p at level 100, s at level 200) : script_scope.
Notation "'check!' b ';' s" := (if b then s else Fail)
  (at level 10, b at level 100, s at level 200) : script_scope.
#[global] Open Scope script_scope.
