(* ===== verification/Tests.v ===== *)
(** * Tests: the unit tests of the library, run on the model

    The tests of src/src/lib.rs and their helpers in src/src/core.rs, one
    script per test with the same calls, threads, processes and assertions in
    the same order, on a region that [init] makes. *)
From S2P Require Import Prelude Prog Config Region Kernel Lock Nodes Policy Sweep Init Slots Objects Wait Example Lab.

(** ** Helpers of core.rs, compiled for the tests only *)
Section helpers.
Context `{!Config}.

(** [let Ok(r) = region() else { .. }; let Ok(_g) = r.lock_guard() else { .. }] *)
Definition locked_or {A} (d : A) (body : action A) : action A :=
  r <- region ;;
  match r with
  | Err _ => Ret d
  | Ok _ =>
      g <- lock_guard ;;
      match g with
      | Err _ => Ret d
      | Ok guard => a <- body ;; guard_drop guard ;;; Ret a
      end
  end.

Fixpoint count_chunks (fuel : nat) (scan : SweepScan) (chunks cands : Z) : action (Z * Z) :=
  match fuel with
  | O => OutOfFuel
  | S fuel' =>
      cs <- mem_read (next_chunk scan) ;;
      match fst cs with
      | [] => Ret (chunks, cands)
      | out => count_chunks fuel' (snd cs) (chunks + 1) (cands + Z.of_nat (length out))
      end
  end.

Definition test_scan_candidates : action (Z * Z) :=
  locked_or (0, 0) (scan <- mem_read scan_new ;; count_chunks loop_fuel scan 0 0).

Definition SLOT_MASK : Z := INDEX_MASK.

Definition test_slot_candidate (handle : Z) : action (option (Z * Z * Z)) :=
  locked_or None (
    s <- slot handle ;;
    match s with
    | None => Ret None
    | Some i =>
        pid <- mem_read (fun r => s_pid (slot_ptr r i)) ;;
        Ret (Some (Z.land handle INDEX_MASK, pid, Z.shiftr handle INDEX_BITS))
    end).

Definition test_holders (handle : Z) : action (option (Z * list Z)) :=
  locked_or None (
    s <- slot handle ;;
    match s with
    | None => Ret None
    | Some i =>
        len <- mem_read (fun r => s_holders_len (slot_ptr r i)) ;;
        all <- mem_read (fun r => s_holders (slot_ptr r i)) ;;
        Ret (Some (len, take (Z.to_nat (Z.min (holders_count len) MAX_HOLDERS)) all))
    end).

Definition test_reap_slot_candidate (cand : Z * Z * Z) (alive : bool) : action Z :=
  locked_or 0 (
    let '(index, pid, generation) := cand in
    reap_dead_locked [mkCand false index pid generation zero_holders 0] [alive] 0).

(** The walk along a waiter list. *)
Fixpoint first_registered (fuel : nat) (idx : Z) : action (option (Z * Z)) :=
  match fuel with
  | O => Ret None
  | S fuel' =>
      if idx =? NIL then Ret None
      else
        registered <- mem_read (fun r => n_registered (node_ptr r idx)) ;;
        if negb (registered =? 0) then
          pid <- mem_read (fun r => n_pid (node_ptr r idx)) ;; Ret (Some (idx, pid))
        else next <- mem_read (fun r => n_obj_next (node_ptr r idx)) ;; first_registered fuel' next
  end.

Definition test_first_waiter (handle : Z) : action (option (Z * Z)) :=
  locked_or None (
    s <- slot handle ;;
    match s with
    | None => Ret None
    | Some i =>
        head <- mem_read (fun r => s_waiter_head (slot_ptr r i)) ;;
        first_registered (S (Z.to_nat NODE_COUNT)) head
    end).

Definition node_registered (idx : Z) : action bool :=
  mem_read (fun r => negb (n_registered (node_ptr r idx) =? 0)).

Definition test_reap_node_candidate (cand : Z * Z) (alive : bool) : action bool :=
  locked_or false (
    before <- node_registered cand.1 ;;
    reap_dead_locked [node_cand cand.1 cand.2] [alive] 0 ;;;
    after <- node_registered cand.1 ;;
    Ret (before && negb after)).

(** The walk along the free list of nodes. *)
Fixpoint on_free_list (fuel : nat) (idx cur : Z) : action bool :=
  match fuel with
  | O => Ret false
  | S fuel' =>
      if cur =? NIL then Ret false
      else if cur =? idx then Ret true
      else next <- mem_read (fun r => n_waiter_next (node_ptr r cur)) ;; on_free_list fuel' idx next
  end.

Definition test_sweep_and_inspect_node (idx : Z) : action (bool * bool * Z) :=
  locked_or (false, false, 0) (
    registered_before <- node_registered idx ;;
    freed <- sweep_dead_locked ;;
    registered_after <- node_registered idx ;;
    head <- mem_read (fun r => h_node_free_head (header r)) ;;
    pooled <- on_free_list (S (Z.to_nat NODE_COUNT)) idx head ;;
    Ret (registered_before && negb registered_after, pooled, freed)).

Fixpoint cache_verdicts (pids : list Z) (c : PidCache) : action (list bool) :=
  match pids with
  | [] => Ret []
  | pid :: rest =>
      ac <- cache_alive pid c ;;
      vs <- cache_verdicts rest (snd ac) ;;
      Ret (fst ac :: vs)
  end.

Definition test_pid_cache (pids : list Z) : action (list bool) := cache_verdicts pids cache_new.

Definition test_sweep_clock_ns : action Z :=
  r <- region ;;
  match r with Err _ => Ret 0 | Ok _ => mem_read (fun r => h_sweep_ns (header r)) end.

Definition test_reset_sweep_clock : action unit :=
  r <- region ;;
  match r with Err _ => Ret tt | Ok _ => mem_write (upd_header (set_sweep_ns 0)) end.

Definition test_tail_budget_cap (budget : Z) : Z := tail_budget_cap budget.
End helpers.

(** ** Writing the tests *)
Definition ms (n : Z) : Z := n * 1000000.
Definition secs (n : Z) : Z := n * 1000000000.
Definition ZERO : option Z := Some 0.

Definition setup (path : string) (k : script) : script := let? u := init (Some path) in k.

Definition is_signaled (outcome : WaitOutcome) (index : Z) : bool :=
  match outcome with Signaled i _ => i =? index | _ => false end.
Definition any_signaled (outcome : WaitOutcome) : bool :=
  match outcome with Signaled _ _ => true | _ => false end.
Definition is_ok {A} (r : result A Error) : bool := match r with Ok _ => true | Err _ => false end.
Definition eqb {A} `{EqDecision A} (x y : A) : bool := bool_decide (x = y).
Definition is_some {A} (o : option A) : bool := match o with Some _ => true | None => false end.

(** A thread that computes a [bool]. *)
Definition yes (p : action bool) : action Z := b <- p ;; Ret (Z.b2z b).

(** [n] times. *)
Fixpoint repeat_then (n : nat) (body : script -> script) (k : script) : script :=
  match n with O => k | S n' => body (repeat_then n' body k) end.

(** [(0..n).map(|_| create.unwrap()).collect()] *)
Fixpoint create_n (n : nat) (create : action (result Z Error)) (acc : list Z) (k : list Z -> script) : script :=
  match n with O => k acc | S n' => let? h := create in create_n n' create (acc ++ [h]) k end.

Fixpoint for_each {A} (l : list A) (body : A -> script -> script) (k : script) : script :=
  match l with [] => k | x :: l' => body x (for_each l' body k) end.

Definition close_ok (h : Z) (k : script) : script := let! ok := close h in check! ok; k.

Section tests.
Definition test_path : string := "/tmp/ntsync-test-100.shm".

Definition semaphore_basic : script := setup test_path (
  let? h := create_semaphore 2 5 in
  let! e := create_semaphore 6 5 in check! (negb (is_ok e));
  let! o := wait_any [h] 1 ZERO 0 in check! (is_signaled o 0);
  let! o := wait_any [h] 1 ZERO 0 in check! (is_signaled o 0);
  let! o := wait_any [h] 1 (Some (ms 10)) 0 in check! (eqb o Timeout);
  let? prev := sem_release h 3 in check! (prev =? 0);
  let? c := read_sem h in check! (eqb c (3, 5));
  let! r := sem_release h 3 in check! (eqb r (Err Overflow));
  let? c := read_sem h in check! (eqb c (3, 5));
  close_ok h Pass).

Definition handle_zero_is_never_allocated : script := setup test_path (
  let? h := create_event false false in
  check! (negb (Z.land h (Z.shiftl 1 14 - 1) =? 0));
  let! c := close 0 in check! (negb c);
  close_ok h Pass).

(** The releasing thread sleeps 50 ms first, so that the wait finds the semaphore
    empty; on the bench of Lab it has its first turn only when the main thread is
    asleep in that wait. *)
Definition semaphore_blocks_and_wakes : script := setup test_path (
  let? h := create_semaphore 0 1 in
  Spawn 0 false (yes (r <- sem_release h 1 ;; Ret (is_ok r))) (fun t =>
  let! o := wait_any [h] 1 None 0 in check! (is_signaled o 0);
  Await t (fun ok => check! (ok =? 1);
  close_ok h Pass))).

Definition mutex_recursion_and_ownership : script := setup test_path (
  let? h := create_mutex 0 0 in
  let! e := create_mutex 5 0 in check! (eqb e (Err Invalid));
  let! o := wait_any [h] 7 ZERO 0 in check! (is_signaled o 0);
  let! o := wait_any [h] 7 ZERO 0 in check! (is_signaled o 0);
  let? m := read_mutex h in check! (eqb m (2, 7, false));
  let! o := wait_any [h] 8 (Some (ms 10)) 0 in check! (eqb o Timeout);
  let! e := mutex_unlock h 8 in check! (eqb e (Err Perm));
  let? prev := mutex_unlock h 7 in check! (prev =? 2);
  let? prev := mutex_unlock h 7 in check! (prev =? 1);
  let? m := read_mutex h in check! (eqb m (0, 0, false));
  close_ok h Pass).

Definition mutex_abandoned : script := setup test_path (
  let? h := create_mutex 0 0 in
  let! o := wait_any [h] 1 ZERO 0 in check! (is_signaled o 0);
  let! e := mutex_kill h 2 in check! (eqb e (Err Perm));
  let? u := mutex_kill h 1 in
  let? m := read_mutex h in check! (eqb m (0, 0, true));
  let! o := wait_any [h] 2 ZERO 0 in check! (eqb o (Signaled 0 true));
  let? m := read_mutex h in check! (eqb m (1, 2, false));
  close_ok h Pass).

Definition event_auto_and_manual_reset : script := setup test_path (
  let? auto := create_event false true in
  let! o := wait_any [auto] 1 ZERO 0 in check! (is_signaled o 0);
  let? e := read_event auto in check! (negb e.2);
  let? manual := create_event true true in
  let! o := wait_any [manual] 1 ZERO 0 in check! (is_signaled o 0);
  let! o := wait_any [manual] 1 ZERO 0 in check! (is_signaled o 0);
  let? prev := event_reset manual in
  let! o := wait_any [manual] 1 (Some (ms 10)) 0 in check! (eqb o Timeout);
  close_ok auto (close_ok manual Pass)).

(** The threads' shared flag [hits] is the conjunction of what they answer. *)
Definition event_pulse_wakes_waiters : script := setup test_path (
  let? h := create_event true false in
  let waiter i := yes (o <- wait_any [h] (10 + i) None 0 ;; Ret (any_signaled o)) in
  Spawn 0 false (waiter 0) (fun t0 => Spawn 0 false (waiter 1) (fun t1 => Spawn 0 false (waiter 2) (fun t2 =>
  Nap (ms 50) (
  let? prev := event_pulse h in
  Await t0 (fun h0 => Await t1 (fun h1 => Await t2 (fun h2 =>
  check! ((h0 =? 1) && (h1 =? 1) && (h2 =? 1));
  let? e := read_event h in check! (negb e.2);
  close_ok h Pass)))))))).

Definition wait_all_semantics : script := setup test_path (
  let? sem := create_semaphore 1 1 in
  let? ev := create_event true false in
  let! o := wait_all [sem; ev] 1 (Some (ms 10)) 0 in check! (eqb o Timeout);
  let? prev := event_set ev in
  let! o := wait_all [sem; ev] 1 ZERO 0 in check! (is_signaled o 0);
  let? c := read_sem sem in check! (eqb c (0, 1));
  let? e := read_event ev in check! e.2;
  close_ok sem (close_ok ev Pass)).

Definition wait_any_index_selection : script := setup test_path (
  let? s1 := create_semaphore 0 1 in
  let? s2 := create_semaphore 1 1 in
  let! o := wait_any [s1; s2] 1 ZERO 0 in check! (is_signaled o 1);
  close_ok s1 (close_ok s2 Pass)).

Definition invalid_handles : script := setup test_path (
  let! o := wait_any [0xDEADBEEF] 1 ZERO 0 in check! (eqb o WaitInvalid);
  let! o := wait_any [] 1 None 0 in check! (eqb o WaitInvalid);
  let! o := wait_any [1] 0 None 0 in check! (eqb o WaitInvalid);
  let! r := sem_release 0xDEADBEEF 1 in check! (eqb r (Err Invalid));
  let! r := event_set 0xDEADBEEF in check! (eqb r (Err Invalid));
  let! c := close 0xDEADBEEF in check! (negb c);
  Pass).

(** A child process exits with 0 when [ok], and is waited for. *)
Definition exit_ok (t : nat) (k : script) : script := Await t (fun ok => Reap t (check! (ok =? 1); k)).

Definition cross_process_semaphore : script := setup test_path (
  let? h := create_semaphore 0 1 in
  Spawn 0 true (yes (o <- wait_any [h] 42 None 0 ;; Ret (is_signaled o 0))) (fun pid =>
  Nap (ms 50) (
  let? prev := sem_release h 1 in
  exit_ok pid (close_ok h Pass)))).

(** Thread by thread, each on its own event. *)
Fixpoint spawn_waiters (events : list Z) (acc : list nat) (k : list nat -> script) : script :=
  match events with
  | [] => k acc
  | e :: rest =>
      Spawn 0 false (yes (o <- wait_any [e] 42 (Some (secs 10)) 0 ;; Ret (any_signaled o)))
        (fun t => spawn_waiters rest (acc ++ [t]) k)
  end.

Definition many_waiters_targeted_wake : script := setup test_path (
  create_n 32 (create_event false false) [] (fun events =>
  spawn_waiters events [] (fun threads =>
  Nap (ms 50) (
  for_each events (fun e k => let? prev := event_set e in k) (
  for_each threads (fun t k => Await t (fun ok => check! (ok =? 1); k)) (
  for_each events close_ok Pass)))))).

Definition cross_process_multi_object_wait : script := setup test_path (
  let? sem := create_semaphore 0 1 in
  let? ev := create_event true false in
  Spawn 0 true (yes (o <- wait_all [sem; ev] 42 (Some (secs 10)) 0 ;; Ret (any_signaled o))) (fun pid =>
  Nap (ms 50) (
  let? prev := sem_release sem 1 in
  Nap (ms 50) (
  let? prev := event_set ev in
  exit_ok pid (close_ok sem (close_ok ev Pass)))))).

Definition sweep_dead_frees_orphans : script := setup test_path (
  let? h := create_event false false in
  let? freed := sweep_dead in check! (freed =? 0);
  let! e := read_event h in check! (is_ok e);
  close_ok h Pass).

Definition reap_frees_dead_owner_slot : script := setup test_path (
  let? dead := create_event false false in
  let! cand := test_slot_candidate dead in
  let! n := test_reap_slot_candidate (default (0, 0, 0) cand) false in
  check! (is_some cand && (n =? 1));
  let! e := read_event dead in check! (negb (is_ok e));
  let? live := create_event false false in
  let! cand := test_slot_candidate live in
  let! n := test_reap_slot_candidate (default (0, 0, 0) cand) true in
  check! (is_some cand && (n =? 0));
  let! e := read_event live in check! (is_ok e);
  close_ok live Pass).

(** The march of the allocator back to the slot of [stale]. *)
Fixpoint march (n : nat) (stale fresh : Z) (k : Z -> script) : script :=
  match n with
  | O => k fresh
  | S n' =>
      let? h := create_event false false in
      if Z.land h SLOT_MASK =? Z.land stale SLOT_MASK then k h
      else close_ok h (march n' stale fresh k)
  end.

Definition reap_skips_slot_reused_while_unlocked : script := setup test_path (
  let? stale := create_event false false in
  let! cand := test_slot_candidate stale in
  check! (is_some cand);
  close_ok stale (
  march (Z.to_nat 20000) stale 0 (fun fresh =>
  check! (negb (fresh =? 0));
  let! n := test_reap_slot_candidate (default (0, 0, 0) cand) false in check! (n =? 0);
  let! e := read_event fresh in check! (is_ok e);
  close_ok fresh Pass))).

Fixpoint poll_waiter (n : nat) (h : Z) (k : option (Z * Z) -> script) : script :=
  match n with
  | O => k None
  | S n' =>
      let! first := test_first_waiter h in
      match first with
      | Some c => k (Some c)
      | None => Nap (ms 1) (poll_waiter n' h k)
      end
  end.

Definition reap_skips_live_waiter_node : script := setup test_path (
  let? h := create_event false false in
  Spawn 0 false (me <- sys GetPid ;; yes (o <- wait_any [h] me (Some (secs 5)) 0 ;; Ret (is_signaled o 0)))
    (fun waiter =>
  poll_waiter 2000 h (fun cand =>
  match cand with
  | None => Fail
  | Some (index, node_pid) =>
      let! me := sys GetPid in check! (node_pid =? me);
      let! r := test_reap_node_candidate (index, wrap32 (node_pid + 1)) false in check! (negb r);
      let! first := test_first_waiter h in check! (is_some first);
      let? prev := event_set h in check! (prev =? 0);
      Await waiter (fun ok => check! (ok =? 1); close_ok h Pass)
  end))).

Definition sweep_purges_dead_waiter_and_recycles_its_node : script := setup test_path (
  let? h := create_event false false in
  Spawn 0 true (me <- sys GetPid ;; wait_any [h] me None 0 ;;; Ret 0) (fun pid =>
  poll_waiter 2000 h (fun cand =>
  match cand with
  | None => Fail
  | Some (node, _) =>
      Reap pid (
      let! r := test_sweep_and_inspect_node node in
      check! r.1.1;
      check! r.1.2;
      let! first := test_first_waiter h in check! (negb (is_some first));
      let! e := read_event h in check! (is_ok e);
      close_ok h Pass)
  end))).

Definition pid_cache_keeps_verdicts_straight : script := setup test_path (
  let! me := sys GetPid in
  let! v := test_pid_cache [me; me; me] in check! (eqb v [true; true; true]);
  let! v := test_pid_cache [0] in check! (eqb v [false]);
  let! v := test_pid_cache (me :: map (fun i => 900000 + i) (seqZ 0 40) ++ [me]) in
  check! (nth 0 v false);
  check! (forallb negb (take 40 (drop 1 v)));
  check! (nth 41 v false);
  Pass).

Definition tail_budget_burst_is_frames_not_seconds : script :=
  check! (test_tail_budget_cap 100000000 =? 1000000);
  check! (test_tail_budget_cap 150000000 =? 1500000);
  check! (5 <=? test_tail_budget_cap 150000000 / 150000);
  check! (test_tail_budget_cap 1 =? 1);
  check! (test_tail_budget_cap 0 =? 1);
  Pass.

Definition auto_sweep_claims_interval_when_nothing_dead : script := setup test_path (
  let? h := create_event false false in
  do! test_reset_sweep_clock;
  let! me := sys GetPid in
  let! o := wait_any [h] me (Some (ms 10)) 0 in check! (eqb o Timeout);
  let! clock := test_sweep_clock_ns in check! (0 <? clock);
  close_ok h Pass).

(** A child that creates [n] events and exits. *)
Fixpoint create_orphans (n : nat) : action Z :=
  match n with
  | O => Ret 1
  | S n' => r <- create_event false false ;; match r with Ok _ => create_orphans n' | Err _ => Ret 0 end
  end.

Definition ORPHANS : nat := 300.

Definition sweep_reaps_orphans_across_chunks : script := setup test_path (
  Spawn 0 true (create_orphans ORPHANS) (fun pid =>
  exit_ok pid (
  let? freed := sweep_dead in check! (Z.of_nat ORPHANS <=? freed);
  Pass))).

Definition OBJECTS : nat := 300.

Definition sweep_scan_chunks_the_table : script := setup test_path (
  create_n OBJECTS (create_event false false) [] (fun handles =>
  let! cc := test_scan_candidates in
  check! (2 <=? cc.1);
  check! (Z.of_nat OBJECTS <=? cc.2);
  for_each handles close_ok Pass)).

Definition auto_sweep_reaps_dead_creator : script := setup test_path (
  let? mine := create_event false false in
  Spawn 0 true (create_orphans 1) (fun pid =>
  exit_ok pid (
  do! test_reset_sweep_clock;
  let! me := sys GetPid in
  let! o := wait_any [mine] me (Some (ms 10)) 0 in check! (eqb o Timeout);
  let? freed := sweep_dead in check! (freed =? 0);
  close_ok mine Pass))).
End tests.

(** The tests in the order of the file. *)
Definition unit_tests : list script :=
  [semaphore_basic; handle_zero_is_never_allocated; semaphore_blocks_and_wakes;
   mutex_recursion_and_ownership; mutex_abandoned; event_auto_and_manual_reset;
   event_pulse_wakes_waiters; wait_all_semantics; wait_any_index_selection; invalid_handles;
   cross_process_semaphore; many_waiters_targeted_wake; cross_process_multi_object_wait;
   sweep_dead_frees_orphans; reap_frees_dead_owner_slot;
   reap_skips_live_waiter_node;
   sweep_purges_dead_waiter_and_recycles_its_node; pid_cache_keeps_verdicts_straight;
   tail_budget_burst_is_frames_not_seconds; auto_sweep_claims_interval_when_nothing_dead;
   sweep_reaps_orphans_across_chunks; sweep_scan_chunks_the_table; auto_sweep_reaps_dead_creator].

(** ** Module perf

    The hot paths as Wine exercises them, with the number of iterations as an
    argument; the reported times are left out. *)
Section perf.
Definition perf_path : string := "/tmp/ntsync-perf-100.shm".

Definition perf_wait_signaled_event (N : nat) : script := setup perf_path (
  let? h := create_event true true in
  repeat_then N (fun k => let! o := wait_any [h] 1 ZERO 0 in check! (any_signaled o); k) (
  close_ok h Pass)).

Definition perf_event_set_reset_no_waiters (N : nat) : script := setup perf_path (
  let? h := create_event true false in
  repeat_then N (fun k => let? a := event_set h in let? b := event_reset h in k) (
  close_ok h Pass)).

(** [M] units released, [N] taken. *)
Definition perf_sem_acquire_release_uncontended (M : Z) (N : nat) : script := setup perf_path (
  let? h := create_semaphore 0 1000000 in
  let? prev := sem_release h M in
  repeat_then N (fun k => let! o := wait_any [h] 1 ZERO 0 in check! (any_signaled o); k) (
  close_ok h Pass)).

(** The other end of a ping-pong: waits on [s1] and releases [s2]. *)
Fixpoint ponger (N : nat) (s1 s2 : Z) (timeout : Z) : action Z :=
  match N with
  | O => Ret 1
  | S N' =>
      o <- wait_any [s1] 2 (Some timeout) 0 ;;
      if any_signaled o then
        r <- sem_release s2 1 ;;
        match r with Ok _ => ponger N' s1 s2 timeout | Err _ => Ret 0 end
      else Ret 0
  end.

Definition pinger (N : nat) (s1 s2 : Z) (timeout : Z) (k : script) : script :=
  repeat_then N (fun k =>
    let? prev := sem_release s1 1 in
    let! o := wait_any [s2] 1 (Some timeout) 0 in check! (any_signaled o); k) k.

Definition perf_ping_pong_wake_latency (N : nat) : script := setup perf_path (
  let? s1 := create_semaphore 0 1 in
  let? s2 := create_semaphore 0 1 in
  Spawn 0 false (ponger N s1 s2 (secs 5)) (fun worker =>
  Nap (ms 10) (
  pinger N s1 s2 (secs 5) (
  Await worker (fun ok => check! (ok =? 1); close_ok s1 (close_ok s2 Pass)))))).

Definition perf_cross_process_ping_pong (N : nat) : script := setup perf_path (
  let? s1 := create_semaphore 0 1 in
  let? s2 := create_semaphore 0 1 in
  Spawn 0 true (ponger N s1 s2 (secs 30)) (fun pid =>
  Nap (ms 10) (
  pinger N s1 s2 (secs 30) (
  exit_ok pid (close_ok s1 (close_ok s2 Pass)))))).

Fixpoint hammer (n : nat) (m owner : Z) : action Z :=
  match n with
  | O => Ret 1
  | S n' =>
      o <- wait_any [m] owner (Some (secs 30)) 0 ;;
      if any_signaled o then
        r <- mutex_unlock m owner ;;
        match r with Ok _ => hammer n' m owner | Err _ => Ret 0 end
      else Ret 0
  end.

Definition perf_contended_mutex (PER_THREAD : nat) : script := setup perf_path (
  let? m := create_mutex 0 0 in
  Spawn 0 false (hammer PER_THREAD m 1) (fun t1 => Spawn 0 false (hammer PER_THREAD m 2) (fun t2 =>
  Spawn 0 false (hammer PER_THREAD m 3) (fun t3 => Spawn 0 false (hammer PER_THREAD m 4) (fun t4 =>
  for_each [t1; t2; t3; t4] (fun t k => Await t (fun ok => check! (ok =? 1); k)) (
  close_ok m Pass)))))).
End perf.

Definition perf_tests (N : nat) : list script :=
  [perf_wait_signaled_event N; perf_event_set_reset_no_waiters N;
   perf_sem_acquire_release_uncontended (Z.of_nat N) N; perf_ping_pong_wake_latency N;
   perf_cross_process_ping_pong N; perf_contended_mutex N].

(** A region in which all slots but the last fifty were handed out before: the
    allocator comes back to a freed slot after fifty steps, not sixteen thousand. *)
Definition late_region : Region :=
  upd_header (set_next_scan (SLOT_COUNT - 50)) (upd_slot 0 reserve_slot0 (init_header zero_region)).

Definition late_bench : bench := mkBench late_region (with_size file_size (b_ker bench0)) init_local [].

(** The two lists, evaluated: every call, from every thread and process,
    answers what its test expects. *)
Lemma unit_tests_run : forallb (passes bench0) (unit_tests ++ perf_tests 100) = true.
Proof. vm_compute. reflexivity. Qed.

Lemma march_runs : passes late_bench reap_skips_slot_reused_while_unlocked = true.
Proof. vm_compute. reflexivity. Qed.
