(* ===== verification/Soak.v ===== *)
(** * Soak: the soak tests of the sweep, run on the model

    src/src/soak.rs: processes that die with objects and waiters left behind,
    while the waits of a living process sweep.  The numbers of cycles, orphans
    and triggering waits are arguments; what the tests print is left out. *)
From S2P Require Import Prelude Prog Config Region Kernel Lock Nodes Sweep Init Slots Objects Wait Example Lab Tests.

Definition soak_path : string := "/tmp/ntsync-soak-100.shm".

(** Waits that time out after 1 ms, the first of which finds the interval
    elapsed. *)
Definition trigger_sweeps (ev : Z) (calls : nat) (k : script) : script :=
  do! test_reset_sweep_clock;
  repeat_then calls (fun k =>
    let! me := sys GetPid in
    do! wait_any [ev] me (Some (ms 1)) 0;
    k) k.

(** Objects of a living process work as if nothing had died. *)
Definition check_canaries (k : script) : script :=
  let? ev := create_event false false in
  let? sem := create_semaphore 1 8 in
  let? mtx := create_mutex 0 0 in
  let! r := event_set ev in check! (is_ok r);
  let? e := read_event ev in check! e.2;
  let! r := event_reset ev in check! (is_ok r);
  let? e := read_event ev in check! (negb e.2);
  let? prev := sem_release sem 2 in check! (prev =? 1);
  let? c := read_sem sem in check! (c.1 =? 3);
  let! me := sys GetPid in
  let! o := wait_any [mtx] me ZERO 0 in check! (is_signaled o 0);
  let! r := mutex_unlock mtx me in check! (is_ok r);
  close_ok ev (close_ok sem (close_ok mtx k)).

Definition holders_are (h : Z) (l : list Z) (k : script) : script :=
  let! x := test_holders h in
  match x with Some (_, v) => check! (eqb v l); k | None => Fail end.

Definition soak_holder_bookkeeping : script := setup soak_path (
  let? h := create_event false false in
  holders_are h [] (
  let! me := sys GetPid in
  let! r := retain h in check! (eqb r (Ok tt));
  holders_are h [me] (
  let! r := retain h in check! (eqb r (Ok tt));
  holders_are h [me] (
  let! r := release h in check! (eqb r (Ok tt));
  holders_are h [] (
  let! r := release h in check! (eqb r (Ok tt));
  let! r := retain h in check! (eqb r (Ok tt));
  close_ok h (
  let! x := test_holders h in check! (negb (is_some x));
  let! r := retain h in check! (negb (is_ok r));
  Pass)))))).

(** The child: [n] orphans and the event its threads block on. *)
Fixpoint orphans (n : nat) : action unit :=
  match n with
  | O => Ret tt
  | S n' => r <- create_event false false ;; match r with Ok _ => orphans n' | Err _ => Ret tt end
  end.

Definition orphans_and_blocker (n : nat) : action Z :=
  orphans n ;;;
  r <- create_event false false ;;
  match r with Ok h => Ret h | Err _ => Ret 0 end.

Definition blocked_waiter (blocker : Z) : action Z :=
  me <- sys GetPid ;; wait_any [blocker] me None 0 ;;; Ret 0.

(** One cycle: a process with two blocked threads dies without unwinding. *)
Definition death_cycle (ORPHANS calls : nat) (trigger : Z) (k : script) : script :=
  check_canaries (
  Spawn 0 true (orphans_and_blocker ORPHANS) (fun pid =>
  Await pid (fun blocker =>
  (if blocker =? 0 then fun s => s
   else fun s =>
     Spawn (S pid) false (blocked_waiter blocker) (fun _ =>
     Spawn (S pid) false (blocked_waiter blocker) (fun _ => Nap (ms 5) s)))
  (Reap pid (
  trigger_sweeps trigger calls (
  check_canaries k)))))).

Definition soak_process_death_under_sweep (CYCLES ORPHANS calls : nat) : script := setup soak_path (
  let? trigger := create_event false false in
  repeat_then CYCLES (death_cycle ORPHANS calls trigger) (
  do! close trigger;
  Pass)).

(** A child that creates an event and writes its handle to the pipe. *)
Definition relay : action Z :=
  r <- create_event false false ;; match r with Ok h => Ret h | Err _ => Ret 0 end.

Definition soak_relayed_handle_after_creator_death (calls : nat) : script := setup soak_path (
  let? trigger := create_event false false in
  Spawn 0 true relay (fun pid =>
  Await pid (fun relayed =>
  Reap pid (
  do! read_event relayed;
  trigger_sweeps trigger calls (
  do! read_event relayed;
  Spawn 0 true relay (fun pid2 =>
  Await pid2 (fun kept =>
  Reap pid2 (
  let! r := retain kept in check! (eqb r (Ok tt));
  do! read_event kept;
  trigger_sweeps trigger calls (
  let! e := read_event kept in check! (is_ok e);
  let! r := event_set kept in check! (is_ok r);
  let! r := release kept in check! (is_ok r);
  trigger_sweeps trigger calls (
  let! e := read_event kept in check! (negb (is_ok e));
  do! close trigger;
  Pass)))))))))).

Definition soak_tests (CYCLES ORPHANS calls : nat) : list script :=
  [soak_holder_bookkeeping; soak_process_death_under_sweep CYCLES ORPHANS calls;
   soak_relayed_handle_after_creator_death calls].

Lemma soak_tests_run : forallb (passes bench0) (soak_tests 3 64 768) = true.
Proof. vm_compute. reflexivity. Qed.
