(* ===== verification/Engine.v ===== *)
(** * Engine: the frame loops of game engines, run on the model

    src/src/engine_sim.rs: how Unreal, Unity and Godot drive the library at
    high frame rates, pacing waits, an object-churning second process, a dead
    helper's orphans, and the primitive costs.  A thread of a scenario is an
    [action]; the scenario is a script.  What is measured (latencies, CPU time)
    is read from the clock as in the source but not reported.  Numbers of
    workers, tasks and frames and the lengths of simulated work are arguments:
    a clock that moves one nanosecond per look would spin for long. *)
From S2P Require Import Prelude Prog Config Region Kernel Lock Nodes Policy Sweep Init Slots Objects Wait Example Lab Tests.

(** [AtomicBool] stop, [AtomicU32] next_job. *)
Definition STOP : nat := 0.
Definition NEXT_JOB : nat := 1.

Definition load (c : nat) : action Z := sys (Atomic c AtomicLoad).
Definition store (c : nat) (v : Z) : action unit := sys (Atomic c (AtomicStore v)) ;;; Ret tt.
Definition fetch_add (c : nat) (n : Z) : action Z := sys (Atomic c (AtomicAdd W32 n)).
Definition stopped : action bool := v <- load STOP ;; Ret (negb (v =? 0)).

(** [for _ in 0..n] *)
Fixpoint times (n : nat) (p : action unit) : action unit :=
  match n with O => Ret tt | S n' => p ;;; times n' p end.

Fixpoint for_all (l : list Z) (p : Z -> action unit) : action unit :=
  match l with [] => Ret tt | x :: l' => p x ;;; for_all l' p end.

(** [t.elapsed()] *)
Definition elapsed (t : Z) : action Z := now <- sys ClockMonotonic ;; Ret (u64_saturating_sub now t).

(** Frame accounting. *)
Record Frames : Type := mkFrames { target : Z; periods : list Z; overruns : Z; total : Z }.

(** [Duration::from_secs_f64(1.0 / fps)], for a rate that divides the second. *)
Definition frame_budget (fps : Z) : Z := 1000000000 / fps.
Definition Frames_new (fps : Z) : Frames := mkFrames (frame_budget fps) [] 0 0.

Definition Frames_end (start : Z) (f : Frames) : action Frames :=
  el <- elapsed start ;;
  Ret (mkFrames (target f) (periods f ++ [el])
         (if target f <? el then overruns f + 1 else overruns f) (total f + 1)).

Fixpoint frame_loop (n : nat) (frame : Frames -> action Frames) (f : Frames) : action Frames :=
  match n with O => Ret f | S n' => f' <- frame f ;; frame_loop n' frame f' end.

Section threads.
Context `{!Config}.

(** [while t.elapsed() < d { spin_loop() }] *)
Fixpoint spin_for (fuel : nat) (t d : Z) : action unit :=
  match fuel with
  | O => OutOfFuel
  | S fuel' => el <- elapsed t ;; if el <? d then spin_for fuel' t d else Ret tt
  end.

Definition busy (d : Z) : action unit := t <- sys ClockMonotonic ;; spin_for loop_fuel t d.

(** [while !stop { match wait_any(&\[job\], me(), 50 ms, 0) { Signaled => {},
    Timeout => continue, _ => break } body; n += 1 }] *)
Fixpoint serve (fuel : nat) (me job : Z) (body : action unit) (n : Z) : action Z :=
  match fuel with
  | O => OutOfFuel
  | S fuel' =>
      stop <- stopped ;;
      if stop : bool then Ret n
      else
        o <- wait_any [job] me (Some (ms 50)) 0 ;;
        match o with
        | Signaled _ _ => body ;;; serve fuel' me job body (n + 1)
        | Timeout => serve fuel' me job body n
        | _ => Ret n
        end
  end.

(** [wait_any(&\[m\], me(), None, 0); mutex_unlock(m, me())] *)
Definition lock_unlock (me m : Z) : action unit :=
  wait_any [m] me None 0 ;;; mutex_unlock m me ;;; Ret tt.

Definition handoff_thread (me go acked : Z) : action Z :=
  serve loop_fuel me go (t <- sys ClockMonotonic ;; event_set acked ;;; elapsed t ;;; Ret tt) 0.

(** ** Unreal *)
Definition ue_worker (me job_sem queue_mutex done_sem work : Z) : action Z :=
  serve loop_fuel me job_sem
    (lock_unlock me queue_mutex ;;; busy work ;;; sem_release done_sem 1 ;;; Ret tt) 0.

Definition ue_render (me render_go frame_done work : Z) : action Z :=
  serve loop_fuel me render_go (busy work ;;; event_set frame_done ;;; Ret tt) 0.

Definition ue_frame (me budget : Z) (TASKS : nat)
  (job_sem done_sem queue_mutex render_go frame_done : Z) (f : Frames) : action Frames :=
  start <- sys ClockMonotonic ;;
  times TASKS (lock_unlock me queue_mutex ;;; sem_release job_sem 1 ;;; Ret tt) ;;;
  times TASKS (wait_any [done_sem] me None 0 ;;; Ret tt) ;;;
  event_set render_go ;;;
  el <- elapsed start ;;
  wait_any [frame_done] me (Some (u64_saturating_sub budget el)) 0 ;;;
  Frames_end start f.

(** ** Unity *)
Definition unity_worker (me job_sem gfx : Z) (events : list Z) (work : Z) : action Z :=
  serve loop_fuel me job_sem
    (next <- fetch_add NEXT_JOB 1 ;;
     let idx := next mod Z.of_nat (length events) in
     busy work ;;; lock_unlock me gfx ;;; event_set (arr events (Z.to_nat idx)) ;;; Ret tt) 0.

Definition unity_frame (me budget : Z) (JOBS : nat) (job_sem gfx : Z) (job_events : list Z)
  (f : Frames) : action Frames :=
  start <- sys ClockMonotonic ;;
  store NEXT_JOB 0 ;;;
  times JOBS (sem_release job_sem 1 ;;; Ret tt) ;;;
  for_all job_events (fun event =>
    w <- sys ClockMonotonic ;; wait_any [event] me (Some (ms 50)) 0 ;;; elapsed w ;;; Ret tt) ;;;
  lock_unlock me gfx ;;;
  el <- elapsed start ;;
  let left := u64_saturating_sub budget el in
  (when negb (left =? 0) do (wait_any [arr job_events 0] me (Some left) 0 ;;; Ret tt)) ;;;
  Frames_end start f.

(** ** Godot *)
Definition godot_worker (me job_sem queue group_sem work : Z) : action Z :=
  serve loop_fuel me job_sem
    (lock_unlock me queue ;;; busy work ;;; sem_release group_sem 1 ;;; Ret tt) 0.

Definition godot_frame (me budget : Z) (TASKS : nat) (job_sem group_sem queue : Z)
  (f : Frames) : action Frames :=
  start <- sys ClockMonotonic ;;
  times TASKS (lock_unlock me queue ;;; sem_release job_sem 1 ;;; Ret tt) ;;;
  times TASKS (wait_any [group_sem] me None 0 ;;; Ret tt) ;;;
  el <- elapsed start ;;
  let left := u64_saturating_sub budget el in
  (when negb (left =? 0) do (wait_any [group_sem] me (Some left) 0 ;;; Ret tt)) ;;;
  Frames_end start f.

(** ** The frame boundary *)

(** [next += period; if next > now { let left = next - now; .. }], with what is
    done with [left] and the new [next]. *)
Fixpoint pacing (n : nat) (period next : Z) (rest : Z -> Z -> action unit) : action unit :=
  match n with
  | O => Ret tt
  | S n' =>
      let next := next + period in
      now <- sys ClockMonotonic ;;
      (when now <? next do
        (let left := next - now in t <- sys ClockMonotonic ;; rest left next ;;; elapsed t ;;; Ret tt)) ;;;
      pacing n' period next rest
  end.

Definition paced_wait (me never left next : Z) : action unit := wait_any [never] me (Some left) 0 ;;; Ret tt.

(** [while Instant::now() < next { spin_loop() }] *)
Fixpoint spin_to (fuel : nat) (next : Z) : action unit :=
  match fuel with
  | O => OutOfFuel
  | S fuel' => now <- sys ClockMonotonic ;; if now <? next then spin_to fuel' next else Ret tt
  end.

Definition spun_wait (me never window left next : Z) : action unit :=
  let park := u64_saturating_sub left window in
  (when negb (park =? 0) do (wait_any [never] me (Some park) 0 ;;; Ret tt)) ;;;
  spin_to loop_fuel next.

Definition sim_wait_only_pacing_loop (me never : Z) (FRAMES : nat) : action unit :=
  next <- sys ClockMonotonic ;; pacing FRAMES (frame_budget 1000) next (paced_wait me never).

(** ** Another process *)
Definition create_close : action unit :=
  r <- create_event false false ;; match r with Ok h => close h ;;; Ret tt | Err _ => Ret tt end.

(** [while Instant::now() < deadline { .. }] *)
Fixpoint before (fuel : nat) (deadline : Z) (body : action unit) : action Z :=
  match fuel with
  | O => OutOfFuel
  | S fuel' =>
      now <- sys ClockMonotonic ;;
      if now <? deadline then body ;;; before fuel' deadline body else Ret 0
  end.

Definition churn_child (span : Z) : action Z :=
  now <- sys ClockMonotonic ;; before loop_fuel (now + span) (times 16 create_close).

Definition churn_parent (me ev partner span : Z) : action Z :=
  now <- sys ClockMonotonic ;;
  before loop_fuel (now + span)
    (t <- sys ClockMonotonic ;; event_set ev ;;; elapsed t ;;;
     t <- sys ClockMonotonic ;; wait_any [partner] me (Some 500000) 0 ;;; elapsed t ;;;
     event_reset ev ;;; Ret tt).

(** ** Handing over, and the primitives *)
Definition handoff_round (me go acked : Z) : action unit :=
  t <- sys ClockMonotonic ;; event_set go ;;; elapsed t ;;;
  t <- sys ClockMonotonic ;; wait_any [acked] me (Some (ms 50)) 0 ;;; elapsed t ;;; Ret tt.

Definition primitive_event (me ev : Z) : action unit :=
  t <- sys ClockMonotonic ;; event_set ev ;;; elapsed t ;;;
  t <- sys ClockMonotonic ;; read_event ev ;;; elapsed t ;;;
  t <- sys ClockMonotonic ;; wait_any [ev] me ZERO 0 ;;; elapsed t ;;; Ret tt.
Definition primitive_timeout (me never : Z) : action unit :=
  t <- sys ClockMonotonic ;; wait_any [never] me (Some 200000) 0 ;;; elapsed t ;;; Ret tt.
Definition primitive_sem (me sem : Z) : action unit :=
  t <- sys ClockMonotonic ;; wait_any [sem] me ZERO 0 ;;; sem_release sem 1 ;;; elapsed t ;;; Ret tt.
Definition primitive_mutex (me m : Z) : action unit :=
  t <- sys ClockMonotonic ;; wait_any [m] me ZERO 0 ;;; mutex_unlock m me ;;; elapsed t ;;; Ret tt.
End threads.

(** ** The scenarios *)
Section scenarios.
Definition engine_path : string := "/tmp/ntsync-engine-100.shm".

Definition engine_setup (k : Z -> script) : script := setup engine_path (
  do! sweep_dead;
  let! me := sys GetPid in k me).

(** [n] threads of this process; [join] them. *)
Fixpoint spawn_n (n : nat) (p : action Z) (acc : list nat) (k : list nat -> script) : script :=
  match n with O => k acc | S n' => Spawn 0 false p (fun t => spawn_n n' p (acc ++ [t]) k) end.

Definition join_all (ts : list nat) (k : script) : script := for_each ts (fun t k => Await t (fun _ => k)) k.

Definition close_all (hs : list Z) (k : script) : script := for_each hs (fun h k => do! close h; k) k.

Definition sim_ue45_frame_graph (TASKS WORKERS FRAMES : nat) (work render_work : Z) : script :=
  engine_setup (fun me =>
  let? job_sem := create_semaphore 0 64 in
  let? done_sem := create_semaphore 0 64 in
  let? queue_mutex := create_mutex 0 0 in
  let? render_go := create_event false false in
  let? frame_done := create_event false false in
  do! store STOP 0;
  spawn_n WORKERS (ue_worker me job_sem queue_mutex done_sem work) [] (fun workers =>
  Spawn 0 false (ue_render me render_go frame_done render_work) (fun render =>
  let! frames := frame_loop FRAMES
    (ue_frame me (frame_budget 500) TASKS job_sem done_sem queue_mutex render_go frame_done) (Frames_new 500) in
  do! store STOP 1;
  do! sem_release job_sem (Z.of_nat WORKERS);
  do! event_set render_go;
  join_all workers (join_all [render] (
  check! (total frames =? Z.of_nat FRAMES);
  close_all [job_sem; done_sem; queue_mutex; render_go; frame_done] Pass))))).

Definition sim_unity_job_system (JOBS WORKERS FRAMES : nat) (work : Z) : script :=
  engine_setup (fun me =>
  let? job_sem := create_semaphore 0 64 in
  let? gfx := create_mutex 0 0 in
  do! store STOP 0;
  create_n JOBS (create_event false false) [] (fun job_events =>
  do! store NEXT_JOB 0;
  spawn_n WORKERS (unity_worker me job_sem gfx job_events work) [] (fun workers =>
  let! frames := frame_loop FRAMES
    (unity_frame me (frame_budget 500) JOBS job_sem gfx job_events) (Frames_new 500) in
  do! store STOP 1;
  do! sem_release job_sem (Z.of_nat WORKERS);
  join_all workers (
  check! (total frames =? Z.of_nat FRAMES);
  close_all job_events (close_all [job_sem; gfx] Pass))))).

Definition sim_godot_worker_pool (TASKS WORKERS FRAMES : nat) (work : Z) : script :=
  engine_setup (fun me =>
  let? job_sem := create_semaphore 0 64 in
  let? group_sem := create_semaphore 0 64 in
  let? queue := create_mutex 0 0 in
  do! store STOP 0;
  spawn_n WORKERS (godot_worker me job_sem queue group_sem work) [] (fun workers =>
  let! frames := frame_loop FRAMES
    (godot_frame me (frame_budget 500) TASKS job_sem group_sem queue) (Frames_new 500) in
  do! store STOP 1;
  do! sem_release job_sem (Z.of_nat WORKERS);
  join_all workers (
  check! (total frames =? Z.of_nat FRAMES);
  close_all [job_sem; group_sem; queue] Pass))).

(** The reference loop paces with [thread::sleep]. *)
Fixpoint sleep_pacing (n : nat) (period next : Z) (k : script) : script :=
  match n with
  | O => k
  | S n' =>
      let! t := sys ClockMonotonic in
      if t <? next + period
      then do! sys ClockMonotonic; Nap (next + period - t) (do! sys ClockMonotonic; sleep_pacing n' period (next + period) k)
      else sleep_pacing n' period (next + period) k
  end.

Definition sim_vsync_pacing (FRAMES : nat) (window : Z) : script :=
  engine_setup (fun me =>
  let? never := create_event false false in
  let period := frame_budget 1000 in
  let! next := sys ClockMonotonic in
  do! pacing FRAMES period next (paced_wait me never);
  let! next3 := sys ClockMonotonic in
  sleep_pacing FRAMES period next3 (
  let! next2 := sys ClockMonotonic in
  do! pacing FRAMES period next2 (spun_wait me never window);
  do! close never;
  Pass)).

Definition sim_wait_only_pacing (FRAMES : nat) : script :=
  engine_setup (fun me =>
  let? never := create_event false false in
  do! sim_wait_only_pacing_loop me never FRAMES;
  do! close never;
  Pass).

Definition sim_wineserver_object_churn (span : Z) : script :=
  engine_setup (fun me =>
  let? ev := create_event false false in
  let? partner := create_event false false in
  Spawn 0 true (churn_child span) (fun pid =>
  do! churn_parent me ev partner span;
  Await pid (fun _ => Reap pid (
  close_all [ev; partner] Pass)))).

(** [freed] and [again] go to the report; [k] looks at them. *)
Definition sim_sweep_hitch_then (OBJECTS FRAMES : nat) (k : Z -> Z -> script -> script) : script :=
  engine_setup (fun me =>
  Spawn 0 true (create_orphans OBJECTS) (fun pid =>
  Await pid (fun _ => Reap pid (
  let? never := create_event false false in
  do! test_reset_sweep_clock;
  repeat_then FRAMES (fun k =>
    do! sys ClockMonotonic; do! wait_any [never] me (Some (ms 1)) 0; do! sys ClockMonotonic; k) (
  repeat_then OBJECTS (fun k => do! create_close; k) (
  do! sys ClockMonotonic;
  let! freed := sweep_dead in
  do! sys ClockMonotonic;
  do! sys ClockMonotonic;
  let! again := sweep_dead in
  do! sys ClockMonotonic;
  let unwrap_or_0 (r : result Z Error) := match r with Ok n => n | Err _ => 0 end in
  k (unwrap_or_0 freed) (unwrap_or_0 again) (
  do! close never;
  Pass))))))).

Definition sim_sweep_hitch (OBJECTS FRAMES : nat) : script :=
  sim_sweep_hitch_then OBJECTS FRAMES (fun _ _ k => k).

Definition sim_handoff_cost (N : nat) : script :=
  engine_setup (fun me =>
  let? go := create_event false false in
  let? acked := create_event false false in
  do! store STOP 0;
  Spawn 0 false (handoff_thread me go acked) (fun waiter =>
  do! times N (handoff_round me go acked);
  do! store STOP 1;
  do! event_set go;
  join_all [waiter] (
  close_all [go; acked] Pass))).

Definition sim_primitive_costs (N T : nat) : script :=
  engine_setup (fun me =>
  let? ev := create_event false true in
  do! times N (primitive_event me ev);
  let? never := create_event false false in
  do! times T (primitive_timeout me never);
  let? sem := create_semaphore 1 1 in
  do! times N (primitive_sem me sem);
  let? m := create_mutex 0 0 in
  do! times N (primitive_mutex me m);
  close_all [ev; never; sem; m] Pass).

(** The scenarios, with their numbers of workers, tasks and objects, and so
    many frames. *)
Definition engine_sims (FRAMES : nat) : list script :=
  [sim_ue45_frame_graph 8 3 FRAMES 20 100; sim_unity_job_system 8 4 FRAMES 15;
   sim_godot_worker_pool 6 3 FRAMES 25; sim_vsync_pacing FRAMES 150; sim_wait_only_pacing FRAMES;
   sim_wineserver_object_churn 100; sim_sweep_hitch 500 FRAMES; sim_handoff_cost FRAMES;
   sim_primitive_costs FRAMES FRAMES].
End scenarios.

