(* ===== verification/Report.v ===== *)
(** * Report: what the benchmarks write down

    src/src/bench.rs keeps its results in a flat JSON file, one metric per
    line, and reads the baseline back with a tolerant parser; the exec'd worker
    processes get their handles as decimal numbers in an environment variable.
    Text is a list of ASCII characters here.  Reading the proc files, the float
    percentages and the printing are left out. *)
From S2P Require Import Prelude Config.
From Stdlib Require Import Ascii.

Abbreviation text := (list ascii) (only parsing).
Definition chr (n : nat) : ascii := ascii_of_nat n.
Definition txt (s : string) : text := String.list_ascii_of_string s.
Definition isc (c : ascii) (n : nat) : bool := (nat_of_ascii c =? n)%nat.

(** ** The standard library's string functions, on ASCII *)

(** [char::is_whitespace] *)
Definition whitespace (c : ascii) : bool :=
  let n := nat_of_ascii c in ((9 <=? n) && (n <=? 13) || (n =? 32))%nat.

Fixpoint drop_while (f : ascii -> bool) (s : text) : text :=
  match s with
  | [] => []
  | c :: s' => if f c then drop_while f s' else s
  end.
Definition drop_end (f : ascii -> bool) (s : text) : text := reverse (drop_while f (reverse s)).
Definition trim (s : text) : text := drop_end whitespace (drop_while whitespace s).
Definition trim_matches (c : nat) (s : text) : text := drop_end (fun x => isc x c) (drop_while (fun x => isc x c) s).
Definition trim_end_matches (c : nat) (s : text) : text := drop_end (fun x => isc x c) s.

(** [str::split_once] and [str::split] at a character. *)
Fixpoint split_once (c : nat) (s : text) : option (text * text) :=
  match s with
  | [] => None
  | x :: s' =>
      if isc x c then Some ([], s')
      else match split_once c s' with Some (l, r) => Some (x :: l, r) | None => None end
  end.

Fixpoint split (c : nat) (s : text) : list text :=
  match s with
  | [] => [[]]
  | x :: s' =>
      if isc x c then [] :: split c s'
      else match split c s' with p :: ps => (x :: p) :: ps | [] => [[x]] end
  end.

(** [str::lines]: what ends a line is a line feed, or a carriage return and
    one; nothing after the last one is no line. *)
Fixpoint str_lines (s : text) : list text :=
  match s with
  | [] => []
  | x :: s' =>
      let grow ls := match ls with p :: ps => (x :: p) :: ps | [] => [[x]] end in
      if isc x 10 then [] :: str_lines s'
      else
        match s' with
        | y :: s'' => if isc x 13 && isc y 10 then [] :: str_lines s'' else grow (str_lines s')
        | [] => [[x]]
        end
  end.

(** [u64] in decimal ([to_string], [{v}]). *)
Fixpoint digits (fuel : nat) (n : Z) (acc : text) : text :=
  match fuel with
  | O => acc
  | S fuel' =>
      let acc' := chr (Z.to_nat (48 + n mod 10)) :: acc in
      if n / 10 =? 0 then acc' else digits fuel' (n / 10) acc'
  end.
Definition decimal (n : Z) : text := digits 20 n [].

Definition parse (max : Z) (s : text) : option Z := parse_uint max (String.string_of_list_ascii s).

(** [s.parse::<u64>().unwrap_or(0)] *)
Definition parse_u64 (s : text) : Z := default 0 (parse (W64 - 1) s).

(** [str::strip_prefix] *)
Fixpoint strip_prefix (p s : text) : option text :=
  match p, s with
  | [], _ => Some s
  | a :: p', b :: s' => if isc b (Ascii.nat_of_ascii a) then strip_prefix p' s' else None
  | _ :: _, [] => None
  end.

(** [{k:?}]: quoted, with what needs it escaped. *)
Definition hex (n : nat) : ascii := chr (if (n <? 10)%nat then 48 + n else 87 + n).
Definition escape (c : ascii) : text :=
  let n := nat_of_ascii c in
  if isc c 34 then txt "\" ++ [c]
  else if isc c 92 then txt "\\"
  else if isc c 0 then txt "\0"
  else if isc c 9 then txt "\t"
  else if isc c 10 then txt "\n"
  else if isc c 13 then txt "\r"
  else if ((32 <=? n) && (n <? 127))%nat then [c]
  else txt "\u{" ++ (if (n <? 16)%nat then [hex n] else [hex (n / 16); hex (n mod 16)]) ++ txt "}".
Definition quoted (k : text) : text := chr 34 :: concat (map escape k) ++ [chr 34].

(** ** The report file *)
Definition entry (kv : text * Z) (last : bool) : text :=
  txt "  " ++ quoted kv.1 ++ txt ": " ++ decimal kv.2 ++ (if last then [] else txt ",") ++ [chr 10].

Fixpoint entries (l : list (text * Z)) : text :=
  match l with
  | [] => []
  | kv :: l' => entry kv (match l' with [] => true | _ => false end) ++ entries l'
  end.

(** The order of the keys of a [BTreeMap]. *)
Fixpoint key_leb (a b : text) : bool :=
  match a, b with
  | [], _ => true
  | _ :: _, [] => false
  | x :: a', y :: b' =>
      if (nat_of_ascii x <? nat_of_ascii y)%nat then true
      else if (nat_of_ascii y <? nat_of_ascii x)%nat then false
      else key_leb a' b'
  end.

Fixpoint insert_sorted (kv : text * Z) (l : list (text * Z)) : list (text * Z) :=
  match l with
  | [] => [kv]
  | x :: l' => if key_leb kv.1 x.1 then kv :: l else x :: insert_sorted kv l'
  end.
Definition in_order (m : gmap text Z) : list (text * Z) := foldr insert_sorted [] (map_to_list m).

Definition to_json (m : gmap text Z) : text := txt "{" ++ [chr 10] ++ entries (in_order m) ++ txt "}" ++ [chr 10].

Definition json_line (line : text) (m : gmap text Z) : gmap text Z :=
  match split_once 58 (trim_end_matches 44 (trim line)) with
  | Some (k, v) =>
      match parse (W64 - 1) (trim v) with
      | Some n => <[trim_matches 34 (trim k) := n]> m
      | None => m
      end
  | None => m
  end.
Definition from_json (s : text) : gmap text Z := foldl (fun m line => json_line line m) ∅ (str_lines s).

(** The handles of a worker, separated by commas: start, mutex, event, the
    pings and the pongs. *)
Fixpoint join (l : list text) : text :=
  match l with
  | [] => []
  | [x] => x
  | x :: l' => x ++ txt "," ++ join l'
  end.
Definition handles_env (start mtx ev : Z) (ping pong : list Z) : text :=
  join (decimal <$> ([start; mtx; ev] ++ ping ++ pong)).

(** [None] where the worker panics. *)
Definition worker_handles (s : text) : option (Z * Z * Z * list Z * list Z) :=
  match mapM (parse (W32 - 1)) (split 44 s) with
  | Some (start :: mtx :: ev :: rest) =>
      let procs := (length rest / 2)%nat in Some (start, mtx, ev, take procs rest, drop procs rest)
  | _ => None
  end.

(** What a worker prints in the end, and what the parent reads out of all that
    the worker printed. *)
Definition worker_line (rss : Z) : text := txt "NTSYNC_WORKER_RSS_KB=" ++ decimal rss ++ [chr 10].
Definition worker_rss (stdout : text) : list Z :=
  omap (fun line => v ← strip_prefix (txt "NTSYNC_WORKER_RSS_KB=") line; Some (parse_u64 (trim v))) (str_lines stdout).

(** ** Reading back what was written *)
Definition plain_char (c : ascii) : Prop :=
  (32 <= nat_of_ascii c < 127 /\ nat_of_ascii c <> 34 /\ nat_of_ascii c <> 58 /\ nat_of_ascii c <> 92)%nat.
Definition digit_char (c : ascii) : Prop := (48 <= nat_of_ascii c <= 57)%nat.

Lemma isc_spec c n : isc c n = true <-> nat_of_ascii c = n.
Proof. apply Nat.eqb_eq. Qed.
Lemma isc_false c n : nat_of_ascii c <> n -> isc c n = false.
Proof. intros H. by apply Nat.eqb_neq. Qed.

Lemma not_whitespace c : (32 < nat_of_ascii c)%nat -> whitespace c = false.
Proof.
  intros H. unfold whitespace. rewrite (proj2 (Nat.leb_gt _ 13)), andb_false_r by lia.
  by apply Nat.eqb_neq; lia.
Qed.

Lemma drop_end_keep f s c : f c = false -> drop_end f (s ++ [c]) = s ++ [c].
Proof. intros H. unfold drop_end. rewrite reverse_snoc. cbn [drop_while]. by rewrite H, reverse_cons, reverse_involutive. Qed.

Lemma drop_end_drop f s c : f c = true -> drop_end f (s ++ [c]) = drop_end f s.
Proof. intros H. unfold drop_end. rewrite reverse_snoc. cbn [drop_while]. by rewrite H. Qed.

Lemma drop_while_keep f c s : f c = false -> drop_while f (c :: s) = c :: s.
Proof. intros H. cbn [drop_while]. by rewrite H. Qed.

(** *** Numbers *)
Definition value (a : Z) (s : text) : Z := foldl (fun a c => a * 10 + (Z.of_nat (nat_of_ascii c) - 48)) a s.

Lemma value_grows s : forall a, 0 <= a -> Forall digit_char s -> a <= value a s.
Proof.
  induction s as [|c s IH]; intros a Ha Hs; cbn; [lia|]. apply Forall_cons in Hs as [Hc Hs].
  unfold digit_char in Hc. etrans; [|apply IH; [|done]]; lia.
Qed.

Lemma parse_digits_value max s : forall a, 0 <= a -> Forall digit_char s -> value a s <= max ->
  parse_digits max a (String.string_of_list_ascii s) = Some (value a s).
Proof.
  induction s as [|c s IH]; intros a Ha Hs Hm; [done|]. apply Forall_cons in Hs as [Hc Hs].
  cbn in Hm |- *. unfold digit_of, digit_char in *. unfold nat_of_ascii in *.
  rewrite (proj2 (Z.leb_le _ _)), (proj2 (Z.leb_le _ 57)) by lia. cbn [andb].
  pose proof (value_grows s (a * 10 + (Z.of_nat (nat_of_ascii c) - 48)) ltac:(unfold nat_of_ascii; lia) Hs) as Hg.
  unfold nat_of_ascii in Hg. rewrite (proj2 (Z.leb_le _ _)) by (etrans; [exact Hg|exact Hm]).
  apply IH; [lia|done|done].
Qed.

Lemma chr_nat n : (n < 256)%nat -> nat_of_ascii (chr n) = n.
Proof. apply nat_ascii_embedding. Qed.

Lemma digits_spec fuel : forall n acc, 0 <= n < 10 ^ Z.of_nat fuel -> (0 < fuel)%nat ->
  exists ds c, digits fuel n acc = ds ++ c :: acc /\ Forall digit_char (ds ++ [c]) /\ value 0 (ds ++ [c]) = n.
Proof.
  induction fuel as [|fuel IH]; intros n acc Hn Hf; [lia|]. cbn [digits].
  set (c := chr (Z.to_nat (48 + n mod 10))). pose proof (Z.mod_pos_bound n 10 ltac:(lia)) as Hm.
  assert (nat_of_ascii c = Z.to_nat (48 + n mod 10)) as Hc by (apply chr_nat; lia).
  assert (digit_char c) as Hd by (unfold digit_char; lia).
  pose proof (Z.div_mod n 10 ltac:(lia)) as Hdm. destruct (Z.eqb_spec (n / 10) 0) as [E|E].
  - exists [], c. split; [done|]. split; [by constructor|]. cbn. lia.
  - assert (0 < fuel)%nat as Hf'.
    { destruct fuel; [|lia]. cbn in Hn. rewrite Z.div_small in E by lia. lia. }
    assert (0 <= n / 10 < 10 ^ Z.of_nat fuel) as Hn'.
    { split; [apply Z.div_pos; lia|]. apply Z.div_lt_upper_bound; [lia|].
      rewrite <- Z.pow_succ_r, <- Nat2Z.inj_succ by lia. apply Hn. }
    destruct (IH (n / 10) (c :: acc) Hn' Hf') as (ds & c' & H1 & H2 & H3).
    exists (ds ++ [c']), c. split; [by rewrite H1, <- app_assoc|].
    split; [apply Forall_app; by split; [|constructor]|].
    unfold value in *. rewrite foldl_app, H3. cbn. lia.
Qed.

Lemma decimal_spec n : 0 <= n < W64 ->
  exists ds c, decimal n = ds ++ [c] /\ Forall digit_char (ds ++ [c]) /\ value 0 (ds ++ [c]) = n.
Proof. intros Hn. apply digits_spec; [|lia]. split; [lia|]. eapply Z.lt_trans; [apply Hn|]. by vm_compute. Qed.

Lemma parse_decimal max n : 0 <= n <= max -> max < W64 -> parse max (decimal n) = Some n.
Proof.
  intros Hn Hmax. destruct (decimal_spec n ltac:(lia)) as (ds & c & -> & Hd & Hv). unfold parse.
  assert (exists x s, ds ++ [c] = x :: s) as (x & s & E) by (destruct ds; eexists _, _; done).
  rewrite E in *. cbn [String.string_of_list_ascii parse_uint].
  apply Forall_cons in Hd as Hx. destruct Hx as [Hx _]. unfold digit_char in Hx.
  destruct (Ascii.eqb_spec x (ascii_of_nat 43)) as [->|_]; [change (nat_of_ascii (ascii_of_nat 43)) with 43%nat in Hx; lia|].
  change (String.String x (String.string_of_list_ascii s)) with (String.string_of_list_ascii (x :: s)).
  rewrite parse_digits_value; [by rewrite Hv|lia|done|lia].
Qed.

(** *** Text *)
Lemma str_lines_line l rest :
  Forall (fun c => nat_of_ascii c <> 10 /\ nat_of_ascii c <> 13)%nat l ->
  str_lines (l ++ chr 10 :: rest) = l :: str_lines rest.
Proof.
  induction l as [|c l IH]; intros Hl; [done|]. apply Forall_cons in Hl as [[H1 H2] Hl].
  cbn [app str_lines]. rewrite isc_false by done. specialize (IH Hl).
  destruct (l ++ chr 10 :: rest) as [|y s'] eqn:E; [by destruct l|].
  rewrite (isc_false c 13) by done. cbn [andb]. by rewrite IH.
Qed.

Lemma split_once_at c l r : Forall (fun x => nat_of_ascii x <> c) l ->
  split_once c (l ++ chr c :: r) = if (c <? 256)%nat then Some (l, r) else split_once c (l ++ chr c :: r).
Proof.
  intros Hl. destruct (Nat.ltb_spec c 256) as [Hc|]; [|done]. induction l as [|x l IH].
  - cbn. unfold isc. by rewrite chr_nat, Nat.eqb_refl.
  - apply Forall_cons in Hl as [Hx Hl]. cbn. rewrite isc_false by done. by rewrite IH.
Qed.

Lemma escape_plain k : Forall plain_char k -> concat (map escape k) = k.
Proof.
  induction 1 as [|c k Hc _ IH]; [done|]. cbn [map concat]. rewrite IH. unfold escape, plain_char in *.
  rewrite !isc_false by lia. by rewrite (proj2 (Nat.leb_le _ _)), (proj2 (Nat.ltb_lt _ _)) by lia.
Qed.

Lemma trim_key k : trim_matches 34 (trim (chr 34 :: k ++ [chr 34])) = drop_end (fun x => isc x 34) (drop_while (fun x => isc x 34) (k ++ [chr 34])).
Proof.
  unfold trim. rewrite drop_while_keep by done.
  change (chr 34 :: k ++ [chr 34]) with ((chr 34 :: k) ++ [chr 34]). by rewrite drop_end_keep.
Qed.

Lemma unquote k : Forall plain_char k -> trim_matches 34 (trim (quoted k)) = k.
Proof.
  intros Hk. unfold quoted. rewrite escape_plain by done. rewrite trim_key.
  destruct k as [|c k _] using rev_ind; [done|].
  apply Forall_app in Hk as [Hk Hc%Forall_inv]. destruct Hc as (_ & Hc & _).
  assert (drop_while (fun x => isc x 34) ((k ++ [c]) ++ [chr 34]) = (k ++ [c]) ++ [chr 34]) as ->.
  { destruct k as [|x k]; cbn [app]; apply drop_while_keep, isc_false; [done|].
    apply Forall_cons in Hk as [(_ & Hx & _) _]. done. }
  rewrite drop_end_drop by done. apply drop_end_keep. by apply isc_false.
Qed.

(** One line of the file. *)
Definition plain_entry (kv : text * Z) : Prop := Forall plain_char kv.1 /\ 0 <= kv.2 < W64.

Definition body (kv : text * Z) (last : bool) : text :=
  txt "  " ++ quoted kv.1 ++ txt ": " ++ decimal kv.2 ++ (if last then [] else txt ",").

Lemma entry_body kv last : entry kv last = body kv last ++ [chr 10].
Proof. unfold entry, body. by rewrite <- !app_assoc. Qed.

Lemma trim_line k ds c last : digit_char c ->
  trim_end_matches 44 (trim (txt "  " ++ (chr 34 :: k) ++ (ds ++ [c]) ++ (if last : bool then [] else txt ",")))
  = chr 34 :: k ++ ds ++ [c].
Proof.
  intros Hc. unfold digit_char in Hc. unfold trim.
  assert (drop_while whitespace (txt "  " ++ (chr 34 :: k) ++ (ds ++ [c]) ++ (if last then [] else txt ",")) =
    (chr 34 :: k) ++ (ds ++ [c]) ++ (if last then [] else txt ",")) as -> by done.
  assert (drop_end (fun x => isc x 44) ((chr 34 :: k ++ ds) ++ [c]) = (chr 34 :: k ++ ds) ++ [c]) as Hkeep.
  { apply drop_end_keep, isc_false. lia. }
  unfold trim_end_matches. destruct last; rewrite ?app_nil_r.
  - replace ((chr 34 :: k) ++ ds ++ [c]) with ((chr 34 :: k ++ ds) ++ [c]) by (cbn; by rewrite <- app_assoc).
    rewrite drop_end_keep by (apply not_whitespace; lia). rewrite Hkeep. cbn. by rewrite <- app_assoc.
  - replace ((chr 34 :: k) ++ (ds ++ [c]) ++ txt ",") with (((chr 34 :: k ++ ds) ++ [c]) ++ [chr 44])
      by (cbn; by rewrite <- !app_assoc).
    rewrite drop_end_keep by done. rewrite drop_end_drop, Hkeep by done. cbn. by rewrite <- app_assoc.
Qed.

Lemma json_line_body kv last m : plain_entry kv -> json_line (body kv last) m = <[kv.1 := kv.2]> m.
Proof.
  destruct kv as [k v]. intros [Hk Hv]. cbn [fst snd] in *. unfold json_line, body. cbn [fst snd].
  destruct (decimal_spec v Hv) as (ds & c & E & Hd & _). rewrite E.
  pose proof Hd as Hd2. apply Forall_app in Hd2 as [_ Hc%Forall_inv].
  unfold quoted at 1. rewrite escape_plain by done.
  pose proof (trim_line (k ++ [chr 34] ++ txt ": ") ds c last Hc) as Ht.
  replace (txt "  " ++ (chr 34 :: k ++ [chr 34]) ++ txt ": " ++ (ds ++ [c]) ++ (if last then [] else txt ","))
    with (txt "  " ++ (chr 34 :: k ++ [chr 34] ++ txt ": ") ++ (ds ++ [c]) ++ (if last then [] else txt ","))
    by (cbn; by rewrite <- !app_assoc).
  rewrite Ht.
  replace (chr 34 :: (k ++ [chr 34] ++ txt ": ") ++ ds ++ [c]) with ((chr 34 :: k ++ [chr 34]) ++ chr 58 :: chr 32 :: ds ++ [c])
    by (cbn; by rewrite <- !app_assoc).
  rewrite split_once_at.
  2: { constructor; [done|]. apply Forall_app. split; [|by constructor].
       eapply Forall_impl; [exact Hk|]. intros x (_ & _ & Hx & _). done. }
  cbn [Nat.ltb Nat.leb]. assert (trim (chr 32 :: ds ++ [c]) = ds ++ [c]) as ->.
  { unfold trim. assert (drop_while whitespace (chr 32 :: ds ++ [c]) = ds ++ [c]) as ->.
    - cbn [drop_while]. change (whitespace (chr 32)) with true. cbn iota.
      destruct ds as [|x ds]; cbn [app]; apply drop_while_keep, not_whitespace; apply Forall_cons in Hd as [Hx _]; unfold digit_char in Hx; lia.
    - apply drop_end_keep, not_whitespace. unfold digit_char in Hc. lia. }
  rewrite <- E, parse_decimal by lia. pose proof (unquote k Hk) as Hu. unfold quoted in Hu.
  rewrite escape_plain in Hu by done. by rewrite Hu.
Qed.

(** *** The file *)
Lemma body_chars kv last : plain_entry kv ->
  Forall (fun c => nat_of_ascii c <> 10 /\ nat_of_ascii c <> 13)%nat (body kv last).
Proof.
  intros [Hk Hv]. destruct (decimal_spec _ Hv) as (ds & c & E & Hd & _). unfold body, quoted. rewrite E, escape_plain by done.
  repeat first [apply Forall_app; split | constructor; [by split|]| by constructor].
  - eapply Forall_impl; [exact Hk|]. intros x (Hx & _). lia.
  - apply Forall_app in Hd as [Hd _]. eapply Forall_impl; [exact Hd|]. intros x Hx. unfold digit_char in Hx. lia.
  - apply Forall_app in Hd as [_ Hd]. eapply Forall_impl; [exact Hd|]. intros x Hx. unfold digit_char in Hx. lia.
  - destruct last; repeat constructor; done.
Qed.

Definition put (m : gmap text Z) (kv : text * Z) : gmap text Z := <[kv.1 := kv.2]> m.

Lemma read_entries l rest : forall m, Forall plain_entry l ->
  foldl (fun m line => json_line line m) m (str_lines (entries l ++ rest)) =
  foldl (fun m line => json_line line m) (foldl put m l) (str_lines rest).
Proof.
  induction l as [|kv l IH]; intros m Hl; [done|]. apply Forall_cons in Hl as [Hkv Hl].
  cbn [entries foldl]. rewrite entry_body, <- !app_assoc. cbn [app].
  rewrite str_lines_line by (by apply body_chars). cbn [foldl].
  by rewrite json_line_body, IH.
Qed.

Lemma insert_sorted_perm kv l : insert_sorted kv l ≡ₚ kv :: l.
Proof.
  induction l as [|x l IH]; cbn [insert_sorted]; [done|]. destruct (key_leb _ _); [done|].
  rewrite IH. apply Permutation_swap.
Qed.

Lemma in_order_perm m : in_order m ≡ₚ map_to_list m.
Proof.
  unfold in_order. induction (map_to_list m) as [|kv l IH]; [done|]. cbn [foldr].
  by rewrite insert_sorted_perm, IH.
Qed.

(** Whatever the order of the lines. *)
Lemma put_all m l : l ≡ₚ map_to_list m -> foldl put ∅ l = m.
Proof.
  intros Hl. assert (foldl put ∅ l = list_to_map (reverse l)) as ->.
  { clear. induction l as [|kv l IH] using rev_ind; [done|]. rewrite foldl_app, reverse_snoc, IH. by destruct kv. }
  rewrite <- (list_to_map_to_list m) at 1. apply list_to_map_proper.
  - rewrite reverse_Permutation, Hl. apply NoDup_fst_map_to_list.
  - by rewrite reverse_Permutation.
Qed.

Lemma json_reads_back m :
  (forall k v, m !! k = Some v -> Forall plain_char k /\ 0 <= v < W64) -> from_json (to_json m) = m.
Proof.
  intros Hm. unfold from_json, to_json.
  change (txt "{" ++ [chr 10] ++ ?x) with ([chr 123] ++ chr 10 :: x).
  rewrite str_lines_line by (repeat constructor; done). cbn [foldl].
  change (json_line [chr 123] ∅) with (∅ : gmap text Z). rewrite read_entries.
  - change (txt "}" ++ [chr 10]) with ([chr 125] ++ chr 10 :: []). rewrite str_lines_line by (repeat constructor; done).
    cbn [foldl str_lines]. by apply put_all, in_order_perm.
  - apply Forall_forall. intros [k v]. rewrite in_order_perm, elem_of_map_to_list. apply Hm.
Qed.

(** *** The handles *)
Lemma split_plain s : Forall (fun x => nat_of_ascii x <> 44%nat) s -> split 44 s = [s].
Proof.
  induction 1 as [|x s Hx _ IH]; [done|]. cbn [split]. by rewrite isc_false, IH.
Qed.

Lemma split_comma s r : Forall (fun x => nat_of_ascii x <> 44%nat) s -> split 44 (s ++ chr 44 :: r) = s :: split 44 r.
Proof.
  induction 1 as [|x s Hx _ IH]; [done|]. cbn [app split]. rewrite isc_false by done. by rewrite IH.
Qed.

Lemma trim_number ds c : Forall digit_char (ds ++ [c]) -> trim (ds ++ [c]) = ds ++ [c].
Proof.
  intros Hd. assert (forall x, digit_char x -> whitespace x = false) as Hw.
  { intros x Hx. unfold digit_char in Hx. unfold whitespace. cbv zeta.
    destruct (Nat.leb_spec (nat_of_ascii x) 13); [lia|]. rewrite andb_false_r. by apply Nat.eqb_neq; lia. }
  assert (exists x s, ds ++ [c] = x :: s) as (x & s & E) by (destruct ds; eexists _, _; done).
  unfold trim. rewrite E, drop_while_keep, <- E by (apply Hw; rewrite E in Hd; by apply Forall_cons in Hd as [? _]).
  apply Forall_app in Hd as [_ Hc%Forall_inv]. by rewrite drop_end_keep by (by apply Hw).
Qed.

(** What a worker printed is what its parent records. *)
Lemma worker_rss_reads_back n rest : 0 <= n < W64 -> worker_rss (worker_line n ++ rest) = n :: worker_rss rest.
Proof.
  intros Hn. unfold worker_rss, worker_line. destruct (decimal_spec n Hn) as (ds & c & E & Hd & _).
  assert (trim (decimal n) = decimal n) as Ht by (rewrite E; by apply trim_number).
  assert (forall p : text, (p ++ decimal n ++ [chr 10]) ++ rest = (p ++ decimal n) ++ chr 10 :: rest) as -> by (intros; by rewrite <- !app_assoc).
  rewrite str_lines_line.
  - cbn [omap list_omap]. change (strip_prefix _ (txt "NTSYNC_WORKER_RSS_KB=" ++ decimal n)) with (Some (decimal n)).
    cbn -[trim parse_u64 parse decimal str_lines]. unfold parse_u64. rewrite Ht, parse_decimal by lia. done.
  - apply Forall_app. split; [repeat constructor; done|]. rewrite E. eapply Forall_impl; [exact Hd|].
    unfold digit_char. intros x. lia.
Qed.

Lemma decimal_no_comma n : 0 <= n < W64 -> Forall (fun x => nat_of_ascii x <> 44%nat) (decimal n).
Proof.
  intros Hn. destruct (decimal_spec n Hn) as (ds & c & -> & Hd & _).
  eapply Forall_impl; [exact Hd|]. unfold digit_char. intros x. lia.
Qed.

Lemma split_join n l : Forall u32 (n :: l) -> split 44 (join (decimal <$> n :: l)) = decimal <$> n :: l.
Proof.
  revert n. induction l as [|n' l IH]; intros n Hl; apply Forall_cons in Hl as [Hn Hl]; unfold u32 in Hn.
  - apply split_plain, decimal_no_comma. lia.
  - change (join (decimal <$> n :: n' :: l)) with (decimal n ++ chr 44 :: join (decimal <$> n' :: l)).
    rewrite split_comma by (apply decimal_no_comma; lia). by rewrite (IH n' Hl).
Qed.

Lemma handles_read_back start mtx ev ping pong :
  Forall u32 ([start; mtx; ev] ++ ping ++ pong) -> length ping = length pong ->
  worker_handles (handles_env start mtx ev ping pong) = Some (start, mtx, ev, ping, pong).
Proof.
  intros Hu Hlen. unfold worker_handles, handles_env. cbn [app] in *. rewrite split_join by done.
  assert (forall l, Forall u32 l -> mapM (parse (W32 - 1)) (decimal <$> l) = Some l) as Hm.
  { intros l Hl. apply mapM_fmap_Forall_Some. eapply Forall_impl; [exact Hl|]. unfold u32.
    intros n Hn. apply parse_decimal; lia. }
  rewrite (Hm _ Hu).
  rewrite length_app, <- Hlen. replace (length ping + length ping)%nat with (length ping * 2)%nat by lia.
  rewrite Nat.div_mul by lia. by rewrite take_app_length, drop_app_length.
Qed.

(** C25: What a benchmark writes down is read back.  The flat JSON file of
    metrics, parsed, gives every metric with its 64-bit value again, as long as
    the names are printable and free of quotes, colons and backslashes; and a
    worker process finds in its environment the handles it was started with. *)
Theorem reports_read_back :
  (forall m, (forall k v, m !! k = Some v -> Forall plain_char k /\ 0 <= v < W64) -> from_json (to_json m) = m) /\
  (forall start mtx ev ping pong, Forall u32 ([start; mtx; ev] ++ ping ++ pong) -> length ping = length pong ->
    worker_handles (handles_env start mtx ev ping pong) = Some (start, mtx, ev, ping, pong)).
Proof. split; [exact json_reads_back|exact handles_read_back]. Qed.
