(* ===== verification/Bench.v ===== *)
(** * Bench: the Wine workloads of the benchmarks, run on the model

    src/src/bench.rs: the metrics, the load shapes (footprint, fast path, mixed
    load, cross-process traffic, contention of forked and of exec'd processes)
    as threads and scripts.  What the system measures (CPU time, context
    switches, resident memory) is not modelled; the numbers of objects,
    processes and iterations are arguments. *)
From S2P Require Import Prelude Prog Config Region Kernel Lock Nodes Policy Sweep Init Slots Objects Wait Example Lab Tests Soak Engine Report.

(** ** Metrics *)
Record Rusage : Type := mkRusage { utime_us : Z; stime_us : Z; nvcsw : Z; nivcsw : Z }.

Record Sample : Type := mkSample {
  sm_wall_us : Z; sm_cpu_us : Z; sm_ops : Z; sm_nvcsw : Z; sm_nivcsw : Z;
}.

(** [Sample::run], from what is read before and after. *)
Definition Sample_run (r0 r1 : Rusage) (wall ops : Z) : Sample :=
  mkSample wall (Z.max (utime_us r1 - utime_us r0 + stime_us r1 - stime_us r0) 0) ops
    (Z.max (nvcsw r1 - nvcsw r0) 0) (Z.max (nivcsw r1 - nivcsw r0) 0).

Definition metrics (s : Sample) : list (text * Z) :=
  let ops := Z.max (sm_ops s) 1 in
  [(txt "ops", sm_ops s); (txt "wall_us", sm_wall_us s); (txt "cpu_us", sm_cpu_us s);
   (txt "cpu_ns_per_op", wrap64 (sm_cpu_us s * 1000) / ops);
   (txt "cpu_ratio_pct", wrap64 (sm_cpu_us s * 100) / Z.max (sm_wall_us s) 1);
   (txt "voluntary_ctxsw", sm_nvcsw s); (txt "involuntary_ctxsw", sm_nivcsw s);
   (txt "ctxsw_per_kop", wrap64 (sm_nvcsw s * 1000) / ops)].

(** [record]: the results so far, which are then written with [to_json]. *)
Definition record (bench_name : text) (ms : list (text * Z)) (g : gmap text Z) : gmap text Z :=
  foldl (fun g kv => <[bench_name ++ txt "." ++ kv.1 := kv.2]> g) g ms.

(** ** Threads *)
Definition OPS : nat := 2.

Section threads.
Context `{!Config}.

Definition unwrap {A} (p : action (result A Error)) : action A :=
  r <- p ;; match r with Ok a => Ret a | Err _ => Panic end.

Definition count (n : Z) : action unit := sys (Atomic OPS (AtomicAdd W64 n)) ;;; Ret tt.

(** [while !stop { body }] *)
Fixpoint until_stop (fuel : nat) (body : action unit) : action unit :=
  match fuel with
  | O => OutOfFuel
  | S fuel' => stop <- stopped ;; if stop : bool then Ret tt else body ;;; until_stop fuel' body
  end.

(** The roles of the mixed load ([thread::sleep] is no step: any time may pass
    between two steps). *)
Definition wine_worker (owner job_sem done_sem : Z) : action unit :=
  until_stop loop_fuel (
    o <- wait_any [job_sem] owner (Some (ms 20)) 0 ;;
    match o with Signaled _ _ => unwrap (sem_release done_sem 1) ;;; count 1 | _ => Ret tt end).

Definition wine_render (job_sem done_sem frame_ev vsync_ev : Z) : action unit :=
  until_stop loop_fuel (
    sem_release job_sem 8 ;;;
    unwrap (event_set frame_ev) ;;;
    wait_any [vsync_ev] 1 (Some (ms 1)) 0 ;;;
    unwrap (event_reset frame_ev) ;;;
    wait_any [done_sem] 1 (Some (ms 2)) 0 ;;;
    count 5).

Definition wine_locker (owner mtx : Z) : action unit :=
  until_stop loop_fuel (
    o <- wait_any [mtx] owner (Some (ms 50)) 0 ;;
    match o with Signaled _ _ => unwrap (mutex_unlock mtx owner) ;;; count 2 | _ => Ret tt end).

Fixpoint create_mix (kinds : list Z) (hs : list Z) : action (list Z) :=
  match kinds with
  | [] => Ret hs
  | i :: rest =>
      h <- (if i mod 3 =? 0 then create_event false false
            else if i mod 3 =? 1 then create_semaphore 0 4 else create_mutex 0 0) ;;
      create_mix rest (match h with Ok h => hs ++ [h] | Err _ => hs end)
  end.

Definition wine_churn : action unit :=
  until_stop loop_fuel (
    hs <- create_mix (Z.of_nat <$> seq 0 64) [] ;;
    for_all hs (fun h => close h ;;; count 1)).

Definition wine_alerter (alert_ev : Z) : action unit :=
  until_stop loop_fuel (event_set alert_ev ;;; event_reset alert_ev ;;; Ret tt).

Definition wine_alertable (vsync_ev alert_ev : Z) : action unit :=
  until_stop loop_fuel (wait_any [vsync_ev] 9 (Some (ms 10)) alert_ev ;;; count 1).

Definition wine_multi (multi : list Z) : action unit :=
  until_stop loop_fuel (wait_any multi 1 (Some (ms 2)) 0 ;;; count 1).

(** The client of the RPC benchmark, with its exit status. *)
Fixpoint rpc_child (N : nat) (s1 s2 : Z) : action Z :=
  match N with
  | O => Ret 0
  | S N' =>
      o <- wait_any [s1] 2 (Some (secs 30)) 0 ;;
      match o with Signaled _ _ => unwrap (sem_release s2 1) ;;; rpc_child N' s1 s2 | _ => Ret 1 end
  end.

Fixpoint mp_rounds (iters : nat) (mtx a b ev owner : Z) : action unit :=
  match iters with
  | O => Ret tt
  | S n =>
      o <- wait_any [mtx] owner (Some (secs 30)) 0 ;;
      (match o with Signaled _ _ => unwrap (mutex_unlock mtx owner) ;;; Ret tt | _ => Ret tt end) ;;;
      unwrap (sem_release a 1) ;;;
      wait_any [b] owner (Some (secs 30)) 0 ;;;
      unwrap (event_set ev) ;;;
      unwrap (event_reset ev) ;;;
      mp_rounds n mtx a b ev owner
  end.

Definition mp_worker_loop (start mtx a b ev owner : Z) (iters : nat) : action unit :=
  wait_any [start] 1 (Some (secs 30)) 0 ;;; mp_rounds iters mtx a b ev owner.

(** The parent's answers: a round over the channels, until all are answered. *)
Fixpoint answer_round (channels : list (Z * Z)) (answered : Z) (progressed : bool) : action (Z * bool) :=
  match channels with
  | [] => Ret (answered, progressed)
  | (req, resp) :: rest =>
      o <- wait_any [req] 1 (Some (ms 1)) 0 ;;
      match o with
      | Signaled _ _ => unwrap (sem_release resp 1) ;;; answer_round rest (answered + 1) true
      | _ => answer_round rest answered progressed
      end
  end.

Fixpoint answer_loop (fuel : nat) (channels : list (Z * Z)) (goal deadline answered : Z) : action Z :=
  match fuel with
  | O => OutOfFuel
  | S fuel' =>
      if answered <? goal then
        r <- answer_round channels answered false ;;
        if negb (snd r) then
          now <- sys ClockMonotonic ;;
          if deadline <? now then Ret (fst r) else answer_loop fuel' channels goal deadline (fst r)
        else answer_loop fuel' channels goal deadline (fst r)
      else Ret answered
  end.

(** exec: nothing of the old process image is left. *)
Definition worker_exec (path : string) (handles : text) (idx : nat) (iters : nat) : action Z :=
  loc_do (fun _ => (tt, init_local)) ;;;
  match worker_handles handles with
  | None => Panic
  | Some (start, mtx, ev, ping, pong) =>
      unwrap (init (Some path)) ;;;
      let (a, b) := if Nat.odd idx then (arr pong idx, arr ping idx) else (arr ping idx, arr pong idx) in
      mp_worker_loop start mtx a b ev (1000 + Z.of_nat idx) iters ;;;
      Ret 0
  end.
End threads.

(** ** Scripts *)
Section scripts.
Definition bench_path : string := "/tmp/ntsync-bench-100.shm".

Fixpoint create_kinds (kinds : list Z) (acc : list Z) (k : list Z -> script) : script :=
  match kinds with
  | [] => k acc
  | i :: rest =>
      let? h := (if i mod 3 =? 0 then create_event (i mod 6 =? 0) false
                 else if i mod 3 =? 1 then create_semaphore 0 64 else create_mutex 0 0) in
      create_kinds rest (acc ++ [h]) k
  end.

Fixpoint park_waiters (events : list Z) (acc : list nat) (k : list nat -> script) : script :=
  match events with
  | [] => k acc
  | e :: rest => Spawn 0 false (wait_any [e] 7 (Some (secs 30)) 0 ;;; Ret 0) (fun t => park_waiters rest (acc ++ [t]) k)
  end.

(** 2048 objects and 256 waiters in the source.  The three footprint reports
    read files of /proc and touch no object: [report_footprint] of Measure. *)
Definition bench_1_shm_footprint (OBJECTS WAITERS : nat) : script := setup bench_path (
  create_kinds (Z.of_nat <$> seq 0 OBJECTS) [] (fun handles =>
  create_n WAITERS (create_event false false) [] (fun events =>
  park_waiters events [] (fun parked =>
  Nap (ms 200) (
  for_each events (fun e k => let? prev := event_set e in k) (
  join_all parked (
  close_all (handles ++ events) Pass))))))).

(** 100,000 rounds in the source.  [r0] and [r1] are what getrusage answers
    around the run, [wall] its length. *)
Definition bench_2_signaled_fastpath (r0 r1 : Rusage) (wall : Z) (N : nat) : script := setup bench_path (
  let? ev := create_event true true in
  let? churn := create_event true false in
  let? sem := create_semaphore 0 1000000 in
  let? prev := sem_release sem 300000 in
  repeat_then N (fun k =>
    let! o := wait_any [ev] 1 ZERO 0 in check! (any_signaled o);
    let? prev := event_set churn in
    let? prev := event_reset churn in
    let! o := wait_any [sem] 1 ZERO 0 in check! (any_signaled o);
    do! count 4;
    k) (
  close_all [ev; churn; sem] (
  check! (sm_nvcsw (Sample_run r0 r1 wall (4 * Z.of_nat N)) <? 1000);
  Pass))).

Definition bench_3_cross_process_rpc (N : nat) : script := setup bench_path (
  let? s1 := create_semaphore 0 1 in
  let? s2 := create_semaphore 0 1 in
  Spawn 0 true (rpc_child N s1 s2) (fun pid =>
  Nap (ms 20) (
  repeat_then N (fun k =>
    let? prev := sem_release s1 1 in
    let! o := wait_any [s2] 1 (Some (secs 30)) 0 in check! (any_signaled o);
    k) (
  Await pid (fun status => Reap pid (check! (status =? 0);
  close_all [s1; s2] Pass)))))).

(** The mixed load; [measured] is what the main thread does while the others
    run, three seconds of sleep in the source.  The bench of Lab switches threads
    where one blocks, and the churn and the alerter never do: EngineOk takes the
    threads under every schedule, and [bench_4_stops] runs the scenario around
    them. *)
Fixpoint spawn_owners (owners : list Z) (p : Z -> action unit) (acc : list nat) (k : list nat -> script) : script :=
  match owners with
  | [] => k acc
  | o :: rest => Spawn 0 false (p o ;;; Ret 0) (fun t => spawn_owners rest p (acc ++ [t]) k)
  end.

Definition bench_4_with (measured : script -> script) : script := setup bench_path (
  do! store STOP 0;
  let? job_sem := create_semaphore 0 (2 ^ 20) in
  let? done_sem := create_semaphore 0 (2 ^ 20) in
  let? frame_ev := create_event true false in
  let? vsync_ev := create_event false false in
  let? mtx := create_mutex 0 0 in
  let? alert_ev := create_event false false in
  create_n 4 (create_event false false) [] (fun multi =>
  spawn_owners ((fun i => 100 + Z.of_nat i) <$> seq 0 8) (fun me => wine_worker me job_sem done_sem) [] (fun workers =>
  spawn_owners [1] (fun _ => wine_render job_sem done_sem frame_ev vsync_ev) [] (fun render =>
  spawn_owners ((fun i => 200 + Z.of_nat i) <$> seq 0 4) (fun me => wine_locker me mtx) [] (fun lockers =>
  spawn_owners [1] (fun _ => wine_churn) [] (fun churn =>
  spawn_owners [1] (fun _ => wine_alerter alert_ev) [] (fun alerter =>
  spawn_owners [9] (fun _ => wine_alertable vsync_ev alert_ev) [] (fun alertable =>
  spawn_owners [1] (fun _ => wine_multi multi) [] (fun waiter =>
  measured (
  do! store STOP 1;
  join_all (workers ++ render ++ lockers ++ churn ++ alerter ++ alertable ++ waiter) (
  close_all ([job_sem; done_sem; frame_ev; vsync_ev; mtx; alert_ev] ++ multi) Pass))))))))))).

Definition bench_4_wine_mixed_load : script := bench_4_with (Nap (secs 3)).

(** Child [p] asks on its ping and is answered on its pong, or the other way
    round when [p] is odd. *)
Definition channel (ping pong : list Z) (p : nat) : Z * Z :=
  if Nat.odd p then (arr pong p, arr ping p) else (arr ping p, arr pong p).

Fixpoint start_children (ps : list nat) (child : nat -> action Z) (acc : list nat) (k : list nat -> script) : script :=
  match ps with
  | [] => k acc
  | p :: rest => Spawn 0 true (child p) (fun t => start_children rest child (acc ++ [t]) k)
  end.

(** The scenario of the forked and of the exec'd children; [collected] is what
    the parent asserts of the children's output. *)
Definition contention (PROCS ITERS : nat) (patience : Z) (collected : bool)
  (child : Z -> Z -> Z -> list Z -> list Z -> nat -> action Z) : script := setup bench_path (
  let? start := create_event true false in
  let? mtx := create_mutex 0 0 in
  create_n PROCS (create_semaphore 0 1) [] (fun ping =>
  create_n PROCS (create_semaphore 0 1) [] (fun pong =>
  let? ev := create_event false false in
  start_children (seq 0 PROCS) (child start mtx ev ping pong) [] (fun pids =>
  let? prev := event_set start in
  let! now := sys ClockMonotonic in
  let goal := Z.of_nat PROCS * Z.of_nat ITERS in
  let! answered := answer_loop loop_fuel (channel ping pong <$> seq 0 PROCS) goal (now + patience) 0 in
  for_each pids (fun pid k => Await pid (fun status => Reap pid (check! (status =? 0); k))) (
  check! (answered =? goal);
  check! collected;
  close_all ([start; mtx; ev] ++ ping ++ pong) Pass))))).

Definition bench_5_multi_process_contention (PROCS ITERS : nat) : script :=
  contention PROCS ITERS (secs 120) true (fun start mtx ev ping pong p =>
    let (a, b) := channel ping pong p in
    mp_worker_loop start mtx a b ev (1000 + Z.of_nat p) ITERS ;;; Ret 0).

(** [stdouts] is what the workers have printed, one text for each. *)
Definition bench_6_multi_process_exec (stdouts : list text) (PROCS ITERS : nat) : script :=
  contention PROCS ITERS (secs 30) (length (stdouts ≫= worker_rss) =? PROCS)%nat (fun start mtx ev ping pong p =>
    worker_exec bench_path (handles_env start mtx ev ping pong) p ITERS).

(** What a worker prints: the test harness's lines around its own. *)
Definition worker_stdout (rss : Z) : text :=
  [chr 10] ++ txt "running 1 test" ++ [chr 10] ++ worker_line rss.

Definition quiet : Rusage := mkRusage 0 0 3 0.

(** The benchmarks that end by themselves, with the numbers of processes of the
    source and fewer objects and iterations; a run that switches voluntarily
    three times, workers that touched 960 kB. *)
Definition benches (N : nat) : list script :=
  [bench_1_shm_footprint (8 * N) N; bench_2_signaled_fastpath quiet quiet 1000 N; bench_3_cross_process_rpc N;
   bench_5_multi_process_contention 4 N; bench_6_multi_process_exec (replicate 4 (worker_stdout 960)) 4 N].
End scripts.

