(* ===== verification/Measure.v ===== *)
(** * Measure: what the benchmarks and the statistics thread measure

    src/src/bench.rs reads its numbers from getrusage and /proc, compares them
    with the baseline of an earlier run and, in strict mode, panics on a
    regression; src/src/engine_sim.rs reports latencies as quantiles; core.rs
    dumps its counters as a line of text.  The files are text, a directory is a
    list of names and sizes, and [f64] is the binary64 of the Standard Library's
    SpecFloat, which rounds as IEEE 754 says.  What is printed is left out, the
    line of the statistics thread apart. *)
From S2P Require Import Prelude Config Region Report Bench.
From Stdlib Require Import SpecFloat.
From stdpp Require Import sorting.
#[local] Open Scope Z_scope.

(** ** The floating-point operations in use *)
Abbreviation f64 := spec_float (only parsing).
Definition f64_of (n : Z) : f64 := binary_normalize 53 1024 n 0 false.
Definition f64_mul : f64 -> f64 -> f64 := SFmul 53 1024.
Definition f64_sub : f64 -> f64 -> f64 := SFsub 53 1024.
Definition f64_div : f64 -> f64 -> f64 := SFdiv 53 1024.
Definition f64_ltb (a b : f64) : bool := SFltb a b.

(** [as usize]: truncation, saturating at both ends. *)
Definition f64_to_usize (x : f64) : Z :=
  match x with
  | S754_finite false m e => Z.min (Z.shiftl (Zpos m) e) (W64 - 1)
  | S754_infinity false => W64 - 1
  | _ => 0
  end.

(** ** getrusage *)
Definition rusage_us (tv : Z * Z) : Z := tv.1 * 1000000 + tv.2.
Definition rusage (utime stime : Z * Z) (nvcsw nivcsw : Z) : Rusage :=
  mkRusage (rusage_us utime) (rusage_us stime) nvcsw nivcsw.

(** [cpu_time] of the engine simulations, in nanoseconds. *)
Definition cpu_time_part (tv : Z * Z) : Z := tv.1 * 1000000000 + wrap32 (tv.2 * 1000).
Definition cpu_time (utime stime : Z * Z) : Z := cpu_time_part utime + cpu_time_part stime.

(** [maybe_tighten_timerslack], from the variable and what prctl answers. *)
Definition maybe_tighten_timerslack (var : option text) (prctl : Z) : bool :=
  match var with
  | Some v => if decide (v = txt "1") then prctl =? 0 else false
  | None => false
  end.

(** ** The proc files *)
Definition starts_with (p s : text) : bool := bool_decide (is_Some (Report.strip_prefix p s)).

Fixpoint contains (p s : text) : bool :=
  starts_with p s || match s with [] => false | _ :: s' => contains p s' end.

(** [str::split_whitespace]. *)
Fixpoint words (s cur : text) : list text :=
  let close := match cur with [] => [] | _ => [reverse cur] end in
  match s with
  | [] => close
  | c :: s' => if whitespace c then close ++ words s' [] else words s' (c :: cur)
  end.
Definition split_whitespace (s : text) : list text := words s [].

(** [trim_end_matches] with a string. *)
Fixpoint trim_end_str (fuel : nat) (p s : text) : text :=
  match fuel with
  | O => s
  | S fuel' => match Report.strip_prefix (reverse p) (reverse s) with Some r => trim_end_str fuel' p (reverse r) | None => s end
  end.

Fixpoint rss_of_lines (ls : list text) : Z :=
  match ls with
  | [] => 0
  | line :: ls' =>
      match Report.strip_prefix (txt "VmRSS:") line with
      | Some rest => let t := trim rest in parse_u64 (trim (trim_end_str (length t) (txt " kB") t))
      | None => rss_of_lines ls'
      end
  end.

(** An unreadable file is the empty text. *)
Definition proc_rss_kb (status : option text) : Z := rss_of_lines (str_lines (default [] status)).

(** The mapping a line of /proc/self/smaps belongs to, and the three sums. *)
Record smaps : Type := mkSmaps { in_region : bool; rss : Z; shared_dirty : Z; private_dirty : Z }.

Definition kb (line : text) : Z := default 0 (split_whitespace line !! 1%nat ≫= parse (W64 - 1)).

Definition smaps_header (line : text) : bool := contains (txt "-") line && contains (txt "/") line.

Definition smaps_line (stem : text) (line : text) (s : smaps) : smaps :=
  if smaps_header line then mkSmaps (contains stem line) (rss s) (shared_dirty s) (private_dirty s)
  else if negb (in_region s) then s
  else if starts_with (txt "Rss:") line
       then mkSmaps (in_region s) (wrap64 (rss s + kb line)) (shared_dirty s) (private_dirty s)
  else if starts_with (txt "Shared_Dirty:") line
       then mkSmaps (in_region s) (rss s) (wrap64 (shared_dirty s + kb line)) (private_dirty s)
  else if starts_with (txt "Private_Dirty:") line
       then mkSmaps (in_region s) (rss s) (shared_dirty s) (wrap64 (private_dirty s + kb line))
  else s.

Definition smaps_lines (stem : text) (ls : list text) (s : smaps) : smaps :=
  foldl (fun s line => smaps_line stem line s) s ls.

(** The size of the last file of the directory that bears the name; one
    without metadata counts 0. *)
Definition shm_file_bytes (stem : text) (dir : list (text * option Z)) : Z :=
  foldl (fun n e => if contains stem e.1 then default 0 e.2 else n) 0 dir.

Definition shm_stats (stem : text) (dir : list (text * option Z)) (maps : option text) : Z * Z * Z * Z :=
  let s := smaps_lines stem (default [] (str_lines <$> maps)) (mkSmaps false 0 0 0) in
  (shm_file_bytes stem dir, rss s, shared_dirty s, private_dirty s).

(** ** The comparison with the baseline *)
Inductive mark : Type := REGRESSED | improved | unmarked.

(** One row of the table: the metric, its baseline and its value now. *)
Definition delta (v b : Z) : f64 :=
  if b =? 0 then (if v =? 0 then S754_zero false else S754_infinity false)
  else f64_mul (f64_div (f64_sub (f64_of v) (f64_of b)) (f64_of b)) (f64_of 100).

Definition meaningful (v b : Z) : bool := 50 <=? Z.abs (v - b).

Definition mark_of (v b : Z) : mark :=
  if meaningful v b && f64_ltb (f64_of 20) (delta v b) then REGRESSED
  else if meaningful v b && f64_ltb (delta v b) (f64_of (-5)) then improved
  else unmarked.

Definition metric_key (bench_name k : text) : text := bench_name ++ txt "." ++ k.

Definition row (base : gmap text Z) (bench_name : text) (kv : text * Z) : text * option (Z * mark) :=
  (kv.1, b ← base !! metric_key bench_name kv.1; Some (b, mark_of kv.2 b)).

Definition regressions (base : gmap text Z) (bench_name : text) (ms : list (text * Z)) : list text :=
  omap (fun kv => match snd (row base bench_name kv) with
                  | Some (_, REGRESSED) => Some (metric_key bench_name kv.1)
                  | _ => None
                  end) ms.

Inductive comparison : Type :=
  | BaselineUpdated
  | NoBaseline
  | Compared (rows : list (text * option (Z * mark)))
  | Panicked (regressed : list text).

Definition is_var (v : option text) (s : string) : bool := bool_decide (v = Some (txt s)).

(** [var] is NTSYNC_BENCH_BASELINE, [strict] NTSYNC_BENCH_STRICT, [baseline]
    the baseline file. *)
Definition compare (var strict baseline : option text) (bench_name : text) (ms : list (text * Z)) : comparison :=
  if is_var var "write" then BaselineUpdated
  else
    match baseline with
    | None => NoBaseline
    | Some t =>
        let base := from_json t in
        let regressed := regressions base bench_name ms in
        if is_var strict "1" && negb (match regressed with [] => true | _ => false end)
        then Panicked regressed
        else Compared (row base bench_name <$> ms)
    end.

(** [record] as a whole: the results so far, the two files and the comparison.
    [writable] is whether the file can be written. *)
Record bench_files : Type := mkFiles { baseline_file : option text; latest_file : option text }.

Definition record_and_compare (var strict : option text) (writable : bool) (bench_name : text) (ms : list (text * Z))
  (RESULTS : gmap text Z) (fs : bench_files) : gmap text Z * bench_files * comparison :=
  let g := record bench_name ms RESULTS in
  let fs' :=
    if writable then
      if is_var var "write" then mkFiles (Some (to_json g)) (latest_file fs)
      else mkFiles (baseline_file fs) (Some (to_json g))
    else fs in
  (g, fs', compare var strict (baseline_file fs') bench_name ms).

Definition report_footprint (phase stem : text) (dir : list (text * option Z)) (maps status : option text)
  : list (text * Z) :=
  let '(bytes, rss, sdirty, pdirty) := shm_stats stem dir maps in
  [(txt "shm_file_bytes_" ++ phase, bytes); (txt "shm_rss_kb_" ++ phase, rss);
   (txt "shm_shared_dirty_kb_" ++ phase, sdirty); (txt "shm_private_dirty_kb_" ++ phase, pdirty);
   (txt "proc_rss_kb_" ++ phase, proc_rss_kb status)].

(** ** Quantiles ([Hist] of the engine simulations) *)
Definition Hist_push (d : Z) (h : list Z) : list Z := h ++ [wrap64 d].

(** [q(num/den)]: the literal is the nearest binary64; [None] where the index
    is out of range. *)
Definition quantile_index (n : Z) (num den : Z) : Z :=
  f64_to_usize (f64_mul (f64_of (n - 1)) (f64_div (f64_of num) (f64_of den))).

Definition quantile (sorted : list Z) (num den : Z) : option Z :=
  sorted !! Z.to_nat (quantile_index (Z.of_nat (length sorted)) num den).

(** n, p50, p90, p99 and the largest; [None] without samples. *)
Definition Hist_report (h : list Z) : option (nat * option Z * option Z * option Z * option Z) :=
  match h with
  | [] => None
  | _ =>
      let s := merge_sort Z.le h in
      Some (length s, quantile s 50 100, quantile s 90 100, quantile s 99 100, last s)
  end.

(** [report] of the perf simulations: nanoseconds per iteration. *)
Definition perf_ns (elapsed iters : Z) : Z := wrap64 elapsed / Z.max iters 1.

(** ** The statistics line *)
Definition NAMES : list string :=
  ["wait_calls"; "wait_fast_ok"; "wait_blocked"; "futex_sleeps"; "lock_acq"; "lock_contended"; "cas_retries";
   "signal_ops"; "wake_walks"; "nodes_registered"; "wake_lat_cnt"; "wake_lat_us_sum"; "wake_lat_us_max";
   "spin_wins"; "spin_exhausted"]%string.

(** [stats_dump_loop]: one dump, of the counters in their order. *)
Definition stats_line (pid : Z) (counters : list Z) : text :=
  foldl (fun line nv => line ++ txt " " ++ txt nv.1 ++ txt "=" ++ decimal nv.2)
    (txt "ntsync stats (pid " ++ decimal pid ++ txt "):") (combine NAMES counters).

(** ** The mapping that is counted *)

(** Lines that start no mapping leave the question of which mapping it is, and
    outside the region they count nothing. *)
Lemma smaps_line_body stem l s : smaps_header l = false ->
  in_region (smaps_line stem l s) = in_region s /\ (in_region s = false -> smaps_line stem l s = s).
Proof.
  intros H. unfold smaps_line. rewrite H. destruct (in_region s) eqn:E; cbn [negb]; [|done].
  split; [|done]. by repeat case_match.
Qed.

Lemma smaps_body stem ls s : Forall (fun l => smaps_header l = false) ls ->
  in_region (smaps_lines stem ls s) = in_region s /\ (in_region s = false -> smaps_lines stem ls s = s).
Proof.
  intros H. revert s. induction H as [|l ls Hl _ IH]; intros s; [done|].
  destruct (smaps_line_body stem l s Hl) as [E1 E2]. destruct (IH (smaps_line stem l s)) as [H1 H2].
  split; [by etrans|]. intros E. change (smaps_lines stem (l :: ls) s) with (smaps_lines stem ls (smaps_line stem l s)).
  rewrite H2 by (by rewrite E1). by apply E2.
Qed.

Definition sums (s : smaps) : Z * Z * Z := (rss s, shared_dirty s, private_dirty s).

(** Mappings that each start with a header line: those that do not bear the
    name add nothing, wherever they stand. *)
Lemma smaps_others stem header body s :
  smaps_header header = true -> contains stem header = false -> Forall (fun l => smaps_header l = false) body ->
  sums (smaps_lines stem (header :: body) s) = sums s.
Proof.
  intros Hh Hc Hb. change (smaps_lines stem (header :: body) s) with (smaps_lines stem body (smaps_line stem header s)).
  destruct (smaps_body stem body (smaps_line stem header s) Hb) as [_ E].
  unfold smaps_line in E at 1. rewrite Hh, Hc in E. rewrite E by done. unfold smaps_line. by rewrite Hh.
Qed.

(** ** Regressions *)
Lemma close_is_unmarked v b : Z.abs (v - b) < 50 -> mark_of v b = unmarked.
Proof. intros H. unfold mark_of, meaningful. by rewrite (proj2 (Z.leb_gt _ _)). Qed.

Lemma no_regressions base bench_name ms :
  (forall k v b, (k, v) ∈ ms -> base !! metric_key bench_name k = Some b -> Z.abs (v - b) < 50) ->
  regressions base bench_name ms = [].
Proof.
  induction ms as [|[k v] ms IH]; intros H; [done|]. unfold regressions in *. cbn.
  destruct (base !! metric_key bench_name k) as [b|] eqn:E; cbn.
  - rewrite close_is_unmarked by (by eapply H; [left|]). apply IH. intros. eapply H; [by right|done].
  - apply IH. intros. eapply H; [by right|done].
Qed.

(** [record] overwrites what it records and keeps the rest. *)
Lemma record_lookup bench_name ms : forall g key,
  record bench_name ms g !! key = foldl (fun r kv => if decide (metric_key bench_name kv.1 = key) then Some kv.2 else r) (g !! key) ms.
Proof.
  induction ms as [|kv ms IH]; intros g key; [done|]. unfold record in *. cbn [foldl].
  rewrite IH. f_equal. unfold metric_key. case_decide as E; [subst; apply lookup_insert_eq|by apply lookup_insert_ne].
Qed.

(** A baseline written by one run is what a later run is compared with: numbers
    within 50 of it pass, in strict mode too. *)
Lemma baseline_passes strict strict' bench_name ms ms' g fs :
  (forall k v, record bench_name ms g !! k = Some v -> Forall plain_char k /\ 0 <= v < W64) ->
  let '(g', fs', c) := record_and_compare (Some (txt "write")) strict true bench_name ms g fs in
  c = BaselineUpdated /\
  ((forall k v b, (k, v) ∈ ms' -> g' !! metric_key bench_name k = Some b -> Z.abs (v - b) < 50) ->
   compare None strict' (baseline_file fs') bench_name ms' = Compared (row g' bench_name <$> ms')).
Proof.
  intros Hg. unfold record_and_compare. assert (is_var (Some (txt "write")) "write" = true) as E by (by vm_compute).
  unfold compare. rewrite E. split; [done|]. intros Hms. cbn [baseline_file].
  change (is_var None "write") with false. cbn match. rewrite json_reads_back by done.
  rewrite no_regressions by done. by rewrite andb_false_r.
Qed.

(** ** Quantiles *)
Lemma largest_sample h : h <> [] ->
  exists n p50 p90 p99 m, Hist_report h = Some (n, p50, p90, p99, Some m) /\ n = length h /\ m ∈ h /\ Forall (fun x => x <= m) h.
Proof.
  intros Hh. pose proof (merge_sort_Permutation Z.le h) as Hp.
  pose proof (Sorted_merge_sort Z.le h) as Hs.
  assert (Hist_report h = let s := merge_sort Z.le h in Some (length s, quantile s 50 100, quantile s 90 100, quantile s 99 100, last s)) as ->
    by (by destruct h).
  destruct (merge_sort Z.le h) as [|m l _] using rev_ind.
  { apply Permutation_nil_l in Hp. by destruct Hh. }
  cbn zeta. rewrite last_snoc. do 5 eexists. split; [done|]. split; [by rewrite Hp|]. split; [rewrite <-Hp; set_solver|].
  rewrite <-Hp. apply Forall_app. split; [|by repeat constructor].
  apply Sorted_StronglySorted in Hs; [|intros ???; lia]. clear -Hs.
  induction l as [|x l IH]; [done|]. cbn in Hs. inversion Hs as [|?? H1 H2]; subst.
  apply Forall_app in H2 as [_ H2%Forall_inv]. constructor; [done|by apply IH].
Qed.

(** ** What they do on concrete input *)
Example mark_boundary :
  mark_of 1200 1000 = unmarked /\ mark_of 1201 1000 = REGRESSED /\ mark_of 149 100 = unmarked /\
  mark_of 150 100 = REGRESSED /\ mark_of 950 1000 = unmarked /\ mark_of 949 1000 = improved /\
  mark_of 49 0 = unmarked /\ mark_of 50 0 = REGRESSED /\ mark_of 0 0 = unmarked.
Proof. by vm_compute. Qed.

Example smaps_example :
  shm_stats (txt "ntsync") [(txt "ntsync.v10.shm", Some 1000)]
    (Some (txt "7f-80 r 1 /tmp/ntsync.v10.shm" ++ [chr 10] ++ txt "Rss:   12 kB" ++ [chr 10] ++
           txt "Private_Dirty: 4 kB" ++ [chr 10] ++ txt "80-90 r 1 /lib/x" ++ [chr 10] ++ txt "Rss: 7 kB" ++ [chr 10]))
  = (1000, 12, 0, 4) /\
  proc_rss_kb (Some (txt "Name: x" ++ [chr 10] ++ txt "VmRSS:     1234 kB" ++ [chr 10])) = 1234.
Proof. by vm_compute. Qed.

(** A mapping without a path has no header here, and counts as part of the one
    before it. *)
Example smaps_anonymous :
  shm_stats (txt "ntsync") []
    (Some (txt "7f-80 r 1 /tmp/ntsync.shm" ++ [chr 10] ++ txt "Rss: 12 kB" ++ [chr 10] ++
           txt "80-90 r 0" ++ [chr 10] ++ txt "Rss: 7 kB" ++ [chr 10]))
  = (0, 19, 0, 0).
Proof. by vm_compute. Qed.

Example quantiles_in_range :
  forallb (fun n => (quantile_index n 50 100 <=? n - 1) && (quantile_index n 90 100 <=? n - 1) &&
                    (quantile_index n 99 100 <=? n - 1)) (Z.of_nat <$> seq 1 2000) = true.
Proof. by vm_compute. Qed.

Example stats_line_example :
  stats_line 7 [1; 2] = txt "ntsync stats (pid 7): wait_calls=1 wait_fast_ok=2".
Proof. by vm_compute. Qed.
