(* ===== verification/Suite.v ===== *)
(** * Suite: all of the repository's test programs

    The unit tests, the performance scenarios, the soak tests, the engine
    scenarios and the benchmarks, evaluated on the model. *)
From S2P Require Import Prelude Prog Config Region Kernel Objects Sweep Example Lab Tests Soak Engine Report Bench.

(** Sizes: a hundred iterations where a test only repeats itself, three death
    cycles, forty frames, thirty-two rounds of a benchmark. *)
Definition suite : list script :=
  unit_tests ++ perf_tests 100 ++ soak_tests 3 64 768 ++ engine_sims 40 ++ benches 32.

Lemma engine_sims_run : forallb (passes bench0) (engine_sims 40) = true.
Proof. vm_compute. reflexivity. Qed.

Lemma benches_run : forallb (passes bench0) (benches 32) = true.
Proof. vm_compute. reflexivity. Qed.

(** The mixed load, stopped before its threads have their first turn. *)
Example bench_4_stops : passes bench0 (bench_4_with id) = true.
Proof. vm_compute. reflexivity. Qed.

(** "The reaping pass" that the scenario of the crashed helper times. *)
Definition hitch_reaps (freed again : Z) : script :=
  sim_sweep_hitch_then 500 40 (fun f a k => check! ((f =? freed) && (a =? again)); k).

(** The programs of [suite] pass on the model, run once each under the schedule
    of Lab and with the sizes above: a check of the definitions against what
    their authors expect, and no statement about other schedules.  The mixed load
    (bench_4), which does not end by itself, is not among them.  So does, from a
    region that was used for long, the test that marches the allocator round the
    table.  What the scenario of the crashed helper reports as its reaping pass
    reaps nothing: the waits before it have swept already. *)
Lemma tests_pass :
  forallb (passes bench0) suite = true /\
  passes late_bench reap_skips_slot_reused_while_unlocked = true /\
  passes bench0 (hitch_reaps 0 0) = true.
Proof.
  split; [|split; [exact march_runs|vm_compute; reflexivity]].
  unfold suite. pose proof unit_tests_run as Hu. rewrite !forallb_app in *. apply andb_true_iff in Hu as [-> ->].
  by rewrite soak_tests_run, engine_sims_run, benches_run.
Qed.
