(* ===== verification/EngineOk.v ===== *)
(** * EngineOk: the load programs under every interleaving

    The threads of the engine scenarios and of the benchmarks run against each
    other in any number and under any schedule. *)
From S2P Require Import Prelude Prog Config Region Kernel Lock Nodes WaitLists NodePool Policy Sweep Init Slots Objects Words ObjectsOk Acquire Wait Satisfy SlotsOk WaitOk Interleave InterleaveAll InterleaveWait Engine Bench.

Section obeys.
Context `{!Config} (strict : bool) (K : Z -> option kind) (P P' : Z -> Prop).
Context (me : Z) (Hme : 0 < me < W32) (HP : P me).
Abbreviation ok Q p := (obeys (table_ok strict K) mapped (step_ok strict P) (step_ok strict P') Q p) (only parsing).

Lemma ok_wait_any hs tmo a : ok any (wait_any hs me tmo a).
Proof. apply ok_wait; [unfold u32; lia|done|done]. Qed.

Lemma ok_unlock h : ok any (mutex_unlock h me).
Proof. apply ok_mutex_unlock; [unfold u32; lia|done]. Qed.

Lemma ok_release_1 h : ok any (sem_release h 1).
Proof. by apply ok_sem_release. Qed.

Lemma ok_read_event h : ok any (read_event h).
Proof.
  unfold read_event. eapply ok_bind; [apply ok_region|]. intros r ->.
  eapply ok_bind; [by apply (ok_typed_slot _ _ _ _ TYPE_EVENT)|]. intros [i|e] _; [|ok_end].
  unfold ld_w0, ld_d. oks.
Qed.

#[local] Hint Constants Opaque : ok_db.
#[local] Hint Resolve ok_wait_any ok_unlock ok_release_1 ok_read_event ok_event_set ok_event_reset : ok_db.

Lemma ok_elapsed t : ok any (elapsed t).
Proof. unfold elapsed. oks. Qed.
Lemma ok_stopped : ok any stopped.
Proof. unfold stopped, load. oks. Qed.
Lemma ok_store c v : ok any (store c v).
Proof. unfold store. oks. Qed.
Lemma ok_fetch_add c n : ok any (fetch_add c n).
Proof. unfold fetch_add. oks. Qed.
Lemma ok_Frames_end start f : ok any (Frames_end start f).
Proof. unfold Frames_end, elapsed. oks. Qed.
#[local] Hint Resolve ok_elapsed ok_stopped ok_store ok_fetch_add ok_Frames_end : ok_db.

Lemma ok_times n p : ok any p -> ok any (Engine.times n p).
Proof. intros Hp. induction n as [|n IH]; cbn [Engine.times]; oks. Qed.

Lemma ok_for_all l p : (forall x, ok any (p x)) -> ok any (for_all l p).
Proof. intros Hp. induction l as [|x l IH]; cbn [for_all]; oks. Qed.

Lemma ok_frame_loop n frame : (forall f, ok any (frame f)) -> forall f, ok any (frame_loop n frame f).
Proof. intros Hp. induction n as [|n IH]; intros f; cbn [frame_loop]; oks. Qed.

Lemma ok_busy d : ok any (busy d).
Proof.
  unfold busy. apply ok_seq; [oks|]. intros t.
  generalize loop_fuel. intros n. induction n as [|n IH]; cbn [spin_for]; oks.
Qed.

Lemma ok_serve job body fuel : ok any body -> forall n, ok any (serve fuel me job body n).
Proof. intros Hb. induction fuel as [|fuel IH]; intros n; cbn [serve]; oks. Qed.

Lemma ok_lock_unlock m : ok any (lock_unlock me m).
Proof. unfold lock_unlock. oks. Qed.
#[local] Hint Resolve ok_busy ok_lock_unlock : ok_db.

Lemma ok_pacing period rest n : (forall l nx, ok any (rest l nx)) -> forall next, ok any (pacing n period next rest).
Proof. intros Hr. induction n as [|n IH]; intros next; cbn [pacing]; cbv zeta; oks. Qed.

Lemma ok_before deadline body n : ok any body -> ok any (before n deadline body).
Proof. intros Hb. induction n as [|n IH]; cbn [before]; oks. Qed.

Lemma ok_spun_wait never window left next : ok any (spun_wait me never window left next).
Proof.
  unfold spun_wait. cbv zeta. apply ok_seq; [oks|]. intros _.
  generalize loop_fuel. intros n. induction n as [|n IH]; cbn [spin_to]; oks.
Qed.
End obeys.

(** The threads of the load programs, their handles, numbers and lengths being
    arbitrary; [me] is the owner they act for.  The churning threads are left
    out: they create objects, and a table in which slots change their kind has
    no invariant of this form. *)
Inductive engine_thread `{!Config} (me : Z) : action unit -> Prop :=
| et_ue_worker job queue done work : engine_thread me (ue_worker me job queue done work ;;; Ret tt)
| et_ue_render go fin work : engine_thread me (ue_render me go fin work ;;; Ret tt)
| et_ue_main n b k job done queue go fin f :
    engine_thread me (frame_loop n (ue_frame me b k job done queue go fin) f ;;; Ret tt)
| et_unity_worker job gfx events work : engine_thread me (unity_worker me job gfx events work ;;; Ret tt)
| et_unity_main n b k job gfx events f :
    engine_thread me (frame_loop n (unity_frame me b k job gfx events) f ;;; Ret tt)
| et_godot_worker job queue group work : engine_thread me (godot_worker me job queue group work ;;; Ret tt)
| et_godot_main n b k job group queue f :
    engine_thread me (frame_loop n (godot_frame me b k job group queue) f ;;; Ret tt)
| et_pace n period next never : engine_thread me (pacing n period next (paced_wait me never))
| et_pace_spun n period next never window : engine_thread me (pacing n period next (spun_wait me never window))
| et_churned ev partner span : engine_thread me (churn_parent me ev partner span ;;; Ret tt)
| et_handoff go acked : engine_thread me (handoff_thread me go acked ;;; Ret tt)
| et_handoff_main n go acked : engine_thread me (Engine.times n (handoff_round me go acked))
| et_event n ev : engine_thread me (Engine.times n (primitive_event me ev))
| et_timeout n never : engine_thread me (Engine.times n (primitive_timeout me never))
| et_sem n sem : engine_thread me (Engine.times n (primitive_sem me sem))
| et_mutex n m : engine_thread me (Engine.times n (primitive_mutex me m)).

Inductive bench_thread `{!Config} (A : Z -> Prop) : action unit -> Prop :=
| bt_engine me p : 0 < me < W32 -> A me -> engine_thread me p -> bench_thread A p
| bt_worker me job fin : 0 < me < W32 -> A me -> bench_thread A (wine_worker me job fin)
| bt_render job fin frame vsync : A 1 -> bench_thread A (wine_render job fin frame vsync)
| bt_locker me m : 0 < me < W32 -> A me -> bench_thread A (wine_locker me m)
| bt_alerter alert : bench_thread A (wine_alerter alert)
| bt_alertable vsync alert : A 9 -> bench_thread A (wine_alertable vsync alert)
| bt_multi multi : A 1 -> bench_thread A (wine_multi multi)
| bt_rpc n s1 s2 : A 2 -> bench_thread A (rpc_child n s1 s2 ;;; Ret tt)
| bt_child start m a b ev me n :
    0 < me < W32 -> A 1 -> A me -> bench_thread A (mp_worker_loop start m a b ev me n)
| bt_parent fuel channels goal deadline :
    A 1 -> bench_thread A (answer_loop fuel channels goal deadline 0 ;;; Ret tt).

Section threads.
Context `{!Config} (strict : bool) (K : Z -> option kind) (P P' : Z -> Prop).
Abbreviation ok Q p := (obeys (table_ok strict K) mapped (step_ok strict P) (step_ok strict P') Q p) (only parsing).

#[local] Hint Constants Opaque : ok_db.
#[local] Hint Resolve ok_release_1 ok_read_event ok_event_set ok_event_reset ok_elapsed ok_store ok_fetch_add
  ok_Frames_end ok_busy ok_stopped : ok_db.

Lemma engine_thread_obeys me p : 0 < me < W32 -> P me -> engine_thread me p -> ok any p.
Proof.
  intros Hme HP Hp. pose proof (ok_wait_any strict K P P' me Hme HP) as Hw.
  pose proof (ok_unlock strict K P P' me Hme HP) as Hu. pose proof (ok_lock_unlock strict K P P' me Hme HP) as Hl.
  assert (forall A (q : action A), ok any q -> ok any (q ;;; Ret tt)) as Hret.
  { intros A q Hq. apply ok_seq; [exact Hq|]. intros _. ok_end. }
  destruct Hp; repeat apply Hret.
  all: unfold ue_worker, ue_render, unity_worker, godot_worker, handoff_thread, churn_parent.
  all: try (apply ok_serve; [done|done|]; oks; fail).
  all: try (apply ok_frame_loop; intros ?; unfold ue_frame, unity_frame, godot_frame; cbv zeta;
    oks; first [apply ok_times|apply ok_for_all; intros ?]; oks; fail).
  all: try (apply ok_times; unfold handoff_round, primitive_event, primitive_timeout, primitive_sem, primitive_mutex; oks; fail).
  all: try (apply ok_pacing; intros ? ?; unfold paced_wait; oks; by apply ok_spun_wait).
  apply ok_seq; [oks|]. intros now. apply ok_before. oks.
Qed.

Lemma ok_unwrap {A} (p : action (result A Error)) : ok any p -> ok any (unwrap p).
Proof. intros Hp. unfold unwrap. oks. Qed.

Lemma ok_count n : ok any (count n).
Proof. unfold count. oks. Qed.
#[local] Hint Resolve ok_count ok_unwrap : ok_db.

Lemma ok_until_stop fuel body : ok any body -> ok any (until_stop fuel body).
Proof. intros Hb. induction fuel as [|fuel IH]; cbn [until_stop]; oks. Qed.

Lemma ok_answer_round channels : P 1 -> forall n b, ok any (answer_round channels n b).
Proof.
  intros HP. pose proof (ok_wait_any strict K P P' 1 ltac:(lia) HP) as Hw.
  induction channels as [|[req resp] channels IH]; intros n b; cbn [answer_round]; oks.
Qed.

Lemma ok_rpc_child s1 s2 n : P 2 -> ok any (rpc_child n s1 s2).
Proof.
  intros HP. pose proof (ok_wait_any strict K P P' 2 ltac:(lia) HP) as Hw.
  induction n as [|n IH]; cbn [rpc_child]; oks.
Qed.

Lemma ok_mp_rounds m a b ev me n : 0 < me < W32 -> P me -> ok any (mp_rounds n m a b ev me).
Proof.
  intros Hme HP. pose proof (ok_wait_any strict K P P' me Hme HP) as Hw.
  pose proof (ok_unlock strict K P P' me Hme HP) as Hu. induction n as [|n IH]; cbn [mp_rounds]; oks.
Qed.

Lemma ok_answer_loop fuel channels goal deadline : P 1 -> forall n, ok any (answer_loop fuel channels goal deadline n).
Proof.
  intros HP. pose proof (ok_answer_round channels HP) as Hr.
  induction fuel as [|fuel IH]; intros n; cbn [answer_loop]; oks.
Qed.

Lemma bench_thread_obeys p : bench_thread P p -> ok any p.
Proof.
  destruct 1 as [me p Hme HA Hp|me job fin Hme HA|job fin frame vsync HA|me m Hme HA|alert
    |vsync alert HA|multi HA|n s1 s2 HA|start m a b ev me n Hme H1 HA|fuel channels goal dl HA].
  - by eapply engine_thread_obeys.
  - pose proof (ok_wait_any strict K P P' me Hme HA). apply ok_until_stop. oks.
  - pose proof (ok_wait_any strict K P P' 1 ltac:(lia) HA). assert (forall h, ok any (sem_release h 8)) by (intros; by apply ok_sem_release).
    apply ok_until_stop. oks.
  - pose proof (ok_wait_any strict K P P' me Hme HA). pose proof (ok_unlock strict K P P' me Hme HA). apply ok_until_stop. oks.
  - apply ok_until_stop. oks.
  - pose proof (ok_wait_any strict K P P' 9 ltac:(lia) HA). apply ok_until_stop. oks.
  - pose proof (ok_wait_any strict K P P' 1 ltac:(lia) HA). apply ok_until_stop. oks.
  - apply ok_seq; [by apply ok_rpc_child|]. intros _. ok_end.
  - pose proof (ok_wait_any strict K P P' 1 ltac:(lia) H1). apply ok_seq; [oks|]. intros _. by apply ok_mp_rounds.
  - apply ok_seq; [by apply ok_answer_loop|]. intros _. ok_end.
Qed.
End threads.

Section safety.
Context `{!Config}.

(** Thread [t] acts for the owners [acts t]. *)
Definition load_threads (acts : nat -> Z -> Prop) (ths : list (thread Region Local unit)) : Prop :=
  forall t th, ths !! t = Some th -> bench_thread (acts t) (code th) /\ mapped (tls th).

(** The load programs keep the objects in order (the instance of
    [interleaving_safe] for them; Lockers says more of those that lock).  Any
    number of the threads of the engine scenarios and of the benchmarks, those
    that create objects left out: workers, render threads and
    main loops, pacing loops, lockers, remote clients and the processes of the
    contention test, with any objects, any number of rounds and any values of
    their stop flags and counters, under every interleaving: no semaphore passes
    its maximum, every mutex is owned exactly when its count is positive, every
    event keeps its kind, and each atomic step moves an object by one legal
    transition, on behalf of an owner of the stepping thread only. *)
Lemma load_threads_safe K acts {G} `{!Kernel Region G} m (g : G) ths s' :
  table_ok true K m -> load_threads acts ths -> steps (Pool m g ths) s' ->
  table_ok true K (pmem s') /\ rtc (client_step true acts (length ths)) m (pmem s').
Proof.
  intros HK Hths Hs.
  destruct (good_steps (table_ok true K) mapped (fun t => step_ok true (acts t))
    (fun t => step_ok true (others acts t))
    (fun t => table_ok_step true K (acts t)) (others_rely true acts)
    (fun _ _ _ => True) _ _ Hs) as (H1&H2&_); [|done|done].
  intros t th Ht. destruct (Hths t th Ht) as (Hp & Hl). split; [|done].
  eapply safe_mono; [|apply (bench_thread_obeys true K (acts t) _ _ Hp), HK]. done.
Qed.
End safety.
