(* ===== verification/Lockers.v ===== *)
(** * Lockers: who locks a mutex in a loop has unlocked it in the end

    The threads of the benchmarks that take a mutex and give it back, round after
    round (the lockers of the mixed load, the workers of the contention tests),
    among clients that make any calls for other owners.  [sf_unlock] is the
    half that Critical leaves open: an unlock that succeeds gives back exactly
    one level.  The code unwraps the answer of an unlock, so that a failed one
    (the mutex was closed meanwhile) ends the thread with a panic. *)
From S2P Require Import Prelude Prog Config Region Kernel Lock Nodes Policy Sweep Init Slots Objects Words Wait Interleave InterleaveAll InterleaveWait Critical Engine Bench EngineOk.

Section unlock.
Context `{!Config} (K : Z -> option kind) (P P' : Z -> Prop).
Context (owner : Z) (Hown : 0 < owner < W32) (HP : P owner) (Hex : ~ P' owner) (D : Z -> Z).
Abbreviation sf Q p m :=
  (safe (table_ok false K) mapped (step_ok false P) (step_ok false P') Q p m) (only parsing).
Abbreviation still Q p :=
  (obeys (table_ok false K) mapped (step_ok false (fun _ => False)) (step_ok false P') Q p) (only parsing).
Abbreviation taken := (taken K owner D) (only parsing).

(** A lookup answers the slot the handle names. *)
Lemma ok_slot_named h : still (fun r => r = None \/ r = Some (handle_index h)) (slot h).
Proof.
  unfold slot. cbv zeta. destruct (_ <=? _); [by apply obeys_ret; left|].
  apply ok_seq; [by apply ok_read|]. intros st. destruct (st =? SLOT_USED); [|by apply obeys_ret; left].
  apply ok_seq; [by apply ok_read|]. intros g. destruct (g =? _); apply obeys_ret; [by right|by left].
Qed.

Lemma ok_mutex_named h :
  still (fun r => match r with Ok i => i = handle_index h /\ K i = Some KMutex | Err _ => True end)
    (typed_slot TYPE_MUTEX h).
Proof.
  unfold typed_slot. eapply ok_bind; [apply ok_slot_named|]. intros s [->| ->]; [by apply obeys_ret|].
  eapply ok_bind; [apply (ok_read _ _ _ _ (fun t => t = TYPE_MUTEX -> K (handle_index h) = Some KMutex))|].
  { intros m HK Ht. destruct (table_kind false K m (handle_index h) TYPE_MUTEX HK eq_refl Ht) as (k & -> & Hk).
    by apply kind_type_mutex in Hk as ->. }
  intros t Ht. destruct (Z.eqb_spec t TYPE_MUTEX); apply obeys_ret; [by split; [|apply Ht]|done].
Qed.

Definition unlocked (i : Z) (b : bool) (l : list (Z * bool)) (r : result Z Error) (m : Region) : Prop :=
  match r with Ok _ => K i = Some KMutex /\ taken l m | Err _ => taken ((i, b) :: l) m end.

Lemma sf_unlock_loop fuel h b l : forall m,
  K (handle_index h) = Some KMutex -> taken ((handle_index h, b) :: l) m ->
  sf (unlocked (handle_index h) b l) (mutex_unlock_loop fuel (handle_index h) h owner) m.
Proof.
  induction fuel as [|fuel IH]; intros m HKi Hl; cbn [mutex_unlock_loop]; [done|].
  apply safe_mem_read; [apply step_refl|]. intros m1 Hm1.
  pose proof (taken_later K P' owner Hown Hex D _ _ _ Hm1 Hl) as Hl1.
  set (w := s_w0 (slot_ptr m1 (handle_index h))). clearbody w.
  destruct (Z.eqb_spec (lo32 w) owner) as [Hlo|]; cbn [negb].
  2: { by eapply sf_hold_ret; [..|exact Hl1|]. }
  apply (sf_mutex_cas K P P' owner Hown Hex D _ _ w _ _ _ _ ((handle_index h, b) :: l) l); [done|done| | | |].
  - intros Hc Hz Hmine. rewrite times_cons_eq, decide_True in Hmine by done.
    assert (m_count w <> 0) as Hne by (rewrite <- Hz; lia). rewrite Hlo, wrap32_small by lia.
    destruct (Z.eqb_spec (m_count w) 1) as [E|E].
    + rewrite E. split; [done|]. split; [by constructor|]. rewrite decide_False by lia. lia.
    + split; [simpl; lia|]. split; [apply step_unlock; [done|lia]|]. rewrite decide_True by done. lia.
  - intros j Hj. by rewrite times_cons, decide_False by congruence.
  - intros m2 HK2 H2. eapply (sf_hold_seq K P P' owner Hown Hex D _ l); [|done|exact H2|].
    { destruct (_ =? 1); [apply ok_wake_waiters|by apply obeys_ret]. }
    intros _ m3 _ H3. by eapply sf_hold_ret; [..|exact H3|].
  - intros m2 H2. by apply IH.
Qed.

Lemma sf_unlock h b l m :
  table_ok false K m -> taken ((handle_index h, b) :: l) m ->
  sf (unlocked (handle_index h) b l) (mutex_unlock h owner) m.
Proof.
  intros HK Hl. unfold mutex_unlock.
  eapply (sf_hold_seq K P P' owner Hown Hex D); [apply ok_stat|done|exact Hl|]. intros _ m1 HK1 H1.
  rewrite (proj2 (Z.eqb_neq _ _)) by lia.
  eapply safe_bind; [apply step_keeps|done|eapply sf_other; [done..|by apply (ok_region false K _ P')|done|exact H1]|].
  intros r m2 HK2 [-> H2].
  eapply safe_bind; [apply step_keeps|done|eapply sf_other; [done..|apply ok_mutex_named|done|exact H2]|].
  intros [i|e] m3 HK3 [Hi H3].
  - destruct Hi as [-> HKi]. by apply sf_unlock_loop.
  - by eapply sf_hold_ret; [..|exact H3|].
Qed.
End unlock.

(** Back to nothing held. *)
Section lockers.
Context `{!Config} (K : Z -> option kind) (P P' : Z -> Prop).
Context (owner : Z) (Hown : 0 < owner < W32) (HP : P owner) (Hex : ~ P' owner).
Abbreviation sf Q p m :=
  (safe (table_ok false K) mapped (step_ok false P) (step_ok false P') Q p m) (only parsing).
Abbreviation still p :=
  (obeys (table_ok false K) mapped (step_ok false (fun _ => False)) (step_ok false P') any p) (only parsing).
Abbreviation taken := (taken K owner (fun _ => 0)) (only parsing).
Abbreviation okm Q p := (okm K P P' owner (fun _ => 0) Q p) (only parsing).

Lemma still_seq {A B} (Q : B -> Region -> Prop) (p : action A) (q : A -> action B) :
  still p -> (forall a, okm Q (q a)) -> okm Q (bind p q).
Proof. by apply okm_seq. Qed.

Lemma nothing_ret : okm (fun _ m => taken [] m) (Ret tt).
Proof. by apply okm_ret. Qed.

(** An unlock that goes through when nothing was taken is impossible; so
    whatever the wait said, the round ends with nothing taken. *)
Lemma sf_unwrap_unlock {A} (Q : A -> Region -> Prop) (q : Z -> action A) h l m :
  l = [] \/ l = [(handle_index h, false)] -> table_ok false K m -> taken l m ->
  (forall c m', table_ok false K m' -> taken [] m' -> sf Q (q c) m') ->
  sf Q (c <- unwrap (mutex_unlock h owner) ;; q c) m.
Proof.
  intros Hl HK Ht Hq.
  assert (exists D, taken l m /\ InterleaveAll.taken K owner D [(handle_index h, false)] m /\
    ((forall m', InterleaveAll.taken K owner D [] m' -> taken [] m') \/ D (handle_index h) < 0)) as (D & _ & HD & Hback).
  { destruct Hl as [-> | ->].
    - exists (fun j => if decide (j = handle_index h) then -1 else 0). split; [done|]. split.
      + eapply taken_depths; [|exact Ht]. intros j. rewrite times_nil, times_cons, times_nil.
        destruct (decide (handle_index h = j)) as [<-|Hne]; [by rewrite decide_True|by rewrite decide_False by congruence].
      + right. rewrite decide_True by done. lia.
    - exists (fun _ => 0). split; [done|]. split; [done|]. by left. }
  eapply safe_bind; [apply step_keeps|done| |].
  - unfold unwrap. eapply safe_bind; [apply step_keeps|done|by apply (sf_unlock K P P' owner Hown HP Hex D h false [])|].
    intros [c|e] m1 HK1 Hr; [|done]. eapply (safe_ret _ _ _ _ (fun _ m' => taken [] m')). intros m' Hm'.
    destruct Hr as [HKi Hr]. assert (InterleaveAll.taken K owner D [] m') as Hr' by by eapply taken_later.
    destruct Hback as [Hb|Hneg]; [by apply Hb|]. pose proof (taken_nonneg K owner D _ _ _ Hr' HKi) as Hpos.
    rewrite times_nil in Hpos. lia.
  - intros c m1 HK1 H1. by apply Hq.
Qed.

(** A wait for one mutex. *)
Lemma prize_one h out : prize false [h] out = [] \/ prize false [h] out = [(handle_index h, false)].
Proof.
  destruct out as [i od| |]; try by left. cbn [prize]. destruct (_ =? _); [by left|].
  destruct (Z.to_nat i) as [|[|n]]; [by right|by left..].
Qed.

Lemma okm_wait_one {A} (Q : A -> Region -> Prop) h tmo (q : WaitOutcome -> action A) :
  (forall out m, table_ok false K m -> taken (prize false [h] out) m -> sf Q (q out) m) ->
  okm Q (out <- wait_any [h] owner tmo 0 ;; q out).
Proof. apply okm_bind. by apply (okm_wait K P P' owner Hown HP Hex (fun _ => 0)). Qed.

(** After the wait: what was won is unlocked. *)
Lemma sf_settle h (onward : Z -> action unit) out m :
  (forall c, still (onward c)) -> table_ok false K m -> taken (prize false [h] out) m ->
  sf (fun _ m' => taken [] m')
    (match out with Signaled _ _ => c <- unwrap (mutex_unlock h owner) ;; onward c | _ => Ret tt end) m.
Proof.
  intros Hon HK Ht. destruct out as [i od| |]; try (eapply sf_hold_ret; [..|exact Ht|]; done).
  eapply sf_unwrap_unlock; [apply prize_one|done|exact Ht|]. intros c m1 HK1 H1.
  eapply safe_mono; [|eapply sf_other; [done..|apply Hon|exact HK1|exact H1]]. by intros [] m' _ [_ H'].
Qed.

(** ** The lockers *)
#[local] Hint Constants Opaque : ok_db.
#[local] Hint Resolve ok_release_1 ok_event_set ok_event_reset ok_stopped ok_count ok_unwrap : ok_db.

Lemma okm_wine_locker h : okm (fun _ m => taken [] m) (wine_locker owner h).
Proof.
  unfold wine_locker. induction loop_fuel as [|n IH]; cbn [until_stop]; [done|].
  apply still_seq; [oks|]. intros []; [by apply nothing_ret|].
  eapply okm_bind with (R := fun _ m => taken [] m); [|intros [] m HK Ht; by apply IH].
  apply okm_wait_one. intros out m HK Ht. apply sf_settle; [|done|done]. intros c. apply ok_count.
Qed.

(** A wait for what is no mutex takes none. *)
Lemma okm_wait_free {A} (Q : A -> Region -> Prop) h tmo (q : WaitOutcome -> action A) :
  K (handle_index h) <> Some KMutex -> (forall out, okm Q (q out)) ->
  okm Q (out <- wait_any [h] owner tmo 0 ;; q out).
Proof.
  intros Hh Hq. apply okm_wait_one. intros out m HK Ht. apply Hq; [done|].
  destruct (prize_one h out) as [E|E]; rewrite E in Ht; [done|]. by eapply taken_tail.
Qed.

Lemma okm_mp_rounds mtx a b ev n :
  K (handle_index b) <> Some KMutex -> okm (fun _ m => taken [] m) (mp_rounds n mtx a b ev owner).
Proof.
  intros Hb. induction n as [|n IH]; cbn [mp_rounds]; [by apply nothing_ret|].
  apply okm_wait_one. intros out m HK Ht.
  eapply safe_bind; [apply step_keeps|done|apply sf_settle; [|done|exact Ht]|].
  { intros c. by apply obeys_ret. }
  intros [] m1 HK1 H1. revert m1 HK1 H1.
  match goal with |- forall m, _ -> _ -> sf _ ?p m => change (okm (fun _ m => taken [] m) p) end.
  apply still_seq; [auto with ok_db|]. intros _. apply okm_wait_free; [done|]. intros _.
  apply still_seq; [auto with ok_db|]. intros _. apply still_seq; [auto with ok_db|]. intros _. exact IH.
Qed.

(** The start gate is waited for in the name of process 1. *)
Lemma okm_mp_worker_loop start mtx a b ev n :
  owner <> 1 -> P 1 -> K (handle_index b) <> Some KMutex ->
  okm (fun _ m => taken [] m) (mp_worker_loop start mtx a b ev owner n).
Proof.
  intros Hne H1 Hb m HK Ht. unfold mp_worker_loop. eapply safe_bind; [apply step_keeps|done| |].
  - eapply (sf_for K P P' owner Hown Hex _ (eq 1) any); [by intros ? <-|congruence| |done|exact Ht].
    by apply ok_wait_any.
  - intros out m' HK' [_ H']. by apply okm_mp_rounds.
Qed.
End lockers.

(** ** Any number of them *)
(** The threads whose every locking is paired with an unlock; [A] are the
    owners they act for. *)
Inductive locker `{!Config} (K : Z -> option kind) (A : Z -> Prop) (me : Z) : action unit -> Prop :=
| lk_wine mtx : locker K A me (wine_locker me mtx)
| lk_worker start mtx a b ev n :
    me <> 1 -> A 1 -> K (handle_index b) <> Some KMutex ->
    locker K A me (mp_worker_loop start mtx a b ev me n).

Section balance.
Context `{!Config} (K : Z -> option kind) (acts : nat -> Z -> Prop).

(** Thread [t] locks and unlocks as [role t], an owner nobody else acts for, or
    it is a client that makes any calls. *)
Definition locking_thread (role : nat -> option Z) (t : nat) (th : thread Region Local unit) : Prop :=
  mapped (tls th) /\
  match role t with
  | Some me => 0 < me < W32 /\ acts t me /\ ~ others acts t me /\ locker K (acts t) me (code th)
  | None => exists reqs, code th = client reqs /\
      Forall (request_ok false (acts t) (others acts t)) reqs
  end.

Definition gives_back (role : nat -> option Z) (t : nat) (m : Region) : Prop :=
  match role t with Some me => 0 < me /\ taken K me (fun _ => 0) [] m | None => True end.

Lemma locking_good role t th m :
  table_ok false K m -> (forall me, role t = Some me -> taken K me (fun _ => 0) [] m) -> locking_thread role t th ->
  good_thread (table_ok false K) mapped (fun t => step_ok false (acts t))
    (fun t => step_ok false (others acts t)) (fun t _ => gives_back role t) t m th.
Proof.
  unfold gives_back. intros HK Ht [Hl Hth]. split; [|done]. destruct (role t) as [me|].
  - specialize (Ht me eq_refl). destruct Hth as (Hme & Ha & Hx & Hlk).
    apply (safe_mono _ _ _ _ (fun _ m => taken K me (fun _ => 0) [] m)); [by intros _ m' _ H'; split; [lia|]|].
    destruct Hlk as [mtx|start mtx a b ev n Hne H1 Hb].
    + by apply (okm_wine_locker K (acts t) (others acts t)).
    + by apply (okm_mp_worker_loop K (acts t) (others acts t)).
  - destruct Hth as (reqs & -> & Hreqs). eapply safe_mono; [|by apply client_obeys]. done.
Qed.

(** C18: Lockers give back what they take.  The lockers of the mixed load and
    the workers of the contention tests, any number of them, each for an owner
    of its own and with any handles, run among clients that make any calls for
    other owners, unlock what they did not lock and close handles included,
    under every interleaving.  One that starts without a mutex and comes to its
    end owns no mutex: each round that locked one has unlocked it. *)
Theorem lockers_balance role {G} `{!Kernel Region G} m (g : G) ths s' i t th me :
  table_ok false K m ->
  (forall t th, ths !! t = Some th -> locking_thread role t th) ->
  (forall t me i, role t = Some me -> K i = Some KMutex -> depth_at me m i = 0) ->
  steps (Pool m g ths) s' ->
  role t = Some me -> threads s' !! t = Some th -> code th = Ret tt -> K i = Some KMutex ->
  exists o n d, repr_in false (OMutex o n d) (slot_ptr (pmem s') i) /\ o <> me.
Proof.
  intros HK Hths Hz Hs Hrole Hth Hcode HKi.
  destruct (good_steps (table_ok false K) mapped (fun t => step_ok false (acts t))
    (fun t => step_ok false (others acts t)) (fun t => table_ok_step false K (acts t))
    (others_rely false acts) (fun t _ => gives_back role t) _ _ Hs) as (HK' & _ & Hgood); [|done|].
  { intros u uth Hu. apply locking_good; [done| |by apply Hths]. intros me' Eu j HKj.
    destruct (taken_start K me' m HK j HKj) as (o & c & d & Hr & Hc). exists o, c, d. split; [done|].
    by rewrite Hc, (Hz u me' j). }
  destruct (Hgood t th Hth) as [Hsafe _]. rewrite Hcode in Hsafe.
  pose proof (Hsafe _ (later_refl _ _ _ HK')) as Hg. unfold gives_back in Hg. rewrite Hrole in Hg.
  destruct Hg as [Hme Hg]. destruct (Hg i HKi) as (o & c & d & Hr & Hc). exists o, c, d. split; [done|]. intros ->.
  rewrite decide_True, times_nil in Hc by done. cbv beta in Hc. destruct Hr as (_ & _ & (_ & _ & Hoc) & _). lia.
Qed.
End balance.
