(* ===== verification/Races.v ===== *)
(** * Races: interleavings that go wrong

    Concrete executions, found on the model and checked by evaluation, in
    which two or three correct calls of the library interact badly.  Each
    theorem exhibits a schedule from a good state. *)
From S2P Require Import Prelude Prog Config Region Kernel Lock Nodes Sweep Init Slots Objects Words ObjectsOk Wait Ffi Example Engine.

Section turns.
Context {G : Type} `{!Kernel Region G} {A : Type}.

(** Thread [t] takes up to [n] steps. *)
Fixpoint turn (n t : nat) (s : pool Region Local G A) : pool Region Local G A :=
  match n with
  | O => s
  | S n' => match pool_step t s with Some s' => turn n' t s' | None => s end
  end.

Definition turns (sched : list (nat * nat)) (s : pool Region Local G A) : pool Region Local G A :=
  foldl (fun s tn => turn tn.2 tn.1 s) s sched.

Lemma turn_steps n : forall t (s : pool Region Local G A), steps s (turn n t s).
Proof.
  induction n as [|n IH]; intros t s; simpl; [constructor|].
  destruct (pool_step t s) eqn:E; [|constructor]. econstructor; eauto.
Qed.

Lemma turns_steps sched : forall s : pool Region Local G A, steps s (turns sched s).
Proof.
  unfold turns. induction sched as [|[t n] sched IH]; intros s; simpl; [constructor|].
  eapply steps_trans; [apply turn_steps|apply IH].
Qed.
End turns.

(** Objects [o1] and [o2] in slots 1 and 2, nobody waiting; the next slot to
    allocate is [cursor]. *)
Definition race_region (cursor : Z) (o1 o2 : obj) : Region :=
  mkRegion (mkHeader MAGIC VERSION SLOT_COUNT NODE_COUNT NIL 0 cursor 0 0 0)
    {[0 := ex_slot0; 1 := set_waiter_head NIL (ex_slot o1); 2 := set_waiter_head NIL (ex_slot o2)]} ∅.

Definition start {A} (p : action A) : thread Region Local unit := Thread (p ;;; Ret tt) ex_local.

Definition race (m : Region) (ths : list (thread Region Local unit)) : pool Region Local Sim.sim unit :=
  Pool m Sim.sim0 ths.

Definition finished (th : thread Region Local unit) : bool :=
  match code th with Ret _ => true | _ => false end.
Definition panicked (th : thread Region Local unit) : bool :=
  match code th with Panic => true | _ => false end.
(** Asleep in a futex wait on its node. *)
Definition asleep (th : thread Region Local unit) : bool :=
  match code th with Sys (FutexWait _ _ _) _ => true | _ => false end.

(** A WAIT_ALL took the only unit of a semaphore, a release put one back, and
    the rollback adds a second: the count is 2 with a maximum of 1. *)
Definition overflow_race : pool Region Local Sim.sim unit :=
  race (race_region 3 (OSem 1 1) (OEvent false false 0))
    [start (wait_all [1; 2] 7 (Some 0) 0); start (sem_release 1 1)].

(** A semaphore can pass its maximum: from a good state, a WAIT_ALL that
    holds a unit for a moment, a release and the rollback leave count 2 with
    maximum 1, both calls having returned. *)
Lemma rollback_exceeds_max : exists s, steps overflow_race s /\
  forallb finished (threads s) = true /\ s_w0 (slot_ptr (pmem s) 1) = pack_sem 2 1.
Proof.
  exists (turns [(0, 15); (1, 100); (0, 100)]%nat overflow_race).
  split; [apply turns_steps|]. split; vm_compute; reflexivity.
Qed.

(** A WAIT_ALL holds the unit of a semaphore for a moment and a second thread
    goes to sleep on the empty semaphore; the rollback wakes nobody.  In the
    end the semaphore has a unit, its waiter sleeps without a timeout, and no
    thread can take a step. *)
Definition lost_wakeup_race : pool Region Local Sim.sim unit :=
  race (race_region 3 (OSem 1 1) (OEvent false false 0))
    [start (wait_all [1; 2] 7 (Some 0) 0); start (wait_any [1] 8 None 0)].

(** A wake-up can be lost: a waiter without a timeout that went to sleep
    while a WAIT_ALL held the only unit sleeps on for good after the rollback
    put the unit back; the semaphore is acquirable and no thread can step. *)
Lemma rollback_loses_wakeup : exists s, steps lost_wakeup_race s /\
  map finished (threads s) = [true; false] /\ map asleep (threads s) = [false; true] /\
  pool_step 0 s = None /\ pool_step 1 s = None /\
  s_w0 (slot_ptr (pmem s) 1) = pack_sem 1 1.
Proof.
  exists (turns [(0, 15); (1, 200); (0, 100)]%nat lost_wakeup_race).
  split; [apply turns_steps|]. split_and!; vm_compute; reflexivity.
Qed.

(** A pulse satisfies the first object of a WAIT_ALL whose second object is
    busy; the rollback leaves the event signaled, as a pulse never does. *)
Definition pulse_race : pool Region Local Sim.sim unit :=
  race (race_region 3 (OEvent false false 0) (OSem 0 1))
    [start (wait_all [1; 2] 7 (Some 0) 0); start (event_pulse 1)].

(** A pulse ends with the event signaled. *)
Lemma rollback_signals_event : exists s, steps pulse_race s /\
  forallb finished (threads s) = true /\ s_w0 (slot_ptr (pmem s) 1) = pack_event true false.
Proof.
  exists (turns [(0, 13); (1, 100); (0, 100)]%nat pulse_race).
  split; [apply turns_steps|]. split; vm_compute; reflexivity.
Qed.

(** C36: The rollback of a failed WAIT_ALL breaks three promises, each on a
    schedule from a good state.  A semaphore can pass its maximum: a release
    that comes while a unit is held for a moment leaves count 2 with maximum 1,
    both calls having returned.  A wake-up can be lost: a waiter without a
    timeout that went to sleep in that moment sleeps on although the unit is
    back, and no thread can step.  A pulse can leave its event signaled. *)
Theorem rollback_races :
  (exists s, steps overflow_race s /\
    forallb finished (threads s) = true /\ s_w0 (slot_ptr (pmem s) 1) = pack_sem 2 1) /\
  (exists s, steps lost_wakeup_race s /\
    map finished (threads s) = [true; false] /\ map asleep (threads s) = [false; true] /\
    pool_step 0 s = None /\ pool_step 1 s = None /\ s_w0 (slot_ptr (pmem s) 1) = pack_sem 1 1) /\
  (exists s, steps pulse_race s /\
    forallb finished (threads s) = true /\ s_w0 (slot_ptr (pmem s) 1) = pack_event true false).
Proof.
  split; [exact rollback_exceeds_max|]. split; [exact rollback_loses_wakeup|exact rollback_signals_event].
Qed.

(** A set is delayed between its lookup and its compare-and-swap; the event is
    closed and its slot reused for a mutex whose word is the same.  The swap
    then hits the mutex: owner 1, recursion count 0, no object at all. *)
Definition reuse_race : pool Region Local Sim.sim unit :=
  race (race_region (SCAN_WRAPPED + 1) (OEvent false false 0) (OSem 0 1))
    [start (event_set 1); start (close 1 ;;; create_mutex 0 0)].

(** A set that was delayed past a close and the reuse of the slot writes
    into an object of another type: a live mutex ends with an owner and
    recursion count 0, which is the word of no mutex. *)
Lemma stale_set_corrupts_mutex : exists s, steps reuse_race s /\
  forallb finished (threads s) = true /\
  lookup_handle (pmem s) (SLOT_COUNT + 1) = Some 1 /\
  s_obj_type (slot_ptr (pmem s) 1) = TYPE_MUTEX /\ ~ exists o, repr o (slot_ptr (pmem s) 1).
Proof.
  exists (turns [(0, 7); (1, 200); (0, 100)]%nat reuse_race).
  split; [apply turns_steps|]. set (s := turns _ _).
  assert (forallb finished (threads s) = true /\ lookup_handle (pmem s) (SLOT_COUNT + 1) = Some 1 /\
    s_obj_type (slot_ptr (pmem s) 1) = TYPE_MUTEX /\ s_w0 (slot_ptr (pmem s) 1) = 1) as (Hf & Hl & Ht & Hw).
  { split_and!; vm_compute; reflexivity. }
  clearbody s. split_and!; [done..|].
  intros (o & H1 & H2 & Hwf & _). rewrite Ht in H1. rewrite Hw in H2.
  destruct o as [|ow c d|]; try done. cbn [obj_word] in H2. simpl in Hwf.
  assert (ow = 1) as ->. { by rewrite <- (lo32_mutex ow c d), <- H2 by lia. }
  assert (c = 0) as ->. { by rewrite <- (m_count_mutex 1 c d), <- H2 by lia. }
  lia.
Qed.

(** The alert event is closed between its validation and its test: the
    waiter panics ([unwrap] on [None]). *)
Definition alert_race : pool Region Local Sim.sim unit :=
  race (race_region 3 (OSem 0 1) (OEvent true false 0))
    [start (wait_any [1] 7 None 2); start (close 2)].

(** Closing the alert event of a starting wait can make that wait panic. *)
Lemma alert_close_panics : exists s, steps alert_race s /\
  map panicked (threads s) = [true; false] /\ map finished (threads s) = [false; true].
Proof.
  exists (turns [(0, 10); (1, 100); (0, 100)]%nat alert_race).
  split; [apply turns_steps|]. split; vm_compute; reflexivity.
Qed.

(** The alert event is set after a wait has tested it under the lock and before
    the wait has put its node on the event's list: the set finds no waiter, and
    the wait does not look again. *)
Definition missed_alert_race : pool Region Local Sim.sim unit :=
  race (race_region 3 (OSem 0 1) (OEvent true false 0))
    [start (wait_any [1] 7 None 2); start (event_set 2)].

(** C40: A wait can sleep on although its alert event is set.  The event is
    set after the wait has tested it under the lock and before it is on the
    event's list; then the set has returned, the wait sleeps without a timeout,
    on the list of the signaled event, and no thread can step. *)
Theorem alert_wakeup_lost : exists s, steps missed_alert_race s /\
  map finished (threads s) = [false; true] /\ map asleep (threads s) = [true; false] /\
  pool_step 0 s = None /\ pool_step 1 s = None /\
  s_w0 (slot_ptr (pmem s) 2) = pack_event true true /\ s_waiter_head (slot_ptr (pmem s) 2) <> NIL.
Proof.
  exists (turns [(0, 27); (1, 100); (0, 100)]%nat missed_alert_race).
  split; [apply turns_steps|]. split_and!; vm_compute; done.
Qed.

(** C39: Two schedules in which a close comes between the validation of a
    handle and its use.  A set delayed past the close and the reuse of the slot
    writes into an object of another type: a live mutex ends with an owner and
    recursion count 0, the word of no mutex.  And a wait whose alert event is
    closed while it starts panics. *)
Theorem close_races :
  (exists s, steps reuse_race s /\ forallb finished (threads s) = true /\
    lookup_handle (pmem s) (SLOT_COUNT + 1) = Some 1 /\
    s_obj_type (slot_ptr (pmem s) 1) = TYPE_MUTEX /\ ~ exists o, repr o (slot_ptr (pmem s) 1)) /\
  (exists s, steps alert_race s /\
    map panicked (threads s) = [true; false] /\ map finished (threads s) = [false; true]).
Proof. split; [exact stale_set_corrupts_mutex|exact alert_close_panics]. Qed.



(** A kernel whose mutex is broken: locking answers EINVAL. *)
Definition broken_kernel : Kernel Region Sim.sim := fun t c m g =>
  match c with MutexLock => Answer EINVAL g | _ => ex_kernel t c m g end.

(** When the region lock fails, the C interface answers the positive
    errno: its caller, who tests for a negative code, sees no error. *)
Lemma lock_error_is_positive :
  fst (run (Kernel0 := broken_kernel) 0 (ntsync_event_pulse 1 (Some 0)) (ex_world (OEvent false true 0))) = Done (22, Some 0).
Proof. vm_compute. reflexivity. Qed.

(** Node 0 belongs to a process that died after it was woken and before it
    took its node back: detached, not on the free list. *)
Definition leak_region : Region :=
  mkRegion (mkHeader MAGIC VERSION SLOT_COUNT NODE_COUNT NIL 1 3 0 0 0)
    (slots (race_region 3 (OSem 0 1) (OSem 0 1))) {[0 := mkNode 6 0 NIL 0 NIL NIL NIL 201 0]}.

Lemma sweep_leaks_woken_node :
  let w := snd (run 0 sweep_dead (World leak_region ex_local Sim.sim0)) in
  ex_alive 201 = false /\ h_node_free_head (header (mem w)) = NIL /\ h_node_fresh (header (mem w)) = 1.
Proof. vm_compute. repeat split; reflexivity. Qed.
