(* ===== verification/Witnesses.v ===== *)
(** * Witnesses: the theorems at concrete inputs

    Every theorem with hypotheses is applied once, at the process, kernel and
    region of Example.v (or a variation of it), where its hypotheses hold and
    its conclusion can be read off. *)
From S2P Require Import Prelude Prog Config Region Kernel Lock Nodes WaitLists NodePool Policy PolicyOk Sweep Init Slots Objects Words ObjectsOk Signals Acquire Wait Satisfy SlotsOk HoldersOk Interleave InterleaveAll InterleaveWait Critical Guard GuardOk Watch WatchPool WatchOk Ffi WaitOk WaitBlock SweepOk InitOk WaitErr FfiOk Layout TableEq Sleep Wakeup Timeout Example Lab Tests Engine Report Bench EngineOk Lockers Races.

(** ** Signals *)
(** A release of 3 on a semaphore with 2 of 9, on which node 0 waits. *)
Lemma operations_witness :
  wp 0 (call (OpRelease 3) 1) (fun res w' => res = Ok 2 /\ n_registered (node_ptr (mem w') 0) = 0) (ex_world (OSem 2 9)).
Proof.
  eapply wp_mono; [|apply (operations_refine ex_fuel ex_lists [] (ex_world (OSem 2 9)) 1 1 (OSem 2 9) (OpRelease 3))].
  - intros res w' (_ & -> & He). split; [done|]. destruct He as (r1 & _ & Hwk & _).
    rewrite (wk_reg _ _ _ _ Hwk). by rewrite decide_True by apply list_elem_of_here.
  - apply ex_live. cbn. lia.
  - done.
Defined.

(** ** Acquiring *)
Lemma try_acquire_witness :
  wp 0 (b <- is_locked 1 7 0 ;; r <- try_acquire 1 7 0 ;; Ret (b, r))
    (fun res _ => res = (true, Some true)) (ex_world (OMutex 0 0 true)).
Proof.
  eapply wp_mono; [|apply (try_acquire_refines ex_fuel_pos 1 7 0 (OMutex 0 0 true))].
  - by intros res w' [-> _].
  - lia.
  - apply ex_repr. cbn. lia.
Defined.

Lemma acquire_rollback_witness :
  wp 0 (r <- try_acquire 1 7 0 ;; match r with Some od => rollback_acquire 1 7 od | None => Ret tt end)
    (fun _ w' => repr (OMutex 0 0 true) (slot_ptr (mem w') 1)) (ex_world (OMutex 0 0 true)).
Proof.
  eapply wp_mono; [|apply (acquire_rollback ex_fuel_pos 1 7 0 (OMutex 0 0 true))].
  - by intros u w' (_ & _ & H).
  - lia.
  - apply ex_repr. cbn. lia.
Defined.

(** ** Waiting *)
Definition two_world (o1 o2 : obj) : world Region Local Sim.sim :=
  World (race_region 3 o1 o2) ex_local Sim.sim0.

Lemma two_names o1 o2 : obj_wf o1 -> obj_wf o2 -> names (race_region 3 o1 o2) [1; 2] [o1; o2].
Proof.
  intros H1 H2. constructor; [|constructor; [|constructor]]; (split; [done|]).
  - split; [done|]. split; [done|]. split; [done|]. by destruct o1.
  - split; [done|]. split; [done|]. split; [done|]. by destruct o2.
Qed.

Lemma two_good o1 o2 owner : obj_wf o1 -> obj_wf o2 -> 0 < owner < W32 ->
  good_wait (race_region 3 o1 o2) [1; 2] owner [o1; o2].
Proof.
  intros H1 H2 Ho. split; [by apply two_names| |done|unfold MAX_WAIT_COUNT; simpl; lia].
  apply has_dup_nodup. done.
Qed.

Lemma wait_any_witness :
  wp 0 (wait_any [1; 2] 7 None 0) (fun res w' => res = Signaled 1 false /\ s_w0 (slot_ptr (mem w') 2) = pack_sem 1 5)
    (two_world (OMutex 8 1 false) (OSem 2 5)).
Proof.
  eapply wp_mono; [|apply (wait_any_first ex_fuel [1; 2] 7 None 0 [OMutex 8 1 false; OSem 2 5])].
  - intros res w' (_ & -> & Hc). split; [done|]. destruct Hc as (_ & _ & _ & _ & Hr).
    apply Forall_cons in Hr as [Hr _]. apply Hr.
  - done.
  - apply two_good; cbn; lia.
  - by left.
  - by left.
Defined.

Lemma wait_all_witness :
  wp 0 (wait_all [1; 2] 7 (Some 0) 0) (fun res w' => res = Timeout /\ slot_ptr (mem w') 1 = slot_ptr (race_region 3 (OSem 2 5) (OMutex 8 1 false)) 1)
    (two_world (OSem 2 5) (OMutex 8 1 false)).
Proof.
  eapply wp_mono; [|apply (wait_all_or_nothing ex_fuel [1; 2] 7 (Some 0) 0 [OSem 2 5; OMutex 8 1 false])].
  - intros res w' (_ & -> & Hc). split; [done|]. destruct Hc as (_ & _ & _ & Hs & _).
    apply Hs. by apply not_elem_of_nil.
  - done.
  - apply two_good; cbn; lia.
  - by left.
  - by right.
Defined.

Lemma ex_good o : obj_wf o -> good_wait (ex_region o) [1] 7 [o].
Proof.
  intros Hwf. split; [| |lia|unfold MAX_WAIT_COUNT; simpl; lia].
  - constructor; [|constructor]. split; [done|]. by apply ex_repr.
  - apply NoDup_singleton.
Qed.

Lemma locked_section_witness :
  wp 0 (locked_section [1] 7 None false 0 [] zero_seqs)
    (fun res w' => locked_end (owned (ex_region (OSem 0 5)) []) 7 false [1] [OSem 0 5] None 0 (ex_region (OSem 0 5)) ex_lists [] (mem w') res)
    (ex_world (OSem 0 5)).
Proof.
  eapply wp_mono; [|apply (locked_section_ends ex_fuel [1] 7 None false 0 zero_seqs [OSem 0 5] ex_lists [])].
  - by intros res w' [_ H].
  - done.
  - apply ex_pool_ok.
  - apply ex_good. cbn. lia.
  - by left.
  - done.
Defined.

Lemma wait_refuses_witness :
  wp 0 (wait [1; 5] 7 None true 0) (fun res _ => res = WaitInvalid) (ex_world (OSem 2 5)).
Proof.
  eapply wp_mono; [|apply (wait_refuses ex_fuel_pos [1; 5] 7 None true 0)].
  - by intros res w' [-> _].
  - done.
  - do 4 right. vm_compute. reflexivity.
Defined.

(** ** Handles *)
Lemma ex_free o : exists i, 0 <= i < SLOT_COUNT /\ s_state (slot_ptr (ex_region o) i) = SLOT_FREE.
Proof. by exists 2. Qed.

Lemma create_publishes_witness :
  wp 0 (create_of (OMutex 7 2 false)) (fun res w' => exists h i, res = Ok h /\ lookup_handle (mem w') h = Some i /\
    repr (OMutex 7 2 false) (slot_ptr (mem w') i)) (ex_world (OSem 2 5)).
Proof.
  eapply wp_mono; [|apply (create_publishes ex_fuel (OMutex 7 2 false) ex_lists [])].
  - intros res w' (_ & h & i & -> & _ & Hr & _ & _ & Hl). exists h, i. split; [done|]. split; [|done].
    apply Hl. cbn [mem ex_world]. rewrite ex_slot_ptr.
    destruct (decide (i = 0)), (decide (i = 1)); cbn; unfold GEN_BITS_RANGE; lia.
  - done.
  - apply ex_pool_ok.
  - apply ex_slots_ok.
  - apply ex_free.
  - cbn. unfold u32. split_and!; [lia..|done].
  - cbn. lia.
Defined.

Lemma create_refuses_witness : create_of (OMutex 7 0 false) = Ret (Err Invalid).
Proof.
  apply (proj2 (create_refuses ex_fuel (OMutex 7 0 false) ltac:(cbn; unfold u32; split_and!; [lia..|done]))). cbn. lia.
Defined.

Lemma close_frees_witness :
  wp 0 (close 1) (fun res w' => res = true /\ lookup_handle (mem w') 1 = None /\
      s_state (slot_ptr (mem w') 1) = SLOT_FREE /\ n_registered (node_ptr (mem w') 0) = 0)
    (ex_world (OSem 2 5)).
Proof.
  eapply wp_mono; [|apply (close_frees ex_fuel 1 1 ex_lists [])].
  - intros res w' (_ & -> & Hl & Hf & _). split_and!; [done|done|apply Hf|]. apply (fr_off _ _ _ _ Hf), list_elem_of_here.
  - done.
  - apply ex_pool_ok.
  - apply ex_slots_ok.
  - done.
  - done.
Defined.

Lemma ex_holders o : holders_ok (slot_ptr (ex_region o) 1).
Proof.
  rewrite ex_slot_ptr. split; [done| |].
  - exists 0%nat, false. split; [lia|done].
  - apply NoDup_nil_2.
Qed.

Lemma retain_witness :
  wp 0 (retain 1) (fun res w' => res = Ok tt /\
    (k_pid (t := 0%nat) ∈ holders_of (slot_ptr (mem w') 1) \/ overflowed (slot_ptr (mem w') 1) = true)) (ex_world (OSem 2 5)).
Proof.
  eapply wp_mono; [|apply (retain_records ex_fuel_pos 1 1)].
  - intros res w' (_ & -> & _ & [H|[H _]] & _); auto.
  - done.
  - done.
  - done.
  - by apply (ex_holders (OSem 2 5)).
Defined.

Lemma create_read_witness :
  wp 0 (create_then (ntsync_create_sem (Some 0) (Some (mkSemArgs 2 5))) (fun h => ntsync_sem_read h (Some (mkSemArgs 0 0))))
    (fun res _ => res = (0, Some (mkSemArgs 2 5))) (ex_world (OSem 2 5)).
Proof.
  assert (roomy (t := 0%nat) ex_lists [] (ex_world (OSem 2 5))) as Hr.
  { split; [done|apply ex_pool_ok|apply ex_slots_ok|apply ex_free|].
    intros i. cbn [mem ex_world]. rewrite ex_slot_ptr.
    destruct (decide (i = 0)), (decide (i = 1)); cbn; unfold GEN_BITS_RANGE; lia. }
  pose proof (create_read_roundtrip ex_fuel ex_lists [] (ex_world (OSem 2 5)) 0 (mkSemArgs 0 0) (mkMutexArgs 0 0)
    (mkEventArgs 0 0) 2 5 7 1 1 0 Hr ltac:(unfold u32; lia) ltac:(unfold u32; lia) ltac:(unfold u32; lia)
    ltac:(unfold u32; lia)) as (H & _ & _).
  eapply wp_mono; [|exact H]. by intros res w' ->.
Defined.

(** ** The C interface *)
Definition ex_args (count owner timeout : Z) : ntsync_wait_args :=
  mkWaitArgs timeout (Some [1]) count 9 0 owner 0 0.

Lemma ffi_wait_refuses_witness :
  wp 0 (do_wait (Some (ex_args 65 7 0)) false) (fun res _ => res = (- EINVAL, Some (ex_args 65 7 0))) (ex_world (OSem 2 5)).
Proof.
  eapply wp_mono; [|apply (ffi_wait_refuses ex_fuel (Some (ex_args 65 7 0)) false)].
  - by intros res w' [-> _].
  - done.
  - left. by exists (- EINVAL).
Defined.

Lemma ffi_wait_answers_witness :
  wp 0 (ntsync_wait_any (Some (ex_args 1 7 U64_MAX))) (fun res _ => res = (- EOWNERDEAD, Some (set_index 0 (ex_args 1 7 U64_MAX))))
    (ex_world (OMutex 0 0 true)).
Proof.
  eapply wp_mono; [|apply (ffi_wait_answers ex_fuel (ex_args 1 7 U64_MAX) [1] [OMutex 0 0 true] false)].
  - by intros res w' (_ & -> & _).
  - done.
  - done.
  - done.
  - apply ex_good. cbn. lia.
  - by left.
  - by left.
Defined.

(** ** Policies *)
Lemma spin_time_witness :
  fst (bucket_run 150000000 [(1000, 1000000, true); (2000, 1000000, true)] init_local) * 1000000000 <=
  tail_budget_cap 150000000 * 1000000000 + 150000000 * (2000 - 1000).
Proof.
  apply (spin_time_bounded 150000000 1000 1000000 true [(2000, 1000000, true)] init_local); cbn; lia || done.
Defined.

Lemma credit_witness : credit_ok (credit_run init_local [true; false; false]).
Proof. apply (credit_bounded [true; false; false] init_local). unfold credit_ok. cbn. lia. Defined.

Lemma probes_witness :
  length (filter (fun b => b <> 0) (fst (probe_run 1000 8 (set_spin_credit (-2) init_local)))) = 1%nat.
Proof. apply (probes_one_in_eight 1000 (set_spin_credit (-2) init_local)). cbn. lia. Defined.

(** ** Initialisation *)
Lemma init_maps_witness :
  wp 0 (init (Some "/tmp/a.shm"%string)) (fun res w' => match res with Ok _ => opened zero_region (mem w') | Err _ => True end)
    (World zero_region init_local Sim.sim0).
Proof.
  eapply wp_mono; [|apply (init_maps (Some "/tmp/a.shm"%string) (World zero_region init_local Sim.sim0))].
  - intros [u|e] w'; [by intros [_ H]|done].
  - done.
Defined.

Lemma init_once_witness : run 0 (init None) (ex_world (OSem 2 5)) = (Done (Ok tt), ex_world (OSem 2 5)).
Proof. by apply (init_once 0 None (ex_world (OSem 2 5)) (Ok tt)). Defined.

(** ** Sweeping *)
(** The creator of the object in slot 1 is dead. *)
Definition orphan (s : Slot) : Slot :=
  mkSlot (s_state s) (s_generation s) (s_obj_type s) 201 (s_waiter_head s) (s_holders_len s) (s_w0 s) (s_d s) (s_holders s).
Definition orphan_region : Region := upd_slot 1 orphan (ex_region (OSem 2 5)).

Lemma orphan_slots_ok : slots_ok orphan_region ex_lists.
Proof.
  pose proof (ex_slots_ok (OSem 2 5)) as [H1 H2 H3 H4 H5]. unfold orphan_region.
  split; intros *; rewrite ?slot_ptr_upd_slot.
  - exact H1.
  - exact H2.
  - destruct (decide (1 = i)) as [<-|]; [|exact (H3 i)]. exact (H3 1).
  - destruct (decide (1 = i)) as [<-|]; [|exact (H4 i)]. exact (H4 1).
  - destruct (decide (1 = i)) as [<-|]; [|exact (H5 i)]. exact (H5 1).
Qed.

Lemma sweep_witness :
  wp 0 sweep_dead (fun res w' => core (slot_ptr (mem w') 1) = core (free_slot (slot_ptr orphan_region 1)))
    (World orphan_region ex_local Sim.sim0).
Proof.
  eapply wp_mono; [|apply (sweep_reaps_the_dead ex_fuel ex_lists [] (World orphan_region ex_local Sim.sim0))].
  - intros res w' (_ & _ & _ & Hc & _). by rewrite (Hc 1).
  - done.
  - apply upd_slot_pool_ok; [done|]. apply ex_pool_ok.
  - apply orphan_slots_ok.
Defined.

(** ** Interleavings *)
(** The owners 8 and 9 go for the mutex that owner 7 holds, also together with
    a semaphore: their waits for all take a unit and give it back. *)
Definition ex_kinds (i : Z) : option kind :=
  if i =? 1 then Some (KSem 1) else if i =? 2 then Some KMutex else None.
Definition ex_acts (t : nat) (o : Z) : Prop := o = 8 + Z.of_nat t.
Definition rival_calls (o : Z) : list request :=
  [RMutexUnlock 2 o; RWaitAll [1; 2] o (Some 0) 0; RWaitAny [2] o (Some 0) 0; RSemRelease 1 1; RMutexKill 2 o].
Definition rival (o : Z) : thread Region Local unit := Thread (client (rival_calls o)) ex_local.
Definition ex_objects : Region := race_region 3 (OSem 1 1) (OMutex 7 2 false).
Definition ex_pool : pool Region Local Sim.sim unit := Pool ex_objects Sim.sim0 [rival 8; rival 9].
Definition ex_schedule : list (nat * nat) := [(0, 24); (1, 33); (0, 80); (1, 80)]%nat.

Lemma ex_objects_slot i : slot_ptr ex_objects i =
  if decide (i = 0) then ex_slot0 else
  if decide (i = 1) then set_waiter_head NIL (ex_slot (OSem 1 1)) else
  if decide (i = 2) then set_waiter_head NIL (ex_slot (OMutex 7 2 false)) else zero_slot.
Proof.
  unfold slot_ptr, ex_objects, race_region. cbn [slots].
  repeat (destruct (decide _) as [->|]; [done|]).
  rewrite !lookup_insert_ne by congruence. by rewrite lookup_empty || rewrite lookup_singleton_ne by congruence.
Qed.

Lemma ex_table_ok : table_ok false ex_kinds ex_objects.
Proof.
  intros i. unfold ex_kinds. rewrite ex_objects_slot.
  destruct (Z.eqb_spec i 1) as [->|H1]; [|destruct (Z.eqb_spec i 2) as [->|H2]].
  - exists (OSem 1 1). split; [|done]. by split_and!.
  - exists (OMutex 7 2 false). split; [|done]. by split_and!.
  - destruct (decide (i = 0)); [done|]. by rewrite !decide_False.
Qed.

Lemma rival_clients : client_threads false ex_acts [rival 8; rival 9].
Proof.
  intros t th Ht.
  assert (exists o, th = rival o /\ o = 8 + Z.of_nat t /\ 0 < o < 10) as (o & -> & Eo & Ho).
  { destruct t as [|[|t]]; simplify_eq/=; eexists; split_and!; try done. }
  exists (rival_calls o). split; [done|]. split; [|done].
  assert (~ others ex_acts t o) as Hn. { intros (u & Hu & E). unfold ex_acts in E. lia. }
  unfold rival_calls, ex_acts. repeat constructor; cbn; unfold u32; try lia; done.
Qed.

Lemma interleaving_witness :
  table_ok false ex_kinds (pmem (turns ex_schedule ex_pool)) /\
  forallb finished (threads (turns ex_schedule ex_pool)) = true.
Proof.
  split; [|vm_compute; reflexivity].
  apply (interleaving_safe false ex_kinds ex_acts ex_objects Sim.sim0 [rival 8; rival 9]).
  - apply ex_table_ok.
  - apply rival_clients.
  - apply turns_steps.
Defined.

Lemma mutual_exclusion_witness :
  repr (OMutex 7 2 false) (slot_ptr (pmem (turns ex_schedule ex_pool)) 2).
Proof.
  apply (mutual_exclusion ex_kinds ex_acts ex_objects Sim.sim0 [rival 8; rival 9] _ 2 7 2 false).
  - apply ex_table_ok.
  - apply rival_clients.
  - apply turns_steps.
  - done.
  - intros t. unfold ex_acts. lia.
  - by split_and!.
Defined.

(** Owner 8 waits for a free mutex, owner 9 for it and a semaphore. *)
Definition ex_contested : Region := race_region 3 (OSem 1 1) (OMutex 0 0 false).
Definition ex_contest (t : nat) : option contest :=
  match t with
  | 0%nat => Some (mkContest [2] 8 (Some 0) false 0)
  | 1%nat => Some (mkContest [1; 2] 9 (Some 0) true 0)
  | _ => None
  end.
Definition ex_arena : pool Region Local Sim.sim (option WaitOutcome) :=
  Pool ex_contested Sim.sim0 [Thread (contender (mkContest [2] 8 (Some 0) false 0)) ex_local;
    Thread (contender (mkContest [1; 2] 9 (Some 0) true 0)) ex_local].
Definition ex_end := turns [(0, 500); (1, 500)]%nat ex_arena.

Lemma ex_contested_ok : table_ok false ex_kinds ex_contested.
Proof.
  intros i. unfold ex_kinds. destruct (Z.eqb_spec i 1) as [->|H1]; [|destruct (Z.eqb_spec i 2) as [->|H2]].
  - exists (OSem 1 1). split; [|done]. by split_and!.
  - exists (OMutex 0 0 false). split; [|done]. by split_and!.
  - unfold slot_ptr, ex_contested, race_region. cbn [slots]. destruct (decide (i = 0)) as [->|]; [done|].
    rewrite !lookup_insert_ne by congruence. by rewrite lookup_empty || rewrite lookup_singleton_ne by congruence.
Qed.

Lemma ex_arena_ok : arena ex_acts ex_contest (threads ex_arena).
Proof.
  intros t th Ht. destruct t as [|[|t]]; simplify_eq/=; (split; [done|]); cbn; unfold ex_acts;
    (split; [done|]); (split; [lia|]); (split; [lia|]); intros (u & Hu & E); lia.
Qed.

Lemma critical_witness :
  code <$> threads ex_end = [Ret (Some (Signaled 0 false)); Ret (Some Timeout)] /\
  exists n d, 1 <= n /\ repr_in false (OMutex 8 n d) (slot_ptr (pmem ex_end) 2).
Proof.
  split; [vm_compute; reflexivity|].
  destruct (critical_sections_exclude ex_kinds ex_acts ex_contest ex_contested Sim.sim0 (threads ex_arena) ex_end 2) as [H _].
  - apply ex_contested_ok.
  - apply ex_arena_ok.
  - apply turns_steps.
  - done.
  - destruct (H 0%nat) as (c & n & d & [= <-] & Hn & Hr).
    + eexists _, _, _. split; [done|]. split; [|split; [|]]; vm_compute; reflexivity.
    + by exists n, d.
Defined.

(** Owner 9 wanted both: it holds none of them once more. *)
Lemma waits_take_witness : exists o n d, repr_in false (OMutex o n d) (slot_ptr (pmem ex_end) 2) /\
  (if decide (o = 9) then n else 0) = 0.
Proof.
  refine (waits_take_exactly ex_kinds ex_acts ex_contest ex_contested Sim.sim0 (threads ex_arena) ex_end 2 1
    (nth 1 (threads ex_end) (Thread Panic ex_local)) (mkContest [1; 2] 9 (Some 0) true 0) Timeout _ _ _ _ _ _ _).
  - apply ex_contested_ok.
  - apply ex_arena_ok.
  - apply turns_steps.
  - done.
  - done.
  - vm_compute; reflexivity.
  - vm_compute; reflexivity.
Defined.

(** ** The region file *)
Lemma versioned_path_witness : versioned_path "/tmp/a.shm" = "/tmp/a.v10.shm"%string.
Proof. exact (proj1 versioned_path_spec "/tmp/a"%string). Defined.

Lemma fresh_region_witness : s_state (slot_ptr fresh_region 7) = SLOT_FREE.
Proof. apply (proj2 (proj2 (proj2 fresh_region_ok))). unfold SLOT_COUNT. lia. Defined.

(** An environment with a number too large and one that is no number. *)
Lemma env_witness :
  env_spin_max_iters (fun name => if String.eqb name "NTSYNC_SPIN_ITERS" then Some "4294967296"%string else None) = 0.
Proof.
  apply (proj2 (env_bounds (fun name => if String.eqb name "NTSYNC_SPIN_ITERS" then Some "4294967296"%string else None) 1 40)).
  vm_compute. reflexivity.
Defined.

(** ** Where the code goes wrong *)
(** Every slot but the reserved one was freed 2^18 times. *)
Definition old_slot : Slot := set_generation GEN_BITS_RANGE zero_slot.
Definition old_region : Region :=
  mkRegion (mkHeader MAGIC VERSION SLOT_COUNT NODE_COUNT NIL 0 1 0 0 0)
    (<[0 := ex_slot0]> (gset_to_gmap old_slot (list_to_set (seqZ 1 (SLOT_COUNT - 1))))) ∅.

Lemma old_slot_ptr i :
  slot_ptr old_region i = if decide (i = 0) then ex_slot0
                          else if decide (1 <= i < SLOT_COUNT) then old_slot else zero_slot.
Proof.
  unfold slot_ptr, old_region. cbn [slots]. destruct (decide (i = 0)) as [->|Hi].
  - by rewrite lookup_insert_eq.
  - rewrite lookup_insert_ne, lookup_gset_to_gmap by done. destruct (decide (1 <= i < SLOT_COUNT)) as [Hr|Hr].
    + rewrite option_guard_True; [done|]. rewrite elem_of_list_to_set, elem_of_seqZ. lia.
    + rewrite option_guard_False; [done|]. rewrite elem_of_list_to_set, elem_of_seqZ. lia.
Qed.

Lemma old_pool_ok : pool_ok old_region (fun _ => []) [].
Proof.
  apply no_waiters_pool_ok; [done..|]. intros i. rewrite old_slot_ptr.
  destruct (decide (i = 0)), (decide (1 <= i < SLOT_COUNT)); done.
Qed.

Lemma old_slots_ok : slots_ok old_region (fun _ => []).
Proof.
  split; intros *; rewrite ?old_slot_ptr; try done.
  - by exists 1, false.
  - intros Hi. rewrite decide_False by lia. by destruct (decide (1 <= i < SLOT_COUNT)).
  - destruct (decide (i = 0)), (decide (1 <= i < SLOT_COUNT)); auto.
Qed.

Lemma create_overflow_witness :
  wp 0 (create_of (OSem 1 1)) (fun res w' => exists h, res = Ok h /\ lookup_handle (mem w') h = None)
    (World old_region ex_local Sim.sim0).
Proof.
  apply (create_handle_overflow ex_fuel (OSem 1 1) (fun _ => []) [] (World old_region ex_local Sim.sim0)).
  - done.
  - apply old_pool_ok.
  - apply old_slots_ok.
  - done.
  - cbn. lia.
  - exists 1. cbn [mem]. rewrite old_slot_ptr. done.
  - intros i Hi. cbn [mem]. rewrite old_slot_ptr. destruct (decide (i = 0)); [done|].
    by rewrite decide_True by lia.
Defined.

Lemma timeout_arm_witness :
  run 0 (ret <- futex_wait 0 5 (Some 1000) ;; after_futex ret [1] 7 0 None 33) (ex_world (OSem 0 5)) =
  (Done 33, World (ex_region (OSem 0 5)) ex_local (Sim.with_clock 2000 Sim.sim0)).
Proof.
  apply (timeout_arm_dead 0 0 5 (Some 1000) [1] 7 0 None 33 (ex_region (OSem 0 5)) ex_local Sim.sim0 ETIMEDOUT);
    [vm_compute; reflexivity|done].
Defined.

(** ** Tables *)

(** A 40-byte mutex, as bionic has it, in a mapping at a page boundary. *)
Lemma layout_witness : HEADER_SIZE 40 = 88 /\ inside (slot_addr 4096 40 16383) 72 (4096 + 88) (16384 * 72).
Proof.
  split; [reflexivity|]. destruct (layout_sound 4096 40 ltac:(lia) eq_refl) as (_ & _ & _ & H & _).
  apply (H 16383). split; [lia|reflexivity].
Defined.

Lemma sweep_scan_witness :
  concat (chunks 10 (scan_new orphan_region) orphan_region) = plain_scan orphan_region.
Proof.
  edestruct (sweep_scan_plain (t := 0%nat) false ex_lists (World orphan_region ex_local Sim.sim0) 10) as [H _].
  - done.
  - exact orphan_slots_ok.
  - vm_compute. discriminate.
  - apply Nat.ltb_lt. vm_compute. reflexivity.
  - exact H.
Defined.

(** ** A wait that sleeps *)
(** An empty semaphore in slot 1, nobody waiting. *)
Definition calm_region : Region := race_region 3 (OSem 0 1) (OEvent false false 0).
(** A thread that has waited once since the last look at the dead. *)
Definition waiting_local : Local := set_calls 1 ex_local.

Lemma calm_pool_ok : pool_ok calm_region (fun _ => []) [].
Proof.
  assert (forall n, node_ptr calm_region n = zero_node) as Hn by done.
  split; [|done|apply NoDup_nil_2|by intros n ?%elem_of_nil].
  split; intros *; rewrite ?Hn; try done.
  - intros [|Hu]; [done|]. revert Hu. unfold slot_ptr, calm_region, race_region. cbn [slots].
    destruct (decide (i = 0)) as [->|H0]; [done|]. rewrite lookup_insert_ne by done.
    destruct (decide (i = 1)) as [->|H1]; [done|]. rewrite lookup_insert_ne by done.
    destruct (decide (i = 2)) as [->|H2]; [done|]. by rewrite lookup_singleton_ne by done.
  - by intros ?%elem_of_nil.
  - intros _. apply NoDup_nil_2.
  - by intros i n ?%elem_of_nil.
Qed.

Lemma blocked_wait_witness :
  code <$> threads (let_run 0 (let_run 1 (let_run 0
    (Pool calm_region Sim.sim0 [waiter [1] 7 false 0 waiting_local; signaler (SigRelease 1) 1 ex_local])))) =
  [Ret (Some (Signaled 0 false)); Ret None].
Proof.
  pose proof (blocked_wait_is_woken (SleepKernel0 := sim_sleep ex_pids ex_alive ex_pids_range ex_alive_i32 0 1)
    ex_fuel eq_refl [1] 7 false 0 [OSem 0 1] (fun _ => []) [] calm_region Sim.sim0 waiting_local ex_local
    (SigRelease 1) 0 1 (OSem 0 1) (OSem 1 1) (Signaled 0 false)) as HT.
  cbv zeta in HT. destruct HT as (_ & _ & _ & H & _).
  - done.
  - done.
  - done.
  - apply calm_pool_ok.
  - split; [|apply NoDup_singleton|lia|cbn; unfold MAX_WAIT_COUNT; lia].
    constructor; [|constructor]. split; [done|]. repeat split; cbn; lia.
  - by left.
  - done.
  - vm_compute. discriminate.
  - right. done.
  - done.
  - done.
  - done.
  - cbn. lia.
  - done.
  - done.
  - exact H.
Defined.

(** ** The waiter lists *)
Lemma ex_pids_alive t : ex_alive (ex_pids t) = true.
Proof.
  pose proof (Z.mod_pos_bound (Z.of_nat t) 4 ltac:(lia)). unfold ex_alive, ex_pids.
  rewrite Z.mod_small by lia. apply andb_true_iff. split; apply Z.ltb_lt; lia.
Qed.

#[local] Instance ex_lock_kernel : LockKernel Sim.sim :=
  sim_lock_kernel ex_pids ex_alive ex_pids_alive eq_refl ex_alive_i32.

Lemma calm_rest : Guard.rest calm_region.
Proof. exists (fun _ => []), []. split; [apply calm_pool_ok|done]. Qed.

(** One thread waits for the empty semaphore and closes the event, the other
    creates a semaphore, signals the first one and reads it. *)
Definition busy_threads : list (thread Region Local unit) :=
  [Thread (user [SRequest (RWaitAny [1] 8 None 0); SRequest (RClose 2)]) ex_local;
   Thread (user [SCreateSemaphore 1 5; SRequest (RSemRelease 1 1); SReadSem 1]) ex_local].
Definition busy_pool : pool Region Local Sim.sim unit := Pool calm_region Sim.sim0 busy_threads.
Definition busy_end := turns [(0, 300); (1, 40); (0, 40); (1, 300); (0, 300); (1, 300)]%nat busy_pool.

Lemma busy_users : Forall user_thread busy_threads.
Proof. repeat constructor; by eexists. Qed.

(** In the middle of it the second thread holds the lock. *)
Lemma lock_guards_witness :
  Sim.sim_lock (pker (turns [(1, 12)]%nat busy_pool)) = Some 1%nat /\
  exists L F, pool_ok (pmem (turns [(1, 12)]%nat busy_pool)) L F.
Proof.
  split; [vm_compute; reflexivity|].
  apply (lock_guards_lists calm_region Sim.sim0 busy_threads); [apply calm_rest|done|apply busy_users|apply turns_steps].
Defined.

(** At the end the node that was used is in the free list. *)
Lemma nodes_come_back_witness :
  h_node_fresh (header (pmem busy_end)) = 1 /\ Guard.rest (pmem busy_end) /\
  forall L F n, pool_ok (pmem busy_end) L F -> ~ owned (pmem busy_end) F n.
Proof.
  split; [vm_compute; reflexivity|].
  assert (Forall (fun th => code th = Ret tt) (threads busy_end)) as Hret by (vm_compute; repeat constructor).
  split.
  - apply (nodes_come_back calm_region Sim.sim0 busy_threads busy_end (fun _ => []) [] (fun _ => []) []);
      [apply calm_rest|done|apply busy_users|apply turns_steps|by intros []|exact Hret].
  - intros L F n HP Hn.
    destruct (nodes_come_back calm_region Sim.sim0 busy_threads busy_end (fun _ => []) [] L F) as (_ & _ & Hback);
      [apply calm_rest|done|apply busy_users|apply turns_steps|by intros []|exact Hret|].
    destruct (Hback calm_pool_ok HP n Hn) as [Hr _]. cbn in Hr. lia.
Defined.

(** Two threads wait for the empty semaphore, one of them for the event as
    well; a third one sets the event, resets it, and puts one unit into the
    semaphore.  One waiter gets it, and the other one sleeps on. *)
#[local] Instance ex_futex_kernel : FutexKernel Sim.sim := sim_futex_kernel ex_pids ex_alive.

Definition thirsty_calls : list (list service) :=
  [[SRequest (RWaitAny [1] 8 None 0)]; [SRequest (RWaitAny [2; 1] 9 None 0)];
   [SRequest (REventSet 2); SRequest (REventReset 2); SRequest (RSemRelease 1 1)]].
Definition thirsty_threads : list (thread Region Local unit) :=
  map (fun calls => Thread (user calls) ex_local) thirsty_calls.
Definition thirsty_end :=
  turns [(0, 200); (1, 400); (2, 13); (1, 60); (2, 400); (1, 400); (0, 400)]%nat (Pool calm_region Sim.sim0 thirsty_threads).

Lemma calm_awake : awake calm_region Sim.sim0.
Proof.
  split; [|split; [apply NoDup_nil_2|by intros t n ?%elem_of_nil]]. intros i. unfold types, headed, slot_ptr, calm_region, race_region.
  cbn [slots]. destruct (decide (i = 0)) as [->|H0]; [done|]. rewrite lookup_insert_ne by done.
  destruct (decide (i = 1)) as [->|H1]; [by left|]. rewrite lookup_insert_ne by done.
  destruct (decide (i = 2)) as [->|H2]; [by left|]. by rewrite lookup_singleton_ne by done.
Qed.

Lemma finished_returned (ths : list (thread Region Local unit)) t th :
  map finished ths !! t <> Some false -> ths !! t = Some th -> exists a, code th = Ret a.
Proof.
  intros Hf Ht. rewrite list_lookup_fmap, Ht in Hf. cbn in Hf. unfold finished in Hf. destruct (code th); try done. by eexists.
Qed.

(** The thread that sleeps at the end. *)
Lemma no_wakeup_lost_witness :
  map finished (threads thirsty_end) = [false; true; true] /\ Sim.sim_sleepers (pker thirsty_end) = [(0%nat, 0, false)] /\
  exists handles owner tmo alert, SRequest (RWaitAny handles owner tmo alert) ∈ calls_of thirsty_calls 0 /\
    forall h, h ∈ handles -> ~ available (pmem thirsty_end) (handle_index h).
Proof.
  assert (Sim.sim_sleepers (pker thirsty_end) = [(0%nat, 0, false)]) as Hsl by (vm_compute; reflexivity).
  split; [vm_compute; reflexivity|]. split; [exact Hsl|].
  apply (no_wakeup_lost calm_region Sim.sim0 thirsty_calls thirsty_threads thirsty_end) with (n := 0).
  - apply calm_rest.
  - done.
  - apply calm_awake.
  - repeat constructor; cbn; unfold u32; lia.
  - apply turns_steps.
  - by intros [].
  - assert (map finished (threads thirsty_end) = [false; true; true]) as Hf by (vm_compute; reflexivity).
    intros t th Ht. destruct t as [|t].
    + right. exists 0. change ((0%nat, 0, false) ∈ Sim.sim_sleepers (pker thirsty_end)). rewrite Hsl. left.
    + left. apply (finished_returned (threads thirsty_end) (S t)); [|exact Ht].
      rewrite Hf. by destruct t as [|[|t]].
  - change ((0%nat, 0, false) ∈ Sim.sim_sleepers (pker thirsty_end)). rewrite Hsl. left.
Defined.

(** Half a microsecond on an empty semaphore. *)
Lemma timed_wait_witness :
  wp 0 (wait [1] 7 (Some 500) false 0) (fun out w => out = Timeout /\ 1500 <= Sim.sim_clock (ker w))
    (World calm_region waiting_local Sim.sim0).
Proof.
  eapply wp_mono; [|apply (timed_wait_times_out (TimerKernel0 := sim_timer ex_pids ex_alive ex_pids_range ex_alive_i32 0)
    ex_fuel eq_refl [1] 7 500 false 0 [OSem 0 1] (fun _ => []) [])].
  - intros out w (-> & Hc & _). split; [done|exact Hc].
  - done.
  - done.
  - done.
  - apply calm_pool_ok.
  - split; [|apply NoDup_singleton|lia|cbn; unfold MAX_WAIT_COUNT; lia].
    constructor; [|constructor]. split; [done|]. repeat split; cbn; lia.
  - by left.
  - done.
  - vm_compute. discriminate.
  - by right.
Defined.

(** ** Lockers *)
(** Two lockers of the mixed load, for owners 8 and 10, at a free mutex, and a
    client for owner 9 that tries to unlock, kill and take it; the stop flag goes
    up at time 1004. *)
#[local] Instance stop_kernel : Kernel Region Sim.sim := fun t c m g =>
  match c with
  | Atomic _ AtomicLoad => Answer (if Sim.sim_clock g <? 1004 then 0 else 1) g
  | _ => ex_kernel t c m g
  end.
Definition ex_role (t : nat) : option Z := match t with 0%nat => Some 8 | 2%nat => Some 10 | _ => None end.
Definition ex_lockers : list (thread Region Local unit) :=
  [Thread (wine_locker 8 2) ex_local; rival 9; Thread (wine_locker 10 2) ex_local].
Definition ex_locked := turns [(0, 12); (1, 300)]%nat (Pool ex_contested Sim.sim0 ex_lockers).
Definition ex_unlocked := turns [(0, 12); (1, 300); (0, 300); (2, 300)]%nat (Pool ex_contested Sim.sim0 ex_lockers).

Lemma lockers_witness :
  s_w0 (slot_ptr (pmem ex_locked) 2) = pack_mutex 8 1 false /\
  code <$> threads ex_unlocked = [Ret tt; Ret tt; Ret tt] /\
  exists o n d, repr_in false (OMutex o n d) (slot_ptr (pmem ex_unlocked) 2) /\ o <> 8.
Proof.
  split; [vm_compute; reflexivity|]. split; [vm_compute; reflexivity|].
  eapply (lockers_balance ex_kinds ex_acts ex_role ex_contested Sim.sim0 ex_lockers ex_unlocked 2 0 _ 8).
  - apply ex_contested_ok.
  - intros t th Ht. assert (forall me, me = 8 + Z.of_nat t -> 0 < me < 11 -> ex_role t = Some me ->
      locking_thread ex_kinds ex_acts ex_role t (Thread (wine_locker me 2) ex_local)) as Hlk.
    { intros me E Hme Hr. split; [done|]. rewrite Hr. split; [lia|]. split; [exact E|]. split; [|apply lk_wine].
      intros (u & Hu & E'). unfold ex_acts in E'. lia. }
    destruct t as [|[|[|t]]]; [injection Ht as <-; by apply Hlk| |injection Ht as <-; by apply Hlk|done].
    injection Ht as <-. destruct (rival_clients 1%nat (rival 9) eq_refl) as (reqs & H1 & H2 & H3).
    split; [exact H3|]. by exists reqs.
  - intros t me j Hr Hj. unfold ex_kinds in Hj.
    destruct (Z.eqb_spec j 1) as [|_]; [done|]. destruct (Z.eqb_spec j 2) as [E|]; [|done].
    rewrite E. unfold depth_at. cbv zeta. change (s_w0 (slot_ptr ex_contested 2)) with 0.
    change (Z.max 0 (m_count 0)) with 0. by destruct (lo32 0 =? me).
  - apply turns_steps.
  - done.
  - vm_compute; reflexivity.
  - reflexivity.
  - done.
Defined.

Lemma reports_witness :
  from_json (to_json {[txt "shm.ops" := 18446744073709551615]}) = {[txt "shm.ops" := 18446744073709551615]} /\
  worker_handles (handles_env 1 2 3 [4; 5] [6; 4294967295]) = Some (1, 2, 3, [4; 5], [6; 4294967295]).
Proof.
  destruct reports_read_back as [H1 H2]. split.
  - apply H1. intros k v [<- <-]%lookup_singleton_Some. split; [|lia].
    unfold txt. cbn [String.list_ascii_of_string].
    repeat (constructor; [vm_compute; intuition (discriminate || lia)|]). constructor.
  - apply H2; [|done]. repeat (constructor; [unfold u32; lia|]). constructor.
Defined.
